(** * 2dbattle: the simulation loop of [src/index.tsx]

    A shallow embedding of the per-frame [loop] of the [GameCanvas]
    component, of the two loot-modal handlers and of the key listeners,
    and of the results handler of the [App] component.

    Numbers.  JavaScript numbers are modelled exactly: positions,
    velocities and health as rationals [Q]; frame counters, cooldowns,
    kill and item counts, which the program only ever moves in whole
    steps, as integers [Z].  IEEE-754 rounding is not modelled; where
    it decides a bound, for the value of a generated item, the bound
    is proved for every rounding that keeps the order and leaves
    whole numbers as they are.

    Distances.  [getDistance] takes a square root and every use
    compares the result with a positive constant, so the embedding
    keeps the squared distance and compares it with the squared
    constant.

    Randomness.  [Math.random()] reads the next cell of a tape that is
    part of the world; every call advances the cursor by one.  That
    includes the calls of the drawing code ([drawPlatform]).

    Presentation.  Canvas drawing, but for the random numbers it
    reads, and the React mirrors of the
    simulation state ([setInventory], [setPotionCount],
    [setReadingProgress], [setPromptVisible], [setExtractionTimer])
    are left out; [lootModal], which the pickup handler reads, is
    kept and is updated at once. *)

From Stdlib Require Import ZArith QArith Qround Qminmax Qabs Lqa Lia List String Bool.
From stdpp Require Import base option list gmap strings.
Import ListNotations.

Local Open Scope Z_scope.

(** ** Numeric comparisons as the program's boolean tests *)

Definition Qleb (a b : Q) : bool := Qle_bool a b.
Definition Qltb (a b : Q) : bool := negb (Qle_bool b a).

Lemma Qleb_true (a b : Q) : Qleb a b = true <-> (a <= b)%Q.
Proof. unfold Qleb. apply Qle_bool_iff. Qed.

Lemma Qleb_false (a b : Q) : Qleb a b = false <-> (b < a)%Q.
Proof.
  unfold Qleb. split; intro H.
  - apply Qnot_le_lt. intro Hle. apply Qle_bool_iff in Hle. congruence.
  - destruct (Qle_bool a b) eqn:E; [|reflexivity].
    apply Qle_bool_iff in E. lra.
Qed.

Lemma Qltb_true (a b : Q) : Qltb a b = true <-> (a < b)%Q.
Proof.
  unfold Qltb. rewrite negb_true_iff. apply (Qleb_false b a).
Qed.

Lemma Qltb_false (a b : Q) : Qltb a b = false <-> (b <= a)%Q.
Proof.
  unfold Qltb. rewrite negb_false_iff. apply (Qleb_true b a).
Qed.

(** ** Types and constants (lines 7-90 of the source) *)

Definition GRAVITY : Q := 0.5.
Definition FRICTION : Q := 0.85.
Definition JUMP_FORCE : Q := -11.
Definition FOG_GRID_SIZE : Q := 300.
Definition CANVAS_WIDTH : Q := 800.
Definition CANVAS_HEIGHT : Q := 450.

Inductive HeroType := SWORDSMAN | MAGE.
Inductive EntityType := PLAYER | MOB_SLIME | MOB_BAT | ROGUE_AGENT | CHEST.
Inductive LootRarity := COMMON | EPIC | LEGENDARY | MYTHIC.
Inductive PlatformType := DIRT | STONE | WOOD | LAVA.

#[global] Instance HeroType_eq_dec : EqDecision HeroType.
Proof. solve_decision. Defined.
#[global] Instance EntityType_eq_dec : EqDecision EntityType.
Proof. solve_decision. Defined.
#[global] Instance LootRarity_eq_dec : EqDecision LootRarity.
Proof. solve_decision. Defined.
#[global] Instance PlatformType_eq_dec : EqDecision PlatformType.
Proof. solve_decision. Defined.

Record Rect := mkRect {
  r_x : Q; r_y : Q; r_width : Q; r_height : Q
}.

Record Platform := mkPlatform {
  plat_x : Q; plat_y : Q; plat_width : Q; plat_height : Q;
  plat_type : PlatformType
}.

Record Item := mkItem {
  item_id : Q; item_name : string; item_rarity : LootRarity;
  item_value : Z; item_color : string
}.

(** The optional fields of the source ([skillCooldown?], [jumpCooldown?],
    [isOpened?]) are options: [None] is the absent field. *)
Record Entity := mkEntity {
  e_id : Q;
  e_type : EntityType;
  e_x : Q; e_y : Q; e_width : Q; e_height : Q;
  e_vx : Q; e_vy : Q;
  e_hp : Q; e_maxHp : Q;
  e_facing : Z;
  e_attackCooldown : Z;
  e_hitFlashTimer : Z;
  e_isDead : bool;
  e_color : string;
  e_skillCooldown : option Z;
  e_jumpCount : Z;
  e_isJumpKeyHeld : bool;
  e_jumpCooldown : option Z;
  e_isOpened : option bool
}.

(** The text of a floating message, one constructor per message the
    loop pushes. *)
Inductive TextMsg :=
| TxtRogueDetected | TxtDoubleJump | TxtHeal (amount : Z) | TxtMelted
| TxtPotion | TxtDamage (amount : Z) | TxtSkill (h : HeroType)
| TxtRogueHit | TxtPortal.

Record FloatingText := mkText {
  t_id : Q; t_x : Q; t_y : Q; t_text : TextMsg; t_color : string;
  t_life : Z; t_vy : Q
}.

Record RarityConfig := mkRarity { rc_color : string; rc_min : Z; rc_max : Z }.

Definition RARITY_CONFIG (r : LootRarity) : RarityConfig :=
  match r with
  | COMMON => mkRarity "#2ecc71" 1 10
  | EPIC => mkRarity "#9b59b6" 10 30
  | LEGENDARY => mkRarity "#f1c40f" 30 80
  | MYTHIC => mkRarity "#e74c3c" 200 500
  end.


(** ** The mutable session state (lines 597-619)

    [stateRef.interactionTarget] holds a reference to an element of
    [entitiesRef]; entities are only ever appended to that array, so
    the reference is modelled by the element's index. *)

Record StateRef := mkStateRef {
  time : Z;
  cameraX : Q; cameraY : Q;
  extractionActive : bool;
  extractionZone : option Rect;
  gameOver : bool;
  readingTimer : Z;
  interactionTarget : option nat;
  extractionFrameCount : Z;
  isReading : bool;
  isLootMenuOpen : bool
}.

(** Every ref of [GameCanvas], the [lootModal] state, the log of the
    calls made to the [onGameOver] prop and the random tape. *)
Record World := mkWorld {
  heroType : HeroType;
  playerRef : Entity;
  entitiesRef : list Entity;
  platformsRef : list Platform;
  textsRef : list FloatingText;
  keysRef : gmap string bool;
  killsRef : Z;
  visitedChunksRef : gset (Z * Z);
  potionRef : Z;
  inventoryRef : list Item;
  lootModal : option Item;
  stateRef : StateRef;
  gameOverCalls : list (bool * Z * Z);
  randomTape : nat -> Q;
  randomUsed : nat
}.

(** ** Field assignment *)

Definition set_e_x (v : Q) (e : Entity) : Entity :=
  mkEntity (e_id e) (e_type e) v (e_y e) (e_width e) (e_height e) (e_vx e)
    (e_vy e) (e_hp e) (e_maxHp e) (e_facing e) (e_attackCooldown e)
    (e_hitFlashTimer e) (e_isDead e) (e_color e) (e_skillCooldown e)
    (e_jumpCount e) (e_isJumpKeyHeld e) (e_jumpCooldown e) (e_isOpened e).

Definition set_e_y (v : Q) (e : Entity) : Entity :=
  mkEntity (e_id e) (e_type e) (e_x e) v (e_width e) (e_height e) (e_vx e)
    (e_vy e) (e_hp e) (e_maxHp e) (e_facing e) (e_attackCooldown e)
    (e_hitFlashTimer e) (e_isDead e) (e_color e) (e_skillCooldown e)
    (e_jumpCount e) (e_isJumpKeyHeld e) (e_jumpCooldown e) (e_isOpened e).

Definition set_e_vx (v : Q) (e : Entity) : Entity :=
  mkEntity (e_id e) (e_type e) (e_x e) (e_y e) (e_width e) (e_height e) v
    (e_vy e) (e_hp e) (e_maxHp e) (e_facing e) (e_attackCooldown e)
    (e_hitFlashTimer e) (e_isDead e) (e_color e) (e_skillCooldown e)
    (e_jumpCount e) (e_isJumpKeyHeld e) (e_jumpCooldown e) (e_isOpened e).

Definition set_e_vy (v : Q) (e : Entity) : Entity :=
  mkEntity (e_id e) (e_type e) (e_x e) (e_y e) (e_width e) (e_height e)
    (e_vx e) v (e_hp e) (e_maxHp e) (e_facing e) (e_attackCooldown e)
    (e_hitFlashTimer e) (e_isDead e) (e_color e) (e_skillCooldown e)
    (e_jumpCount e) (e_isJumpKeyHeld e) (e_jumpCooldown e) (e_isOpened e).

Definition set_e_hp (v : Q) (e : Entity) : Entity :=
  mkEntity (e_id e) (e_type e) (e_x e) (e_y e) (e_width e) (e_height e)
    (e_vx e) (e_vy e) v (e_maxHp e) (e_facing e) (e_attackCooldown e)
    (e_hitFlashTimer e) (e_isDead e) (e_color e) (e_skillCooldown e)
    (e_jumpCount e) (e_isJumpKeyHeld e) (e_jumpCooldown e) (e_isOpened e).

Definition set_e_facing (v : Z) (e : Entity) : Entity :=
  mkEntity (e_id e) (e_type e) (e_x e) (e_y e) (e_width e) (e_height e)
    (e_vx e) (e_vy e) (e_hp e) (e_maxHp e) v (e_attackCooldown e)
    (e_hitFlashTimer e) (e_isDead e) (e_color e) (e_skillCooldown e)
    (e_jumpCount e) (e_isJumpKeyHeld e) (e_jumpCooldown e) (e_isOpened e).

Definition set_e_attackCooldown (v : Z) (e : Entity) : Entity :=
  mkEntity (e_id e) (e_type e) (e_x e) (e_y e) (e_width e) (e_height e)
    (e_vx e) (e_vy e) (e_hp e) (e_maxHp e) (e_facing e) v
    (e_hitFlashTimer e) (e_isDead e) (e_color e) (e_skillCooldown e)
    (e_jumpCount e) (e_isJumpKeyHeld e) (e_jumpCooldown e) (e_isOpened e).

Definition set_e_hitFlashTimer (v : Z) (e : Entity) : Entity :=
  mkEntity (e_id e) (e_type e) (e_x e) (e_y e) (e_width e) (e_height e)
    (e_vx e) (e_vy e) (e_hp e) (e_maxHp e) (e_facing e)
    (e_attackCooldown e) v (e_isDead e) (e_color e) (e_skillCooldown e)
    (e_jumpCount e) (e_isJumpKeyHeld e) (e_jumpCooldown e) (e_isOpened e).

Definition set_e_isDead (v : bool) (e : Entity) : Entity :=
  mkEntity (e_id e) (e_type e) (e_x e) (e_y e) (e_width e) (e_height e)
    (e_vx e) (e_vy e) (e_hp e) (e_maxHp e) (e_facing e)
    (e_attackCooldown e) (e_hitFlashTimer e) v (e_color e)
    (e_skillCooldown e) (e_jumpCount e) (e_isJumpKeyHeld e)
    (e_jumpCooldown e) (e_isOpened e).

Definition set_e_skillCooldown (v : option Z) (e : Entity) : Entity :=
  mkEntity (e_id e) (e_type e) (e_x e) (e_y e) (e_width e) (e_height e)
    (e_vx e) (e_vy e) (e_hp e) (e_maxHp e) (e_facing e)
    (e_attackCooldown e) (e_hitFlashTimer e) (e_isDead e) (e_color e) v
    (e_jumpCount e) (e_isJumpKeyHeld e) (e_jumpCooldown e) (e_isOpened e).

Definition set_e_jumpCount (v : Z) (e : Entity) : Entity :=
  mkEntity (e_id e) (e_type e) (e_x e) (e_y e) (e_width e) (e_height e)
    (e_vx e) (e_vy e) (e_hp e) (e_maxHp e) (e_facing e)
    (e_attackCooldown e) (e_hitFlashTimer e) (e_isDead e) (e_color e)
    (e_skillCooldown e) v (e_isJumpKeyHeld e) (e_jumpCooldown e)
    (e_isOpened e).

Definition set_e_isJumpKeyHeld (v : bool) (e : Entity) : Entity :=
  mkEntity (e_id e) (e_type e) (e_x e) (e_y e) (e_width e) (e_height e)
    (e_vx e) (e_vy e) (e_hp e) (e_maxHp e) (e_facing e)
    (e_attackCooldown e) (e_hitFlashTimer e) (e_isDead e) (e_color e)
    (e_skillCooldown e) (e_jumpCount e) v (e_jumpCooldown e) (e_isOpened e).

Definition set_e_jumpCooldown (v : option Z) (e : Entity) : Entity :=
  mkEntity (e_id e) (e_type e) (e_x e) (e_y e) (e_width e) (e_height e)
    (e_vx e) (e_vy e) (e_hp e) (e_maxHp e) (e_facing e)
    (e_attackCooldown e) (e_hitFlashTimer e) (e_isDead e) (e_color e)
    (e_skillCooldown e) (e_jumpCount e) (e_isJumpKeyHeld e) v
    (e_isOpened e).

Definition set_e_isOpened (v : option bool) (e : Entity) : Entity :=
  mkEntity (e_id e) (e_type e) (e_x e) (e_y e) (e_width e) (e_height e)
    (e_vx e) (e_vy e) (e_hp e) (e_maxHp e) (e_facing e)
    (e_attackCooldown e) (e_hitFlashTimer e) (e_isDead e) (e_color e)
    (e_skillCooldown e) (e_jumpCount e) (e_isJumpKeyHeld e)
    (e_jumpCooldown e) v.


Definition set_time (v : Z) (s : StateRef) : StateRef :=
  mkStateRef v (cameraX s) (cameraY s) (extractionActive s)
    (extractionZone s) (gameOver s) (readingTimer s) (interactionTarget s)
    (extractionFrameCount s) (isReading s) (isLootMenuOpen s).

Definition set_cameraX (v : Q) (s : StateRef) : StateRef :=
  mkStateRef (time s) v (cameraY s) (extractionActive s) (extractionZone s)
    (gameOver s) (readingTimer s) (interactionTarget s)
    (extractionFrameCount s) (isReading s) (isLootMenuOpen s).

Definition set_cameraY (v : Q) (s : StateRef) : StateRef :=
  mkStateRef (time s) (cameraX s) v (extractionActive s) (extractionZone s)
    (gameOver s) (readingTimer s) (interactionTarget s)
    (extractionFrameCount s) (isReading s) (isLootMenuOpen s).

Definition set_extractionActive (v : bool) (s : StateRef) : StateRef :=
  mkStateRef (time s) (cameraX s) (cameraY s) v (extractionZone s)
    (gameOver s) (readingTimer s) (interactionTarget s)
    (extractionFrameCount s) (isReading s) (isLootMenuOpen s).

Definition set_extractionZone (v : option Rect) (s : StateRef) : StateRef :=
  mkStateRef (time s) (cameraX s) (cameraY s) (extractionActive s) v
    (gameOver s) (readingTimer s) (interactionTarget s)
    (extractionFrameCount s) (isReading s) (isLootMenuOpen s).

Definition set_gameOver (v : bool) (s : StateRef) : StateRef :=
  mkStateRef (time s) (cameraX s) (cameraY s) (extractionActive s)
    (extractionZone s) v (readingTimer s) (interactionTarget s)
    (extractionFrameCount s) (isReading s) (isLootMenuOpen s).

Definition set_readingTimer (v : Z) (s : StateRef) : StateRef :=
  mkStateRef (time s) (cameraX s) (cameraY s) (extractionActive s)
    (extractionZone s) (gameOver s) v (interactionTarget s)
    (extractionFrameCount s) (isReading s) (isLootMenuOpen s).

Definition set_interactionTarget (v : option nat) (s : StateRef) : StateRef :=
  mkStateRef (time s) (cameraX s) (cameraY s) (extractionActive s)
    (extractionZone s) (gameOver s) (readingTimer s) v
    (extractionFrameCount s) (isReading s) (isLootMenuOpen s).

Definition set_extractionFrameCount (v : Z) (s : StateRef) : StateRef :=
  mkStateRef (time s) (cameraX s) (cameraY s) (extractionActive s)
    (extractionZone s) (gameOver s) (readingTimer s) (interactionTarget s)
    v (isReading s) (isLootMenuOpen s).

Definition set_isReading (v : bool) (s : StateRef) : StateRef :=
  mkStateRef (time s) (cameraX s) (cameraY s) (extractionActive s)
    (extractionZone s) (gameOver s) (readingTimer s) (interactionTarget s)
    (extractionFrameCount s) v (isLootMenuOpen s).

Definition set_isLootMenuOpen (v : bool) (s : StateRef) : StateRef :=
  mkStateRef (time s) (cameraX s) (cameraY s) (extractionActive s)
    (extractionZone s) (gameOver s) (readingTimer s) (interactionTarget s)
    (extractionFrameCount s) (isReading s) v.


Definition set_playerRef (v : Entity) (w : World) : World :=
  mkWorld (heroType w) v (entitiesRef w) (platformsRef w) (textsRef w)
    (keysRef w) (killsRef w) (visitedChunksRef w) (potionRef w)
    (inventoryRef w) (lootModal w) (stateRef w) (gameOverCalls w)
    (randomTape w) (randomUsed w).

Definition set_entitiesRef (v : list Entity) (w : World) : World :=
  mkWorld (heroType w) (playerRef w) v (platformsRef w) (textsRef w)
    (keysRef w) (killsRef w) (visitedChunksRef w) (potionRef w)
    (inventoryRef w) (lootModal w) (stateRef w) (gameOverCalls w)
    (randomTape w) (randomUsed w).

Definition set_textsRef (v : list FloatingText) (w : World) : World :=
  mkWorld (heroType w) (playerRef w) (entitiesRef w) (platformsRef w) v
    (keysRef w) (killsRef w) (visitedChunksRef w) (potionRef w)
    (inventoryRef w) (lootModal w) (stateRef w) (gameOverCalls w)
    (randomTape w) (randomUsed w).

Definition set_keysRef (v : gmap string bool) (w : World) : World :=
  mkWorld (heroType w) (playerRef w) (entitiesRef w) (platformsRef w)
    (textsRef w) v (killsRef w) (visitedChunksRef w) (potionRef w)
    (inventoryRef w) (lootModal w) (stateRef w) (gameOverCalls w)
    (randomTape w) (randomUsed w).

Definition set_killsRef (v : Z) (w : World) : World :=
  mkWorld (heroType w) (playerRef w) (entitiesRef w) (platformsRef w)
    (textsRef w) (keysRef w) v (visitedChunksRef w) (potionRef w)
    (inventoryRef w) (lootModal w) (stateRef w) (gameOverCalls w)
    (randomTape w) (randomUsed w).

Definition set_visitedChunksRef (v : gset (Z * Z)) (w : World) : World :=
  mkWorld (heroType w) (playerRef w) (entitiesRef w) (platformsRef w)
    (textsRef w) (keysRef w) (killsRef w) v (potionRef w) (inventoryRef w)
    (lootModal w) (stateRef w) (gameOverCalls w) (randomTape w)
    (randomUsed w).

Definition set_potionRef (v : Z) (w : World) : World :=
  mkWorld (heroType w) (playerRef w) (entitiesRef w) (platformsRef w)
    (textsRef w) (keysRef w) (killsRef w) (visitedChunksRef w) v
    (inventoryRef w) (lootModal w) (stateRef w) (gameOverCalls w)
    (randomTape w) (randomUsed w).

Definition set_inventoryRef (v : list Item) (w : World) : World :=
  mkWorld (heroType w) (playerRef w) (entitiesRef w) (platformsRef w)
    (textsRef w) (keysRef w) (killsRef w) (visitedChunksRef w)
    (potionRef w) v (lootModal w) (stateRef w) (gameOverCalls w)
    (randomTape w) (randomUsed w).

Definition set_lootModal (v : option Item) (w : World) : World :=
  mkWorld (heroType w) (playerRef w) (entitiesRef w) (platformsRef w)
    (textsRef w) (keysRef w) (killsRef w) (visitedChunksRef w)
    (potionRef w) (inventoryRef w) v (stateRef w) (gameOverCalls w)
    (randomTape w) (randomUsed w).

Definition set_stateRef (v : StateRef) (w : World) : World :=
  mkWorld (heroType w) (playerRef w) (entitiesRef w) (platformsRef w)
    (textsRef w) (keysRef w) (killsRef w) (visitedChunksRef w)
    (potionRef w) (inventoryRef w) (lootModal w) v (gameOverCalls w)
    (randomTape w) (randomUsed w).

Definition set_gameOverCalls (v : list (bool * Z * Z)) (w : World) : World :=
  mkWorld (heroType w) (playerRef w) (entitiesRef w) (platformsRef w)
    (textsRef w) (keysRef w) (killsRef w) (visitedChunksRef w)
    (potionRef w) (inventoryRef w) (lootModal w) (stateRef w) v
    (randomTape w) (randomUsed w).

Definition set_randomUsed (v : nat) (w : World) : World :=
  mkWorld (heroType w) (playerRef w) (entitiesRef w) (platformsRef w)
    (textsRef w) (keysRef w) (killsRef w) (visitedChunksRef w)
    (potionRef w) (inventoryRef w) (lootModal w) (stateRef w)
    (gameOverCalls w) (randomTape w) v.


(** ** Helper functions (lines 94-107) *)

Definition rectOfEntity (e : Entity) : Rect :=
  mkRect (e_x e) (e_y e) (e_width e) (e_height e).

Definition rectOfPlatform (p : Platform) : Rect :=
  mkRect (plat_x p) (plat_y p) (plat_width p) (plat_height p).

Definition rectIntersect (r1 r2 : Rect) : bool :=
  negb (Qltb (r_x r1 + r_width r1) (r_x r2)
        || Qltb (r_x r2 + r_width r2) (r_x r1)
        || Qltb (r_y r1 + r_height r1) (r_y r2)
        || Qltb (r_y r2 + r_height r2) (r_y r1)).

(** The square of [getDistance e1 e2]. *)
Definition getDistanceSq (e1 e2 : Entity) : Q :=
  let dx := ((e_x e1 + e_width e1 / 2) - (e_x e2 + e_width e2 / 2))%Q in
  let dy := ((e_y e1 + e_height e1 / 2) - (e_y e2 + e_height e2 / 2))%Q in
  (dx * dx + dy * dy)%Q.

(** [getDistance e1 e2 < r] for a positive constant [r]. *)
Definition distanceBelow (e1 e2 : Entity) (r : Q) : bool :=
  Qltb (getDistanceSq e1 e2) (r * r).

Definition INVENTORY_CAP : nat := 20.

(** ** Access to the refs *)

Definition key (w : World) (code : string) : bool :=
  default false (keysRef w !! code).

Definition withPlayer (f : Entity -> Entity) (w : World) : World :=
  set_playerRef (f (playerRef w)) w.

Definition withEntity (i : nat) (f : Entity -> Entity) (w : World) : World :=
  set_entitiesRef (alter f i (entitiesRef w)) w.

Definition withStateRef (f : StateRef -> StateRef) (w : World) : World :=
  set_stateRef (f (stateRef w)) w.

Definition Math_random (w : World) : Q * World :=
  (randomTape w (randomUsed w), set_randomUsed (S (randomUsed w)) w).

(** [textsRef.current.push({id: Math.random(), x, y, text, color, life, vy})] *)
Definition pushText (x y : Q) (msg : TextMsg) (color : string) (life : Z)
    (vy : Q) (w : World) : World :=
  let '(r, w) := Math_random w in
  set_textsRef (textsRef w ++ [mkText r x y msg color life vy]) w.

Definition pushEntity (e : Entity) (w : World) : World :=
  set_entitiesRef (entitiesRef w ++ [e]) w.

(** [entitiesRef.current.forEach]: the callback runs once per index of
    the array as it is when the iteration starts. *)
Definition forEachEntity (body : nat -> World -> World) (w : World) : World :=
  fold_left (fun w i => body i w) (seq 0 (length (entitiesRef w))) w.

(** [l[z]] for a number [z]: [undefined] outside the array. *)
Definition jsIndex {A : Type} (l : list A) (z : Z) : option A :=
  if z <? 0 then None else l !! Z.to_nat z.

(** ** Map generation (lines 625-690) *)

Definition shaftLedge (y : Z) : Platform :=
  mkPlatform (if Z.rem y 400 =? 0 then -250 else 150) (inject_Z y) 120 20 STONE.

Definition generateMap : list Platform :=
  map shaftLedge [-1000; -800; -600; -400; -200; 0; 200; 400; 600; 800]
  ++ [ mkPlatform (-1500) 800 1000 60 DIRT;
       mkPlatform (-500) 800 1000 60 DIRT;
       mkPlatform 500 800 1000 60 DIRT;
       mkPlatform (-1200) (-200) 600 40 STONE;
       mkPlatform (-1200) (-600) 200 20 WOOD;
       mkPlatform (-1000) (-400) 200 20 WOOD;
       mkPlatform 800 (-200) 600 40 STONE;
       mkPlatform (-600) (-1200) 1200 60 DIRT;
       mkPlatform (-800) 1400 1600 60 STONE;
       mkPlatform (-1000) 1000 100 20 WOOD;
       mkPlatform (-800) 1200 100 20 WOOD;
       mkPlatform 800 1000 100 20 WOOD;
       mkPlatform 1000 1200 100 20 WOOD;
       mkPlatform (-800) 300 100 20 WOOD;
       mkPlatform (-800) 550 100 20 WOOD;
       mkPlatform 800 300 100 20 WOOD;
       mkPlatform 800 550 100 20 WOOD;
       mkPlatform (-2000) 820 500 20 LAVA;
       mkPlatform 1500 820 500 20 LAVA;
       mkPlatform (-200) 1450 400 20 LAVA;
       mkPlatform (-10000) 2000 20000 500 STONE;
       mkPlatform (-200) 0 400 40 DIRT ].

(** ** Loot generation and the modal handlers (lines 692-721) *)

Definition rarityName (r : LootRarity) : string :=
  match r with
  | COMMON => "COMMON" | EPIC => "EPIC"
  | LEGENDARY => "LEGENDARY" | MYTHIC => "MYTHIC"
  end.

Definition lootTypes : list string :=
  ["Coin"; "Gem"; "Chalice"; "Relic"; "Crown"; "Artifact"]%string.

Definition generateLoot (w : World) : Item * World :=
  let '(r, w) := Math_random w in
  let rarity :=
    if Qltb 0.99 r then MYTHIC
    else if Qltb 0.9 r then LEGENDARY
    else if Qltb 0.6 r then EPIC
    else COMMON in
  let config := RARITY_CONFIG rarity in
  let '(rv, w) := Math_random w in
  let value :=
    Qfloor (rv * inject_Z (rc_max config - rc_min config)
            + inject_Z (rc_min config))%Q in
  let '(rt, w) := Math_random w in
  let idx := Qfloor (rt * inject_Z (Z.of_nat (length lootTypes)))%Q in
  let name :=
    (rarityName rarity ++ " "
     ++ default "undefined" (jsIndex lootTypes idx))%string in
  let '(rid, w) := Math_random w in
  (mkItem rid name rarity value (rc_color config), w).

Definition handlePickup (w : World) : World :=
  let w :=
    match lootModal w with
    | Some item =>
        if (length (inventoryRef w) <? INVENTORY_CAP)%nat
        then set_inventoryRef (inventoryRef w ++ [item]) w
        else w
    | None => w
    end in
  let w := set_lootModal None w in
  withStateRef (set_isLootMenuOpen false) w.

Definition handleDiscard (w : World) : World :=
  let w := set_lootModal None w in
  withStateRef (set_isLootMenuOpen false) w.

(** ** The frame: exploration and spawning (lines 786-823) *)

Definition tick (w : World) : World :=
  withStateRef (fun s => set_time (time s + 1) s) w.

Definition chunkOffsets : list (Z * Z) :=
  dx ← [-1; 0; 1]; dy ← [-1; 0; 1]; [(dx, dy)].

Definition markVisited (w : World) : World :=
  let p := playerRef w in
  let gridX := Qfloor (e_x p / FOG_GRID_SIZE) in
  let gridY := Qfloor (e_y p / FOG_GRID_SIZE) in
  set_visitedChunksRef
    (foldl (fun acc d => acc ∪ {[ (gridX + d.1, gridY + d.2) ]})
           (visitedChunksRef w) chunkOffsets) w.

Definition newMob (id : Q) (ty : EntityType) (x y : Q) : Entity :=
  mkEntity id ty x y 32 32 0 0 30 30 1 0 0 false "#2ecc71"
           None 0 false None None.

Definition spawnMob (w : World) : World :=
  if (Z.rem (time (stateRef w)) 200 =? 0)
     && (length (entitiesRef w) <? 50)%nat
  then
    let p := playerRef w in
    let '(r1, w) := Math_random w in
    let spawnX := (e_x p + (if Qltb 0.5 r1 then 600 else -600))%Q in
    let '(r2, w) := Math_random w in
    let ty := if Qltb 0.7 r2 then MOB_BAT else MOB_SLIME in
    let '(r3, w) := Math_random w in
    pushEntity (newMob r3 ty spawnX (e_y p - 100)) w
  else w.

Definition isLiveRogue (e : Entity) : bool :=
  bool_decide (e_type e = ROGUE_AGENT) && negb (e_isDead e).

Definition rogueCount (l : list Entity) : nat :=
  length (List.filter isLiveRogue l).

Definition newRogue (id : Q) (x y : Q) : Entity :=
  mkEntity id ROGUE_AGENT x y 32 48 0 0 120 120 (-1) 0 0 false "#c0392b"
           None 0 false (Some 0) None.

Definition spawnRogue (w : World) : World :=
  if (Z.rem (time (stateRef w)) 1200 =? 0)
     && (rogueCount (entitiesRef w) <? 5)%nat
  then
    let p := playerRef w in
    let '(r, w) := Math_random w in
    let w := pushEntity (newRogue r (e_x p + 500) (e_y p - 100)) w in
    pushText (e_x p) (e_y p - 100) TxtRogueDetected "#e74c3c" 120 (-0.5) w
  else w.

(** ** The frame: player input (lines 826-881)

    Each step takes and returns the world together with the local
    [didMove]. *)

Definition moveForce : Q := 0.8.

Definition inputLeft (wd : World * bool) : World * bool :=
  let '(w, didMove) := wd in
  if key w "KeyA" || key w "ArrowLeft"
  then (withPlayer
          (fun p => set_e_facing (-1) (set_e_vx (e_vx p - moveForce) p)) w,
        true)
  else (w, didMove).

Definition inputRight (wd : World * bool) : World * bool :=
  let '(w, didMove) := wd in
  if key w "KeyD" || key w "ArrowRight"
  then (withPlayer
          (fun p => set_e_facing 1 (set_e_vx (e_vx p + moveForce) p)) w,
        true)
  else (w, didMove).

Definition isJumpPressed (w : World) : bool :=
  key w "Space" || key w "ArrowUp" || key w "KeyW".

Definition inputJump (wd : World * bool) : World * bool :=
  let '(w, didMove) := wd in
  if isJumpPressed w then
    if negb (e_isJumpKeyHeld (playerRef w)) then
      let '(w, didMove) :=
        if e_jumpCount (playerRef w) <? 2 then
          let w :=
            withPlayer
              (fun p => set_e_jumpCount (e_jumpCount p + 1)
                          (set_e_vy JUMP_FORCE p)) w in
          let p := playerRef w in
          let w :=
            if e_jumpCount p =? 2
            then pushText (e_x p) (e_y p + e_height p) TxtDoubleJump
                          "#fff" 20 0 w
            else w in
          (w, true)
        else (w, didMove) in
      (withPlayer (set_e_isJumpKeyHeld true) w, didMove)
    else (w, didMove)
  else (withPlayer (set_e_isJumpKeyHeld false) w, didMove).

Definition inputPotion (wd : World * bool) : World * bool :=
  let '(w, didMove) := wd in
  let p := playerRef w in
  if key w "Digit1" && (0 <? potionRef w) && Qltb (e_hp p) (e_maxHp p) then
    let w := set_potionRef (potionRef w - 1) w in
    let healAmount := Qfloor (e_maxHp p * 0.3) in
    let w :=
      withPlayer
        (fun p => set_e_hp (Qmin (e_hp p + inject_Z healAmount) (e_maxHp p)) p)
        w in
    let w := pushText (e_x p) (e_y p - 20) (TxtHeal healAmount)
                      "#2ecc71" 40 (-1) w in
    (set_keysRef (<["Digit1" := false]> (keysRef w)) w, didMove)
  else (w, didMove).

(** The predicate of the [find] of line 869. *)
Definition isSearchable (p e : Entity) : bool :=
  bool_decide (e_type e = CHEST)
  && negb (e_isDead e)
  && negb (default false (e_isOpened e))
  && distanceBelow p e 100.

Definition findChest (w : World) : option nat :=
  fst <$> list_find (fun e => isSearchable (playerRef w) e = true)
                    (entitiesRef w).

Definition inputSearch (wd : World * bool) : World :=
  let '(w, didMove) := wd in
  let chest := findChest w in
  let w := withStateRef (set_interactionTarget chest) w in
  let w :=
    if isReading (stateRef w) && didMove
    then withStateRef (fun s => set_readingTimer 0 (set_isReading false s)) w
    else w in
  if key w "KeyH" && bool_decide (is_Some chest)
     && negb (isReading (stateRef w))
  then withStateRef (set_isReading true) w
  else w.

Definition playerInput (w : World) : World :=
  if isLootMenuOpen (stateRef w) then w
  else inputSearch
         (inputPotion (inputJump (inputRight (inputLeft (w, false))))).

(** ** The frame: player physics and collision (lines 883-910) *)

Definition integratePlayer (w : World) : World :=
  let w := withPlayer (fun p => set_e_vx (e_vx p * FRICTION) p) w in
  let w := withPlayer (fun p => set_e_vy (e_vy p + GRAVITY) p) w in
  let w := withPlayer (fun p => set_e_x (e_x p + e_vx p) p) w in
  withPlayer (fun p => set_e_y (e_y p + e_vy p) p) w.

(** The test of the support-snap branch of line 900. *)
Definition playerSnaps (p : Entity) (plat : Platform) : bool :=
  let overlapY := ((e_y p + e_height p) - plat_y plat)%Q in
  Qleb 0 (e_vy p) && Qleb overlapY 20 && Qleb 0 overlapY.

(** The test of the ceiling branch of line 905. *)
Definition playerHitsCeiling (p : Entity) (plat : Platform) : bool :=
  Qltb (e_vy p) 0
  && Qltb (e_y p) (plat_y plat + plat_height plat)
  && Qltb (plat_y plat) (e_y p).

(** The callback of [platformsRef.current.forEach], with the local
    [onGround] it assigns. *)
Definition playerCollidePlatform (wg : World * bool) (plat : Platform)
    : World * bool :=
  let '(w, onGround) := wg in
  let p := playerRef w in
  if rectIntersect (rectOfEntity p) (rectOfPlatform plat) then
    if bool_decide (plat_type plat = LAVA) then
      let w := withPlayer (set_e_hp 0) w in
      (pushText (e_x p) (e_y p - 50) TxtMelted "#e74c3c" 60 (-1) w, onGround)
    else if playerSnaps p plat then
      (withPlayer
         (fun p => set_e_jumpCount 0
                     (set_e_vy 0 (set_e_y (plat_y plat - e_height p) p))) w,
       true)
    else if playerHitsCeiling p plat then
      (withPlayer
         (fun p => set_e_vy 0 (set_e_y (plat_y plat + plat_height plat) p)) w,
       onGround)
    else (w, onGround)
  else (w, onGround).

Definition playerCollisionOn (plats : list Platform) (wg : World * bool)
    : World * bool :=
  fold_left playerCollidePlatform plats wg.

Definition playerCollision (w : World) : World * bool :=
  playerCollisionOn (platformsRef w) (w, false).

(** ** The frame: reading logic (lines 913-938) *)

Definition openChest (i : nat) (w : World) : World :=
  let p := playerRef w in
  let w := withEntity i (set_e_isOpened (Some true)) w in
  let w :=
    withStateRef
      (fun s => set_readingTimer 0
                  (set_isReading false (set_isLootMenuOpen true s))) w in
  let '(item, w) := generateLoot w in
  let w := set_lootModal (Some item) w in
  let '(r, w) := Math_random w in
  if Qltb r 0.4 then
    let w := set_potionRef (potionRef w + 1) w in
    pushText (e_x p) (e_y p - 60) TxtPotion "#e74c3c" 60 (-0.5) w
  else w.

Definition readingLogic (w : World) : World :=
  match interactionTarget (stateRef w) with
  | Some i =>
      if isReading (stateRef w) then
        let w :=
          withStateRef (fun s => set_readingTimer (readingTimer s + 1) s) w in
        if 90 <=? readingTimer (stateRef w) then openChest i w else w
      else w
  | None => w
  end.

(** ** The frame: combat (lines 941-1012) *)

Definition isHostile (e : Entity) : bool :=
  bool_decide (e_type e = MOB_SLIME)
  || bool_decide (e_type e = MOB_BAT)
  || bool_decide (e_type e = ROGUE_AGENT).

(** The kill bookkeeping that follows each damage application. *)
Definition countKill (i : nat) (w : World) : World :=
  match entitiesRef w !! i with
  | Some e =>
      if Qleb (e_hp e) 0 && bool_decide (e_type e = ROGUE_AGENT)
      then set_killsRef (killsRef w + 1) w
      else w
  | None => w
  end.

Definition attackHit (hitBox : Rect) (kDir : Z) (i : nat) (w : World)
    : World :=
  match entitiesRef w !! i with
  | Some e =>
      if isHostile e && negb (e_isDead e)
         && rectIntersect hitBox (rectOfEntity e)
      then
        let w :=
          withEntity i
            (fun e => set_e_vy (-6)
                        (set_e_vx (inject_Z kDir * 15)
                           (set_e_hitFlashTimer 5
                              (set_e_hp (e_hp e - 20) e)))) w in
        let w := pushText (e_x e) (e_y e) (TxtDamage 20) "#fff" 30 (-2) w in
        countKill i w
      else w
  | None => w
  end.

Definition basicAttack (w : World) : World :=
  let p := playerRef w in
  if key w "KeyJ" && (e_attackCooldown p <=? 0) then
    let w := withPlayer (set_e_attackCooldown 20) w in
    let reach := 120%Q in
    let hitBox :=
      mkRect (if e_facing p =? 1 then e_x p + e_width p else e_x p - reach)
             (e_y p - 10) reach (e_height p + 20) in
    forEachEntity (attackHit hitBox (e_facing p)) w
  else w.

Definition whirlwindHit (i : nat) (w : World) : World :=
  let p := playerRef w in
  match entitiesRef w !! i with
  | Some e =>
      if isHostile e && negb (e_isDead e) && distanceBelow p e 150 then
        let w :=
          withEntity i
            (fun e => set_e_vy (-10)
                        (set_e_vx ((if Qltb 0 (e_x e - e_x p) then 1 else -1)
                                   * 20)
                           (set_e_hitFlashTimer 10
                              (set_e_hp (e_hp e - 40) e)))) w in
        let w := pushText (e_x e) (e_y e) (TxtDamage 40) "#f1c40f" 40 (-2) w in
        countKill i w
      else w
  | None => w
  end.

Definition meteorHit (targetX : Q) (i : nat) (w : World) : World :=
  let p := playerRef w in
  match entitiesRef w !! i with
  | Some e =>
      let distSq :=
        ((e_x e - targetX) * (e_x e - targetX)
         + (e_y e - e_y p) * (e_y e - e_y p))%Q in
      if isHostile e && negb (e_isDead e) && Qltb distSq (120 * 120) then
        let w :=
          withEntity i
            (fun e => set_e_vy (-12)
                        (set_e_hitFlashTimer 10
                           (set_e_hp (e_hp e - 60) e))) w in
        let w := pushText (e_x e) (e_y e) (TxtDamage 60) "#9b59b6" 40 (-2) w in
        countKill i w
      else w
  | None => w
  end.

Definition skill (w : World) : World :=
  let p := playerRef w in
  if key w "KeyK" && (default 0 (e_skillCooldown p) <=? 0) then
    let w := withPlayer (set_e_skillCooldown (Some 180)) w in
    let w := pushText (e_x p) (e_y p - 50) (TxtSkill (heroType w))
                      "#f1c40f" 50 (-1) w in
    match heroType w with
    | SWORDSMAN => forEachEntity whirlwindHit w
    | MAGE =>
        let targetX := (e_x p + inject_Z (e_facing p) * 250)%Q in
        forEachEntity (meteorHit targetX) w
    end
  else w.

Definition combat (w : World) : World :=
  if isLootMenuOpen (stateRef w) then w else skill (basicAttack w).

Definition decrementPositive (n : Z) : Z := if 0 <? n then n - 1 else n.

(** [if (x && x > 0) x--] on an optional field. *)
Definition decrementOptional (o : option Z) : option Z :=
  match o with
  | Some n => Some (decrementPositive n)
  | None => None
  end.

Definition playerCooldowns (w : World) : World :=
  withPlayer
    (fun p =>
       set_e_skillCooldown (decrementOptional (e_skillCooldown p))
         (set_e_hitFlashTimer (decrementPositive (e_hitFlashTimer p))
            (set_e_attackCooldown (decrementPositive (e_attackCooldown p)) p)))
    w.

(** ** The frame: the entity loop (lines 1015-1098)

    The callback works on the array element [e]; the embedding reads
    the element, runs the body on the local copy and stores it back,
    the body reading no other element of the array. *)

Definition integrateEntity (e : Entity) : Entity :=
  let e :=
    if bool_decide (e_type e = MOB_BAT) then e
    else set_e_vy (e_vy e + GRAVITY) e in
  let e := set_e_x (e_x e + e_vx e) e in
  let e := set_e_y (e_y e + e_vy e) e in
  set_e_vx (e_vx e * FRICTION) e.

(** The test of the support-snap branch of line 1028. *)
Definition entitySnaps (e : Entity) (plat : Platform) : bool :=
  Qltb 0 (e_vy e) && Qleb ((e_y e + e_height e) - plat_y plat) 20.

Definition entityCollidePlatform (eg : Entity * bool) (plat : Platform)
    : Entity * bool :=
  let '(e, entityOnGround) := eg in
  if rectIntersect (rectOfEntity e) (rectOfPlatform plat) then
    if bool_decide (plat_type plat = LAVA) then
      (if bool_decide (e_type e = MOB_BAT) then e else set_e_hp 0 e,
       entityOnGround)
    else if entitySnaps e plat then
      (set_e_vy 0 (set_e_y (plat_y plat - e_height e) e), true)
    else (e, entityOnGround)
  else (e, entityOnGround).

Definition entityCollisionOn (plats : list Platform) (eg : Entity * bool)
    : Entity * bool :=
  fold_left entityCollidePlatform plats eg.

Definition entityTimers (e : Entity) : Entity :=
  set_e_jumpCooldown (decrementOptional (e_jumpCooldown e))
    (set_e_hitFlashTimer (decrementPositive (e_hitFlashTimer e)) e).

Definition towards (b : bool) : Z := if b then 1 else -1.

Definition rogueJump (entityOnGround : bool) (dx dy : Q) (e : Entity)
    : Entity :=
  if (default 0 (e_jumpCooldown e) <=? 0) && entityOnGround then
    if Qltb dy (-60) then
      set_e_jumpCooldown (Some 60) (set_e_vy JUMP_FORCE e)
    else if Qltb (Qabs (e_vx e)) 1 && Qltb 30 (Qabs dx) then
      set_e_jumpCooldown (Some 60) (set_e_vy JUMP_FORCE e)
    else e
  else e.

Definition rogueStrike (distSq : Q) (ew : Entity * World) : Entity * World :=
  let '(e, w) := ew in
  if Qltb distSq (60 * 60) && (e_attackCooldown e <=? 0) then
    let e := set_e_attackCooldown 45 e in
    let w :=
      withPlayer
        (fun p => set_e_vx (inject_Z (towards (Qltb (e_x e) (e_x p))) * 10)
                    (set_e_hitFlashTimer 5 (set_e_hp (e_hp p - 6) p))) w in
    let p := playerRef w in
    (e, pushText (e_x p) (e_y p) TxtRogueHit "#e74c3c" 40 (-1) w)
  else (e, w).

Definition rogueAI (entityOnGround : bool) (distSq dx dy : Q)
    (ew : Entity * World) : Entity * World :=
  let '(e, w) := ew in
  let retreat := (0 <? e_attackCooldown e) && Qltb distSq (120 * 120) in
  let dir := towards (Qltb 0 dx) * (if retreat then -1 else 1) in
  let moveSpeed := (if retreat then 0.3 else 0.5)%Q in
  let e := set_e_vx (e_vx e + inject_Z dir * moveSpeed) e in
  let e := if Qltb 2.5 (e_vx e) then set_e_vx 2.5 e else e in
  let e := if Qltb (e_vx e) (-2.5) then set_e_vx (-2.5) e else e in
  let e := set_e_facing (towards (Qltb 0 dx)) e in
  let e := rogueJump entityOnGround dx dy e in
  rogueStrike distSq (e, w).

Definition slimeAI (distSq dx : Q) (ew : Entity * World) : Entity * World :=
  let '(e, w) := ew in
  let dir := towards (Qltb 0 dx) in
  let e := set_e_vx (e_vx e + inject_Z dir * 0.2) e in
  let e := set_e_facing dir e in
  if Qltb distSq (40 * 40)
     && rectIntersect (rectOfEntity e) (rectOfEntity (playerRef w))
  then (e, withPlayer (fun p => set_e_hp (e_hp p - 0.2) p) w)
  else (e, w).

Definition batAI (dx dy : Q) (e : Entity) : Entity :=
  let dir := towards (Qltb 0 dx) in
  let e := set_e_vx (e_vx e + inject_Z dir * 0.3) e in
  let e := set_e_vy (e_vy e + inject_Z (towards (Qltb 0 dy)) * 0.1) e in
  set_e_vy (e_vy e * 0.9) e.

Definition entityAI (entityOnGround : bool) (ew : Entity * World)
    : Entity * World :=
  let '(e, w) := ew in
  let p := playerRef w in
  let distSq := getDistanceSq e p in
  if Qltb distSq (800 * 800) then
    let dx := (e_x p - e_x e)%Q in
    let dy := (e_y p - e_y e)%Q in
    match e_type e with
    | ROGUE_AGENT => rogueAI entityOnGround distSq dx dy (e, w)
    | MOB_SLIME => slimeAI distSq dx (e, w)
    | MOB_BAT => (batAI dx dy e, w)
    | _ => (e, w)
    end
  else (e, w).

Definition entityFinish (e : Entity) : Entity :=
  let e := set_e_attackCooldown (decrementPositive (e_attackCooldown e)) e in
  if Qleb (e_hp e) 0 then set_e_isDead true e else e.

Definition entityBody (e : Entity) (w : World) : Entity * World :=
  let e := integrateEntity e in
  let '(e, entityOnGround) := entityCollisionOn (platformsRef w) (e, false) in
  let e := entityTimers e in
  let '(e, w) := entityAI entityOnGround (e, w) in
  (entityFinish e, w).

Definition entityStep (i : nat) (w : World) : World :=
  match entitiesRef w !! i with
  | Some e =>
      if e_isDead e || bool_decide (e_type e = CHEST) then w
      else
        let '(e, w) := entityBody e w in
        withEntity i (fun _ => e) w
  | None => w
  end.

Definition entityLoop (w : World) : World := forEachEntity entityStep w.

(** ** The frame: game end and extraction (lines 1100-1139) *)

Definition onGameOver (isWin : bool) (lootValue kills : Z) (w : World)
    : World :=
  set_gameOverCalls (gameOverCalls w ++ [(isWin, lootValue, kills)]) w.

Definition gameEnd (w : World) : World :=
  if Qleb (e_hp (playerRef w)) 0 then
    let w := withStateRef (set_gameOver true) w in
    onGameOver false 0 (killsRef w) w
  else w.

(** How a statement list ends: normally, or by a thrown [TypeError]
    (reading a field of [undefined]). *)
Inductive Completion :=
| Normal (w : World)
| Thrown (w : World).

Definition isExtractionPlatform (plat : Platform) : bool :=
  negb (bool_decide (plat_type plat = LAVA))
  && negb (bool_decide (plat_type plat = WOOD)).

Definition extractionZoneOver (targetPlat : Platform) : Rect :=
  mkRect (plat_x targetPlat + plat_width targetPlat / 2 - 40)
         (plat_y targetPlat - 100) 80 100.

Definition openExtraction (w : World) : Completion :=
  if time (stateRef w) =? 1800 then
    let w := withStateRef (set_extractionActive true) w in
    let validPlats := List.filter isExtractionPlatform (platformsRef w) in
    let '(r, w) := Math_random w in
    let idx := Qfloor (r * inject_Z (Z.of_nat (length validPlats)))%Q in
    match jsIndex validPlats idx with
    | Some targetPlat =>
        let w :=
          withStateRef
            (set_extractionZone (Some (extractionZoneOver targetPlat))) w in
        let p := playerRef w in
        Normal (pushText (e_x p) (e_y p - 150) TxtPortal "#9b59b6" 300 0 w)
    | None => Thrown w
    end
  else Normal w.

Definition inventoryTotal (items : list Item) : Z :=
  fold_left (fun a b => a + item_value b) items 0.

Definition extractionDwell (w : World) : World :=
  match extractionZone (stateRef w) with
  | Some zone =>
      if extractionActive (stateRef w) then
        if rectIntersect (rectOfEntity (playerRef w)) zone then
          let w :=
            withStateRef
              (fun s => set_extractionFrameCount (extractionFrameCount s + 1) s)
              w in
          if 180 <? extractionFrameCount (stateRef w) then
            let w := withStateRef (set_gameOver true) w in
            let total := inventoryTotal (inventoryRef w) in
            onGameOver true total (killsRef w) w
          else w
        else withStateRef (set_extractionFrameCount 0) w
      else w
  | None => w
  end.

(** ** The frame: what the drawing section writes (lines 1145-1227) *)

Definition ageText (t : FloatingText) : FloatingText :=
  mkText (t_id t) (t_x t) (t_y t + t_vy t) (t_text t) (t_color t)
         (t_life t - 1) (t_vy t).

(** [drawPlatform] (lines 111-171) writes nothing of the simulation
    state, but for a lava platform it reads [Math.random] (lines
    134-137): one number for the test, and two more, the place of the
    bubble, when the test passes.  The canvas calls are left out. *)

Definition drawPlatform (w : World) (p : Platform) : World :=
  if bool_decide (plat_type p = LAVA) then
    let '(r, w) := Math_random w in
    if Qltb 0.9 r then
      let '(_, w) := Math_random w in
      let '(_, w) := Math_random w in
      w
    else w
  else w.

Definition drawPlatforms (w : World) : World :=
  fold_left drawPlatform (platformsRef w) w.

Definition render (w : World) : World :=
  let p := playerRef w in
  let targetCamX := (e_x p - CANVAS_WIDTH / 2)%Q in
  let targetCamY := (e_y p - CANVAS_HEIGHT / 2)%Q in
  let w :=
    withStateRef
      (fun s => set_cameraX (cameraX s + (targetCamX - cameraX s) * 0.1) s) w in
  let w :=
    withStateRef
      (fun s => set_cameraY (cameraY s + (targetCamY - cameraY s) * 0.1) s) w in
  let w := drawPlatforms w in
  set_textsRef
    (List.filter (fun t => 0 <? t_life t) (map ageText (textsRef w))) w.

(** ** The frame (lines 780-1235)

    [loop] returns the world and whether the frame reached
    [requestAnimationFrame(loop)], that is, whether a next frame is
    scheduled. *)

Definition simulate (w : World) : World :=
  let w := tick w in
  let w := markVisited w in
  let w := spawnMob w in
  let w := spawnRogue w in
  let w := playerInput w in
  let w := integratePlayer w in
  let w := fst (playerCollision w) in
  let w := readingLogic w in
  let w := combat w in
  let w := playerCooldowns w in
  let w := entityLoop w in
  gameEnd w.

Definition loop (w : World) : World * bool :=
  if gameOver (stateRef w) then (w, false)
  else
    match openExtraction (simulate w) with
    | Thrown w => (w, false)
    | Normal w => (render (extractionDwell w), true)
    end.

(** ** Session start and the key listeners (lines 724-776) *)

Definition PLAYER_COLOR (h : HeroType) : string :=
  match h with SWORDSMAN => "#3498db" | MAGE => "#9b59b6" end.

Definition newPlayer (h : HeroType) : Entity :=
  mkEntity 0 PLAYER 0 (-100) 32 48 0 0 100 100 1 0 0 false (PLAYER_COLOR h)
           (Some 0) 0 false None None.

Definition newChest (id : Q) (p : Platform) : Entity :=
  mkEntity id CHEST (plat_x p + plat_width p / 2 - 16) (plat_y p - 32) 32 32
           0 0 1 1 1 0 0 false "gold" None 0 false None (Some false).

Definition spawnChest (w : World) (p : Platform) : World :=
  if isExtractionPlatform p then
    let '(r, w) := Math_random w in
    if Qltb 0.2 r then
      let '(id, w) := Math_random w in
      pushEntity (newChest id p) w
    else w
  else w.

Definition initialStateRef : StateRef :=
  mkStateRef 0 0 0 false None false 0 None 0 false false.

Definition initWorld (h : HeroType) (tape : nat -> Q) : World :=
  fold_left spawnChest generateMap
    (mkWorld h (newPlayer h) [] generateMap [] ∅ 0 ∅ 0 [] None
             initialStateRef [] tape 0).

Definition handleKeyDown (code : string) (w : World) : World :=
  set_keysRef (<[code := true]> (keysRef w)) w.

Definition handleKeyUp (code : string) (w : World) : World :=
  set_keysRef (<[code := false]> (keysRef w)) w.

Definition handleModalKeys (code : string) (w : World) : World :=
  match lootModal w with
  | Some _ =>
      let w := if bool_decide (code = "KeyJ") then handlePickup w else w in
      if bool_decide (code = "KeyK") then handleDiscard w else w
  | None => w
  end.

(** What can happen to a running session: an animation frame, or a
    key going down or up. *)
Inductive Event :=
| Frame
| KeyDown (code : string)
| KeyUp (code : string).

(** A session is the world and whether a frame is scheduled. *)
Definition Session : Type := World * bool.

Definition startSession (h : HeroType) (tape : nat -> Q) : Session :=
  (initWorld h tape, true).

Definition step (ev : Event) (s : Session) : Session :=
  match ev with
  | Frame => if s.2 then loop s.1 else s
  | KeyDown code => (handleKeyDown code (handleModalKeys code s.1), s.2)
  | KeyUp code => (handleKeyUp code s.1, s.2)
  end.

Definition run (evs : list Event) (s : Session) : Session :=
  fold_left (fun s ev => step ev s) evs s.

Inductive reachable : Session -> Prop :=
| reachable_start h tape : reachable (startSession h tape)
| reachable_step ev s : reachable s -> reachable (step ev s).

(** * Properties *)

(** ** Reading a field after an assignment

    Field reads of the access functions reduce by computation; the
    lemmas below are the ones used as rewrite rules. *)

Lemma stateRef_withPlayer f w : stateRef (withPlayer f w) = stateRef w.
Proof. reflexivity. Qed.

Lemma stateRef_withEntity i f w : stateRef (withEntity i f w) = stateRef w.
Proof. reflexivity. Qed.

Lemma stateRef_pushText x y m c l v w :
  stateRef (pushText x y m c l v w) = stateRef w.
Proof. reflexivity. Qed.

Lemma playerRef_pushText x y m c l v w :
  playerRef (pushText x y m c l v w) = playerRef w.
Proof. reflexivity. Qed.

Lemma entitiesRef_pushText x y m c l v w :
  entitiesRef (pushText x y m c l v w) = entitiesRef w.
Proof. reflexivity. Qed.

(** ** Loot modal (lines 709-721) *)

(** C9.  Accepting an item appends it to the inventory when the
    inventory holds fewer than 20 items and leaves the inventory as it
    is when it holds 20 or more; accepting and discarding both clear
    the modal and the loot-menu-open flag, and discarding leaves the
    inventory as it is. *)
Theorem handlePickup_capped_and_modal_closes (w : World) :
  INVENTORY_CAP = 20%nat
  /\ (forall item,
        lootModal w = Some item ->
        (length (inventoryRef w) < INVENTORY_CAP)%nat ->
        inventoryRef (handlePickup w) = inventoryRef w ++ [item])
  /\ ((INVENTORY_CAP <= length (inventoryRef w))%nat ->
      inventoryRef (handlePickup w) = inventoryRef w)
  /\ isLootMenuOpen (stateRef (handlePickup w)) = false
  /\ lootModal (handlePickup w) = None
  /\ inventoryRef (handleDiscard w) = inventoryRef w
  /\ isLootMenuOpen (stateRef (handleDiscard w)) = false
  /\ lootModal (handleDiscard w) = None.
Proof.
  split; [reflexivity|].
  split.
  { intros item Hm Hlen. unfold handlePickup. rewrite Hm.
    apply Nat.ltb_lt in Hlen. rewrite Hlen. reflexivity. }
  split.
  { intros Hfull. unfold handlePickup.
    destruct (lootModal w) as [item|]; [|reflexivity].
    apply Nat.ltb_ge in Hfull. rewrite Hfull. reflexivity. }
  unfold handlePickup, handleDiscard.
  destruct (lootModal w) as [item|];
    [destruct (length (inventoryRef w) <? INVENTORY_CAP)%nat|];
    repeat split; reflexivity.
Qed.

(** ** Case analysis on the program's tests *)

Ltac split_ifs :=
  repeat match goal with
         | |- context [if ?b then _ else _] => destruct b eqn:?; simpl
         | |- context [match ?o with Some _ => _ | None => _ end] =>
             destruct o eqn:?; simpl
         end.

(** ** Integration order (lines 883-886 and 1015-1021) *)

Lemma entityCollisionOn_cons plat plats eg :
  entityCollisionOn (plat :: plats) eg
  = entityCollisionOn plats (entityCollidePlatform eg plat).
Proof. reflexivity. Qed.

Lemma playerCollisionOn_cons plat plats wg :
  playerCollisionOn (plat :: plats) wg
  = playerCollisionOn plats (playerCollidePlatform wg plat).
Proof. reflexivity. Qed.

(** A relation between an entity before and after that every platform
    callback respects is respected by the whole pass. *)
Lemma entityCollisionOn_preserves (R : Entity -> Entity -> Prop) :
  (forall e, R e e) ->
  (forall e1 e2 e3, R e1 e2 -> R e2 e3 -> R e1 e3) ->
  (forall e g plat, R e (entityCollidePlatform (e, g) plat).1) ->
  forall plats e g, R e (entityCollisionOn plats (e, g)).1.
Proof.
  intros Hrefl Htrans Hstep plats.
  induction plats as [|plat plats IH]; intros e g.
  - apply Hrefl.
  - rewrite entityCollisionOn_cons.
    destruct (entityCollidePlatform (e, g) plat) as [e' g'] eqn:Hs.
    apply Htrans with e'; [|apply IH].
    change e' with (e', g').1. rewrite <- Hs. apply Hstep.
Qed.

Lemma entityCollisionOn_keeps_x plats e g :
  e_x (entityCollisionOn plats (e, g)).1 = e_x e
  /\ e_vx (entityCollisionOn plats (e, g)).1 = e_vx e.
Proof.
  apply (entityCollisionOn_preserves
           (fun e e' => e_x e' = e_x e /\ e_vx e' = e_vx e)).
  - intros; split; reflexivity.
  - intros e1 e2 e3 [H1 H2] [H3 H4]. split; congruence.
  - intros e0 g0 plat. unfold entityCollidePlatform.
    split_ifs; split; reflexivity.
Qed.

(** What the AI never writes on the entity it drives: its position,
    size, health, kind and the dead and opened flags. *)
Definition sameIdentity (e e' : Entity) : Prop :=
  e_x e' = e_x e /\ e_y e' = e_y e /\ e_hp e' = e_hp e
  /\ e_type e' = e_type e /\ e_isDead e' = e_isDead e
  /\ e_isOpened e' = e_isOpened e
  /\ e_width e' = e_width e /\ e_height e' = e_height e.

Lemma sameIdentity_refl e : sameIdentity e e.
Proof. repeat split. Qed.

Lemma sameIdentity_trans e1 e2 e3 :
  sameIdentity e1 e2 -> sameIdentity e2 e3 -> sameIdentity e1 e3.
Proof.
  unfold sameIdentity. intros (?&?&?&?&?&?&?&?) (?&?&?&?&?&?&?&?).
  repeat split; congruence.
Qed.

(** What the AI leaves of the world: everything but the player's
    health, flash timer and horizontal velocity, the messages and the
    tape cursor; the player's health never rises. *)
Definition aiLeaves (w w' : World) : Prop :=
  entitiesRef w' = entitiesRef w /\ stateRef w' = stateRef w
  /\ platformsRef w' = platformsRef w /\ killsRef w' = killsRef w
  /\ inventoryRef w' = inventoryRef w
  /\ gameOverCalls w' = gameOverCalls w
  /\ lootModal w' = lootModal w /\ keysRef w' = keysRef w
  /\ e_x (playerRef w') = e_x (playerRef w)
  /\ e_y (playerRef w') = e_y (playerRef w)
  /\ e_vy (playerRef w') = e_vy (playerRef w)
  /\ e_width (playerRef w') = e_width (playerRef w)
  /\ e_height (playerRef w') = e_height (playerRef w)
  /\ e_jumpCount (playerRef w') = e_jumpCount (playerRef w)
  /\ e_isJumpKeyHeld (playerRef w') = e_isJumpKeyHeld (playerRef w)
  /\ heroType w' = heroType w
  /\ (e_hp (playerRef w') <= e_hp (playerRef w))%Q.

Lemma aiLeaves_refl w : aiLeaves w w.
Proof. unfold aiLeaves. repeat split; lra. Qed.

Lemma rogueJump_identity g dx dy e : sameIdentity e (rogueJump g dx dy e).
Proof. unfold rogueJump. split_ifs; repeat split. Qed.

Lemma rogueStrike_frame d e w :
  sameIdentity e (rogueStrike d (e, w)).1
  /\ aiLeaves w (rogueStrike d (e, w)).2.
Proof.
  unfold rogueStrike.
  destruct (Qltb d (60 * 60) && (e_attackCooldown e <=? 0)); simpl.
  - split; [repeat split|]. unfold aiLeaves. simpl. repeat split; lra.
  - split; [apply sameIdentity_refl|apply aiLeaves_refl].
Qed.

Lemma rogueAI_frame g d dx dy e w :
  sameIdentity e (rogueAI g d dx dy (e, w)).1
  /\ aiLeaves w (rogueAI g d dx dy (e, w)).2.
Proof.
  unfold rogueAI.
  match goal with
  | |- context [rogueStrike d (?e', w)] =>
      destruct (rogueStrike_frame d e' w) as [He Hw];
      assert (H0 : sameIdentity e e')
  end.
  { eapply sameIdentity_trans; [|apply rogueJump_identity].
    split_ifs; repeat split. }
  split; [eapply sameIdentity_trans; eassumption|exact Hw].
Qed.

Lemma slimeAI_frame d dx e w :
  sameIdentity e (slimeAI d dx (e, w)).1
  /\ aiLeaves w (slimeAI d dx (e, w)).2.
Proof.
  unfold slimeAI.
  match goal with
  | |- context [if ?b then _ else _] => destruct b
  end; simpl.
  - split; [repeat split|]. unfold aiLeaves. simpl. repeat split; lra.
  - split; [repeat split|apply aiLeaves_refl].
Qed.

Lemma entityAI_frame g e w :
  sameIdentity e (entityAI g (e, w)).1
  /\ aiLeaves w (entityAI g (e, w)).2.
Proof.
  unfold entityAI.
  destruct (Qltb (getDistanceSq e (playerRef w)) (800 * 800));
    [|split; [apply sameIdentity_refl|apply aiLeaves_refl]].
  destruct (e_type e) eqn:Ht;
    try (split; [apply sameIdentity_refl|apply aiLeaves_refl]).
  - apply slimeAI_frame.
  - split; [repeat split|apply aiLeaves_refl].
  - apply rogueAI_frame.
Qed.

Lemma entityAI_keeps_x g e w :
  e_x (entityAI g (e, w)).1 = e_x e.
Proof. apply (entityAI_frame g e w). Qed.

Lemma entityFinish_keeps_x e : e_x (entityFinish e) = e_x e.
Proof. unfold entityFinish. split_ifs; reflexivity. Qed.

Lemma integrateEntity_fields e :
  e_vy (integrateEntity e)
  = (if bool_decide (e_type e = MOB_BAT) then e_vy e
     else (e_vy e + GRAVITY)%Q)
  /\ e_x (integrateEntity e) = (e_x e + e_vx e)%Q
  /\ e_y (integrateEntity e) = (e_y e + e_vy (integrateEntity e))%Q
  /\ e_vx (integrateEntity e) = (e_vx e * FRICTION)%Q.
Proof.
  unfold integrateEntity.
  destruct (bool_decide (e_type e = MOB_BAT)); repeat split; reflexivity.
Qed.

Lemma entityBody_x e w :
  e_x (entityBody e w).1 = (e_x e + e_vx e)%Q.
Proof.
  unfold entityBody.
  destruct (entityCollisionOn (platformsRef w) (integrateEntity e, false))
    as [e1 g] eqn:Hc.
  destruct (entityAI g (entityTimers e1, w)) as [e2 w2] eqn:Ha. simpl.
  rewrite entityFinish_keeps_x.
  change e2 with (e2, w2).1. rewrite <- Ha, entityAI_keeps_x.
  change (e_x (entityTimers e1)) with (e_x e1).
  change e1 with (e1, g).1. rewrite <- Hc.
  destruct (entityCollisionOn_keeps_x (platformsRef w) (integrateEntity e) false)
    as [Hx _].
  rewrite Hx. apply integrateEntity_fields.
Qed.

Lemma entitiesRef_entityAI g e w :
  entitiesRef (entityAI g (e, w)).2 = entitiesRef w.
Proof. apply (entityAI_frame g e w). Qed.

Lemma entitiesRef_entityBody e w :
  entitiesRef (entityBody e w).2 = entitiesRef w.
Proof.
  unfold entityBody.
  destruct (entityCollisionOn (platformsRef w) (integrateEntity e, false))
    as [e1 g].
  destruct (entityAI g (entityTimers e1, w)) as [e2 w2] eqn:Ha. simpl.
  change w2 with (e2, w2).2. rewrite <- Ha. apply entitiesRef_entityAI.
Qed.

Lemma entityStep_live i w e :
  entitiesRef w !! i = Some e ->
  e_isDead e = false ->
  e_type e <> CHEST ->
  entitiesRef (entityStep i w)
  = <[i := (entityBody e w).1]> (entitiesRef w).
Proof.
  intros Hi Hd Ht. unfold entityStep. rewrite Hi, Hd.
  rewrite bool_decide_eq_false_2 by assumption. simpl.
  destruct (entityBody e w) as [e' w'] eqn:Hb. simpl.
  change w' with (e', w').2. rewrite <- Hb, entitiesRef_entityBody.
  apply list_eq. intro j. destruct (decide (i = j)) as [->|Hne].
  - rewrite list_lookup_alter_eq.
    destruct (entitiesRef w !! j) eqn:Hj; [|discriminate].
    rewrite list_lookup_insert_eq by (eapply lookup_lt_Some; eassumption).
    reflexivity.
  - rewrite list_lookup_alter_ne, list_lookup_insert_ne by assumption.
    reflexivity.
Qed.

Lemma entityStep_skipped i w e :
  entitiesRef w !! i = Some e ->
  e_isDead e = true \/ e_type e = CHEST ->
  entityStep i w = w.
Proof.
  intros Hi Hs. unfold entityStep. rewrite Hi.
  destruct Hs as [Hd|Ht].
  - rewrite Hd. reflexivity.
  - rewrite (bool_decide_eq_true_2 _ Ht), orb_true_r. reflexivity.
Qed.

(** C8 (as amended).  A hostile entity that is neither dead nor a chest
    gets, in this order, gravity on its vertical velocity (not a bat),
    its velocity added to its position, and friction on its horizontal
    velocity, so that its horizontal position moves by the velocity it
    had before friction; a dead entity and a chest are left as they
    are.  The player gets friction first, then gravity, then the
    velocity added to the position, so that the player's horizontal
    position moves by the velocity after friction. *)
Theorem integration_order_of_entities_and_player :
  (forall e,
      e_vy (integrateEntity e)
      = (if bool_decide (e_type e = MOB_BAT) then e_vy e
         else (e_vy e + GRAVITY)%Q)
      /\ e_x (integrateEntity e) = (e_x e + e_vx e)%Q
      /\ e_y (integrateEntity e) = (e_y e + e_vy (integrateEntity e))%Q
      /\ e_vx (integrateEntity e) = (e_vx e * FRICTION)%Q)
  /\ (forall w i e,
        entitiesRef w !! i = Some e ->
        e_isDead e = false ->
        e_type e <> CHEST ->
        exists e',
          entitiesRef (entityStep i w) !! i = Some e'
          /\ e' = (entityBody e w).1
          /\ e_x e' = (e_x e + e_vx e)%Q)
  /\ (forall w i e,
        entitiesRef w !! i = Some e ->
        e_isDead e = true \/ e_type e = CHEST ->
        entityStep i w = w)
  /\ (forall w,
        let p := playerRef w in
        let p' := playerRef (integratePlayer w) in
        e_vx p' = (e_vx p * FRICTION)%Q
        /\ e_vy p' = (e_vy p + GRAVITY)%Q
        /\ e_x p' = (e_x p + e_vx p * FRICTION)%Q
        /\ e_y p' = (e_y p + (e_vy p + GRAVITY))%Q).
Proof.
  split; [exact integrateEntity_fields|].
  split.
  { intros w i e Hi Hd Ht. exists (entityBody e w).1.
    rewrite (entityStep_live i w e Hi Hd Ht).
    rewrite list_lookup_insert_eq by (eapply lookup_lt_Some; eassumption).
    split; [reflexivity|]. split; [reflexivity|]. apply entityBody_x. }
  split; [intros w i e; apply entityStep_skipped|].
  intros w. cbv zeta. repeat split; reflexivity.
Qed.

(** ** Concrete sessions used by the examples below *)

Definition halfTape : nat -> Q := fun _ => 0.5%Q.

(** The session as it starts. *)
Definition startWorld : World := initWorld SWORDSMAN halfTape.

(** Fourteen frames later the player has landed on the starting
    platform: feet at [y = 0], at rest. *)
Definition landedWorld : World :=
  withStateRef (set_time 14) (withPlayer (set_e_y (-48)) startWorld).

(** C8, the claim as written fails for the player: with [KeyD] held the
    input gives the horizontal velocity 0.8, and the position then
    moves by 0.68, the velocity after friction. *)
Lemma player_moves_by_velocity_after_friction :
  let w := playerInput (handleKeyDown "KeyD" landedWorld) in
  (e_vx (playerRef w) == 0.8)%Q
  /\ (e_x (playerRef (integratePlayer w)) - e_x (playerRef w) == 0.68)%Q
  /\ ~ (e_x (playerRef (integratePlayer w)) - e_x (playerRef w)
        == e_vx (playerRef w))%Q.
Proof.
  cbv zeta. split; [vm_compute; reflexivity|].
  split; [vm_compute; reflexivity|].
  vm_compute. discriminate.
Qed.

(** ** Hazard contact (lines 891-897 and 1025-1027) *)

Lemma fold_left_preserves {A B : Type} (f : A -> B -> A)
    (R : A -> A -> Prop) :
  (forall a, R a a) ->
  (forall a1 a2 a3, R a1 a2 -> R a2 a3 -> R a1 a3) ->
  (forall a b, R a (f a b)) ->
  forall l a, R a (fold_left f l a).
Proof.
  intros Hrefl Htrans Hstep l.
  induction l as [|b l IH]; intros a; simpl.
  - apply Hrefl.
  - apply Htrans with (f a b); [apply Hstep|apply IH].
Qed.

Lemma fold_left_invariant {A B : Type} (f : A -> B -> A) (P : A -> Prop) :
  (forall a b, P a -> P (f a b)) ->
  forall l a, P a -> P (fold_left f l a).
Proof.
  intros Hstep l. induction l as [|b l IH]; intros a Ha; simpl.
  - exact Ha.
  - apply IH, Hstep, Ha.
Qed.

Lemma playerCollisionOn_app l1 l2 wg :
  playerCollisionOn (l1 ++ l2) wg
  = playerCollisionOn l2 (playerCollisionOn l1 wg).
Proof. apply fold_left_app. Qed.

Lemma entityCollisionOn_app l1 l2 eg :
  entityCollisionOn (l1 ++ l2) eg
  = entityCollisionOn l2 (entityCollisionOn l1 eg).
Proof. apply fold_left_app. Qed.

(** What one lava platform does to the player it touches. *)
Lemma playerCollidePlatform_lava w g plat :
  plat_type plat = LAVA ->
  rectIntersect (rectOfEntity (playerRef w)) (rectOfPlatform plat) = true ->
  playerRef (playerCollidePlatform (w, g) plat).1 = set_e_hp 0 (playerRef w)
  /\ (playerCollidePlatform (w, g) plat).2 = g.
Proof.
  intros Ht Hi. unfold playerCollidePlatform. rewrite Hi.
  rewrite (bool_decide_eq_true_2 _ Ht). split; reflexivity.
Qed.

(** No platform callback raises the player's health from zero. *)
Lemma playerCollisionOn_keeps_dead plats wg :
  e_hp (playerRef wg.1) = 0%Q ->
  e_hp (playerRef (playerCollisionOn plats wg).1) = 0%Q.
Proof.
  apply (fold_left_invariant playerCollidePlatform
           (fun wg => e_hp (playerRef wg.1) = 0%Q)).
  intros [w g] plat H. unfold playerCollidePlatform.
  split_ifs; try assumption; reflexivity.
Qed.

Lemma entityCollidePlatform_lava e g plat :
  plat_type plat = LAVA ->
  rectIntersect (rectOfEntity e) (rectOfPlatform plat) = true ->
  entityCollidePlatform (e, g) plat
  = (if bool_decide (e_type e = MOB_BAT) then e else set_e_hp 0 e, g).
Proof.
  intros Ht Hi. unfold entityCollidePlatform. rewrite Hi.
  rewrite (bool_decide_eq_true_2 _ Ht). reflexivity.
Qed.

Lemma entityCollisionOn_keeps_type plats eg :
  e_type (entityCollisionOn plats eg).1 = e_type eg.1.
Proof.
  apply (fold_left_preserves entityCollidePlatform
           (fun a b => e_type b.1 = e_type a.1)).
  - reflexivity.
  - intros a1 a2 a3 H1 H2. congruence.
  - intros [e g] plat. unfold entityCollidePlatform.
    split_ifs; reflexivity.
Qed.

Lemma entityCollisionOn_keeps_dead plats eg :
  e_hp eg.1 = 0%Q ->
  e_hp (entityCollisionOn plats eg).1 = 0%Q.
Proof.
  apply (fold_left_invariant entityCollidePlatform
           (fun eg => e_hp eg.1 = 0%Q)).
  intros [e g] plat H. unfold entityCollidePlatform.
  split_ifs; try assumption; reflexivity.
Qed.

Lemma entityCollisionOn_bat_hp plats eg :
  e_type eg.1 = MOB_BAT ->
  e_hp (entityCollisionOn plats eg).1 = e_hp eg.1.
Proof.
  intros Hb.
  assert (H : e_type (entityCollisionOn plats eg).1 = MOB_BAT
              /\ e_hp (entityCollisionOn plats eg).1 = e_hp eg.1);
    [|apply H].
  apply (fold_left_preserves entityCollidePlatform
           (fun a b => e_type a.1 = MOB_BAT ->
                       e_type b.1 = MOB_BAT /\ e_hp b.1 = e_hp a.1));
    [| | |exact Hb].
  - intros a H; split; [exact H|reflexivity].
  - intros a1 a2 a3 H1 H2 H. destruct (H1 H) as [H3 H4].
    destruct (H2 H3) as [H5 H6]. split; congruence.
  - intros [e g] plat H. simpl in H. unfold entityCollidePlatform.
    split_ifs; split; try assumption; try reflexivity.
    apply bool_decide_eq_false_1 in Heqb1. contradiction.
Qed.

Lemma entityAI_keeps_hp g e w :
  e_hp (entityAI g (e, w)).1 = e_hp e.
Proof. apply (entityAI_frame g e w). Qed.

Lemma entityBody_dies_in_lava e w l1 plat l2 :
  platformsRef w = l1 ++ plat :: l2 ->
  plat_type plat = LAVA ->
  e_type e <> MOB_BAT ->
  rectIntersect
    (rectOfEntity (entityCollisionOn l1 (integrateEntity e, false)).1)
    (rectOfPlatform plat) = true ->
  e_hp (entityBody e w).1 = 0%Q /\ e_isDead (entityBody e w).1 = true.
Proof.
  intros Hp Hl Hb Hi. unfold entityBody.
  destruct (entityCollisionOn (platformsRef w) (integrateEntity e, false))
    as [e1 g1] eqn:Hc.
  assert (H1 : e_hp e1 = 0%Q).
  { change e1 with (e1, g1).1. rewrite <- Hc, Hp, entityCollisionOn_app.
    rewrite entityCollisionOn_cons. apply entityCollisionOn_keeps_dead.
    destruct (entityCollisionOn l1 (integrateEntity e, false)) as [e0 g0] eqn:H0.
    rewrite (entityCollidePlatform_lava e0 g0 plat Hl Hi).
    assert (Ht : e_type e0 = e_type e).
    { change e0 with (e0, g0).1. rewrite <- H0, entityCollisionOn_keeps_type.
      simpl. unfold integrateEntity. split_ifs; reflexivity. }
    rewrite bool_decide_eq_false_2 by congruence. reflexivity. }
  destruct (entityAI g1 (entityTimers e1, w)) as [e2 w2] eqn:Ha. simpl.
  assert (H2 : e_hp e2 = 0%Q).
  { change e2 with (e2, w2).1. rewrite <- Ha, entityAI_keeps_hp. exact H1. }
  unfold entityFinish. simpl. rewrite H2. simpl. split; [exact H2|reflexivity].
Qed.

(** C3 (as amended).  The player, a slime or a rogue agent that
    intersects a lava platform when the collision pass reaches that
    platform has its health set to 0 there, whatever it was, and
    nothing else changes at that platform (no positional correction);
    the health is still 0 when the pass ends, and a slime or rogue is
    marked dead by the end of its step.  A bat's health is never
    changed by the collision pass. *)
Theorem lava_contact_zeroes_health_except_bats :
  (forall w g l1 plat l2,
      plat_type plat = LAVA ->
      let wg1 := playerCollisionOn l1 (w, g) in
      rectIntersect (rectOfEntity (playerRef wg1.1)) (rectOfPlatform plat)
      = true ->
      playerRef (playerCollidePlatform wg1 plat).1
      = set_e_hp 0 (playerRef wg1.1)
      /\ e_hp (playerRef (playerCollisionOn (l1 ++ plat :: l2) (w, g)).1)
         = 0%Q)
  /\ (forall e g l1 plat l2,
        plat_type plat = LAVA ->
        e_type e <> MOB_BAT ->
        let eg1 := entityCollisionOn l1 (e, g) in
        rectIntersect (rectOfEntity eg1.1) (rectOfPlatform plat) = true ->
        (entityCollidePlatform eg1 plat).1 = set_e_hp 0 eg1.1
        /\ e_hp (entityCollisionOn (l1 ++ plat :: l2) (e, g)).1 = 0%Q)
  /\ (forall w i e l1 plat l2,
        entitiesRef w !! i = Some e ->
        e_isDead e = false ->
        e_type e <> CHEST ->
        e_type e <> MOB_BAT ->
        platformsRef w = l1 ++ plat :: l2 ->
        plat_type plat = LAVA ->
        rectIntersect
          (rectOfEntity (entityCollisionOn l1 (integrateEntity e, false)).1)
          (rectOfPlatform plat) = true ->
        exists e',
          entitiesRef (entityStep i w) !! i = Some e'
          /\ e_hp e' = 0%Q /\ e_isDead e' = true)
  /\ (forall e g plats,
        e_type e = MOB_BAT ->
        e_hp (entityCollisionOn plats (e, g)).1 = e_hp e).
Proof.
  split.
  { intros w g l1 plat l2 Hl wg1 Hi.
    destruct wg1 as [w1 g1] eqn:H1.
    destruct (playerCollidePlatform_lava w1 g1 plat Hl Hi) as [Hp _].
    split; [exact Hp|].
    rewrite playerCollisionOn_app, playerCollisionOn_cons.
    apply playerCollisionOn_keeps_dead.
    subst wg1. rewrite H1, Hp. reflexivity. }
  split.
  { intros e g l1 plat l2 Hl Hb eg1 Hi.
    destruct eg1 as [e1 g1] eqn:H1.
    assert (Ht : e_type e1 = e_type e).
    { change e1 with (e1, g1).1. rewrite <- H1. subst eg1.
      apply entityCollisionOn_keeps_type. }
    assert (Hs : entityCollidePlatform (e1, g1) plat = (set_e_hp 0 e1, g1)).
    { rewrite (entityCollidePlatform_lava e1 g1 plat Hl Hi).
      rewrite bool_decide_eq_false_2 by congruence. reflexivity. }
    split; [rewrite Hs; reflexivity|].
    rewrite entityCollisionOn_app, entityCollisionOn_cons.
    apply entityCollisionOn_keeps_dead.
    subst eg1. rewrite H1, Hs. reflexivity. }
  split.
  { intros w i e l1 plat l2 Hi Hd Hc Hb Hp Hl Hx.
    exists (entityBody e w).1.
    rewrite (entityStep_live i w e Hi Hd Hc).
    rewrite list_lookup_insert_eq by (eapply lookup_lt_Some; eassumption).
    split; [reflexivity|].
    eapply entityBody_dies_in_lava; eassumption. }
  intros e g plats Hb. apply (entityCollisionOn_bat_hp plats (e, g) Hb).
Qed.

(** A bat hovering in the western lava pool, added to the landed
    session. *)
Definition lavaBat : Entity :=
  set_e_y 815 (set_e_x (-1900) (newMob 0.5 MOB_BAT 0 0)).

Definition lavaBatWorld : World := pushEntity lavaBat landedWorld.

(** C3, the claim as written fails for a bat: it intersects a lava
    platform during its collision pass and ends the frame alive with
    its health unchanged. *)
Lemma bat_survives_lava :
  entitiesRef lavaBatWorld !! 19%nat = Some lavaBat
  /\ rectIntersect (rectOfEntity (integrateEntity lavaBat))
       (rectOfPlatform (mkPlatform (-2000) 820 500 20 LAVA)) = true
  /\ In (mkPlatform (-2000) 820 500 20 LAVA) (platformsRef lavaBatWorld)
  /\ (e_hp lavaBat == 30)%Q
  /\ (e_hp <$> entitiesRef (loop lavaBatWorld).1 !! 19%nat) = Some 30%Q
  /\ (e_isDead <$> entitiesRef (loop lavaBatWorld).1 !! 19%nat) = Some false.
Proof.
  split; [reflexivity|].
  split; [reflexivity|].
  split; [vm_compute; tauto|].
  split; [reflexivity|].
  split; vm_compute; reflexivity.
Qed.

(** ** Support snap (lines 899-908 and 1028-1032) *)

(** The support-snap branch applies to the player at this platform. *)
Definition playerLandsOn (p : Entity) (plat : Platform) : bool :=
  rectIntersect (rectOfEntity p) (rectOfPlatform plat)
  && negb (bool_decide (plat_type plat = LAVA))
  && playerSnaps p plat.

(** The support-snap branch applies to the entity at this platform. *)
Definition entityLandsOn (e : Entity) (plat : Platform) : bool :=
  rectIntersect (rectOfEntity e) (rectOfPlatform plat)
  && negb (bool_decide (plat_type plat = LAVA))
  && entitySnaps e plat.

Lemma Qltb_irrefl q : Qltb q q = false.
Proof. apply Qltb_false. lra. Qed.

Lemma playerCollidePlatform_lands w g plat :
  playerLandsOn (playerRef w) plat = true ->
  playerCollidePlatform (w, g) plat
  = (withPlayer
       (fun p => set_e_jumpCount 0
                   (set_e_vy 0 (set_e_y (plat_y plat - e_height p) p))) w,
     true).
Proof.
  unfold playerLandsOn. rewrite !andb_true_iff, negb_true_iff.
  intros [[Hi Hl] Hs]. unfold playerCollidePlatform.
  rewrite Hi, Hl, Hs. reflexivity.
Qed.

(** A player at rest keeps its height and vertical velocity at a
    platform where it does not land. *)
Lemma playerCollidePlatform_rests w g plat :
  e_vy (playerRef w) = 0%Q ->
  playerLandsOn (playerRef w) plat = false ->
  let p' := playerRef (playerCollidePlatform (w, g) plat).1 in
  e_vy p' = 0%Q /\ e_y p' = e_y (playerRef w)
  /\ e_height p' = e_height (playerRef w)
  /\ (playerCollidePlatform (w, g) plat).2 = g.
Proof.
  intros Hv Hn. cbv zeta. unfold playerCollidePlatform.
  unfold playerLandsOn in Hn.
  destruct (rectIntersect _ _); [|repeat split; assumption].
  destruct (bool_decide (plat_type plat = LAVA));
    [repeat split; assumption|].
  simpl in Hn. rewrite Hn.
  unfold playerHitsCeiling. rewrite Hv, Qltb_irrefl. simpl.
  repeat split; assumption.
Qed.

Lemma playerCollisionOn_rests l :
  forall wg,
    e_vy (playerRef wg.1) = 0%Q ->
    (forall l2a q l2b,
        l = l2a ++ q :: l2b ->
        playerLandsOn (playerRef (playerCollisionOn l2a wg).1) q = false) ->
    let p' := playerRef (playerCollisionOn l wg).1 in
    e_vy p' = 0%Q /\ e_y p' = e_y (playerRef wg.1)
    /\ e_height p' = e_height (playerRef wg.1).
Proof.
  induction l as [|plat l IH]; intros [w g] Hv Hn; cbv zeta.
  - repeat split; assumption.
  - rewrite playerCollisionOn_cons.
    assert (H0 : playerLandsOn (playerRef w) plat = false)
      by exact (Hn [] plat l eq_refl).
    destruct (playerCollidePlatform_rests w g plat Hv H0)
      as (Hv1 & Hy1 & Hh1 & _).
    destruct (IH (playerCollidePlatform (w, g) plat) Hv1) as (Hv2 & Hy2 & Hh2).
    { intros l2a q l2b Heq.
      exact (Hn (plat :: l2a) q l2b (f_equal (cons plat) Heq)). }
    simpl in *. repeat split; congruence.
Qed.

Lemma entityCollidePlatform_lands e g plat :
  entityLandsOn e plat = true ->
  entityCollidePlatform (e, g) plat
  = (set_e_vy 0 (set_e_y (plat_y plat - e_height e) e), true).
Proof.
  unfold entityLandsOn. rewrite !andb_true_iff, negb_true_iff.
  intros [[Hi Hl] Hs]. unfold entityCollidePlatform.
  rewrite Hi, Hl, Hs. reflexivity.
Qed.

(** An entity at rest is not moved by any further platform. *)
Lemma entityCollisionOn_rests plats eg :
  e_vy eg.1 = 0%Q ->
  let e' := (entityCollisionOn plats eg).1 in
  e_vy e' = 0%Q /\ e_y e' = e_y eg.1 /\ e_height e' = e_height eg.1.
Proof.
  intros Hv.
  apply (fold_left_preserves entityCollidePlatform
           (fun a b => e_vy a.1 = 0%Q ->
                       e_vy b.1 = 0%Q /\ e_y b.1 = e_y a.1
                       /\ e_height b.1 = e_height a.1));
    [| | |exact Hv].
  - intros a H. repeat split; assumption.
  - intros a1 a2 a3 H1 H2 H. destruct (H1 H) as (H3 & H4 & H5).
    destruct (H2 H3) as (H6 & H7 & H8). repeat split; congruence.
  - intros [e g] plat H. simpl in H. unfold entityCollidePlatform, entitySnaps.
    rewrite H, Qltb_irrefl. simpl.
    split_ifs; repeat split; assumption.
Qed.

(** ** What the later phases of a frame leave alone *)

Lemma forEachEntity_invariant (P : World -> Prop) body :
  (forall i w, P w -> P (body i w)) ->
  forall w, P w -> P (forEachEntity body w).
Proof.
  intros Hstep w Hw. unfold forEachEntity.
  apply (fold_left_invariant (fun w i => body i w) P); [|exact Hw].
  intros a b. apply Hstep.
Qed.

(** The player's position, vertical velocity, size and jump state. *)
Definition sameMotion (p p' : Entity) : Prop :=
  e_x p' = e_x p /\ e_y p' = e_y p /\ e_vy p' = e_vy p
  /\ e_width p' = e_width p /\ e_height p' = e_height p
  /\ e_jumpCount p' = e_jumpCount p
  /\ e_isJumpKeyHeld p' = e_isJumpKeyHeld p.

Lemma sameMotion_refl p : sameMotion p p.
Proof. repeat split. Qed.

Lemma sameMotion_trans p1 p2 p3 :
  sameMotion p1 p2 -> sameMotion p2 p3 -> sameMotion p1 p3.
Proof.
  unfold sameMotion. intros (?&?&?&?&?&?&?) (?&?&?&?&?&?&?).
  repeat split; congruence.
Qed.

Lemma sameMotion_eq p p' : p' = p -> sameMotion p p'.
Proof. intros ->. apply sameMotion_refl. Qed.

Lemma playerRef_countKill i w : playerRef (countKill i w) = playerRef w.
Proof. unfold countKill. split_ifs; reflexivity. Qed.

Lemma playerRef_attackHit hb k i w :
  playerRef (attackHit hb k i w) = playerRef w.
Proof.
  unfold attackHit. split_ifs; try reflexivity.
  rewrite playerRef_countKill. reflexivity.
Qed.

Lemma playerRef_whirlwindHit i w : playerRef (whirlwindHit i w) = playerRef w.
Proof.
  unfold whirlwindHit. split_ifs; try reflexivity.
  rewrite playerRef_countKill. reflexivity.
Qed.

Lemma playerRef_meteorHit x i w : playerRef (meteorHit x i w) = playerRef w.
Proof.
  unfold meteorHit. split_ifs; try reflexivity.
  rewrite playerRef_countKill. reflexivity.
Qed.

Lemma playerRef_forEachEntity body :
  (forall i w, playerRef (body i w) = playerRef w) ->
  forall w, playerRef (forEachEntity body w) = playerRef w.
Proof.
  intros Hb w.
  apply (forEachEntity_invariant (fun w' => playerRef w' = playerRef w));
    [|reflexivity].
  intros i w' H. rewrite Hb. exact H.
Qed.

(** [generateLoot] draws four numbers and writes nothing else. *)
Lemma generateLoot_world w :
  (generateLoot w).2 = set_randomUsed (4 + randomUsed w) w.
Proof. reflexivity. Qed.

(** What [openChest] writes: the chest's flag, the three session
    fields, the modal, and the potion count, a message and the tape
    cursor. *)
Lemma openChest_fields i w :
  playerRef (openChest i w) = playerRef w
  /\ entitiesRef (openChest i w)
     = alter (set_e_isOpened (Some true)) i (entitiesRef w)
  /\ stateRef (openChest i w)
     = set_readingTimer 0
         (set_isReading false (set_isLootMenuOpen true (stateRef w)))
  /\ lootModal (openChest i w) = Some (generateLoot w).1
  /\ killsRef (openChest i w) = killsRef w
  /\ inventoryRef (openChest i w) = inventoryRef w
  /\ gameOverCalls (openChest i w) = gameOverCalls w
  /\ platformsRef (openChest i w) = platformsRef w.
Proof.
  unfold openChest.
  set (w1 := withStateRef _ (withEntity i _ w)).
  assert (Hl : (generateLoot w1).1 = (generateLoot w).1) by reflexivity.
  pose proof (generateLoot_world w1) as Hw.
  destruct (generateLoot w1) as [item w2]. simpl in Hl, Hw. subst item w2.
  unfold Math_random.
  destruct (Qltb _ 0.4); repeat split; reflexivity.
Qed.

Lemma playerRef_readingLogic w : playerRef (readingLogic w) = playerRef w.
Proof.
  unfold readingLogic.
  destruct (interactionTarget (stateRef w)) as [i|]; [|reflexivity].
  destruct (isReading (stateRef w)); [|reflexivity].
  destruct (90 <=? _); [|reflexivity].
  rewrite (proj1 (openChest_fields _ _)). reflexivity.
Qed.

Lemma sameMotion_basicAttack w :
  sameMotion (playerRef w) (playerRef (basicAttack w)).
Proof.
  unfold basicAttack.
  destruct (key w "KeyJ" && (e_attackCooldown (playerRef w) <=? 0));
    [|apply sameMotion_refl].
  rewrite playerRef_forEachEntity by apply playerRef_attackHit.
  repeat split.
Qed.

Lemma sameMotion_skill w : sameMotion (playerRef w) (playerRef (skill w)).
Proof.
  unfold skill.
  destruct (key w "KeyK" && (default 0 (e_skillCooldown (playerRef w)) <=? 0));
    [|apply sameMotion_refl].
  destruct (heroType _).
  - rewrite playerRef_forEachEntity by apply playerRef_whirlwindHit.
    repeat split.
  - rewrite playerRef_forEachEntity by apply playerRef_meteorHit.
    repeat split.
Qed.

Lemma sameMotion_combat w : sameMotion (playerRef w) (playerRef (combat w)).
Proof.
  unfold combat. destruct (isLootMenuOpen _); [apply sameMotion_refl|].
  eapply sameMotion_trans; [apply sameMotion_basicAttack|apply sameMotion_skill].
Qed.

Lemma sameMotion_entityAI g e w :
  sameMotion (playerRef w) (playerRef (entityAI g (e, w)).2).
Proof.
  destruct (entityAI_frame g e w) as [_ H]. unfold aiLeaves in H.
  unfold sameMotion. tauto.
Qed.

Lemma sameMotion_entityStep i w :
  sameMotion (playerRef w) (playerRef (entityStep i w)).
Proof.
  unfold entityStep.
  destruct (entitiesRef w !! i) as [e|]; [|apply sameMotion_refl].
  destruct (e_isDead e || bool_decide (e_type e = CHEST));
    [apply sameMotion_refl|].
  unfold entityBody.
  destruct (entityCollisionOn (platformsRef w) (integrateEntity e, false))
    as [e1 g].
  pose proof (sameMotion_entityAI g (entityTimers e1) w) as H.
  destruct (entityAI g (entityTimers e1, w)) as [e2 w2]. exact H.
Qed.

Lemma sameMotion_entityLoop w :
  sameMotion (playerRef w) (playerRef (entityLoop w)).
Proof.
  apply (forEachEntity_invariant (fun w' => sameMotion (playerRef w) (playerRef w')));
    [|apply sameMotion_refl].
  intros i w' H. eapply sameMotion_trans; [exact H|apply sameMotion_entityStep].
Qed.

Lemma sameMotion_playerCooldowns w :
  sameMotion (playerRef w) (playerRef (playerCooldowns w)).
Proof. repeat split. Qed.

Lemma playerRef_gameEnd w : playerRef (gameEnd w) = playerRef w.
Proof. unfold gameEnd. split_ifs; reflexivity. Qed.

(** Everything of a frame before the player's input. *)
Definition prelude (w : World) : World :=
  spawnRogue (spawnMob (markVisited (tick w))).

(** From the end of the collision pass to the end of [simulate]. *)
Definition afterCollision (w : World) : World :=
  gameEnd (entityLoop (playerCooldowns (combat (readingLogic w)))).

Lemma simulate_afterCollision w :
  simulate w
  = afterCollision
      (playerCollision (integratePlayer (playerInput (prelude w)))).1.
Proof. cbv beta zeta delta [simulate afterCollision prelude]. reflexivity. Qed.

Lemma sameMotion_afterCollision w :
  sameMotion (playerRef w) (playerRef (afterCollision w)).
Proof.
  unfold afterCollision. rewrite playerRef_gameEnd.
  eapply sameMotion_trans; [|apply sameMotion_entityLoop].
  eapply sameMotion_trans; [|apply sameMotion_playerCooldowns].
  eapply sameMotion_trans; [|apply sameMotion_combat].
  apply sameMotion_eq, playerRef_readingLogic.
Qed.

Lemma playerRef_openExtraction w w' :
  openExtraction w = Normal w' \/ openExtraction w = Thrown w' ->
  playerRef w' = playerRef w.
Proof.
  unfold openExtraction.
  destruct (time (stateRef w) =? 1800); simpl.
  - destruct (jsIndex _ _); intros [H|H]; inversion H; reflexivity.
  - intros [H|H]; inversion H; reflexivity.
Qed.

Lemma playerRef_extractionDwell w :
  playerRef (extractionDwell w) = playerRef w.
Proof. unfold extractionDwell. split_ifs; reflexivity. Qed.

(** Drawing the platforms moves the cursor of the random tape and
    nothing else. *)

Lemma set_randomUsed_same w : set_randomUsed (randomUsed w) w = w.
Proof. destruct w; reflexivity. Qed.

Definition isLava (p : Platform) : bool := bool_decide (plat_type p = LAVA).

Definition lavaCount (plats : list Platform) : nat :=
  length (List.filter isLava plats).

Lemma drawPlatform_eq w p :
  exists n, (randomUsed w + (if isLava p then 1 else 0) <= n
             <= randomUsed w + (if isLava p then 3 else 0))%nat
            /\ drawPlatform w p = set_randomUsed n w.
Proof.
  unfold drawPlatform, Math_random, isLava.
  destruct (bool_decide (plat_type p = LAVA)).
  - cbn [randomTape randomUsed set_randomUsed fst snd].
    destruct (Qltb 0.9 (randomTape w (randomUsed w))).
    + exists (S (S (S (randomUsed w)))). split; [lia|reflexivity].
    + exists (S (randomUsed w)). split; [lia|reflexivity].
  - exists (randomUsed w). split; [lia|]. symmetry. apply set_randomUsed_same.
Qed.

Lemma drawPlatforms_fold plats : forall w,
  exists n, (randomUsed w + lavaCount plats <= n
             <= randomUsed w + 3 * lavaCount plats)%nat
            /\ fold_left drawPlatform plats w = set_randomUsed n w.
Proof.
  unfold lavaCount.
  induction plats as [|p plats IH]; intros w.
  - exists (randomUsed w). split; [simpl; lia|].
    symmetry. apply set_randomUsed_same.
  - cbn [fold_left List.filter].
    destruct (drawPlatform_eq w p) as (n & Hn & ->).
    destruct (IH (set_randomUsed n w)) as (m & Hm & ->).
    cbn [randomUsed set_randomUsed] in Hm.
    exists m. split; [|reflexivity].
    destruct (isLava p); cbn [length]; lia.
Qed.

Lemma drawPlatforms_eq w :
  exists n, (randomUsed w + lavaCount (platformsRef w) <= n
             <= randomUsed w + 3 * lavaCount (platformsRef w))%nat
            /\ drawPlatforms w = set_randomUsed n w.
Proof. apply drawPlatforms_fold. Qed.

(** [render] as its three writes: the camera, the cursor of the random
    tape, the texts. *)

Definition renderAt (n : nat) (w : World) : World :=
  let p := playerRef w in
  let targetCamX := (e_x p - CANVAS_WIDTH / 2)%Q in
  let targetCamY := (e_y p - CANVAS_HEIGHT / 2)%Q in
  let w :=
    withStateRef
      (fun s => set_cameraX (cameraX s + (targetCamX - cameraX s) * 0.1) s) w in
  let w :=
    withStateRef
      (fun s => set_cameraY (cameraY s + (targetCamY - cameraY s) * 0.1) s) w in
  let w := set_randomUsed n w in
  set_textsRef
    (List.filter (fun t => 0 <? t_life t) (map ageText (textsRef w))) w.

Lemma render_eq w :
  exists n, (randomUsed w + lavaCount (platformsRef w) <= n
             <= randomUsed w + 3 * lavaCount (platformsRef w))%nat
            /\ render w = renderAt n w.
Proof.
  unfold render, renderAt. cbv zeta.
  match goal with |- context [drawPlatforms ?x] =>
    destruct (drawPlatforms_eq x) as (n & Hn & ->) end.
  exists n. split; [exact Hn|reflexivity].
Qed.

Lemma playerRef_render w : playerRef (render w) = playerRef w.
Proof. destruct (render_eq w) as (n & _ & ->). reflexivity. Qed.

Lemma entitiesRef_render w : entitiesRef (render w) = entitiesRef w.
Proof. destruct (render_eq w) as (n & _ & ->). reflexivity. Qed.

Lemma fold_left_invariant_in {A B : Type} (f : A -> B -> A) (P : A -> Prop)
    (l : list B) :
  (forall a b, In b l -> P a -> P (f a b)) ->
  forall a, P a -> P (fold_left f l a).
Proof.
  induction l as [|b l IH]; intros Hstep a Ha; simpl.
  - exact Ha.
  - apply IH.
    + intros a' b' Hin. apply Hstep. right. exact Hin.
    + apply Hstep; [left; reflexivity|exact Ha].
Qed.

Lemma playerCollidePlatform_flag w g plat :
  playerLandsOn (playerRef w) plat = false ->
  (playerCollidePlatform (w, g) plat).2 = g.
Proof.
  intros Hn. unfold playerCollidePlatform. unfold playerLandsOn in Hn.
  destruct (rectIntersect _ _); [|reflexivity].
  destruct (bool_decide (plat_type plat = LAVA)); [reflexivity|].
  simpl in Hn. rewrite Hn.
  destruct (playerHitsCeiling _ _); reflexivity.
Qed.

Lemma entityCollidePlatform_flag e g plat :
  entityLandsOn e plat = false ->
  (entityCollidePlatform (e, g) plat).2 = g.
Proof.
  intros Hn. unfold entityCollidePlatform. unfold entityLandsOn in Hn.
  destruct (rectIntersect _ _); [|reflexivity].
  destruct (bool_decide (plat_type plat = LAVA)); [reflexivity|].
  simpl in Hn. rewrite Hn. reflexivity.
Qed.

(** The state the player's [onGround] stands for. *)
Definition restsOn (plats : list Platform) (e : Entity) : Prop :=
  e_vy e = 0%Q
  /\ exists plat,
       In plat plats /\ plat_type plat <> LAVA
       /\ (e_y e + e_height e == plat_y plat)%Q.

Lemma landsOn_not_lava_player p plat :
  playerLandsOn p plat = true -> plat_type plat <> LAVA.
Proof.
  unfold playerLandsOn. rewrite !andb_true_iff, negb_true_iff.
  intros [[_ Hl] _]. apply bool_decide_eq_false_1 in Hl. exact Hl.
Qed.

Lemma landsOn_not_lava_entity e plat :
  entityLandsOn e plat = true -> plat_type plat <> LAVA.
Proof.
  unfold entityLandsOn. rewrite !andb_true_iff, negb_true_iff.
  intros [[_ Hl] _]. apply bool_decide_eq_false_1 in Hl. exact Hl.
Qed.

Lemma playerCollisionOn_onGround plats w :
  (playerCollisionOn plats (w, false)).2 = true ->
  restsOn plats (playerRef (playerCollisionOn plats (w, false)).1).
Proof.
  apply (fold_left_invariant_in playerCollidePlatform
           (fun wg => wg.2 = true -> restsOn plats (playerRef wg.1)));
    [|discriminate].
  intros [w1 g1] plat Hin IH Hflag. simpl in IH.
  destruct (playerLandsOn (playerRef w1) plat) eqn:Hl.
  - rewrite (playerCollidePlatform_lands w1 g1 plat Hl). simpl.
    split; [reflexivity|]. exists plat.
    split; [exact Hin|]. split; [eapply landsOn_not_lava_player; eassumption|].
    simpl. lra.
  - rewrite (playerCollidePlatform_flag w1 g1 plat Hl) in Hflag.
    simpl in Hflag. destruct (IH Hflag) as [Hv (q & Hq & Hnl & Hy)].
    destruct (playerCollidePlatform_rests w1 g1 plat Hv Hl) as (Hv' & Hy' & Hh' & _).
    split; [exact Hv'|]. exists q. rewrite Hy', Hh'. auto.
Qed.

Lemma entityCollisionOn_onGround plats e :
  (entityCollisionOn plats (e, false)).2 = true ->
  restsOn plats (entityCollisionOn plats (e, false)).1.
Proof.
  apply (fold_left_invariant_in entityCollidePlatform
           (fun eg => eg.2 = true -> restsOn plats eg.1));
    [|discriminate].
  intros [e1 g1] plat Hin IH Hflag. simpl in IH.
  destruct (entityLandsOn e1 plat) eqn:Hl.
  - rewrite (entityCollidePlatform_lands e1 g1 plat Hl). simpl.
    split; [reflexivity|]. exists plat.
    split; [exact Hin|]. split; [eapply landsOn_not_lava_entity; eassumption|].
    simpl. lra.
  - rewrite (entityCollidePlatform_flag e1 g1 plat Hl) in Hflag.
    simpl in Hflag. destruct (IH Hflag) as [Hv (q & Hq & Hnl & Hy)].
    destruct (entityCollisionOn_rests [plat] (e1, g1) Hv) as (Hv' & Hy' & Hh').
    change (entityCollisionOn [plat] (e1, g1))
      with (entityCollidePlatform (e1, g1) plat) in Hv', Hy', Hh'.
    change ((e1, g1).1) with e1 in Hv', Hy', Hh'.
    split; [exact Hv'|]. exists q. rewrite Hy', Hh'. auto.
Qed.

Lemma playerLandsOn_band p plat :
  playerLandsOn p plat = true ->
  (0 <= e_y p + e_height p - plat_y plat <= 20)%Q.
Proof.
  unfold playerLandsOn, playerSnaps. rewrite !andb_true_iff.
  intros [_ [[_ H1] H2]]. apply Qleb_true in H1, H2. split; assumption.
Qed.

Lemma entityLandsOn_band e plat :
  entityLandsOn e plat = true ->
  (0 <= e_y e + e_height e - plat_y plat <= 20)%Q.
Proof.
  unfold entityLandsOn, entitySnaps, rectIntersect. simpl.
  rewrite !andb_true_iff, negb_true_iff, !orb_false_iff.
  intros [[[[_ H0] _] _] [_ H1]].
  apply Qltb_false in H0. apply Qleb_true in H1. split; lra.
Qed.

(** C7.  When the support-snap branch applies to the player at a
    platform and at no later platform of the list, the pass ends with
    the player's vertical velocity 0 and its bottom edge on that
    platform's top edge (the last correction wins), and both stay so
    to the end of the frame's simulation; when it applies to another
    entity, the pass ends in the same way for that entity.  The branch
    applies only to a non-lava platform entered from above by at most
    20, and the [onGround] flag of either pass is set only in such a
    resting state. *)
Theorem support_snap_rests_on_platform_top :
  (forall w g l1 plat l2,
      let wg1 := playerCollisionOn l1 (w, g) in
      playerLandsOn (playerRef wg1.1) plat = true ->
      (forall l2a q l2b,
          l2 = l2a ++ q :: l2b ->
          playerLandsOn
            (playerRef (playerCollisionOn (l1 ++ plat :: l2a) (w, g)).1) q
          = false) ->
      let p' := playerRef (playerCollisionOn (l1 ++ plat :: l2) (w, g)).1 in
      e_vy p' = 0%Q /\ (e_y p' + e_height p' == plat_y plat)%Q)
  /\ (forall w,
        let w1 := (playerCollision w).1 in
        e_vy (playerRef (afterCollision w1)) = e_vy (playerRef w1)
        /\ e_y (playerRef (afterCollision w1)) = e_y (playerRef w1)
        /\ e_height (playerRef (afterCollision w1)) = e_height (playerRef w1))
  /\ (forall e g l1 plat l2,
        let eg1 := entityCollisionOn l1 (e, g) in
        entityLandsOn eg1.1 plat = true ->
        let e' := (entityCollisionOn (l1 ++ plat :: l2) (e, g)).1 in
        e_vy e' = 0%Q /\ (e_y e' + e_height e' == plat_y plat)%Q)
  /\ (forall p plat,
        playerLandsOn p plat = true ->
        plat_type plat <> LAVA
        /\ (0 <= e_y p + e_height p - plat_y plat <= 20)%Q)
  /\ (forall e plat,
        entityLandsOn e plat = true ->
        plat_type plat <> LAVA
        /\ (0 <= e_y e + e_height e - plat_y plat <= 20)%Q)
  /\ (forall w,
        (playerCollision w).2 = true ->
        restsOn (platformsRef w) (playerRef (playerCollision w).1))
  /\ (forall plats e,
        (entityCollisionOn plats (e, false)).2 = true ->
        restsOn plats (entityCollisionOn plats (e, false)).1).
Proof.
  split.
  { intros w g l1 plat l2 wg1 Hl Hn p'. subst p'.
    rewrite playerCollisionOn_app, playerCollisionOn_cons. fold wg1.
    destruct wg1 as [w1 g1] eqn:H1. simpl in Hl.
    rewrite (playerCollidePlatform_lands w1 g1 plat Hl).
    match goal with
    | |- context [playerCollisionOn l2 ?wg] =>
        destruct (playerCollisionOn_rests l2 wg) as (Hv & Hy & Hh)
    end.
    - reflexivity.
    - intros l2a q l2b Heq.
      rewrite <- (playerCollidePlatform_lands w1 g1 plat Hl).
      specialize (Hn l2a q l2b Heq).
      rewrite playerCollisionOn_app, playerCollisionOn_cons in Hn.
      fold wg1 in Hn. rewrite H1 in Hn. exact Hn.
    - rewrite Hv, Hy, Hh. split; [reflexivity|]. simpl. lra. }
  split.
  { intros w w1.
    destruct (sameMotion_afterCollision w1) as (_ & Hy & Hv & _ & Hh & _).
    auto. }
  split.
  { intros e g l1 plat l2 eg1 Hl e'. subst e'.
    rewrite entityCollisionOn_app, entityCollisionOn_cons. fold eg1.
    destruct eg1 as [e1 g1] eqn:H1. simpl in Hl.
    rewrite (entityCollidePlatform_lands e1 g1 plat Hl).
    match goal with
    | |- context [entityCollisionOn l2 ?eg] =>
        destruct (entityCollisionOn_rests l2 eg) as (Hv & Hy & Hh)
    end; [reflexivity|].
    rewrite Hv, Hy, Hh. split; [reflexivity|]. simpl. lra. }
  split.
  { intros p plat H. split;
      [eapply landsOn_not_lava_player; eassumption
      |apply playerLandsOn_band; assumption]. }
  split.
  { intros e plat H. split;
      [eapply landsOn_not_lava_entity; eassumption
      |apply entityLandsOn_band; assumption]. }
  split.
  { intros w. apply playerCollisionOn_onGround. }
  intros plats e. apply entityCollisionOn_onGround.
Qed.

(** The frame in which the player of [startWorld] lands. *)
Definition landingWorld : World :=
  withStateRef (set_time 13)
    (withPlayer (fun p => set_e_vy 6.5 (set_e_y (-54.5) p)) startWorld).

Example player_lands_on_start_platform :
  let wg := playerCollision (integratePlayer landingWorld) in
  wg.2 = true
  /\ e_vy (playerRef wg.1) = 0%Q
  /\ (e_y (playerRef wg.1) == -48)%Q.
Proof. vm_compute. repeat split. Qed.

(** ** Jumping (lines 833-851 and 900-904) *)

(** The jump branch of line 838 is taken. *)
Definition jumpFires (w : World) : bool :=
  isJumpPressed w
  && negb (e_isJumpKeyHeld (playerRef w))
  && (e_jumpCount (playerRef w) <? 2).

(** Left, right, potion and search leave the jump state alone. *)
Definition sameJump (w w' : World) : Prop :=
  isJumpPressed w' = isJumpPressed w
  /\ e_vy (playerRef w') = e_vy (playerRef w)
  /\ e_jumpCount (playerRef w') = e_jumpCount (playerRef w)
  /\ e_isJumpKeyHeld (playerRef w') = e_isJumpKeyHeld (playerRef w).

Lemma sameJump_refl w : sameJump w w.
Proof. repeat split. Qed.

Lemma inputLeft_sameJump w d : sameJump w (inputLeft (w, d)).1.
Proof.
  unfold inputLeft.
  destruct (key w "KeyA" || key w "ArrowLeft"); repeat split.
Qed.

Lemma inputRight_sameJump w d : sameJump w (inputRight (w, d)).1.
Proof.
  unfold inputRight.
  destruct (key w "KeyD" || key w "ArrowRight"); repeat split.
Qed.

Lemma key_insert_ne w c c' b :
  c <> c' ->
  key (set_keysRef (<[c := b]> (keysRef w)) w) c' = key w c'.
Proof.
  intros Hne. unfold key.
  change (keysRef (set_keysRef (<[c:=b]> (keysRef w)) w))
    with (<[c:=b]> (keysRef w)).
  rewrite lookup_insert_ne by exact Hne. reflexivity.
Qed.

Lemma inputPotion_sameJump w d : sameJump w (inputPotion (w, d)).1.
Proof.
  unfold inputPotion.
  destruct (key w "Digit1" && (0 <? potionRef w)
            && Qltb (e_hp (playerRef w)) (e_maxHp (playerRef w)));
    [|apply sameJump_refl].
  unfold sameJump. cbn [fst].
  split; [|repeat split].
  unfold isJumpPressed.
  rewrite !key_insert_ne by discriminate. reflexivity.
Qed.

Lemma playerRef_inputSearch w d : playerRef (inputSearch (w, d)) = playerRef w.
Proof.
  unfold inputSearch. cbv zeta.
  repeat match goal with
         | |- context [if ?b then _ else _] => destruct b
         end; reflexivity.
Qed.

(** The jump step on its own. *)
Lemma inputJump_player w d :
  let p := playerRef w in
  let p' := playerRef (inputJump (w, d)).1 in
  e_isJumpKeyHeld p' = isJumpPressed w
  /\ (jumpFires w = true ->
      e_jumpCount p' = e_jumpCount p + 1 /\ e_vy p' = JUMP_FORCE)
  /\ (jumpFires w = false ->
      e_jumpCount p' = e_jumpCount p /\ e_vy p' = e_vy p).
Proof.
  cbv zeta. unfold inputJump, jumpFires.
  destruct (isJumpPressed w); cbn [andb].
  2:{ repeat split; discriminate. }
  destruct (e_isJumpKeyHeld (playerRef w)) eqn:Hh; cbn [negb andb].
  { repeat split; try discriminate. exact Hh. }
  destruct (e_jumpCount (playerRef w) <? 2); cbn [andb].
  2:{ repeat split; discriminate. }
  match goal with
  | |- context [if ?b then _ else _] => destruct b
  end; repeat split; discriminate.
Qed.

Lemma jumpFires_sameJump w w' : sameJump w w' -> jumpFires w' = jumpFires w.
Proof.
  intros (Hp & _ & Hc & Hh). unfold jumpFires. rewrite Hp, Hc, Hh. reflexivity.
Qed.

Lemma playerInput_jump w :
  isLootMenuOpen (stateRef w) = false ->
  let p := playerRef w in
  let p' := playerRef (playerInput w) in
  e_isJumpKeyHeld p' = isJumpPressed w
  /\ (jumpFires w = true ->
      e_jumpCount p' = e_jumpCount p + 1 /\ e_vy p' = JUMP_FORCE)
  /\ (jumpFires w = false ->
      e_jumpCount p' = e_jumpCount p /\ e_vy p' = e_vy p).
Proof.
  intros Hm. cbv zeta. unfold playerInput. rewrite Hm.
  pose proof (inputLeft_sameJump w false) as H1.
  destruct (inputLeft (w, false)) as [w1 d1]. cbn [fst] in H1.
  pose proof (inputRight_sameJump w1 d1) as H2.
  destruct (inputRight (w1, d1)) as [w2 d2]. cbn [fst] in H2.
  pose proof (inputJump_player w2 d2) as H3. cbv zeta in H3.
  destruct (inputJump (w2, d2)) as [w3 d3]. cbn [fst] in H3.
  pose proof (inputPotion_sameJump w3 d3) as H4.
  destruct (inputPotion (w3, d3)) as [w4 d4]. cbn [fst] in H4.
  rewrite playerRef_inputSearch.
  assert (Hf : jumpFires w2 = jumpFires w).
  { rewrite (jumpFires_sameJump w1 w2 H2). apply jumpFires_sameJump, H1. }
  destruct H1 as (Hp1 & Hv1 & Hc1 & Hh1), H2 as (Hp2 & Hv2 & Hc2 & Hh2),
    H4 as (_ & Hv4 & Hc4 & Hh4), H3 as (Hh3 & Hyes & Hno).
  rewrite Hf in Hyes, Hno. rewrite Hv4, Hc4, Hh4.
  rewrite Hh3, Hp2, Hp1. split; [reflexivity|]. split.
  - intros H. destruct (Hyes H) as [Ha Hb]. split; congruence.
  - intros H. destruct (Hno H) as [Ha Hb]. split; congruence.
Qed.

Lemma prelude_frame w :
  playerRef (prelude w) = playerRef w
  /\ keysRef (prelude w) = keysRef w
  /\ stateRef (prelude w) = set_time (time (stateRef w) + 1) (stateRef w)
  /\ platformsRef (prelude w) = platformsRef w
  /\ killsRef (prelude w) = killsRef w
  /\ inventoryRef (prelude w) = inventoryRef w
  /\ lootModal (prelude w) = lootModal w
  /\ gameOverCalls (prelude w) = gameOverCalls w.
Proof.
  unfold prelude, spawnRogue, spawnMob.
  repeat match goal with
         | |- context [if ?b then _ else _] => destruct b
         end; repeat split; reflexivity.
Qed.

Lemma playerCollisionOn_jumpCount plats w :
  let r := playerCollisionOn plats (w, false) in
  e_jumpCount (playerRef r.1)
  = (if r.2 then 0 else e_jumpCount (playerRef w))
  /\ e_isJumpKeyHeld (playerRef r.1) = e_isJumpKeyHeld (playerRef w).
Proof.
  cbv zeta.
  apply (fold_left_invariant playerCollidePlatform
           (fun wg => e_jumpCount (playerRef wg.1)
                      = (if wg.2 then 0 else e_jumpCount (playerRef w))
                      /\ e_isJumpKeyHeld (playerRef wg.1)
                         = e_isJumpKeyHeld (playerRef w)));
    [|split; reflexivity].
  intros [w1 g1] plat [Hc Hh]. cbn [fst snd] in Hc, Hh.
  unfold playerCollidePlatform.
  destruct (rectIntersect _ _); [|split; assumption].
  destruct (bool_decide (plat_type plat = LAVA)); [split; assumption|].
  destruct (playerSnaps _ _); [split; [reflexivity|assumption]|].
  destruct (playerHitsCeiling _ _); split; assumption.
Qed.

Lemma playerCollision_jumpCount w :
  e_jumpCount (playerRef (playerCollision w).1)
  = (if (playerCollision w).2 then 0 else e_jumpCount (playerRef w))
  /\ e_isJumpKeyHeld (playerRef (playerCollision w).1)
     = e_isJumpKeyHeld (playerRef w).
Proof. exact (playerCollisionOn_jumpCount (platformsRef w) w). Qed.

(** C5.  With the loot menu closed, a frame's input applies the jump
    impulse and adds one to the jump counter exactly when a jump key
    is down, was up at the last sampled frame, and the counter is
    below 2; otherwise the input leaves counter and vertical velocity
    alone, so a held key or a counter of 2 gives no further jump.  The
    held flag then records whether a jump key is down.  Landing (the
    support snap) sets the counter to 0 and nothing else in the frame
    changes it. *)
Theorem jump_edge_triggered_two_charges (w : World) :
  let p := playerRef w in
  (isLootMenuOpen (stateRef w) = false ->
   let p' := playerRef (playerInput w) in
   e_isJumpKeyHeld p' = isJumpPressed w
   /\ (jumpFires w = true ->
       e_jumpCount p' = e_jumpCount p + 1 /\ e_vy p' = JUMP_FORCE)
   /\ (jumpFires w = false ->
       e_jumpCount p' = e_jumpCount p /\ e_vy p' = e_vy p))
  /\ (isLootMenuOpen (stateRef w) = true -> playerInput w = w)
  /\ (jumpFires w = true <->
      isJumpPressed w = true /\ e_isJumpKeyHeld p = false
      /\ e_jumpCount p < 2)
  /\ (forall g plat,
        playerLandsOn p plat = true ->
        e_jumpCount (playerRef (playerCollidePlatform (w, g) plat).1) = 0)
  /\ e_jumpCount (playerRef (playerCollision w).1)
     = (if (playerCollision w).2 then 0 else e_jumpCount p)
  /\ (let wi := playerInput (prelude w) in
      let wc := playerCollision (integratePlayer wi) in
      e_jumpCount (playerRef (simulate w))
      = (if wc.2 then 0 else e_jumpCount (playerRef wi))
      /\ e_isJumpKeyHeld (playerRef (simulate w))
         = e_isJumpKeyHeld (playerRef wi)
      /\ playerRef (prelude w) = p
      /\ jumpFires (prelude w) = jumpFires w
      /\ isJumpPressed (prelude w) = isJumpPressed w
      /\ isLootMenuOpen (stateRef (prelude w)) = isLootMenuOpen (stateRef w)).
Proof.
  cbv zeta.
  split; [apply playerInput_jump|].
  split; [intros Hm; unfold playerInput; rewrite Hm; reflexivity|].
  split.
  { unfold jumpFires. rewrite !andb_true_iff, negb_true_iff, Z.ltb_lt. tauto. }
  split.
  { intros g plat Hl. rewrite (playerCollidePlatform_lands w g plat Hl).
    reflexivity. }
  split; [apply playerCollision_jumpCount|].
  destruct (prelude_frame w) as (Hp & Hk & Hs & _).
  assert (Hj : isJumpPressed (prelude w) = isJumpPressed w).
  { unfold isJumpPressed, key. rewrite Hk. reflexivity. }
  destruct (sameMotion_afterCollision
              (playerCollision (integratePlayer (playerInput (prelude w)))).1)
    as (_ & _ & _ & _ & _ & Hc & Hh).
  destruct (playerCollision_jumpCount (integratePlayer (playerInput (prelude w))))
    as [Hc2 Hh2].
  rewrite simulate_afterCollision.
  split; [rewrite Hc, Hc2; reflexivity|].
  split; [rewrite Hh, Hh2; reflexivity|].
  split; [exact Hp|].
  split; [unfold jumpFires; rewrite Hj, Hp; reflexivity|].
  split; [exact Hj|].
  rewrite Hs. reflexivity.
Qed.

(** ** What a frame's simulation leaves alone

    Up to the game-end check, nothing writes the platforms, the
    inventory, the three extraction fields, the game-over flag or the
    log of [onGameOver] calls. *)
Definition frameKeeps (w w' : World) : Prop :=
  platformsRef w' = platformsRef w
  /\ inventoryRef w' = inventoryRef w
  /\ extractionActive (stateRef w') = extractionActive (stateRef w)
  /\ extractionZone (stateRef w') = extractionZone (stateRef w)
  /\ extractionFrameCount (stateRef w') = extractionFrameCount (stateRef w)
  /\ gameOver (stateRef w') = gameOver (stateRef w)
  /\ gameOverCalls w' = gameOverCalls w
  /\ heroType w' = heroType w.

Lemma frameKeeps_refl w : frameKeeps w w.
Proof. repeat split. Qed.

Lemma frameKeeps_trans w1 w2 w3 :
  frameKeeps w1 w2 -> frameKeeps w2 w3 -> frameKeeps w1 w3.
Proof.
  unfold frameKeeps. intros (?&?&?&?&?&?&?&?) (?&?&?&?&?&?&?&?).
  repeat split; congruence.
Qed.

Lemma frameKeeps_forEachEntity body :
  (forall i w, frameKeeps w (body i w)) ->
  forall w, frameKeeps w (forEachEntity body w).
Proof.
  intros Hb w.
  apply (forEachEntity_invariant (fun w' => frameKeeps w w'));
    [|apply frameKeeps_refl].
  intros i w' H. eapply frameKeeps_trans; [exact H|apply Hb].
Qed.

Lemma frameKeeps_prelude w : frameKeeps w (prelude w).
Proof.
  destruct (prelude_frame w) as (_ & _ & Hs & Hp & _ & Hi & _ & Hc).
  unfold frameKeeps. rewrite Hs, Hp, Hi, Hc.
  repeat split.
  unfold prelude, spawnRogue, spawnMob.
  repeat match goal with
         | |- context [if ?b then _ else _] => destruct b
         end; reflexivity.
Qed.

Lemma frameKeeps_inputLeft w d : frameKeeps w (inputLeft (w, d)).1.
Proof.
  unfold inputLeft.
  destruct (key w "KeyA" || key w "ArrowLeft"); repeat split.
Qed.

Lemma frameKeeps_inputRight w d : frameKeeps w (inputRight (w, d)).1.
Proof.
  unfold inputRight.
  destruct (key w "KeyD" || key w "ArrowRight"); repeat split.
Qed.

Lemma frameKeeps_inputJump w d : frameKeeps w (inputJump (w, d)).1.
Proof.
  unfold inputJump.
  repeat match goal with
         | |- context [if ?b then _ else _] => destruct b
         end; repeat split.
Qed.

Lemma frameKeeps_inputPotion w d : frameKeeps w (inputPotion (w, d)).1.
Proof.
  unfold inputPotion.
  repeat match goal with
         | |- context [if ?b then _ else _] => destruct b
         end; repeat split.
Qed.

Lemma frameKeeps_inputSearch w d : frameKeeps w (inputSearch (w, d)).
Proof.
  unfold inputSearch. cbv zeta.
  repeat match goal with
         | |- context [if ?b then _ else _] => destruct b
         end; repeat split.
Qed.

Lemma frameKeeps_playerInput w : frameKeeps w (playerInput w).
Proof.
  unfold playerInput.
  destruct (isLootMenuOpen (stateRef w)); [apply frameKeeps_refl|].
  pose proof (frameKeeps_inputLeft w false) as H1.
  destruct (inputLeft (w, false)) as [w1 d1]. cbn [fst] in H1.
  pose proof (frameKeeps_inputRight w1 d1) as H2.
  destruct (inputRight (w1, d1)) as [w2 d2]. cbn [fst] in H2.
  pose proof (frameKeeps_inputJump w2 d2) as H3.
  destruct (inputJump (w2, d2)) as [w3 d3]. cbn [fst] in H3.
  pose proof (frameKeeps_inputPotion w3 d3) as H4.
  destruct (inputPotion (w3, d3)) as [w4 d4]. cbn [fst] in H4.
  pose proof (frameKeeps_inputSearch w4 d4) as H5.
  repeat (eapply frameKeeps_trans; [eassumption|]). apply frameKeeps_refl.
Qed.

Lemma frameKeeps_playerCollision w : frameKeeps w (playerCollision w).1.
Proof.
  unfold playerCollision, playerCollisionOn.
  apply (fold_left_preserves playerCollidePlatform
           (fun a b => frameKeeps a.1 b.1)).
  - intros a. apply frameKeeps_refl.
  - intros a1 a2 a3. apply frameKeeps_trans.
  - intros [w1 g1] plat. unfold playerCollidePlatform.
    repeat match goal with
           | |- context [if ?b then _ else _] => destruct b
           end; repeat split.
Qed.

Lemma frameKeeps_readingLogic w : frameKeeps w (readingLogic w).
Proof.
  unfold readingLogic.
  destruct (interactionTarget (stateRef w)) as [i|]; [|apply frameKeeps_refl].
  destruct (isReading (stateRef w)); [|apply frameKeeps_refl].
  destruct (90 <=? _); [|repeat split].
  match goal with
  | |- frameKeeps _ (openChest i ?w1) =>
      destruct (openChest_fields i w1) as (_ & _ & Hs & _ & _ & Hi & Hc & Hp)
  end.
  unfold frameKeeps. rewrite Hs, Hi, Hc, Hp. repeat split.
  unfold openChest.
  match goal with
  | |- context [generateLoot ?w1] =>
      pose proof (generateLoot_world w1) as Hw;
      destruct (generateLoot w1) as [item w2]
  end.
  cbn [snd] in Hw. subst w2. unfold Math_random.
  destruct (Qltb _ 0.4); reflexivity.
Qed.

Lemma frameKeeps_countKill i w : frameKeeps w (countKill i w).
Proof. unfold countKill. split_ifs; repeat split. Qed.

Lemma frameKeeps_attackHit hb k i w : frameKeeps w (attackHit hb k i w).
Proof.
  unfold attackHit.
  destruct (entitiesRef w !! i) as [e|]; [|apply frameKeeps_refl].
  destruct (isHostile e && negb (e_isDead e) && rectIntersect hb (rectOfEntity e));
    [|apply frameKeeps_refl].
  eapply frameKeeps_trans; [|apply frameKeeps_countKill]. repeat split.
Qed.

Lemma frameKeeps_whirlwindHit i w : frameKeeps w (whirlwindHit i w).
Proof.
  unfold whirlwindHit.
  destruct (entitiesRef w !! i) as [e|]; [|apply frameKeeps_refl].
  destruct (isHostile e && negb (e_isDead e) && distanceBelow (playerRef w) e 150);
    [|apply frameKeeps_refl].
  eapply frameKeeps_trans; [|apply frameKeeps_countKill]. repeat split.
Qed.

Lemma frameKeeps_meteorHit x i w : frameKeeps w (meteorHit x i w).
Proof.
  unfold meteorHit.
  destruct (entitiesRef w !! i) as [e|]; [|apply frameKeeps_refl].
  match goal with
  | |- context [if ?b then _ else _] => destruct b
  end; [|apply frameKeeps_refl].
  eapply frameKeeps_trans; [|apply frameKeeps_countKill]. repeat split.
Qed.

Lemma frameKeeps_combat w : frameKeeps w (combat w).
Proof.
  unfold combat. destruct (isLootMenuOpen _); [apply frameKeeps_refl|].
  eapply frameKeeps_trans with (basicAttack w).
  - unfold basicAttack.
    destruct (key w "KeyJ" && (e_attackCooldown (playerRef w) <=? 0));
      [|apply frameKeeps_refl].
    eapply frameKeeps_trans;
      [|apply frameKeeps_forEachEntity; intros; apply frameKeeps_attackHit].
    repeat split.
  - unfold skill.
    match goal with
    | |- context [if ?b then _ else _] => destruct b
    end; [|apply frameKeeps_refl].
    destruct (heroType _).
    + eapply frameKeeps_trans;
        [|apply frameKeeps_forEachEntity; intros; apply frameKeeps_whirlwindHit].
      repeat split.
    + eapply frameKeeps_trans;
        [|apply frameKeeps_forEachEntity; intros; apply frameKeeps_meteorHit].
      repeat split.
Qed.

Lemma entityBody_aiLeaves e w : aiLeaves w (entityBody e w).2.
Proof.
  unfold entityBody.
  destruct (entityCollisionOn (platformsRef w) (integrateEntity e, false))
    as [e1 g].
  destruct (entityAI_frame g (entityTimers e1) w) as [_ H].
  destruct (entityAI g (entityTimers e1, w)) as [e2 w2]. exact H.
Qed.

Lemma frameKeeps_entityStep i w : frameKeeps w (entityStep i w).
Proof.
  unfold entityStep.
  destruct (entitiesRef w !! i) as [e|]; [|apply frameKeeps_refl].
  destruct (e_isDead e || bool_decide (e_type e = CHEST));
    [apply frameKeeps_refl|].
  pose proof (entityBody_aiLeaves e w) as H.
  destruct (entityBody e w) as [e' w']. cbn [snd] in H.
  unfold aiLeaves in H. unfold frameKeeps.
  destruct H as (_ & Hs & Hp & _ & Hi & Hc & _ & _ & _ & _ & _ & _ & _ & _ & _ & Hh & _).
  change (stateRef (withEntity i (fun _ => e') w')) with (stateRef w').
  rewrite Hs. repeat split; assumption.
Qed.

(** A frame's simulation up to the game-end check. *)
Definition beforeGameEnd (w : World) : World :=
  entityLoop
    (playerCooldowns
       (combat
          (readingLogic
             (playerCollision (integratePlayer (playerInput (prelude w)))).1))).

Lemma simulate_gameEnd w : simulate w = gameEnd (beforeGameEnd w).
Proof. cbv beta zeta delta [simulate beforeGameEnd prelude]. reflexivity. Qed.

Lemma frameKeeps_integratePlayer w : frameKeeps w (integratePlayer w).
Proof. repeat split. Qed.

Lemma frameKeeps_playerCooldowns w : frameKeeps w (playerCooldowns w).
Proof. repeat split. Qed.

Lemma frameKeeps_entityLoop w : frameKeeps w (entityLoop w).
Proof.
  apply frameKeeps_forEachEntity. intros. apply frameKeeps_entityStep.
Qed.

Lemma frameKeeps_beforeGameEnd w : frameKeeps w (beforeGameEnd w).
Proof.
  unfold beforeGameEnd.
  eapply frameKeeps_trans; [apply frameKeeps_prelude|].
  eapply frameKeeps_trans; [apply frameKeeps_playerInput|].
  eapply frameKeeps_trans; [apply frameKeeps_integratePlayer|].
  eapply frameKeeps_trans; [apply frameKeeps_playerCollision|].
  eapply frameKeeps_trans; [apply frameKeeps_readingLogic|].
  eapply frameKeeps_trans; [apply frameKeeps_combat|].
  eapply frameKeeps_trans; [apply frameKeeps_playerCooldowns|].
  apply frameKeeps_entityLoop.
Qed.

(** The game-end check writes the flag and the log, and only when the
    player's health is 0 or less. *)
Lemma gameEnd_fields w :
  let dead := Qleb (e_hp (playerRef w)) 0 in
  playerRef (gameEnd w) = playerRef w
  /\ platformsRef (gameEnd w) = platformsRef w
  /\ inventoryRef (gameEnd w) = inventoryRef w
  /\ killsRef (gameEnd w) = killsRef w
  /\ entitiesRef (gameEnd w) = entitiesRef w
  /\ extractionActive (stateRef (gameEnd w)) = extractionActive (stateRef w)
  /\ extractionZone (stateRef (gameEnd w)) = extractionZone (stateRef w)
  /\ extractionFrameCount (stateRef (gameEnd w))
     = extractionFrameCount (stateRef w)
  /\ time (stateRef (gameEnd w)) = time (stateRef w)
  /\ gameOver (stateRef (gameEnd w)) = (dead || gameOver (stateRef w))
  /\ gameOverCalls (gameEnd w)
     = gameOverCalls w ++ (if dead then [(false, 0, killsRef w)] else []).
Proof.
  cbv zeta. unfold gameEnd.
  destruct (Qleb (e_hp (playerRef w)) 0); repeat split;
    try reflexivity.
  rewrite app_nil_r. reflexivity.
Qed.

(** ** Extraction dwell (lines 1124-1139) *)

Lemma openExtraction_fields w w' :
  openExtraction w = Normal w' ->
  playerRef w' = playerRef w
  /\ inventoryRef w' = inventoryRef w
  /\ killsRef w' = killsRef w
  /\ gameOverCalls w' = gameOverCalls w
  /\ extractionFrameCount (stateRef w') = extractionFrameCount (stateRef w)
  /\ gameOver (stateRef w') = gameOver (stateRef w).
Proof.
  unfold openExtraction.
  destruct (time (stateRef w) =? 1800); cbv zeta; unfold Math_random.
  - destruct (jsIndex _ _); [|discriminate].
    intros H. inversion H. repeat split.
  - intros H. inversion H. repeat split.
Qed.

Lemma simulate_fields w :
  inventoryRef (simulate w) = inventoryRef w
  /\ extractionFrameCount (stateRef (simulate w))
     = extractionFrameCount (stateRef w)
  /\ platformsRef (simulate w) = platformsRef w
  /\ gameOverCalls (simulate w)
     = gameOverCalls w
       ++ (if Qleb (e_hp (playerRef (simulate w))) 0
           then [(false, 0, killsRef (simulate w))] else []).
Proof.
  rewrite simulate_gameEnd.
  destruct (frameKeeps_beforeGameEnd w) as (Hp & Hi & _ & _ & Hn & _ & Hc & _).
  destruct (gameEnd_fields (beforeGameEnd w))
    as (Hp' & Hpl' & Hi' & Hk' & _ & _ & _ & Hn' & _ & _ & Hc').
  rewrite Hi', Hn', Hpl', Hc', Hp', Hk', Hi, Hn, Hp, Hc. repeat split.
Qed.

Lemma inventoryTotal_sum items :
  inventoryTotal items = foldr Z.add 0 (item_value <$> items).
Proof.
  unfold inventoryTotal.
  assert (H : forall l a,
             fold_left (fun a b => a + item_value b) l a
             = a + foldr Z.add 0 (item_value <$> l)).
  { induction l as [|x l IH]; intros a.
    - rewrite fmap_nil. simpl. lia.
    - rewrite fmap_cons. simpl. rewrite IH. lia. }
  rewrite H. lia.
Qed.

(** What the dwell check does, given the zone. *)
Lemma extractionDwell_fields w zone :
  extractionActive (stateRef w) = true ->
  extractionZone (stateRef w) = Some zone ->
  let n := extractionFrameCount (stateRef w) in
  let inZone := rectIntersect (rectOfEntity (playerRef w)) zone in
  let success := inZone && (180 <? n + 1) in
  extractionFrameCount (stateRef (extractionDwell w))
  = (if inZone then n + 1 else 0)
  /\ gameOverCalls (extractionDwell w)
     = gameOverCalls w
       ++ (if success
           then [(true, inventoryTotal (inventoryRef w), killsRef w)]
           else [])
  /\ gameOver (stateRef (extractionDwell w))
     = (success || gameOver (stateRef w)).
Proof.
  intros Ha Hz. cbv zeta. unfold extractionDwell. rewrite Hz, Ha.
  destruct (rectIntersect _ zone); cbn [andb orb].
  - cbn [stateRef withStateRef set_stateRef extractionFrameCount
           set_extractionFrameCount].
    destruct (180 <? extractionFrameCount (stateRef w) + 1);
      repeat split; try reflexivity.
    rewrite app_nil_r. reflexivity.
  - repeat split. rewrite app_nil_r. reflexivity.
Qed.

(** C4.  In a frame in which extraction is active when the dwell check
    runs, the dwell counter becomes its old value plus 1 when the
    player intersects the zone and 0 when it does not; the success call
    [onGameOver(true, total, kills)] is made, with the sum of the
    inventory's item values and the kill count, exactly when the
    player is in the zone and the new counter value exceeds 180, and
    the game-over flag is then set. *)
Theorem extraction_dwell_counts_continuous_frames
    (w0 w : World) (zone : Rect) :
  gameOver (stateRef w0) = false ->
  openExtraction (simulate w0) = Normal w ->
  extractionActive (stateRef w) = true ->
  extractionZone (stateRef w) = Some zone ->
  let n := extractionFrameCount (stateRef w0) in
  let inZone := rectIntersect (rectOfEntity (playerRef w)) zone in
  let success := inZone && (180 <? n + 1) in
  let w' := (loop w0).1 in
  (loop w0).2 = true
  /\ extractionFrameCount (stateRef w') = (if inZone then n + 1 else 0)
  /\ gameOverCalls w'
     = gameOverCalls (simulate w0)
       ++ (if success
           then [(true, foldr Z.add 0 (item_value <$> inventoryRef w0),
                  killsRef w)]
           else [])
  /\ (success = true -> gameOver (stateRef w') = true).
Proof.
  intros Hg Ho Ha Hz. cbv zeta. unfold loop. rewrite Hg, Ho. cbn [fst snd].
  destruct (extractionDwell_fields w zone Ha Hz) as (Hn & Hc & Hf).
  destruct (openExtraction_fields _ _ Ho) as (_ & Hi & _ & Hc0 & Hn0 & _).
  destruct (simulate_fields w0) as (Hi1 & Hn1 & _).
  destruct (render_eq (extractionDwell w)) as (nr & _ & ->).
  change (stateRef (renderAt nr (extractionDwell w)))
    with (set_cameraY
            (cameraY (stateRef (extractionDwell w))
             + (e_y (playerRef (extractionDwell w)) - CANVAS_HEIGHT / 2
                - cameraY (stateRef (extractionDwell w))) * 0.1)%Q
            (set_cameraX
               (cameraX (stateRef (extractionDwell w))
                + (e_x (playerRef (extractionDwell w)) - CANVAS_WIDTH / 2
                   - cameraX (stateRef (extractionDwell w))) * 0.1)%Q
               (stateRef (extractionDwell w)))).
  change (gameOverCalls (renderAt nr (extractionDwell w)))
    with (gameOverCalls (extractionDwell w)).
  cbn [extractionFrameCount set_cameraX set_cameraY gameOver].
  rewrite Hn, Hc, Hf, Hn0, Hn1, Hc0, Hi, Hi1, inventoryTotal_sum.
  repeat split.
  intros ->. reflexivity.
Qed.

(** The zone over the starting platform, the landed player inside it
    with 180 frames of dwell and three items in the bag. *)
Definition startZone : Rect :=
  extractionZoneOver (mkPlatform (-200) 0 400 40 DIRT).

Definition threeItems : list Item :=
  [ mkItem 0.1 "COMMON Coin" COMMON 5 "#2ecc71";
    mkItem 0.2 "LEGENDARY Gem" LEGENDARY 40 "#f1c40f";
    mkItem 0.3 "MYTHIC Crown" MYTHIC 300 "#e74c3c" ].

Definition dwellWorld : World :=
  set_inventoryRef threeItems
    (withStateRef
       (fun s => set_extractionFrameCount 180
                   (set_extractionZone (Some startZone)
                      (set_extractionActive true (set_time 2400 s))))
       landedWorld).

(** The world of [dwellWorld]'s next frame when the dwell check runs. *)
Definition dwellChecked : World :=
  match openExtraction (simulate dwellWorld) with
  | Normal w => w
  | Thrown w => w
  end.

Lemma extraction_dwell_succeeds_at_181 :
  gameOver (stateRef dwellWorld) = false
  /\ openExtraction (simulate dwellWorld) = Normal dwellChecked
  /\ extractionActive (stateRef dwellChecked) = true
  /\ extractionZone (stateRef dwellChecked) = Some startZone
  /\ (loop dwellWorld).2 = true
  /\ extractionFrameCount (stateRef (loop dwellWorld).1) = 181
  /\ gameOverCalls (loop dwellWorld).1 = [(true, 345, 0)]
  /\ gameOver (stateRef (loop dwellWorld).1) = true.
Proof.
  assert (H1 : gameOver (stateRef dwellWorld) = false)
    by (vm_compute; reflexivity).
  assert (H2 : openExtraction (simulate dwellWorld) = Normal dwellChecked)
    by (vm_compute; reflexivity).
  assert (H3 : extractionActive (stateRef dwellChecked) = true)
    by (vm_compute; reflexivity).
  assert (H4 : extractionZone (stateRef dwellChecked) = Some startZone)
    by (vm_compute; reflexivity).
  destruct (extraction_dwell_counts_continuous_frames
              dwellWorld dwellChecked startZone H1 H2 H3 H4)
    as (A & B & C & D).
  split; [exact H1|]. split; [exact H2|]. split; [exact H3|].
  split; [exact H4|]. split; [exact A|].
  split; [rewrite B; vm_compute; reflexivity|].
  split; [rewrite C; vm_compute; reflexivity|].
  apply D. vm_compute. reflexivity.
Defined.

(** One frame outside the zone puts the counter back to 0. *)
Example extraction_dwell_resets_outside_zone :
  let w := withPlayer (set_e_x 100) dwellWorld in
  extractionFrameCount (stateRef w) = 180
  /\ extractionFrameCount (stateRef (loop w).1) = 0
  /\ gameOverCalls (loop w).1 = [].
Proof. vm_compute. repeat split. Qed.

(** ** How the entity array evolves within a frame

    After the spawns, the array keeps its length; combat and the entity
    loop keep every element's kind and opened flag and never clear a
    dead flag. *)
Definition sameKind (e e' : Entity) : Prop :=
  e_type e' = e_type e
  /\ e_isOpened e' = e_isOpened e
  /\ (e_isDead e = true -> e_isDead e' = true).

Definition entitiesEvolve (w w' : World) : Prop :=
  Forall2 sameKind (entitiesRef w) (entitiesRef w').

Lemma sameKind_refl e : sameKind e e.
Proof. repeat split. auto. Qed.

Lemma sameKind_trans e1 e2 e3 :
  sameKind e1 e2 -> sameKind e2 e3 -> sameKind e1 e3.
Proof.
  intros (H1 & H2 & H3) (H4 & H5 & H6). repeat split; try congruence. auto.
Qed.

Lemma entitiesEvolve_refl w : entitiesEvolve w w.
Proof.
  apply Forall_Forall2_diag, Forall_forall. intros. apply sameKind_refl.
Qed.

Lemma entitiesEvolve_eq w w' :
  entitiesRef w' = entitiesRef w -> entitiesEvolve w w'.
Proof.
  intros H. unfold entitiesEvolve. rewrite H.
  apply Forall_Forall2_diag, Forall_forall. intros. apply sameKind_refl.
Qed.

Lemma entitiesEvolve_trans w1 w2 w3 :
  entitiesEvolve w1 w2 -> entitiesEvolve w2 w3 -> entitiesEvolve w1 w3.
Proof.
  unfold entitiesEvolve. intros H12 H23.
  apply Forall2_same_length_lookup in H12 as [Hl12 H12].
  apply Forall2_same_length_lookup in H23 as [Hl23 H23].
  apply Forall2_same_length_lookup. split; [congruence|].
  intros i x z Hx Hz.
  destruct (lookup_lt_is_Some_2 (entitiesRef w2) i) as [y Hy].
  { rewrite <- Hl12. eapply lookup_lt_Some; eassumption. }
  eapply sameKind_trans; eauto.
Qed.

Lemma entitiesEvolve_withEntity i f w :
  (forall e, sameKind e (f e)) ->
  entitiesEvolve w (withEntity i f w).
Proof.
  intros Hf. unfold entitiesEvolve, withEntity.
  change (entitiesRef (set_entitiesRef (alter f i (entitiesRef w)) w))
    with (alter f i (entitiesRef w)).
  apply Forall2_alter_r.
  - apply Forall_Forall2_diag, Forall_forall. intros. apply sameKind_refl.
  - intros x y Hx Hy _. assert (x = y) by congruence. subst y. apply Hf.
Qed.

Lemma entitiesEvolve_forEachEntity body :
  (forall i w, entitiesEvolve w (body i w)) ->
  forall w, entitiesEvolve w (forEachEntity body w).
Proof.
  intros Hb w.
  apply (forEachEntity_invariant (fun w' => entitiesEvolve w w'));
    [|apply entitiesEvolve_refl].
  intros i w' H. eapply entitiesEvolve_trans; [exact H|apply Hb].
Qed.

Lemma entitiesRef_countKill i w : entitiesRef (countKill i w) = entitiesRef w.
Proof. unfold countKill. split_ifs; reflexivity. Qed.

Lemma entitiesEvolve_attackHit hb k i w :
  entitiesEvolve w (attackHit hb k i w).
Proof.
  unfold attackHit.
  destruct (entitiesRef w !! i) as [e|]; [|apply entitiesEvolve_refl].
  destruct (isHostile e && negb (e_isDead e) && rectIntersect hb (rectOfEntity e));
    [|apply entitiesEvolve_refl].
  unfold entitiesEvolve. rewrite entitiesRef_countKill, entitiesRef_pushText.
  apply entitiesEvolve_withEntity. intros e0. repeat split. auto.
Qed.

Lemma entitiesEvolve_whirlwindHit i w : entitiesEvolve w (whirlwindHit i w).
Proof.
  unfold whirlwindHit.
  destruct (entitiesRef w !! i) as [e|]; [|apply entitiesEvolve_refl].
  destruct (isHostile e && negb (e_isDead e) && distanceBelow (playerRef w) e 150);
    [|apply entitiesEvolve_refl].
  unfold entitiesEvolve. rewrite entitiesRef_countKill, entitiesRef_pushText.
  apply entitiesEvolve_withEntity. intros e0. repeat split. auto.
Qed.

Lemma entitiesEvolve_meteorHit x i w : entitiesEvolve w (meteorHit x i w).
Proof.
  unfold meteorHit.
  destruct (entitiesRef w !! i) as [e|]; [|apply entitiesEvolve_refl].
  match goal with
  | |- context [if ?b then _ else _] => destruct b
  end; [|apply entitiesEvolve_refl].
  unfold entitiesEvolve. rewrite entitiesRef_countKill, entitiesRef_pushText.
  apply entitiesEvolve_withEntity. intros e0. repeat split. auto.
Qed.

Lemma entitiesEvolve_basicAttack w : entitiesEvolve w (basicAttack w).
Proof.
  unfold basicAttack.
  destruct (key w "KeyJ" && (e_attackCooldown (playerRef w) <=? 0));
    [|apply entitiesEvolve_refl].
  eapply entitiesEvolve_trans;
    [|apply entitiesEvolve_forEachEntity; intros; apply entitiesEvolve_attackHit].
  apply entitiesEvolve_eq. reflexivity.
Qed.

Lemma entitiesEvolve_skill w : entitiesEvolve w (skill w).
Proof.
  unfold skill.
  match goal with
  | |- context [if ?b then _ else _] => destruct b
  end; [|apply entitiesEvolve_refl].
  destruct (heroType _).
  - eapply entitiesEvolve_trans;
      [|apply entitiesEvolve_forEachEntity; intros;
        apply entitiesEvolve_whirlwindHit].
    apply entitiesEvolve_eq. reflexivity.
  - eapply entitiesEvolve_trans;
      [|apply entitiesEvolve_forEachEntity; intros;
        apply entitiesEvolve_meteorHit].
    apply entitiesEvolve_eq. reflexivity.
Qed.

Lemma entitiesEvolve_combat w : entitiesEvolve w (combat w).
Proof.
  unfold combat. destruct (isLootMenuOpen _); [apply entitiesEvolve_refl|].
  eapply entitiesEvolve_trans;
    [apply entitiesEvolve_basicAttack|apply entitiesEvolve_skill].
Qed.

Lemma entityCollisionOn_sameKind plats e g :
  sameKind e (entityCollisionOn plats (e, g)).1
  /\ e_isDead (entityCollisionOn plats (e, g)).1 = e_isDead e.
Proof.
  apply (entityCollisionOn_preserves
           (fun e e' => sameKind e e' /\ e_isDead e' = e_isDead e)).
  - intros e0. split; [apply sameKind_refl|reflexivity].
  - intros e1 e2 e3 [H1 H2] [H3 H4].
    split; [eapply sameKind_trans; eassumption|congruence].
  - intros e0 g0 plat. unfold entityCollidePlatform.
    split_ifs; repeat split; auto.
Qed.

Lemma entityBody_sameKind e w : sameKind e (entityBody e w).1.
Proof.
  unfold entityBody.
  destruct (entityCollisionOn_sameKind (platformsRef w) (integrateEntity e) false)
    as [Hc _].
  destruct (entityCollisionOn (platformsRef w) (integrateEntity e, false))
    as [e1 g]. cbn [fst] in Hc.
  destruct (entityAI_frame g (entityTimers e1) w) as [Ha _].
  destruct (entityAI g (entityTimers e1, w)) as [e2 w2]. cbn [fst] in *.
  destruct Ha as (_ & _ & _ & Ht & Hd & Ho & _).
  assert (H0 : sameKind e (integrateEntity e)).
  { unfold integrateEntity. split_ifs; repeat split; auto. }
  assert (H2 : sameKind e1 e2).
  { repeat split; try assumption. intros H. rewrite Hd. exact H. }
  assert (H3 : sameKind e2 (entityFinish e2)).
  { unfold entityFinish. split_ifs; repeat split; auto. }
  eapply sameKind_trans; [exact H0|].
  eapply sameKind_trans; [exact Hc|].
  eapply sameKind_trans; [exact H2|exact H3].
Qed.

Lemma entitiesEvolve_entityStep i w : entitiesEvolve w (entityStep i w).
Proof.
  unfold entityStep.
  destruct (entitiesRef w !! i) as [e|] eqn:Hi; [|apply entitiesEvolve_refl].
  destruct (e_isDead e || bool_decide (e_type e = CHEST));
    [apply entitiesEvolve_refl|].
  pose proof (entityBody_sameKind e w) as Hk.
  pose proof (entitiesRef_entityBody e w) as He.
  destruct (entityBody e w) as [e' w']. cbn [fst snd] in Hk, He.
  unfold entitiesEvolve, withEntity.
  change (entitiesRef (set_entitiesRef (alter (fun _ => e') i (entitiesRef w')) w'))
    with (alter (fun _ : Entity => e') i (entitiesRef w')).
  rewrite He. apply Forall2_alter_r.
  - apply Forall_Forall2_diag, Forall_forall. intros. apply sameKind_refl.
  - intros x y Hx Hy _. assert (x = e) by congruence. subst x. exact Hk.
Qed.

Lemma entitiesEvolve_entityLoop w : entitiesEvolve w (entityLoop w).
Proof.
  apply entitiesEvolve_forEachEntity. intros. apply entitiesEvolve_entityStep.
Qed.

(** ** Search dwell (lines 869-881 and 913-935) *)

(** The reading state: the four session fields of the search and the
    modal. *)
Definition readingKept (w w' : World) : Prop :=
  readingTimer (stateRef w') = readingTimer (stateRef w)
  /\ isReading (stateRef w') = isReading (stateRef w)
  /\ isLootMenuOpen (stateRef w') = isLootMenuOpen (stateRef w)
  /\ interactionTarget (stateRef w') = interactionTarget (stateRef w)
  /\ lootModal w' = lootModal w.

Lemma readingKept_refl w : readingKept w w.
Proof. repeat split. Qed.

Lemma readingKept_trans w1 w2 w3 :
  readingKept w1 w2 -> readingKept w2 w3 -> readingKept w1 w3.
Proof.
  unfold readingKept. intros (?&?&?&?&?) (?&?&?&?&?).
  repeat split; congruence.
Qed.

Lemma readingKept_forEachEntity body :
  (forall i w, readingKept w (body i w)) ->
  forall w, readingKept w (forEachEntity body w).
Proof.
  intros Hb w.
  apply (forEachEntity_invariant (fun w' => readingKept w w'));
    [|apply readingKept_refl].
  intros i w' H. eapply readingKept_trans; [exact H|apply Hb].
Qed.

Lemma readingKept_countKill i w : readingKept w (countKill i w).
Proof. unfold countKill. split_ifs; repeat split. Qed.

Lemma readingKept_attackHit hb k i w : readingKept w (attackHit hb k i w).
Proof.
  unfold attackHit.
  destruct (entitiesRef w !! i) as [e|]; [|apply readingKept_refl].
  destruct (isHostile e && negb (e_isDead e) && rectIntersect hb (rectOfEntity e));
    [|apply readingKept_refl].
  eapply readingKept_trans; [|apply readingKept_countKill]. repeat split.
Qed.

Lemma readingKept_whirlwindHit i w : readingKept w (whirlwindHit i w).
Proof.
  unfold whirlwindHit.
  destruct (entitiesRef w !! i) as [e|]; [|apply readingKept_refl].
  destruct (isHostile e && negb (e_isDead e) && distanceBelow (playerRef w) e 150);
    [|apply readingKept_refl].
  eapply readingKept_trans; [|apply readingKept_countKill]. repeat split.
Qed.

Lemma readingKept_meteorHit x i w : readingKept w (meteorHit x i w).
Proof.
  unfold meteorHit.
  destruct (entitiesRef w !! i) as [e|]; [|apply readingKept_refl].
  match goal with
  | |- context [if ?b then _ else _] => destruct b
  end; [|apply readingKept_refl].
  eapply readingKept_trans; [|apply readingKept_countKill]. repeat split.
Qed.

Lemma readingKept_combat w : readingKept w (combat w).
Proof.
  unfold combat. destruct (isLootMenuOpen _); [apply readingKept_refl|].
  eapply readingKept_trans with (basicAttack w).
  - unfold basicAttack.
    destruct (key w "KeyJ" && (e_attackCooldown (playerRef w) <=? 0));
      [|apply readingKept_refl].
    eapply readingKept_trans;
      [|apply readingKept_forEachEntity; intros; apply readingKept_attackHit].
    repeat split.
  - unfold skill.
    match goal with
    | |- context [if ?b then _ else _] => destruct b
    end; [|apply readingKept_refl].
    destruct (heroType _).
    + eapply readingKept_trans;
        [|apply readingKept_forEachEntity; intros;
          apply readingKept_whirlwindHit].
      repeat split.
    + eapply readingKept_trans;
        [|apply readingKept_forEachEntity; intros; apply readingKept_meteorHit].
      repeat split.
Qed.

Lemma readingKept_playerCooldowns w : readingKept w (playerCooldowns w).
Proof. repeat split. Qed.

Lemma readingKept_entityStep i w : readingKept w (entityStep i w).
Proof.
  unfold entityStep.
  destruct (entitiesRef w !! i) as [e|]; [|apply readingKept_refl].
  destruct (e_isDead e || bool_decide (e_type e = CHEST));
    [apply readingKept_refl|].
  pose proof (entityBody_aiLeaves e w) as H.
  destruct (entityBody e w) as [e' w']. cbn [snd] in H.
  destruct H as (_ & Hs & _ & _ & _ & _ & Hm & _).
  unfold readingKept.
  change (stateRef (withEntity i (fun _ => e') w')) with (stateRef w').
  change (lootModal (withEntity i (fun _ => e') w')) with (lootModal w').
  rewrite Hs, Hm. repeat split.
Qed.

Lemma readingKept_entityLoop w : readingKept w (entityLoop w).
Proof.
  apply readingKept_forEachEntity. intros. apply readingKept_entityStep.
Qed.

Lemma readingKept_gameEnd w : readingKept w (gameEnd w).
Proof. unfold gameEnd. split_ifs; repeat split. Qed.

(** From the reading logic to the end of [simulate]. *)
Definition afterReading (w : World) : World :=
  gameEnd (entityLoop (playerCooldowns (combat w))).

Lemma afterCollision_afterReading w :
  afterCollision w = afterReading (readingLogic w).
Proof. unfold afterCollision, afterReading. reflexivity. Qed.

Lemma readingKept_afterReading w : readingKept w (afterReading w).
Proof.
  unfold afterReading.
  eapply readingKept_trans; [apply readingKept_combat|].
  eapply readingKept_trans; [apply readingKept_playerCooldowns|].
  eapply readingKept_trans; [apply readingKept_entityLoop|].
  apply readingKept_gameEnd.
Qed.

Lemma entitiesEvolve_afterReading w : entitiesEvolve w (afterReading w).
Proof.
  unfold afterReading.
  eapply entitiesEvolve_trans; [apply entitiesEvolve_combat|].
  eapply entitiesEvolve_trans;
    [apply entitiesEvolve_eq with (w' := playerCooldowns (combat w));
     reflexivity|].
  eapply entitiesEvolve_trans; [apply entitiesEvolve_entityLoop|].
  apply entitiesEvolve_eq. unfold gameEnd. split_ifs; reflexivity.
Qed.

(** The local [didMove] when the search is reached: a left or right
    key is down, or the jump fired. *)
Definition movementInput (w : World) : bool :=
  key w "KeyA" || key w "ArrowLeft"
  || (key w "KeyD" || key w "ArrowRight")
  || jumpFires w.

(** What left, right, jump and potion leave alone for the search. *)
Definition searchSame (w w' : World) : Prop :=
  stateRef w' = stateRef w
  /\ entitiesRef w' = entitiesRef w
  /\ lootModal w' = lootModal w
  /\ key w' "KeyH" = key w "KeyH"
  /\ e_x (playerRef w') = e_x (playerRef w)
  /\ e_y (playerRef w') = e_y (playerRef w)
  /\ e_width (playerRef w') = e_width (playerRef w)
  /\ e_height (playerRef w') = e_height (playerRef w).

Lemma searchSame_trans w1 w2 w3 :
  searchSame w1 w2 -> searchSame w2 w3 -> searchSame w1 w3.
Proof.
  unfold searchSame. intros (?&?&?&?&?&?&?&?) (?&?&?&?&?&?&?&?).
  repeat split; congruence.
Qed.

Lemma inputLeft_search w d :
  searchSame w (inputLeft (w, d)).1
  /\ (inputLeft (w, d)).2 = (key w "KeyA" || key w "ArrowLeft" || d).
Proof.
  unfold inputLeft.
  destruct (key w "KeyA" || key w "ArrowLeft"); repeat split.
Qed.

Lemma inputRight_search w d :
  searchSame w (inputRight (w, d)).1
  /\ (inputRight (w, d)).2 = (key w "KeyD" || key w "ArrowRight" || d).
Proof.
  unfold inputRight.
  destruct (key w "KeyD" || key w "ArrowRight"); repeat split.
Qed.

Lemma inputJump_search w d :
  searchSame w (inputJump (w, d)).1
  /\ (inputJump (w, d)).2 = (jumpFires w || d).
Proof.
  unfold inputJump, jumpFires.
  destruct (isJumpPressed w); cbn [andb orb]; [|repeat split].
  destruct (e_isJumpKeyHeld (playerRef w)); cbn [negb andb orb];
    [repeat split|].
  destruct (e_jumpCount (playerRef w) <? 2); cbn [orb]; [|repeat split].
  match goal with
  | |- context [if ?b then _ else _] => destruct b
  end; repeat split.
Qed.

Lemma inputPotion_search w d :
  searchSame w (inputPotion (w, d)).1 /\ (inputPotion (w, d)).2 = d.
Proof.
  unfold inputPotion.
  match goal with
  | |- context [if ?b then _ else _] => destruct b
  end; [|repeat split].
  split; [|reflexivity]. unfold searchSame. cbn [fst].
  split; [reflexivity|]. split; [reflexivity|]. split; [reflexivity|].
  split; [|repeat split].
  rewrite key_insert_ne by discriminate. reflexivity.
Qed.

Lemma findChest_searchSame w w' : searchSame w w' -> findChest w' = findChest w.
Proof.
  intros (_ & He & _ & _ & Hx & Hy & Hw & Hh).
  unfold findChest. rewrite He. f_equal.
  apply list_find_ext. intros e.
  unfold isSearchable, distanceBelow, getDistanceSq.
  rewrite Hx, Hy, Hw, Hh. reflexivity.
Qed.

Lemma key_withStateRef f w c : key (withStateRef f w) c = key w c.
Proof. reflexivity. Qed.

Lemma inputSearch_fields w d :
  let chest := findChest w in
  let cancel := isReading (stateRef w) && d in
  let latch := key w "KeyH" && bool_decide (is_Some chest) in
  let s' := stateRef (inputSearch (w, d)) in
  interactionTarget s' = chest
  /\ readingTimer s' = (if cancel then 0 else readingTimer (stateRef w))
  /\ isReading s' = (if cancel then latch else isReading (stateRef w) || latch)
  /\ isLootMenuOpen s' = isLootMenuOpen (stateRef w)
  /\ entitiesRef (inputSearch (w, d)) = entitiesRef w
  /\ lootModal (inputSearch (w, d)) = lootModal w.
Proof.
  cbv zeta. unfold inputSearch. cbv zeta.
  change (isReading (stateRef (withStateRef (set_interactionTarget (findChest w)) w)))
    with (isReading (stateRef w)).
  destruct (isReading (stateRef w)) eqn:Hr; destruct d; cbn [andb orb];
    rewrite ?key_withStateRef;
    destruct (key w "KeyH"); destruct (bool_decide (is_Some (findChest w)));
    cbn [andb orb negb stateRef withStateRef set_stateRef isReading
           set_isReading set_readingTimer set_interactionTarget];
    try rewrite Hr; cbn [andb orb negb];
    repeat split; try reflexivity; try assumption.
Qed.

Lemma keysRef_inputLeft w d : keysRef (inputLeft (w, d)).1 = keysRef w.
Proof.
  unfold inputLeft. destruct (key w "KeyA" || key w "ArrowLeft"); reflexivity.
Qed.

Lemma keysRef_inputRight w d : keysRef (inputRight (w, d)).1 = keysRef w.
Proof.
  unfold inputRight. destruct (key w "KeyD" || key w "ArrowRight"); reflexivity.
Qed.

(** The input phase as the search sees it. *)
Lemma playerInput_search w :
  isLootMenuOpen (stateRef w) = false ->
  let chest := findChest w in
  let cancel := isReading (stateRef w) && movementInput w in
  let latch := key w "KeyH" && bool_decide (is_Some chest) in
  let s' := stateRef (playerInput w) in
  interactionTarget s' = chest
  /\ readingTimer s' = (if cancel then 0 else readingTimer (stateRef w))
  /\ isReading s' = (if cancel then latch else isReading (stateRef w) || latch)
  /\ isLootMenuOpen s' = false
  /\ entitiesRef (playerInput w) = entitiesRef w
  /\ lootModal (playerInput w) = lootModal w.
Proof.
  intros Hm. cbv zeta. unfold playerInput. rewrite Hm.
  destruct (inputLeft_search w false) as [S1 D1].
  pose proof (keysRef_inputLeft w false) as K1.
  pose proof (inputLeft_sameJump w false) as J1.
  destruct (inputLeft (w, false)) as [w1 d1]. cbn [fst snd] in *.
  destruct (inputRight_search w1 d1) as [S2 D2].
  pose proof (keysRef_inputRight w1 d1) as K2.
  pose proof (inputRight_sameJump w1 d1) as J2.
  destruct (inputRight (w1, d1)) as [w2 d2]. cbn [fst snd] in *.
  destruct (inputJump_search w2 d2) as [S3 D3].
  destruct (inputJump (w2, d2)) as [w3 d3]. cbn [fst snd] in *.
  destruct (inputPotion_search w3 d3) as [S4 D4].
  destruct (inputPotion (w3, d3)) as [w4 d4]. cbn [fst snd] in *.
  assert (S : searchSame w w4).
  { eapply searchSame_trans; [exact S1|].
    eapply searchSame_trans; [exact S2|].
    eapply searchSame_trans; [exact S3|exact S4]. }
  assert (D : d4 = movementInput w).
  { rewrite D4, D3, D2, D1. unfold movementInput.
    rewrite (jumpFires_sameJump w1 w2 J2), (jumpFires_sameJump w w1 J1).
    unfold key. rewrite K1.
    destruct (default false (keysRef w !! "KeyA"));
      destruct (default false (keysRef w !! "ArrowLeft"));
      destruct (default false (keysRef w !! "KeyD"));
      destruct (default false (keysRef w !! "ArrowRight"));
      destruct (jumpFires w); reflexivity. }
  rewrite D. clear D D1 D2 D3 D4.
  destruct (inputSearch_fields w4 (movementInput w))
    as (F1 & F2 & F3 & F4 & F5 & F6).
  rewrite (findChest_searchSame w w4 S) in F1, F3.
  destruct S as (Hs & He & Hl & Hk & _).
  rewrite Hs in F2, F3. rewrite Hk in F3. rewrite Hs, Hm in F4.
  rewrite He in F5. rewrite Hl in F6.
  repeat split; assumption.
Qed.

Lemma readingLogic_idle w :
  isReading (stateRef w) && bool_decide (is_Some (interactionTarget (stateRef w)))
  = false ->
  readingLogic w = w.
Proof.
  intros H. unfold readingLogic.
  destruct (interactionTarget (stateRef w)) as [i|]; [|reflexivity].
  destruct (isReading (stateRef w)); [|reflexivity].
  cbn in H. discriminate H.
Qed.

Lemma readingLogic_counts w i :
  isReading (stateRef w) = true ->
  interactionTarget (stateRef w) = Some i ->
  readingTimer (stateRef w) + 1 < 90 ->
  readingLogic w
  = withStateRef (fun s => set_readingTimer (readingTimer s + 1) s) w.
Proof.
  intros Hr Ht Hlt. unfold readingLogic. rewrite Ht, Hr.
  cbn [stateRef withStateRef set_stateRef readingTimer set_readingTimer].
  destruct (90 <=? readingTimer (stateRef w) + 1) eqn:E; [|reflexivity].
  apply Z.leb_le in E. lia.
Qed.

Lemma readingLogic_opens w i :
  isReading (stateRef w) = true ->
  interactionTarget (stateRef w) = Some i ->
  90 <= readingTimer (stateRef w) + 1 ->
  readingLogic w
  = openChest i
      (withStateRef (fun s => set_readingTimer (readingTimer s + 1) s) w).
Proof.
  intros Hr Ht Hge. unfold readingLogic. rewrite Ht, Hr.
  cbn [stateRef withStateRef set_stateRef readingTimer set_readingTimer].
  destruct (90 <=? readingTimer (stateRef w) + 1) eqn:E; [reflexivity|].
  apply Z.leb_gt in E. lia.
Qed.

Lemma findChest_Some w i :
  findChest w = Some i ->
  exists e,
    entitiesRef w !! i = Some e /\ e_type e = CHEST
    /\ e_isDead e = false /\ e_isOpened e <> Some true
    /\ distanceBelow (playerRef w) e 100 = true.
Proof.
  unfold findChest. intros H.
  destruct (list_find _ _) as [[j e]|] eqn:Hf; [|discriminate].
  cbn in H. inversion H; subst j.
  apply list_find_Some in Hf as (Hi & Hp & _).
  exists e. unfold isSearchable in Hp.
  rewrite !andb_true_iff, !negb_true_iff in Hp.
  destruct Hp as [[[Ht Hd] Ho] Hdist].
  apply bool_decide_eq_true_1 in Ht.
  repeat split; try assumption.
  intros Hc. rewrite Hc in Ho. discriminate.
Qed.

(** ** The entity array across a frame and the spawn caps
    (lines 800-823) *)

(** What every write of a frame respects in an array element: its
    kind, a set dead flag and a set opened flag. *)
Definition keeps (e e' : Entity) : Prop :=
  e_type e' = e_type e
  /\ (e_isDead e = true -> e_isDead e' = true)
  /\ (e_isOpened e = Some true -> e_isOpened e' = Some true).

Lemma keeps_refl e : keeps e e.
Proof. repeat split; auto. Qed.

Lemma keeps_trans e1 e2 e3 : keeps e1 e2 -> keeps e2 e3 -> keeps e1 e3.
Proof.
  intros (H1 & H2 & H3) (H4 & H5 & H6). repeat split; auto. congruence.
Qed.

Lemma sameKind_keeps e e' : sameKind e e' -> keeps e e'.
Proof.
  intros (H1 & H2 & H3). repeat split; auto. intros H. congruence.
Qed.

Lemma Forall2_keeps_refl l : Forall2 keeps l l.
Proof. apply Forall_Forall2_diag, Forall_forall. intros. apply keeps_refl. Qed.

Lemma Forall2_keeps_trans l1 l2 l3 :
  Forall2 keeps l1 l2 -> Forall2 keeps l2 l3 -> Forall2 keeps l1 l3.
Proof.
  intros H12 H23.
  apply Forall2_same_length_lookup in H12 as [Hl12 H12].
  apply Forall2_same_length_lookup in H23 as [Hl23 H23].
  apply Forall2_same_length_lookup. split; [congruence|].
  intros i x z Hx Hz.
  destruct (lookup_lt_is_Some_2 l2 i) as [y Hy].
  { rewrite <- Hl12. eapply lookup_lt_Some; eassumption. }
  eapply keeps_trans; eauto.
Qed.

Lemma entitiesEvolve_keeps w w' :
  entitiesEvolve w w' -> Forall2 keeps (entitiesRef w) (entitiesRef w').
Proof.
  unfold entitiesEvolve. intros H.
  eapply Forall2_impl; [exact H|]. intros x y. apply sameKind_keeps.
Qed.

Lemma entitiesRef_withStateRef f w :
  entitiesRef (withStateRef f w) = entitiesRef w.
Proof. reflexivity. Qed.

Lemma readingLogic_keeps w :
  Forall2 keeps (entitiesRef w) (entitiesRef (readingLogic w)).
Proof.
  unfold readingLogic.
  destruct (interactionTarget (stateRef w)) as [i|]; [|apply Forall2_keeps_refl].
  destruct (isReading (stateRef w)); [|apply Forall2_keeps_refl].
  destruct (90 <=? _); [|apply Forall2_keeps_refl].
  rewrite (proj1 (proj2 (openChest_fields _ _))).
  rewrite entitiesRef_withStateRef.
  apply Forall2_alter_r; [apply Forall2_keeps_refl|].
  intros x y Hx Hy _. assert (x = y) by congruence. subst y.
  repeat split; auto.
Qed.

Lemma entitiesRef_playerCollision w :
  entitiesRef (playerCollision w).1 = entitiesRef w
  /\ stateRef (playerCollision w).1 = stateRef w
  /\ lootModal (playerCollision w).1 = lootModal w
  /\ killsRef (playerCollision w).1 = killsRef w.
Proof.
  unfold playerCollision, playerCollisionOn.
  apply (fold_left_preserves playerCollidePlatform
           (fun a b => entitiesRef b.1 = entitiesRef a.1
                       /\ stateRef b.1 = stateRef a.1
                       /\ lootModal b.1 = lootModal a.1
                       /\ killsRef b.1 = killsRef a.1)).
  - intros a. repeat split.
  - intros a1 a2 a3 (?&?&?&?) (?&?&?&?). repeat split; congruence.
  - intros [w1 g1] plat. unfold playerCollidePlatform.
    repeat match goal with
           | |- context [if ?b then _ else _] => destruct b
           end; repeat split.
Qed.

Lemma entitiesRef_playerInput w :
  entitiesRef (playerInput w) = entitiesRef w.
Proof.
  unfold playerInput. destruct (isLootMenuOpen (stateRef w)) eqn:Hm;
    [reflexivity|].
  pose proof (playerInput_search w Hm) as H. cbv zeta in H.
  unfold playerInput in H. rewrite Hm in H. apply H.
Qed.

(** From the player's input to the end of [simulate]. *)
Lemma simulate_keeps w :
  Forall2 keeps (entitiesRef (prelude w)) (entitiesRef (simulate w)).
Proof.
  rewrite simulate_afterCollision, afterCollision_afterReading.
  eapply Forall2_keeps_trans;
    [|apply entitiesEvolve_keeps, entitiesEvolve_afterReading].
  eapply Forall2_keeps_trans; [|apply readingLogic_keeps].
  rewrite (proj1 (entitiesRef_playerCollision _)).
  change (entitiesRef (integratePlayer (playerInput (prelude w))))
    with (entitiesRef (playerInput (prelude w))).
  rewrite entitiesRef_playerInput. apply Forall2_keeps_refl.
Qed.

Lemma entitiesRef_openExtraction w w' :
  openExtraction w = Normal w' \/ openExtraction w = Thrown w' ->
  entitiesRef w' = entitiesRef w.
Proof.
  unfold openExtraction.
  destruct (time (stateRef w) =? 1800); cbv zeta; unfold Math_random.
  - destruct (jsIndex _ _); intros [H|H]; inversion H; reflexivity.
  - intros [H|H]; inversion H; reflexivity.
Qed.

Lemma entitiesRef_extractionDwell w :
  entitiesRef (extractionDwell w) = entitiesRef w.
Proof. unfold extractionDwell. split_ifs; reflexivity. Qed.

Lemma loop_keeps w :
  gameOver (stateRef w) = false ->
  Forall2 keeps (entitiesRef (prelude w)) (entitiesRef (loop w).1).
Proof.
  intros Hg. unfold loop. rewrite Hg.
  destruct (openExtraction (simulate w)) as [w'|w'] eqn:Ho; cbn [fst].
  - rewrite entitiesRef_render, entitiesRef_extractionDwell.
    rewrite (entitiesRef_openExtraction _ _ (or_introl Ho)).
    apply simulate_keeps.
  - rewrite (entitiesRef_openExtraction _ _ (or_intror Ho)).
    apply simulate_keeps.
Qed.

(** The two spawn tests, read on the world as the frame starts. *)
Definition mobSpawnDue (w : World) : bool :=
  (Z.rem (time (stateRef w) + 1) 200 =? 0)
  && (length (entitiesRef w) <? 50)%nat.

Definition rogueSpawnDue (w : World) : bool :=
  (Z.rem (time (stateRef w) + 1) 1200 =? 0)
  && (rogueCount (entitiesRef w) <? 5)%nat.

Lemma rogueCount_app l1 l2 :
  rogueCount (l1 ++ l2) = (rogueCount l1 + rogueCount l2)%nat.
Proof. unfold rogueCount. rewrite List.filter_app, length_app. reflexivity. Qed.

Lemma rogueCount_cons e l :
  rogueCount (e :: l)
  = ((if isLiveRogue e then 1 else 0) + rogueCount l)%nat.
Proof. unfold rogueCount. simpl. destruct (isLiveRogue e); reflexivity. Qed.

Lemma rogueCount_keeps l l' :
  Forall2 keeps l l' -> (rogueCount l' <= rogueCount l)%nat.
Proof.
  induction 1 as [|e e' l l' (Ht & Hd & _) _ IH]; [lia|].
  rewrite !rogueCount_cons.
  assert (H : isLiveRogue e' = true -> isLiveRogue e = true).
  { unfold isLiveRogue. rewrite Ht, !andb_true_iff, !negb_true_iff.
    intros [H1 H2]. split; [exact H1|].
    destruct (e_isDead e); [rewrite Hd in H2 by reflexivity; discriminate|].
    reflexivity. }
  destruct (isLiveRogue e'); [rewrite H by reflexivity|];
    destruct (isLiveRogue e); lia.
Qed.

Lemma spawnMob_fields w :
  exists m,
    (e_type m = MOB_SLIME \/ e_type m = MOB_BAT)
    /\ e_isDead m = false
    /\ entitiesRef (spawnMob w)
       = entitiesRef w
         ++ (if (Z.rem (time (stateRef w)) 200 =? 0)
                && (length (entitiesRef w) <? 50)%nat
             then [m] else [])
    /\ stateRef (spawnMob w) = stateRef w.
Proof.
  unfold spawnMob.
  destruct ((Z.rem (time (stateRef w)) 200 =? 0)
            && (length (entitiesRef w) <? 50)%nat).
  - cbv zeta. unfold Math_random.
    match goal with
    | |- context [pushEntity ?m _] => exists m
    end.
    split; [destruct (Qltb 0.7 _); [right|left]; reflexivity|].
    repeat split.
  - exists (newMob 0 MOB_SLIME 0 0).
    split; [left; reflexivity|]. rewrite app_nil_r. repeat split.
Qed.

Lemma spawnRogue_fields w :
  exists r,
    e_type r = ROGUE_AGENT
    /\ e_isDead r = false
    /\ entitiesRef (spawnRogue w)
       = entitiesRef w
         ++ (if (Z.rem (time (stateRef w)) 1200 =? 0)
                && (rogueCount (entitiesRef w) <? 5)%nat
             then [r] else []).
Proof.
  unfold spawnRogue.
  destruct ((Z.rem (time (stateRef w)) 1200 =? 0)
            && (rogueCount (entitiesRef w) <? 5)%nat).
  - cbv zeta. unfold Math_random.
    match goal with
    | |- context [pushEntity ?r _] => exists r
    end.
    repeat split.
  - exists (newRogue 0 0 0). rewrite app_nil_r. repeat split.
Qed.

Lemma rogueCount_mob m :
  e_type m = MOB_SLIME \/ e_type m = MOB_BAT -> rogueCount [m] = 0%nat.
Proof.
  intros H. rewrite rogueCount_cons. unfold isLiveRogue.
  destruct H as [H|H]; rewrite H; reflexivity.
Qed.

(** The array when the spawns are done: the old array, then the mob if
    due, then the rogue if due. *)
Lemma prelude_entities w :
  exists m r,
    (e_type m = MOB_SLIME \/ e_type m = MOB_BAT)
    /\ e_type r = ROGUE_AGENT
    /\ entitiesRef (prelude w)
       = entitiesRef w
         ++ (if mobSpawnDue w then [m] else [])
         ++ (if rogueSpawnDue w then [r] else []).
Proof.
  unfold prelude.
  destruct (spawnMob_fields (markVisited (tick w))) as (m & Hm & _ & Hme & Hms).
  destruct (spawnRogue_fields (spawnMob (markVisited (tick w))))
    as (r & Hr & _ & Hre).
  exists m, r. split; [exact Hm|]. split; [exact Hr|].
  rewrite Hre, Hms, Hme.
  change (time (stateRef (markVisited (tick w)))) with (time (stateRef w) + 1).
  change (entitiesRef (markVisited (tick w))) with (entitiesRef w).
  fold (mobSpawnDue w).
  assert (Hc : rogueCount (entitiesRef w ++ (if mobSpawnDue w then [m] else []))
               = rogueCount (entitiesRef w)).
  { rewrite rogueCount_app.
    destruct (mobSpawnDue w); [rewrite (rogueCount_mob m Hm)|];
      change (rogueCount []) with 0%nat; lia. }
  rewrite Hc. fold (rogueSpawnDue w). rewrite <- app_assoc. reflexivity.
Qed.

Lemma rogueCount_prelude w :
  (rogueCount (entitiesRef w) <= 5)%nat ->
  (rogueCount (entitiesRef (prelude w)) <= 5)%nat.
Proof.
  intros H. destruct (prelude_entities w) as (m & r & Hm & Hr & He).
  rewrite He, !rogueCount_app.
  assert (H1 : rogueCount (if mobSpawnDue w then [m] else []) = 0%nat).
  { destruct (mobSpawnDue w); [apply rogueCount_mob, Hm|reflexivity]. }
  rewrite H1. unfold rogueSpawnDue.
  destruct (Z.rem _ 1200 =? 0); cbn [andb];
    [|change (rogueCount []) with 0%nat; lia].
  destruct (rogueCount (entitiesRef w) <? 5)%nat eqn:E;
    [|change (rogueCount []) with 0%nat; lia].
  apply Nat.ltb_lt in E.
  assert (H2 : (rogueCount [r] <= 1)%nat).
  { rewrite rogueCount_cons. change (rogueCount []) with 0%nat.
    destruct (isLiveRogue r); lia. }
  lia.
Qed.

Lemma rogueCount_loop w :
  (rogueCount (entitiesRef w) <= 5)%nat ->
  (rogueCount (entitiesRef (loop w).1) <= 5)%nat.
Proof.
  intros H. destruct (gameOver (stateRef w)) eqn:Hg.
  - unfold loop. rewrite Hg. exact H.
  - pose proof (rogueCount_keeps _ _ (loop_keeps w Hg)).
    pose proof (rogueCount_prelude w H). lia.
Qed.

Lemma spawnChest_chests w p :
  Forall (fun e => e_type e = CHEST) (entitiesRef w) ->
  Forall (fun e => e_type e = CHEST) (entitiesRef (spawnChest w p)).
Proof.
  intros H. unfold spawnChest. cbv zeta. unfold Math_random.
  repeat match goal with
         | |- context [if ?b then _ else _] => destruct b
         end; try exact H.
  unfold pushEntity. cbn [entitiesRef set_entitiesRef set_randomUsed].
  apply Forall_app. split; [exact H|]. constructor; [reflexivity|constructor].
Qed.

Lemma initWorld_chests h tape :
  Forall (fun e => e_type e = CHEST) (entitiesRef (initWorld h tape)).
Proof.
  unfold initWorld.
  apply (fold_left_invariant spawnChest
           (fun w => Forall (fun e => e_type e = CHEST) (entitiesRef w))).
  - intros a b. apply spawnChest_chests.
  - constructor.
Qed.

Lemma rogueCount_chests l :
  Forall (fun e => e_type e = CHEST) l -> rogueCount l = 0%nat.
Proof.
  induction 1 as [|e l He _ IH]; [reflexivity|].
  rewrite rogueCount_cons, IH. unfold isLiveRogue. rewrite He. reflexivity.
Qed.

Lemma entitiesRef_handleModalKeys c w :
  entitiesRef (handleModalKeys c w) = entitiesRef w.
Proof.
  unfold handleModalKeys, handlePickup, handleDiscard.
  repeat match goal with
         | |- context [if ?b then _ else _] => destruct b
         | |- context [match ?o with Some _ => _ | None => _ end] => destruct o
         end; reflexivity.
Qed.

Lemma entitiesRef_step_key s c :
  entitiesRef (step (KeyDown c) s).1 = entitiesRef s.1
  /\ entitiesRef (step (KeyUp c) s).1 = entitiesRef s.1.
Proof.
  split; [|reflexivity]. cbn [step fst].
  change (entitiesRef (handleKeyDown c (handleModalKeys c s.1)))
    with (entitiesRef (handleModalKeys c s.1)).
  apply entitiesRef_handleModalKeys.
Qed.

Lemma reachable_rogueCount s :
  reachable s -> (rogueCount (entitiesRef s.1) <= 5)%nat.
Proof.
  induction 1 as [h tape|ev s Hs IH].
  - cbn [startSession fst].
    rewrite (rogueCount_chests _ (initWorld_chests h tape)). lia.
  - destruct ev as [|c|c].
    + cbn [step]. destruct s.2; [apply rogueCount_loop, IH|exact IH].
    + rewrite (proj1 (entitiesRef_step_key s c)). exact IH.
    + rewrite (proj2 (entitiesRef_step_key s c)). exact IH.
Qed.

(** C10.  A frame appends a slime or bat exactly when its frame number
    is a multiple of 200 and the array holds fewer than 50 entities,
    and a rogue agent exactly when the frame number is a multiple of
    1200 and fewer than 5 rogue agents are alive; nothing else in the
    frame adds, removes or changes the kind of an entity or revives a
    dead one.  In every reachable state of a session at most 5 rogue
    agents are alive. *)
Theorem spawn_caps_and_live_rogue_bound :
  (forall w,
      gameOver (stateRef w) = false ->
      exists m r,
        (e_type m = MOB_SLIME \/ e_type m = MOB_BAT)
        /\ e_type r = ROGUE_AGENT
        /\ Forall2 keeps
             (entitiesRef w
              ++ (if mobSpawnDue w then [m] else [])
              ++ (if rogueSpawnDue w then [r] else []))
             (entitiesRef (loop w).1))
  /\ (forall w,
        mobSpawnDue w = true <->
        Z.rem (time (stateRef w) + 1) 200 = 0
        /\ (length (entitiesRef w) < 50)%nat)
  /\ (forall w,
        rogueSpawnDue w = true <->
        Z.rem (time (stateRef w) + 1) 1200 = 0
        /\ (rogueCount (entitiesRef w) < 5)%nat)
  /\ (forall s, reachable s -> (rogueCount (entitiesRef s.1) <= 5)%nat).
Proof.
  split.
  { intros w Hg. destruct (prelude_entities w) as (m & r & Hm & Hr & He).
    exists m, r. split; [exact Hm|]. split; [exact Hr|].
    rewrite <- He. apply loop_keeps, Hg. }
  split.
  { intros w. unfold mobSpawnDue.
    rewrite andb_true_iff, Z.eqb_eq, Nat.ltb_lt. reflexivity. }
  split.
  { intros w. unfold rogueSpawnDue.
    rewrite andb_true_iff, Z.eqb_eq, Nat.ltb_lt. reflexivity. }
  exact reachable_rogueCount.
Qed.

(** Frame 200 of a session spawns a mob and frame 1200 a mob and a
    rogue agent. *)
Example spawns_at_frames_200_and_1200 :
  let w200 := withStateRef (set_time 199) landedWorld in
  let w1200 := withStateRef (set_time 1199) landedWorld in
  length (entitiesRef landedWorld) = 19%nat
  /\ (e_type <$> drop 19 (entitiesRef (loop w200).1)) = [MOB_SLIME]
  /\ (e_type <$> drop 19 (entitiesRef (loop w1200).1))
     = [MOB_SLIME; ROGUE_AGENT].
Proof. vm_compute. repeat split. Qed.

Lemma integratePlayer_fields w :
  entitiesRef (integratePlayer w) = entitiesRef w
  /\ stateRef (integratePlayer w) = stateRef w
  /\ lootModal (integratePlayer w) = lootModal w
  /\ killsRef (integratePlayer w) = killsRef w.
Proof. repeat split. Qed.

Lemma generateLoot_item_withStateRef f w :
  (generateLoot (withStateRef f w)).1 = (generateLoot w).1.
Proof. reflexivity. Qed.

(** The world of a frame when the reading logic runs, given the world
    when the player input runs. *)
Definition atReading (w : World) : World :=
  (playerCollision (integratePlayer (playerInput w))).1.

Lemma atReading_fields w :
  entitiesRef (atReading w) = entitiesRef w
  /\ stateRef (atReading w) = stateRef (playerInput w)
  /\ lootModal (atReading w) = lootModal (playerInput w).
Proof.
  unfold atReading.
  destruct (entitiesRef_playerCollision (integratePlayer (playerInput w)))
    as (H1 & H2 & H3 & _).
  destruct (integratePlayer_fields (playerInput w)) as (H4 & H5 & H6 & _).
  rewrite H1, H2, H3, H4, H5, H6, entitiesRef_playerInput. repeat split.
Qed.

Lemma simulate_atReading w :
  simulate w = afterReading (readingLogic (atReading (prelude w))).
Proof.
  rewrite simulate_afterCollision, afterCollision_afterReading.
  unfold atReading. reflexivity.
Qed.

(** An opened chest stays opened through every event of a session. *)
Lemma opened_chest_stays_opened ev s i e :
  entitiesRef s.1 !! i = Some e ->
  e_isOpened e = Some true ->
  exists e',
    entitiesRef (step ev s).1 !! i = Some e'
    /\ e_type e' = e_type e /\ e_isOpened e' = Some true.
Proof.
  intros Hi Ho. destruct ev as [|c|c].
  - cbn [step]. destruct s.2; [|exists e; auto].
    destruct (gameOver (stateRef s.1)) eqn:Hg.
    + unfold loop. rewrite Hg. exists e. auto.
    + pose proof (loop_keeps s.1 Hg) as Hk.
      destruct (prelude_entities s.1) as (m & r & _ & _ & He).
      assert (Hp : entitiesRef (prelude s.1) !! i = Some e).
      { rewrite He, lookup_app_l; [exact Hi|].
        eapply lookup_lt_Some; eassumption. }
      destruct (Forall2_lookup_l _ _ _ _ _ Hk Hp) as (e' & He' & Ht & _ & Hop).
      exists e'. auto.
  - rewrite (proj1 (entitiesRef_step_key s c)). exists e. auto.
  - rewrite (proj2 (entitiesRef_step_key s c)). exists e. auto.
Qed.

(** The search dwell of a frame that finds the loot menu closed.  The
    frame's input sets
    the interaction target to the first unopened live chest within
    100 of the player; a search in progress is cancelled, with the
    timer back at 0, when there is a movement input; and a search
    starts when the search key is down with a target and no search is
    in progress.  Once started the search stays in progress without
    the key.  The reading logic then adds 1 to the timer when a search
    is in progress and a target is set, and only then.  While the new
    value is below 90, no entity and no modal changes; a cancelled
    search therefore ends the frame with the timer at 0 or 1 and every
    chest as it was.  When the new value reaches 90, the target chest,
    and no other entity, is marked opened, one item is generated into
    the modal, the timer returns to 0, the search ends and the loot
    menu opens.  The rest of the frame keeps the timer, the modal and
    every opened flag, and an opened chest stays opened through every
    later event. *)
Lemma search_dwell_menu_closed (w : World) :
  isLootMenuOpen (stateRef w) = false ->
  let chest := findChest w in
  let cancel := isReading (stateRef w) && movementInput w in
  let latch := key w "KeyH" && bool_decide (is_Some chest) in
  let reading := isReading (stateRef (playerInput w)) in
  let t := readingTimer (stateRef (playerInput w)) in
  let counting := reading && bool_decide (is_Some chest) in
  let wd := readingLogic (atReading w) in
  interactionTarget (stateRef (playerInput w)) = chest
  /\ t = (if cancel then 0 else readingTimer (stateRef w))
  /\ reading = (if cancel then latch else isReading (stateRef w) || latch)
  /\ (counting = false ->
      readingTimer (stateRef wd) = t
      /\ entitiesRef wd = entitiesRef w /\ lootModal wd = lootModal w)
  /\ (counting = true -> t + 1 < 90 ->
      readingTimer (stateRef wd) = t + 1
      /\ isReading (stateRef wd) = true
      /\ entitiesRef wd = entitiesRef w /\ lootModal wd = lootModal w)
  /\ (cancel = true ->
      0 <= readingTimer (stateRef wd) <= 1
      /\ entitiesRef wd = entitiesRef w /\ lootModal wd = lootModal w)
  /\ (counting = true -> 90 <= t + 1 ->
      exists i e,
        chest = Some i
        /\ entitiesRef w !! i = Some e
        /\ e_type e = CHEST /\ e_isOpened e <> Some true
        /\ entitiesRef wd
           = alter (set_e_isOpened (Some true)) i (entitiesRef w)
        /\ lootModal wd = Some (generateLoot (atReading w)).1
        /\ readingTimer (stateRef wd) = 0
        /\ isReading (stateRef wd) = false
        /\ isLootMenuOpen (stateRef wd) = true)
  /\ readingKept wd (afterReading wd)
  /\ entitiesEvolve wd (afterReading wd)
  /\ (forall ev s i e,
        entitiesRef s.1 !! i = Some e ->
        e_isOpened e = Some true ->
        exists e',
          entitiesRef (step ev s).1 !! i = Some e'
          /\ e_type e' = e_type e /\ e_isOpened e' = Some true).
Proof.
  intros Hm. cbv zeta.
  destruct (playerInput_search w Hm) as (I1 & I2 & I3 & I4 & _ & I6).
  destruct (atReading_fields w) as (A1 & A2 & A3).
  rewrite I6 in A3.
  assert (Hidle : isReading (stateRef (playerInput w))
                  && bool_decide (is_Some (findChest w)) = false ->
                  readingLogic (atReading w) = atReading w).
  { intros H. apply readingLogic_idle. rewrite A2, I1. exact H. }
  assert (Hcount : isReading (stateRef (playerInput w))
                   && bool_decide (is_Some (findChest w)) = true ->
                   readingTimer (stateRef (playerInput w)) + 1 < 90 ->
                   readingLogic (atReading w)
                   = withStateRef
                       (fun s => set_readingTimer (readingTimer s + 1) s)
                       (atReading w)).
  { intros H Hlt. apply andb_true_iff in H as [Hr Hc].
    apply bool_decide_eq_true_1 in Hc. destruct Hc as [i Hc].
    apply (readingLogic_counts _ i); rewrite A2; congruence. }
  split; [exact I1|]. split; [exact I2|]. split; [exact I3|].
  split.
  { intros H. rewrite (Hidle H), A1, A2, A3. repeat split. }
  split.
  { intros H Hlt. rewrite (Hcount H Hlt).
    cbn [stateRef withStateRef set_stateRef readingTimer set_readingTimer
           isReading].
    rewrite A2.
    apply andb_true_iff in H as [Hr _].
    split; [reflexivity|]. split; [exact Hr|].
    split; [exact A1|exact A3]. }
  split.
  { intros Hc. rewrite Hc in I2.
    destruct (isReading (stateRef (playerInput w))
              && bool_decide (is_Some (findChest w))).
    - rewrite (Hcount eq_refl) by (rewrite I2; lia).
      cbn [stateRef withStateRef set_stateRef readingTimer set_readingTimer].
      rewrite A2, I2. split; [lia|]. split; [exact A1|exact A3].
    - rewrite (Hidle eq_refl), A1, A2, A3, I2.
      split; [lia|]. split; reflexivity. }
  split.
  { intros H Hge. apply andb_true_iff in H as [Hr Hc].
    apply bool_decide_eq_true_1 in Hc. destruct Hc as [i Hc].
    destruct (findChest_Some w i Hc) as (e & Hi & Ht & _ & Ho & _).
    exists i, e.
    rewrite (readingLogic_opens (atReading w) i)
      by (rewrite A2; congruence).
    match goal with
    | |- context [openChest i ?w1] =>
        destruct (openChest_fields i w1) as (_ & O2 & O3 & O4 & _)
    end.
    rewrite O2, O3, O4, entitiesRef_withStateRef, A1,
      generateLoot_item_withStateRef.
    split; [exact Hc|]. split; [exact Hi|]. split; [exact Ht|].
    split; [exact Ho|]. repeat split. }
  split; [apply readingKept_afterReading|].
  split; [apply entitiesEvolve_afterReading|].
  apply opened_chest_stays_opened.
Qed.

(** The landed player one frame short of opening the chest on the
    starting platform, no key down. *)
Definition searchWorld : World :=
  withStateRef (fun s => set_readingTimer 89 (set_isReading true s))
    landedWorld.

(** C6, the claim as written fails: the search key is down for the
    first frame only and the timer keeps counting in the next two; and
    with the search key held, a movement input leaves the timer at 1
    at the end of the frame, the search having started again. *)
Lemma search_timer_runs_without_search_key :
  let tapped :=
    run [KeyDown "KeyH"; Frame; KeyUp "KeyH"; Frame; Frame]
        (landedWorld, true) in
  let moved :=
    run [KeyDown "KeyH"; Frame; Frame; KeyDown "KeyD"; Frame]
        (landedWorld, true) in
  key tapped.1 "KeyH" = false
  /\ isReading (stateRef tapped.1) = true
  /\ readingTimer (stateRef tapped.1) = 3
  /\ readingTimer
       (stateRef (run [KeyDown "KeyH"; Frame; Frame] (landedWorld, true)).1)
     = 2
  /\ key moved.1 "KeyD" = true
  /\ readingTimer (stateRef moved.1) = 1.
Proof. vm_compute. repeat split. Qed.

(** ** Two defects of the frame *)

(** A rogue agent standing next to the player. *)
Definition adjacentRogue (hp : Q) : Entity :=
  set_e_hp hp (newRogue 0.5 40 (-48)).

(** The player of [dwellWorld] with 6 health left and a rogue agent in
    reach. *)
Definition dyingInZoneWorld : World :=
  pushEntity (adjacentRogue 120) (withPlayer (set_e_hp 6) dwellWorld).

(** C1, the defect: in the frame in which the rogue's hit takes the
    player's health to 0 while the dwell counter passes 180,
    [onGameOver] is called twice, first for the death and then for the
    extraction. *)
Lemma death_and_extraction_both_reported :
  gameOver (stateRef dyingInZoneWorld) = false
  /\ gameOverCalls dyingInZoneWorld = []
  /\ (e_hp (playerRef (loop dyingInZoneWorld).1) == 0)%Q
  /\ gameOverCalls (loop dyingInZoneWorld).1
     = [(false, 0, 0); (true, 345, 0)].
Proof. vm_compute. repeat split. Qed.

(** The landed swordsman with a rogue agent of 20 health in reach and
    both the attack and the skill key down. *)
Definition doubleHitWorld : World :=
  handleKeyDown "KeyK"
    (handleKeyDown "KeyJ" (pushEntity (adjacentRogue 20) landedWorld)).

(** C2, the defect: the basic attack takes the rogue's health from 20
    to 0 and counts the kill; the skill of the same frame hits the
    same rogue, not yet marked dead, and counts it again. *)
Lemma one_rogue_counted_twice :
  rogueCount (entitiesRef doubleHitWorld) = 1%nat
  /\ killsRef doubleHitWorld = 0
  /\ killsRef (basicAttack doubleHitWorld) = 1
  /\ killsRef (loop doubleHitWorld).1 = 2
  /\ (e_hp <$> entitiesRef (loop doubleHitWorld).1 !! 19%nat)
     = Some (20 - 20 - 40)%Q
  /\ (e_isDead <$> entitiesRef (loop doubleHitWorld).1 !! 19%nat)
     = Some true.
Proof. vm_compute. repeat split. Qed.

(** * Further properties of the code *)

(** ** Geometry (lines 94-107) *)

(** Two rectangles intersect exactly when their closed extents overlap
    on both axes, so rectangles that only touch along an edge or at a
    corner intersect; the test does not depend on the order of its
    arguments, and a rectangle of non-negative size intersects itself. *)
Theorem rectIntersect_closed_overlap_symmetric (r1 r2 : Rect) :
  (rectIntersect r1 r2 = true <->
   (r_x r2 <= r_x r1 + r_width r1)%Q
   /\ (r_x r1 <= r_x r2 + r_width r2)%Q
   /\ (r_y r2 <= r_y r1 + r_height r1)%Q
   /\ (r_y r1 <= r_y r2 + r_height r2)%Q)
  /\ rectIntersect r1 r2 = rectIntersect r2 r1
  /\ ((0 <= r_width r1)%Q -> (0 <= r_height r1)%Q ->
      rectIntersect r1 r1 = true).
Proof.
  assert (Hiff : forall a b : Rect,
             rectIntersect a b = true <->
             (r_x b <= r_x a + r_width a)%Q
             /\ (r_x a <= r_x b + r_width b)%Q
             /\ (r_y b <= r_y a + r_height a)%Q
             /\ (r_y a <= r_y b + r_height b)%Q).
  { intros a b. unfold rectIntersect.
    rewrite negb_true_iff, !orb_false_iff, !Qltb_false. tauto. }
  split; [apply Hiff|]. split.
  - destruct (rectIntersect r1 r2) eqn:E1; destruct (rectIntersect r2 r1) eqn:E2;
      try reflexivity.
    + apply Hiff in E1. rewrite <- E2. symmetry. apply Hiff. tauto.
    + apply Hiff in E2. rewrite <- E1. apply Hiff. tauto.
  - intros Hw Hh. apply Hiff. repeat split; lra.
Qed.

Lemma Qmult_le_l_weak (a b c : Q) :
  (0 <= a)%Q -> (b <= c)%Q -> (a * b <= a * c)%Q.
Proof.
  intros Ha Hbc. rewrite (Qmult_comm a b), (Qmult_comm a c).
  apply Qmult_le_compat_r; assumption.
Qed.

Lemma Qsquare_nonneg (q : Q) : (0 <= q * q)%Q.
Proof.
  destruct (Qlt_le_dec q 0) as [H|H].
  - assert (H1 : (0 <= (- q) * (- q))%Q)
      by (apply Qmult_le_0_compat; lra).
    assert (H2 : ((- q) * (- q) == q * q)%Q) by ring.
    lra.
  - apply Qmult_le_0_compat; assumption.
Qed.

Lemma Qltb_proper a a' b b' :
  (a == a')%Q -> (b == b')%Q -> Qltb a b = Qltb a' b'.
Proof.
  intros Ha Hb. unfold Qltb. f_equal. apply Qleb_comp; assumption.
Qed.

(** The squared centre distance is symmetric and never negative, so
    [getDistance(a, b) < r] and [getDistance(b, a) < r] are the same
    test; an entity is at distance 0 from itself, and the test widens
    with the radius. *)
Theorem getDistance_symmetric_nonnegative (e1 e2 : Entity) (r r' : Q) :
  (getDistanceSq e1 e2 == getDistanceSq e2 e1)%Q
  /\ (0 <= getDistanceSq e1 e2)%Q
  /\ (getDistanceSq e1 e1 == 0)%Q
  /\ distanceBelow e1 e2 r = distanceBelow e2 e1 r
  /\ ((0 <= r)%Q -> (r <= r')%Q ->
      distanceBelow e1 e2 r = true -> distanceBelow e1 e2 r' = true).
Proof.
  assert (Hsym : (getDistanceSq e1 e2 == getDistanceSq e2 e1)%Q).
  { unfold getDistanceSq. cbv zeta. ring. }
  split; [exact Hsym|]. split.
  { unfold getDistanceSq. cbv zeta.
    match goal with
    | |- (0 <= ?a * ?a + ?b * ?b)%Q =>
        pose proof (Qsquare_nonneg a); pose proof (Qsquare_nonneg b)
    end.
    lra. }
  split.
  { unfold getDistanceSq. cbv zeta. ring. }
  split.
  { unfold distanceBelow. apply Qltb_proper; [exact Hsym|reflexivity]. }
  intros Hr Hrr'. unfold distanceBelow. rewrite !Qltb_true. intros H.
  assert (r * r <= r' * r')%Q.
  { apply Qle_trans with (r * r')%Q.
    - apply Qmult_le_l_weak; assumption.
    - apply Qmult_le_compat_r; lra. }
  lra.
Qed.

(** ** Loot generation (lines 692-707) *)

(** The tape holds what [Math.random()] can return: numbers from 0
    (included) to 1 (excluded). *)
Definition tapeInRange (w : World) : Prop :=
  forall n, (0 <= randomTape w n)%Q /\ (randomTape w n < 1)%Q.

Lemma Qfloor_scaled_range (rv : Q) (a b : Z) :
  (0 <= rv)%Q -> (rv < 1)%Q -> a < b ->
  a <= Qfloor (rv * inject_Z (b - a) + inject_Z a) < b.
Proof.
  intros H0 H1 Hab.
  assert (Hd : (inject_Z (b - a) == inject_Z b - inject_Z a)%Q).
  { unfold Z.sub. rewrite inject_Z_plus, inject_Z_opp. ring. }
  assert (Hlt : (inject_Z a < inject_Z b)%Q) by (rewrite <- Zlt_Qlt; exact Hab).
  set (x := (rv * inject_Z (b - a) + inject_Z a)%Q).
  assert (Hpos : (0 <= rv * inject_Z (b - a))%Q).
  { apply Qmult_le_0_compat; [exact H0|]. rewrite Hd. lra. }
  assert (Hup : (rv * inject_Z (b - a) < inject_Z (b - a))%Q).
  { assert (H2 : (rv * inject_Z (b - a)
                  == inject_Z (b - a) - (1 - rv) * inject_Z (b - a))%Q) by ring.
    assert (H3 : (0 < (1 - rv) * inject_Z (b - a))%Q).
    { apply Qmult_lt_0_compat; [lra|rewrite Hd; lra]. }
    lra. }
  split.
  - rewrite <- (Qfloor_Z a). apply Qfloor_resp_le. unfold x. lra.
  - rewrite Zlt_Qlt. apply Qle_lt_trans with x; [apply Qfloor_le|].
    unfold x. lra.
Qed.

Lemma rarity_ranges_ordered (r : LootRarity) :
  1 <= rc_min (RARITY_CONFIG r)
  /\ rc_min (RARITY_CONFIG r) < rc_max (RARITY_CONFIG r)
  /\ rc_max (RARITY_CONFIG r) <= 500.
Proof. destruct r; simpl; lia. Qed.

(** Line 700 with the rounding of its two arithmetic operations made
    explicit: [fl] rounds the product, then the sum.  With [fl] the
    identity this is the value [generateLoot] computes.  In the
    program [fl] is the rounding of JavaScript numbers to the nearest
    double, which keeps the order and leaves whole numbers of this
    size as they are. *)
Definition lootValue (fl : Q -> Q) (config : RarityConfig) (rv : Q) : Z :=
  Qfloor (fl (fl (rv * inject_Z (rc_max config - rc_min config))
              + inject_Z (rc_min config)))%Q.

(** Rounding to the nearest multiple of [(1 # 2)^k], halves upwards. *)
Definition roundTo (k : Z) (x : Q) : Q :=
  (inject_Z (Qfloor (x * inject_Z (2 ^ k) + (1 # 2))) / inject_Z (2 ^ k))%Q.

Lemma roundTo_monotone k x y : (x <= y)%Q -> (roundTo k x <= roundTo k y)%Q.
Proof.
  intros H. unfold roundTo.
  assert (Hc : (0 <= inject_Z (2 ^ k))%Q).
  { change 0%Q with (inject_Z 0). rewrite <- Zle_Qle. apply Z.pow_nonneg. lia. }
  assert (Hi : (0 <= / inject_Z (2 ^ k))%Q) by (apply Qinv_le_0_compat; exact Hc).
  unfold Qdiv. apply Qmult_le_compat_r; [|exact Hi].
  rewrite <- Zle_Qle. apply Qfloor_resp_le.
  assert (x * inject_Z (2 ^ k) <= y * inject_Z (2 ^ k))%Q
    by (apply Qmult_le_compat_r; assumption).
  lra.
Qed.

Lemma Qfloor_half (n : Z) (x : Q) :
  (x == inject_Z n)%Q -> Qfloor (x + (1 # 2)) = n.
Proof.
  intros H.
  assert (H1 : n <= Qfloor (x + (1 # 2))).
  { rewrite <- (Qfloor_Z n). apply Qfloor_resp_le. lra. }
  assert (H2 : Qfloor (x + (1 # 2)) < n + 1).
  { rewrite Zlt_Qlt. eapply Qle_lt_trans; [apply Qfloor_le|].
    rewrite inject_Z_plus. change (inject_Z 1) with 1%Q. lra. }
  lia.
Qed.

Lemma roundTo_integer k z : 0 <= k -> (roundTo k (inject_Z z) == inject_Z z)%Q.
Proof.
  intros Hk. unfold roundTo.
  rewrite (Qfloor_half (z * 2 ^ k)) by (rewrite inject_Z_mult; reflexivity).
  rewrite inject_Z_mult. field.
  change 0%Q with (inject_Z 0). rewrite inject_Z_injective.
  apply Z.pow_nonzero; lia.
Qed.

Lemma lootValue_range (fl : Q -> Q) (a b : Z) (c : string) (rv : Q) :
  (forall x y, (x <= y)%Q -> (fl x <= fl y)%Q) ->
  (forall z, (fl (inject_Z z) == inject_Z z)%Q) ->
  a <= b -> (0 <= rv)%Q -> (rv <= 1)%Q ->
  a <= lootValue fl (mkRarity c a b) rv <= b.
Proof.
  intros Hmono Hint Hab H0 H1. unfold lootValue. cbn [rc_min rc_max].
  assert (Hd : (inject_Z (b - a) == inject_Z b - inject_Z a)%Q).
  { unfold Z.sub. rewrite inject_Z_plus, inject_Z_opp. ring. }
  assert (Hle : (inject_Z a <= inject_Z b)%Q) by (rewrite <- Zle_Qle; exact Hab).
  set (d := inject_Z (b - a)) in *.
  assert (Hp0 : (inject_Z 0 <= rv * d)%Q).
  { change (inject_Z 0) with 0%Q. apply Qmult_le_0_compat; [exact H0|lra]. }
  assert (Hp1 : (rv * d <= d)%Q).
  { assert (H2 : (rv * d == d - (1 - rv) * d)%Q) by ring.
    assert (H3 : (0 <= (1 - rv) * d)%Q) by (apply Qmult_le_0_compat; lra).
    lra. }
  apply Hmono in Hp0, Hp1. unfold d in Hp1 at 2.
  rewrite Hint in Hp0, Hp1. change (inject_Z 0) with 0%Q in Hp0. fold d in Hp1.
  set (y := fl (rv * d)%Q) in *.
  assert (Hs0 : (inject_Z a <= y + inject_Z a)%Q) by lra.
  assert (Hs1 : (y + inject_Z a <= inject_Z b)%Q) by lra.
  apply Hmono in Hs0, Hs1. rewrite Hint in Hs0, Hs1.
  apply Qfloor_resp_le in Hs0, Hs1. rewrite Qfloor_Z in Hs0, Hs1.
  split; assumption.
Qed.

(** With rounding the upper bound of the range can be reached.  The
    doubles from 64 to 128 are the multiples of [1 / 2^46]; rounding
    to them takes the legendary value for the draw [1 - 1 / 2^53],
    the largest double below 1, to 80. *)
Lemma lootValue_reaches_maximum_when_rounded :
  let rv := (1 - 1 / inject_Z (2 ^ 53))%Q in
  (forall x y, (x <= y)%Q -> (roundTo 46 x <= roundTo 46 y)%Q)
  /\ (forall z, (roundTo 46 (inject_Z z) == inject_Z z)%Q)
  /\ (0 <= rv)%Q /\ (rv < 1)%Q
  /\ lootValue (roundTo 46) (RARITY_CONFIG LEGENDARY) rv = 80
  /\ lootValue (fun x => x) (RARITY_CONFIG LEGENDARY) rv = 79.
Proof.
  cbv zeta. split; [apply roundTo_monotone|].
  split; [intros z; apply roundTo_integer; lia|].
  vm_compute. repeat split; discriminate.
Qed.

(** With tape cells between 0 and 1, a generated item's value lies in
    the range of its rarity, both bounds included, so between 1 and
    500, and that however the product and the sum of line 700 are
    rounded, as long as the rounding keeps the order and leaves whole
    numbers as they are; its colour is the rarity's colour;
    its name is the rarity followed by one of the six type names; the
    rarity is MYTHIC exactly when the first draw exceeds 0.99 and
    COMMON exactly when it is at most 0.6; and four cells of the tape
    are used. *)
Theorem generateLoot_value_within_rarity_range (w : World) :
  tapeInRange w ->
  let r := randomTape w (randomUsed w) in
  let rv := randomTape w (S (randomUsed w)) in
  let item := (generateLoot w).1 in
  let config := RARITY_CONFIG (item_rarity item) in
  rc_min config <= item_value item <= rc_max config
  /\ 1 <= item_value item <= 500
  /\ item_color item = rc_color config
  /\ (exists t,
        In t lootTypes
        /\ item_name item
           = (rarityName (item_rarity item) ++ " " ++ t)%string)
  /\ (item_rarity item = MYTHIC <-> (0.99 < r)%Q)
  /\ (item_rarity item = COMMON <-> (r <= 0.6)%Q)
  /\ randomUsed (generateLoot w).2 = (4 + randomUsed w)%nat
  /\ item_value item = lootValue (fun x => x) config rv
  /\ (forall fl : Q -> Q,
        (forall x y, (x <= y)%Q -> (fl x <= fl y)%Q) ->
        (forall z, (fl (inject_Z z) == inject_Z z)%Q) ->
        rc_min config <= lootValue fl config rv <= rc_max config
        /\ 1 <= lootValue fl config rv <= 500).
Proof.
  intros Ht. cbv zeta.
  assert (Hfl : forall fl : Q -> Q,
            (forall x y, (x <= y)%Q -> (fl x <= fl y)%Q) ->
            (forall z, (fl (inject_Z z) == inject_Z z)%Q) ->
            rc_min (RARITY_CONFIG (item_rarity (generateLoot w).1))
            <= lootValue fl (RARITY_CONFIG (item_rarity (generateLoot w).1))
                 (randomTape w (S (randomUsed w)))
            <= rc_max (RARITY_CONFIG (item_rarity (generateLoot w).1))).
  { intros fl Hmono Hint.
    destruct (Ht (S (randomUsed w))) as [H0 H1].
    destruct (rarity_ranges_ordered (item_rarity (generateLoot w).1))
      as (_ & Hlt & _).
    destruct (RARITY_CONFIG (item_rarity (generateLoot w).1)) as [c a b].
    cbn [rc_min rc_max] in *.
    apply lootValue_range; [exact Hmono|exact Hint|lia|exact H0|lra]. }
  assert (Hid : item_value (generateLoot w).1
                = lootValue (fun x => x)
                    (RARITY_CONFIG (item_rarity (generateLoot w).1))
                    (randomTape w (S (randomUsed w))))
    by reflexivity.
  assert (Hrange :
            rc_min (RARITY_CONFIG (item_rarity (generateLoot w).1))
            <= item_value (generateLoot w).1
            <= rc_max (RARITY_CONFIG (item_rarity (generateLoot w).1))).
  { rewrite Hid. apply Hfl; [intros x y H; exact H|intros z; reflexivity]. }
  split; [exact Hrange|].
  split.
  { destruct (rarity_ranges_ordered (item_rarity (generateLoot w).1))
      as (H1 & _ & H2). lia. }
  split; [reflexivity|].
  split.
  { unfold generateLoot, Math_random.
    cbn [fst snd randomTape randomUsed set_randomUsed item_name item_rarity].
    destruct (Ht (S (S (randomUsed w)))) as [H0 H1].
    pose proof (Qfloor_scaled_range _ 0 6 H0 H1 ltac:(lia)) as Hidx.
    change (inject_Z (Z.of_nat (length lootTypes))) with (inject_Z (6 - 0)).
    assert (Heq : (randomTape w (S (S (randomUsed w))) * inject_Z (6 - 0)
                   + inject_Z 0
                   == randomTape w (S (S (randomUsed w))) * inject_Z (6 - 0))%Q)
      by ring.
    assert (Hfl6 : Qfloor (randomTape w (S (S (randomUsed w))) * inject_Z (6 - 0)
                          + inject_Z 0)
                  = Qfloor (randomTape w (S (S (randomUsed w)))
                            * inject_Z (6 - 0))).
    { apply Z.le_antisymm; apply Qfloor_resp_le; rewrite Heq; lra. }
    rewrite Hfl6 in Hidx.
    set (idx := Qfloor (randomTape w (S (S (randomUsed w))) * inject_Z (6 - 0)))
      in *.
    clearbody idx.
    assert (Hcases : idx = 0 \/ idx = 1 \/ idx = 2 \/ idx = 3 \/ idx = 4
                     \/ idx = 5) by lia.
    destruct Hcases as [->|[->|[->|[->|[->| ->]]]]]; cbn [jsIndex];
      simpl; eexists; (split; [|reflexivity]); simpl; tauto. }
  split.
  { unfold generateLoot, Math_random.
    cbn [fst snd randomTape randomUsed set_randomUsed item_rarity].
    rewrite <- Qltb_true.
    destruct (Qltb 0.99 (randomTape w (randomUsed w)));
      [tauto|].
    destruct (Qltb 0.9 _); [split; discriminate|].
    destruct (Qltb 0.6 _); split; discriminate. }
  split.
  { unfold generateLoot, Math_random.
    cbn [fst snd randomTape randomUsed set_randomUsed item_rarity].
    rewrite <- Qltb_false.
    destruct (Qltb 0.99 (randomTape w (randomUsed w))) eqn:E1.
    - apply Qltb_true in E1. split; [discriminate|].
      intros H. apply Qltb_false in H. lra.
    - destruct (Qltb 0.9 (randomTape w (randomUsed w))) eqn:E2.
      + apply Qltb_true in E2. split; [discriminate|].
        intros H. apply Qltb_false in H. lra.
      + destruct (Qltb 0.6 _); split; discriminate || reflexivity. }
  split; [reflexivity|].
  split; [exact Hid|].
  intros fl Hmono Hint. split; [apply Hfl; assumption|].
  pose proof (Hfl fl Hmono Hint) as H.
  destruct (rarity_ranges_ordered (item_rarity (generateLoot w).1))
    as (H1 & _ & H2). lia.
Qed.

Lemma halfTape_in_range w : randomTape w = halfTape -> tapeInRange w.
Proof. intros H n. rewrite H. unfold halfTape. split; lra. Qed.

Lemma generateLoot_on_half_tape :
  tapeInRange startWorld
  /\ item_rarity (generateLoot startWorld).1 = COMMON
  /\ 1 <= item_value (generateLoot startWorld).1 <= 10.
Proof.
  assert (Ht : tapeInRange startWorld)
    by (apply halfTape_in_range; reflexivity).
  destruct (generateLoot_value_within_rarity_range startWorld Ht)
    as (Hr & _ & _ & _ & _ & Hc & _).
  assert (Hrar : item_rarity (generateLoot startWorld).1 = COMMON).
  { apply Hc. vm_compute. discriminate. }
  split; [exact Ht|]. split; [exact Hrar|].
  rewrite Hrar in Hr. exact Hr.
Defined.

(** ** What a session never loses

    Nothing ever writes the tape, the platform list or the hero; the
    visited chunks, the kill counter and the tape cursor only grow. *)
Definition frameGrows (w w' : World) : Prop :=
  randomTape w' = randomTape w
  /\ platformsRef w' = platformsRef w
  /\ heroType w' = heroType w
  /\ visitedChunksRef w ⊆ visitedChunksRef w'
  /\ killsRef w <= killsRef w'
  /\ (randomUsed w <= randomUsed w')%nat.

Ltac world_cbn :=
  cbn [heroType playerRef entitiesRef platformsRef textsRef keysRef killsRef
       visitedChunksRef potionRef inventoryRef lootModal stateRef
       gameOverCalls randomTape randomUsed
       set_playerRef set_entitiesRef set_textsRef set_keysRef set_killsRef
       set_visitedChunksRef set_potionRef set_inventoryRef set_lootModal
       set_stateRef set_gameOverCalls set_randomUsed
       withPlayer withEntity withStateRef pushText pushEntity Math_random
       onGameOver fst snd].

Ltac solve_grows :=
  unfold frameGrows; world_cbn;
  repeat split; try reflexivity; try lia.

Lemma frameGrows_refl w : frameGrows w w.
Proof. solve_grows. Qed.

Lemma frameGrows_trans w1 w2 w3 :
  frameGrows w1 w2 -> frameGrows w2 w3 -> frameGrows w1 w3.
Proof.
  unfold frameGrows. intros (?&?&?&?&?&?) (?&?&?&?&?&?).
  repeat split; try congruence; try lia. etransitivity; eassumption.
Qed.

Lemma frameGrows_forEachEntity body :
  (forall i w, frameGrows w (body i w)) ->
  forall w, frameGrows w (forEachEntity body w).
Proof.
  intros Hb w.
  apply (forEachEntity_invariant (fun w' => frameGrows w w'));
    [|apply frameGrows_refl].
  intros i w' H. eapply frameGrows_trans; [exact H|apply Hb].
Qed.

Lemma foldl_union_grows (f : Z * Z -> Z * Z) (l : list (Z * Z))
    (acc : gset (Z * Z)) :
  acc ⊆ foldl (fun a d => a ∪ {[ f d ]}) acc l
  /\ forall d, In d l -> f d ∈ foldl (fun a d => a ∪ {[ f d ]}) acc l.
Proof.
  revert acc. induction l as [|d l IH]; intros acc; simpl.
  - split; [reflexivity|]. intros d [].
  - destruct (IH (acc ∪ {[f d]})) as [H1 H2]. split.
    + etransitivity; [|exact H1]. apply union_subseteq_l.
    + intros d' [->|Hin]; [|apply H2, Hin].
      apply H1, elem_of_union_r, elem_of_singleton. reflexivity.
Qed.

Lemma frameGrows_tick w : frameGrows w (tick w).
Proof. unfold tick. solve_grows. Qed.

Lemma frameGrows_markVisited w : frameGrows w (markVisited w).
Proof.
  unfold markVisited. cbv zeta. unfold frameGrows. world_cbn.
  repeat split; try reflexivity; try lia.
  apply (foldl_union_grows
           (fun d => (Qfloor (e_x (playerRef w) / FOG_GRID_SIZE) + d.1,
                      Qfloor (e_y (playerRef w) / FOG_GRID_SIZE) + d.2))).
Qed.

Lemma frameGrows_spawnMob w : frameGrows w (spawnMob w).
Proof.
  unfold spawnMob.
  match goal with
  | |- context [if ?b then _ else _] => destruct b
  end; cbv zeta; solve_grows.
Qed.

Lemma frameGrows_spawnRogue w : frameGrows w (spawnRogue w).
Proof.
  unfold spawnRogue.
  match goal with
  | |- context [if ?b then _ else _] => destruct b
  end; cbv zeta; solve_grows.
Qed.

Lemma frameGrows_prelude w : frameGrows w (prelude w).
Proof.
  unfold prelude.
  eapply frameGrows_trans; [apply frameGrows_tick|].
  eapply frameGrows_trans; [apply frameGrows_markVisited|].
  eapply frameGrows_trans; [apply frameGrows_spawnMob|].
  apply frameGrows_spawnRogue.
Qed.

Lemma frameGrows_inputLeft w d : frameGrows w (inputLeft (w, d)).1.
Proof.
  unfold inputLeft.
  destruct (key w "KeyA" || key w "ArrowLeft"); solve_grows.
Qed.

Lemma frameGrows_inputRight w d : frameGrows w (inputRight (w, d)).1.
Proof.
  unfold inputRight.
  destruct (key w "KeyD" || key w "ArrowRight"); solve_grows.
Qed.

Lemma frameGrows_inputJump w d : frameGrows w (inputJump (w, d)).1.
Proof.
  unfold inputJump.
  repeat match goal with
         | |- context [if ?b then _ else _] => destruct b
         end; solve_grows.
Qed.

Lemma frameGrows_inputPotion w d : frameGrows w (inputPotion (w, d)).1.
Proof.
  unfold inputPotion.
  match goal with
  | |- context [if ?b then _ else _] => destruct b
  end; cbv zeta; solve_grows.
Qed.

Lemma frameGrows_inputSearch w d : frameGrows w (inputSearch (w, d)).
Proof.
  unfold inputSearch. cbv zeta.
  repeat match goal with
         | |- context [if ?b then _ else _] => destruct b
         end; solve_grows.
Qed.

Lemma frameGrows_playerInput w : frameGrows w (playerInput w).
Proof.
  unfold playerInput.
  destruct (isLootMenuOpen (stateRef w)); [apply frameGrows_refl|].
  pose proof (frameGrows_inputLeft w false) as H1.
  destruct (inputLeft (w, false)) as [w1 d1]. cbn [fst] in H1.
  pose proof (frameGrows_inputRight w1 d1) as H2.
  destruct (inputRight (w1, d1)) as [w2 d2]. cbn [fst] in H2.
  pose proof (frameGrows_inputJump w2 d2) as H3.
  destruct (inputJump (w2, d2)) as [w3 d3]. cbn [fst] in H3.
  pose proof (frameGrows_inputPotion w3 d3) as H4.
  destruct (inputPotion (w3, d3)) as [w4 d4]. cbn [fst] in H4.
  pose proof (frameGrows_inputSearch w4 d4) as H5.
  repeat (eapply frameGrows_trans; [eassumption|]). apply frameGrows_refl.
Qed.

Lemma frameGrows_integratePlayer w : frameGrows w (integratePlayer w).
Proof. unfold integratePlayer. cbv zeta. solve_grows. Qed.

Lemma frameGrows_playerCollision w : frameGrows w (playerCollision w).1.
Proof.
  unfold playerCollision, playerCollisionOn.
  apply (fold_left_preserves playerCollidePlatform
           (fun a b => frameGrows a.1 b.1)).
  - intros a. apply frameGrows_refl.
  - intros a1 a2 a3. apply frameGrows_trans.
  - intros [w1 g1] plat. unfold playerCollidePlatform.
    repeat match goal with
           | |- context [if ?b then _ else _] => destruct b
           end; solve_grows.
Qed.

Lemma frameGrows_openChest i w : frameGrows w (openChest i w).
Proof.
  unfold openChest. cbv zeta.
  match goal with
  | |- context [generateLoot ?w1] =>
      pose proof (generateLoot_world w1) as Hw;
      destruct (generateLoot w1) as [item w2]
  end.
  cbn [snd] in Hw. subst w2. unfold Math_random.
  destruct (Qltb _ 0.4); solve_grows.
Qed.

Lemma frameGrows_readingLogic w : frameGrows w (readingLogic w).
Proof.
  unfold readingLogic.
  destruct (interactionTarget (stateRef w)) as [i|]; [|apply frameGrows_refl].
  destruct (isReading (stateRef w)); [|apply frameGrows_refl].
  destruct (90 <=? _); [|solve_grows].
  eapply frameGrows_trans; [|apply frameGrows_openChest]. solve_grows.
Qed.

Lemma frameGrows_countKill i w : frameGrows w (countKill i w).
Proof. unfold countKill. split_ifs; solve_grows. Qed.

Lemma frameGrows_attackHit hb k i w : frameGrows w (attackHit hb k i w).
Proof.
  unfold attackHit.
  destruct (entitiesRef w !! i) as [e|]; [|apply frameGrows_refl].
  destruct (isHostile e && negb (e_isDead e) && rectIntersect hb (rectOfEntity e));
    [|apply frameGrows_refl].
  eapply frameGrows_trans; [|apply frameGrows_countKill]. solve_grows.
Qed.

Lemma frameGrows_whirlwindHit i w : frameGrows w (whirlwindHit i w).
Proof.
  unfold whirlwindHit.
  destruct (entitiesRef w !! i) as [e|]; [|apply frameGrows_refl].
  destruct (isHostile e && negb (e_isDead e) && distanceBelow (playerRef w) e 150);
    [|apply frameGrows_refl].
  eapply frameGrows_trans; [|apply frameGrows_countKill]. solve_grows.
Qed.

Lemma frameGrows_meteorHit x i w : frameGrows w (meteorHit x i w).
Proof.
  unfold meteorHit.
  destruct (entitiesRef w !! i) as [e|]; [|apply frameGrows_refl].
  match goal with
  | |- context [if ?b then _ else _] => destruct b
  end; [|apply frameGrows_refl].
  eapply frameGrows_trans; [|apply frameGrows_countKill]. solve_grows.
Qed.

Lemma frameGrows_basicAttack w : frameGrows w (basicAttack w).
Proof.
  unfold basicAttack.
  destruct (key w "KeyJ" && (e_attackCooldown (playerRef w) <=? 0));
    [|apply frameGrows_refl].
  eapply frameGrows_trans;
    [|apply frameGrows_forEachEntity; intros; apply frameGrows_attackHit].
  solve_grows.
Qed.

Lemma frameGrows_skill w : frameGrows w (skill w).
Proof.
  unfold skill.
  match goal with
  | |- context [if ?b then _ else _] => destruct b
  end; [|apply frameGrows_refl].
  destruct (heroType _).
  - eapply frameGrows_trans;
      [|apply frameGrows_forEachEntity; intros; apply frameGrows_whirlwindHit].
    solve_grows.
  - eapply frameGrows_trans;
      [|apply frameGrows_forEachEntity; intros; apply frameGrows_meteorHit].
    solve_grows.
Qed.

Lemma frameGrows_combat w : frameGrows w (combat w).
Proof.
  unfold combat. destruct (isLootMenuOpen _); [apply frameGrows_refl|].
  eapply frameGrows_trans; [apply frameGrows_basicAttack|apply frameGrows_skill].
Qed.

Lemma frameGrows_playerCooldowns w : frameGrows w (playerCooldowns w).
Proof. unfold playerCooldowns. solve_grows. Qed.

Lemma frameGrows_rogueStrike d e w : frameGrows w (rogueStrike d (e, w)).2.
Proof.
  unfold rogueStrike.
  match goal with
  | |- context [if ?b then _ else _] => destruct b
  end; cbv zeta; solve_grows.
Qed.

Lemma frameGrows_slimeAI d dx e w : frameGrows w (slimeAI d dx (e, w)).2.
Proof.
  unfold slimeAI. cbv zeta.
  match goal with
  | |- context [if ?b then _ else _] => destruct b
  end; solve_grows.
Qed.

Lemma frameGrows_entityAI g e w : frameGrows w (entityAI g (e, w)).2.
Proof.
  unfold entityAI. cbv zeta.
  destruct (Qltb (getDistanceSq e (playerRef w)) (800 * 800));
    [|apply frameGrows_refl].
  destruct (e_type e); try apply frameGrows_refl.
  - apply frameGrows_slimeAI.
  - unfold rogueAI. cbv zeta. apply frameGrows_rogueStrike.
Qed.

Lemma frameGrows_entityStep i w : frameGrows w (entityStep i w).
Proof.
  unfold entityStep.
  destruct (entitiesRef w !! i) as [e|]; [|apply frameGrows_refl].
  destruct (e_isDead e || bool_decide (e_type e = CHEST));
    [apply frameGrows_refl|].
  unfold entityBody.
  destruct (entityCollisionOn (platformsRef w) (integrateEntity e, false))
    as [e1 g].
  pose proof (frameGrows_entityAI g (entityTimers e1) w) as H.
  destruct (entityAI g (entityTimers e1, w)) as [e2 w2]. cbn [snd] in H.
  eapply frameGrows_trans; [exact H|]. solve_grows.
Qed.

Lemma frameGrows_entityLoop w : frameGrows w (entityLoop w).
Proof.
  apply frameGrows_forEachEntity. intros. apply frameGrows_entityStep.
Qed.

Lemma frameGrows_gameEnd w : frameGrows w (gameEnd w).
Proof. unfold gameEnd. split_ifs; solve_grows. Qed.

Lemma frameGrows_simulate w : frameGrows w (simulate w).
Proof.
  rewrite simulate_gameEnd. unfold beforeGameEnd.
  eapply frameGrows_trans; [apply frameGrows_prelude|].
  eapply frameGrows_trans; [apply frameGrows_playerInput|].
  eapply frameGrows_trans; [apply frameGrows_integratePlayer|].
  eapply frameGrows_trans; [apply frameGrows_playerCollision|].
  eapply frameGrows_trans; [apply frameGrows_readingLogic|].
  eapply frameGrows_trans; [apply frameGrows_combat|].
  eapply frameGrows_trans; [apply frameGrows_playerCooldowns|].
  eapply frameGrows_trans; [apply frameGrows_entityLoop|].
  apply frameGrows_gameEnd.
Qed.

Lemma frameGrows_openExtraction w w' :
  openExtraction w = Normal w' \/ openExtraction w = Thrown w' ->
  frameGrows w w'.
Proof.
  unfold openExtraction.
  destruct (time (stateRef w) =? 1800); cbv zeta; unfold Math_random.
  - destruct (jsIndex _ _); intros [H|H]; inversion H; solve_grows.
  - intros [H|H]; inversion H; solve_grows.
Qed.

Lemma frameGrows_extractionDwell w : frameGrows w (extractionDwell w).
Proof. unfold extractionDwell. split_ifs; solve_grows. Qed.

Lemma frameGrows_render w : frameGrows w (render w).
Proof.
  destruct (render_eq w) as (n & Hn & ->).
  unfold renderAt. cbv zeta. solve_grows.
Qed.

Lemma frameGrows_loop w : frameGrows w (loop w).1.
Proof.
  unfold loop. destruct (gameOver (stateRef w)); [apply frameGrows_refl|].
  destruct (openExtraction (simulate w)) as [w'|w'] eqn:Ho; cbn [fst].
  - eapply frameGrows_trans; [apply frameGrows_simulate|].
    eapply frameGrows_trans;
      [apply (frameGrows_openExtraction _ _ (or_introl Ho))|].
    eapply frameGrows_trans; [apply frameGrows_extractionDwell|].
    apply frameGrows_render.
  - eapply frameGrows_trans; [apply frameGrows_simulate|].
    apply (frameGrows_openExtraction _ _ (or_intror Ho)).
Qed.

Lemma frameGrows_handleModalKeys c w : frameGrows w (handleModalKeys c w).
Proof.
  unfold handleModalKeys, handlePickup, handleDiscard. cbv zeta.
  repeat match goal with
         | |- context [if ?b then _ else _] => destruct b
         | |- context [match ?o with Some _ => _ | None => _ end] => destruct o
         end; solve_grows.
Qed.

Lemma frameGrows_step ev s : frameGrows s.1 (step ev s).1.
Proof.
  destruct ev as [|c|c]; cbn [step].
  - destruct s.2; [apply frameGrows_loop|apply frameGrows_refl].
  - cbn [fst]. eapply frameGrows_trans; [apply frameGrows_handleModalKeys|].
    unfold handleKeyDown. solve_grows.
  - cbn [fst]. unfold handleKeyUp. solve_grows.
Qed.

Lemma Qfloor_index_range (rv : Q) (n : Z) :
  (0 <= rv)%Q -> (rv < 1)%Q -> 0 < n ->
  0 <= Qfloor (rv * inject_Z n) < n.
Proof.
  intros H0 H1 Hn.
  pose proof (Qfloor_scaled_range rv 0 n H0 H1 Hn) as H.
  assert (Hfl : Qfloor (rv * inject_Z (n - 0) + inject_Z 0)
                = Qfloor (rv * inject_Z n)).
  { rewrite Z.sub_0_r.
    assert (Heq : (rv * inject_Z n + inject_Z 0 == rv * inject_Z n)%Q) by ring.
    apply Z.le_antisymm; apply Qfloor_resp_le; rewrite Heq; lra. }
  rewrite Hfl in H. exact H.
Qed.

Lemma jsIndex_in_bounds {A : Type} (l : list A) (z : Z) :
  0 <= z < Z.of_nat (length l) ->
  exists x, jsIndex l z = Some x /\ In x l.
Proof.
  intros [H0 H1]. unfold jsIndex.
  destruct (z <? 0) eqn:E; [apply Z.ltb_lt in E; lia|].
  destruct (lookup_lt_is_Some_2 l (Z.to_nat z)) as [x Hx]; [lia|].
  exists x. split; [exact Hx|].
  apply list_elem_of_In. eapply list_elem_of_lookup_2. exact Hx.
Qed.

Lemma jsIndex_nil {A : Type} (z : Z) : jsIndex (@nil A) z = None.
Proof. unfold jsIndex. destruct (z <? 0); reflexivity. Qed.

(** ** Opening the extraction zone (lines 1107-1122) *)

Lemma openExtraction_opens (w : World) :
  tapeInRange w ->
  (exists p, In p (platformsRef w) /\ isExtractionPlatform p = true) ->
  (time (stateRef w) = 1800 ->
   exists p w',
     In p (platformsRef w)
     /\ plat_type p <> LAVA /\ plat_type p <> WOOD
     /\ openExtraction w = Normal w'
     /\ extractionActive (stateRef w') = true
     /\ extractionZone (stateRef w') = Some (extractionZoneOver p)
     /\ (r_width (extractionZoneOver p) == 80)%Q
     /\ (r_height (extractionZoneOver p) == 100)%Q
     /\ (r_y (extractionZoneOver p) + r_height (extractionZoneOver p)
         == plat_y p)%Q
     /\ (r_x (extractionZoneOver p) + r_width (extractionZoneOver p) / 2
         == plat_x p + plat_width p / 2)%Q)
  /\ (time (stateRef w) <> 1800 -> openExtraction w = Normal w).
Proof.
  intros Ht (p0 & Hin0 & He0). split.
  - intros H1800. unfold openExtraction.
    rewrite H1800. cbn [Z.eqb Pos.eqb]. cbv zeta. unfold Math_random.
    world_cbn.
    set (valid := List.filter isExtractionPlatform (platformsRef w)).
    assert (Hlen : 0 < Z.of_nat (length valid)).
    { assert (Hv : In p0 valid) by (apply List.filter_In; auto).
      destruct valid; [destruct Hv|]. cbn [length]. lia. }
    destruct (Ht (randomUsed w)) as [H0 H1].
    destruct (jsIndex_in_bounds valid _
                (Qfloor_index_range _ _ H0 H1 Hlen)) as (p & Hp & Hinp).
    rewrite Hp. apply List.filter_In in Hinp as [Hinp Hel].
    unfold isExtractionPlatform in Hel.
    rewrite andb_true_iff, !negb_true_iff in Hel. destruct Hel as [Hl Hw].
    apply bool_decide_eq_false_1 in Hl. apply bool_decide_eq_false_1 in Hw.
    eexists p, _. split; [exact Hinp|]. split; [exact Hl|]. split; [exact Hw|].
    split; [reflexivity|]. split; [reflexivity|]. split; [reflexivity|].
    unfold extractionZoneOver. cbn [r_x r_y r_width r_height].
    repeat split; try reflexivity; field.
  - intros Hne. unfold openExtraction.
    destruct (time (stateRef w) =? 1800) eqn:E; [|reflexivity].
    apply Z.eqb_eq in E. contradiction.
Qed.

(** At frame 1800, with a tape cell between 0 and 1 and at least one
    platform that is neither lava nor wood, the zone opens normally:
    extraction becomes active and the zone is the 80 by 100 rectangle
    standing centred on top of one such platform.  At any other frame
    nothing is written. *)
Theorem openExtraction_picks_eligible_platform (w : World) :
  tapeInRange w ->
  (exists p, In p (platformsRef w) /\ isExtractionPlatform p = true) ->
  (time (stateRef w) = 1800 ->
   exists p w',
     In p (platformsRef w)
     /\ plat_type p <> LAVA /\ plat_type p <> WOOD
     /\ openExtraction w = Normal w'
     /\ extractionActive (stateRef w') = true
     /\ extractionZone (stateRef w') = Some (extractionZoneOver p)
     /\ (r_width (extractionZoneOver p) == 80)%Q
     /\ (r_height (extractionZoneOver p) == 100)%Q
     /\ (r_y (extractionZoneOver p) + r_height (extractionZoneOver p)
         == plat_y p)%Q
     /\ (r_x (extractionZoneOver p) + r_width (extractionZoneOver p) / 2
         == plat_x p + plat_width p / 2)%Q)
  /\ (time (stateRef w) <> 1800 -> openExtraction w = Normal w).
Proof. exact (openExtraction_opens w). Qed.

(** Frame 1800 of the landed session. *)
Definition portalWorld : World := withStateRef (set_time 1800) landedWorld.

Lemma openExtraction_opens_in_portalWorld :
  tapeInRange portalWorld
  /\ (exists p, In p (platformsRef portalWorld)
                /\ isExtractionPlatform p = true)
  /\ exists p w',
       In p generateMap
       /\ openExtraction portalWorld = Normal w'
       /\ extractionZone (stateRef w') = Some (extractionZoneOver p).
Proof.
  assert (Ht : tapeInRange portalWorld)
    by (apply halfTape_in_range; reflexivity).
  assert (He : exists p, In p (platformsRef portalWorld)
                         /\ isExtractionPlatform p = true).
  { exists (mkPlatform (-200) 0 400 40 DIRT).
    split; [vm_compute; tauto|reflexivity]. }
  destruct (openExtraction_picks_eligible_platform portalWorld Ht He)
    as [Hopen _].
  destruct (Hopen eq_refl) as (p & w' & Hin & _ & _ & Hn & _ & Hz & _).
  split; [exact Ht|]. split; [exact He|].
  exists p, w'. split; [exact Hin|]. split; [exact Hn|exact Hz].
Defined.

(** The error path: at frame 1800 with no platform that is neither
    lava nor wood, indexing the empty list gives [undefined] and the
    frame throws after extraction was marked active and one tape cell
    was drawn; no zone is set and no further frame is scheduled. *)
Theorem openExtraction_throws_without_eligible_platform (w : World) :
  time (stateRef w) = 1800 ->
  (forall p, In p (platformsRef w) -> isExtractionPlatform p = false) ->
  exists w',
    openExtraction w = Thrown w'
    /\ extractionActive (stateRef w') = true
    /\ extractionZone (stateRef w') = extractionZone (stateRef w)
    /\ randomUsed w' = S (randomUsed w)
    /\ gameOverCalls w' = gameOverCalls w.
Proof.
  intros H1800 Hnone. unfold openExtraction.
  rewrite H1800. cbn [Z.eqb Pos.eqb]. cbv zeta. unfold Math_random.
  world_cbn.
  assert (Hv : List.filter isExtractionPlatform (platformsRef w) = []).
  { induction (platformsRef w) as [|p l IH]; [reflexivity|].
    simpl. rewrite (Hnone p) by (left; reflexivity).
    apply IH. intros q Hq. apply Hnone. right. exact Hq. }
  rewrite Hv, jsIndex_nil. eexists. split; [reflexivity|]. repeat split.
Qed.

(** Frame 1800 of a world whose only platform is lava. *)
Definition lavaOnlyWorld : World :=
  mkWorld SWORDSMAN (newPlayer SWORDSMAN) []
          [mkPlatform (-200) 0 400 40 LAVA] [] ∅ 0 ∅ 0 [] None
          (set_time 1800 initialStateRef) [] halfTape 0.

Lemma openExtraction_throws_in_lavaOnlyWorld :
  time (stateRef lavaOnlyWorld) = 1800
  /\ (forall p, In p (platformsRef lavaOnlyWorld) ->
                isExtractionPlatform p = false)
  /\ exists w',
       openExtraction lavaOnlyWorld = Thrown w'
       /\ extractionActive (stateRef w') = true
       /\ extractionZone (stateRef w') = None.
Proof.
  assert (H1 : time (stateRef lavaOnlyWorld) = 1800) by reflexivity.
  assert (H2 : forall p, In p (platformsRef lavaOnlyWorld) ->
                         isExtractionPlatform p = false).
  { intros p [<-|[]]. reflexivity. }
  destruct (openExtraction_throws_without_eligible_platform
              lavaOnlyWorld H1 H2) as (w' & Ho & Ha & Hz & _).
  split; [exact H1|]. split; [exact H2|].
  exists w'. split; [exact Ho|]. split; [exact Ha|exact Hz].
Defined.

(** ** Session-wide facts *)

Lemma spawnChest_platforms w p :
  platformsRef (spawnChest w p) = platformsRef w
  /\ randomTape (spawnChest w p) = randomTape w
  /\ stateRef (spawnChest w p) = stateRef w
  /\ gameOverCalls (spawnChest w p) = gameOverCalls w
  /\ playerRef (spawnChest w p) = playerRef w
  /\ killsRef (spawnChest w p) = killsRef w.
Proof.
  unfold spawnChest. cbv zeta. unfold Math_random.
  repeat match goal with
         | |- context [if ?b then _ else _] => destruct b
         end; repeat split.
Qed.

Lemma initWorld_fields h tape :
  platformsRef (initWorld h tape) = generateMap
  /\ randomTape (initWorld h tape) = tape
  /\ stateRef (initWorld h tape) = initialStateRef
  /\ gameOverCalls (initWorld h tape) = []
  /\ playerRef (initWorld h tape) = newPlayer h
  /\ killsRef (initWorld h tape) = 0.
Proof.
  unfold initWorld.
  apply (fold_left_invariant spawnChest
           (fun w => platformsRef w = generateMap
                     /\ randomTape w = tape
                     /\ stateRef w = initialStateRef
                     /\ gameOverCalls w = []
                     /\ playerRef w = newPlayer h
                     /\ killsRef w = 0)).
  - intros w p (H1 & H2 & H3 & H4 & H5 & H6).
    destruct (spawnChest_platforms w p) as (P1 & P2 & P3 & P4 & P5 & P6).
    rewrite P1, P2, P3, P4, P5, P6. repeat split; assumption.
  - repeat split.
Qed.

Lemma reachable_platforms s : reachable s -> platformsRef s.1 = generateMap.
Proof.
  induction 1 as [h tape|ev s Hs IH].
  - apply initWorld_fields.
  - destruct (frameGrows_step ev s) as (_ & Hp & _). rewrite Hp. exact IH.
Qed.

Lemma generateMap_has_eligible :
  exists p, In p generateMap /\ isExtractionPlatform p = true.
Proof.
  exists (mkPlatform (-200) 0 400 40 DIRT).
  split; [vm_compute; tauto|reflexivity].
Qed.

Lemma initWorld_heroType h tape : heroType (initWorld h tape) = h.
Proof.
  unfold initWorld.
  apply (fold_left_invariant spawnChest (fun w => heroType w = h));
    [|reflexivity].
  intros w p H. unfold spawnChest. cbv zeta. unfold Math_random.
  repeat match goal with
         | |- context [if ?b then _ else _] => destruct b
         end; exact H.
Qed.

(** What every state of a session has from its start. *)
Definition fromStart (h : HeroType) (tape : nat -> Q) (s : Session) : Prop :=
  platformsRef s.1 = generateMap
  /\ randomTape s.1 = tape
  /\ heroType s.1 = h.

Lemma fromStart_step h tape ev s :
  fromStart h tape s -> fromStart h tape (step ev s).
Proof.
  intros (Hp & Ht & Hh).
  destruct (frameGrows_step ev s) as (H1 & H2 & H3 & _).
  unfold fromStart. rewrite H1, H2, H3. repeat split; assumption.
Qed.

Lemma fromStart_run h tape evs :
  forall s, fromStart h tape s -> fromStart h tape (run evs s).
Proof.
  induction evs as [|ev evs IH]; intros s Hs; [exact Hs|].
  apply (IH (step ev s)), fromStart_step, Hs.
Qed.

Lemma fromStart_startSession h tape :
  fromStart h tape (startSession h tape).
Proof.
  unfold fromStart, startSession. cbn [fst].
  destruct (initWorld_fields h tape) as (Hp & Ht & _).
  rewrite Hp, Ht, initWorld_heroType. repeat split.
Qed.

Lemma loop_never_throws w :
  tapeInRange w ->
  platformsRef w = generateMap ->
  (loop w).2 = negb (gameOver (stateRef w)).
Proof.
  intros Hrange Hp.
  unfold loop. destruct (gameOver (stateRef w)); [reflexivity|].
  destruct (openExtraction (simulate w)) as [w'|w'] eqn:Ho; [reflexivity|].
  exfalso.
  destruct (frameGrows_simulate w) as (Ht' & Hp' & _).
  assert (Hrange' : tapeInRange (simulate w)).
  { intros n. rewrite Ht'. apply Hrange. }
  assert (Hel : exists p, In p (platformsRef (simulate w))
                          /\ isExtractionPlatform p = true).
  { rewrite Hp', Hp. apply generateMap_has_eligible. }
  destruct (openExtraction_opens (simulate w) Hrange' Hel) as [H1 H2].
  destruct (Z.eq_dec (time (stateRef (simulate w))) 1800) as [E|E].
  - destruct (H1 E) as (p & w2 & _ & _ & _ & Hn & _). congruence.
  - rewrite (H2 E) in Ho. discriminate.
Qed.

(** In a session started by [startSession], with tape cells between 0
    and 1, no frame ever throws: a frame that finds the game not over
    reaches [requestAnimationFrame], and one that finds it over
    returns at once without scheduling another.  The platform list and
    the tape are those of the start throughout; visited chunks are
    never forgotten, and the kill counter and the tape cursor never
    go back. *)
Theorem session_frames_never_throw (evs : list Event) (h : HeroType)
    (tape : nat -> Q) :
  (forall n, (0 <= tape n)%Q /\ (tape n < 1)%Q) ->
  let s := run evs (startSession h tape) in
  (loop s.1).2 = negb (gameOver (stateRef s.1))
  /\ platformsRef s.1 = generateMap
  /\ randomTape s.1 = tape
  /\ heroType s.1 = h
  /\ (forall ev,
        visitedChunksRef s.1 ⊆ visitedChunksRef (step ev s).1
        /\ killsRef s.1 <= killsRef (step ev s).1
        /\ (randomUsed s.1 <= randomUsed (step ev s).1)%nat).
Proof.
  intros Htape. cbv zeta.
  pose proof (fromStart_run h tape evs _ (fromStart_startSession h tape)) as H.
  revert H. generalize (run evs (startSession h tape)).
  intros s (Hp & Ht & Hh).
  split.
  { apply loop_never_throws; [|exact Hp]. intros n. rewrite Ht. apply Htape. }
  split; [exact Hp|]. split; [exact Ht|]. split; [exact Hh|].
  intros ev. destruct (frameGrows_step ev s) as (_ & _ & _ & Hv & Hk & Hc).
  auto.
Qed.

Lemma session_frames_never_throw_on_half_tape :
  (forall n, (0 <= halfTape n)%Q /\ (halfTape n < 1)%Q)
  /\ (loop (run [Frame; KeyDown "KeyD"; Frame]
                (startSession SWORDSMAN halfTape)).1).2 = true.
Proof.
  assert (Ht : forall n, (0 <= halfTape n)%Q /\ (halfTape n < 1)%Q)
    by (intros n; unfold halfTape; split; lra).
  destruct (session_frames_never_throw [Frame; KeyDown "KeyD"; Frame]
              SWORDSMAN halfTape Ht) as (H & _).
  split; [exact Ht|]. rewrite H. vm_compute. reflexivity.
Defined.

(** ** What the phases of a frame write

    Each phase of the frame assigns to some of the refs and to no
    others.  The lemmas of this section say so once for all: a
    relation between worlds that is reflexive, transitive and kept by
    an assignment to each ref a phase writes is kept by the phase.
    After the section, each lemma asks only for the refs its phase
    writes.  The three phases that write a ref nothing else in the
    frame writes (the chunk marking, the potion and the chest opening)
    are also taken as hypotheses of their own, for the relations that
    an arbitrary assignment to those refs does not keep. *)

(** From the world [simulate] returns to the end of the frame. *)
Definition frameEnd (w : World) : World :=
  match openExtraction w with
  | Normal w' => render (extractionDwell w')
  | Thrown w' => w'
  end.

(** [simulate] from the spawn section on. *)
Definition fromSpawn (w : World) : World :=
  afterReading (readingLogic (atReading (spawnRogue (spawnMob w)))).

Lemma simulate_fromSpawn w :
  simulate w = fromSpawn (markVisited (tick w)).
Proof. rewrite simulate_atReading. unfold fromSpawn, prelude. reflexivity. Qed.

Lemma loop_frameEnd w :
  gameOver (stateRef w) = false -> (loop w).1 = frameEnd (simulate w).
Proof.
  intros Hg. unfold loop, frameEnd. rewrite Hg.
  destruct (openExtraction (simulate w)); reflexivity.
Qed.

Section Writes.

Variable R : World -> World -> Prop.
Hypothesis R_refl : forall w, R w w.
Hypothesis R_trans : forall w1 w2 w3, R w1 w2 -> R w2 w3 -> R w1 w3.
Hypothesis R_e_x : forall v w, R w (withPlayer (set_e_x v) w).
Hypothesis R_e_y : forall v w, R w (withPlayer (set_e_y v) w).
Hypothesis R_e_vx : forall v w, R w (withPlayer (set_e_vx v) w).
Hypothesis R_e_vy : forall v w, R w (withPlayer (set_e_vy v) w).
Hypothesis R_e_hp : forall v w, R w (withPlayer (set_e_hp v) w).
Hypothesis R_e_facing : forall v w, R w (withPlayer (set_e_facing v) w).
Hypothesis R_e_attackCooldown :
  forall v w, R w (withPlayer (set_e_attackCooldown v) w).
Hypothesis R_e_hitFlashTimer :
  forall v w, R w (withPlayer (set_e_hitFlashTimer v) w).
Hypothesis R_e_skillCooldown :
  forall v w, R w (withPlayer (set_e_skillCooldown v) w).
Hypothesis R_e_jumpCount : forall v w, R w (withPlayer (set_e_jumpCount v) w).
Hypothesis R_e_isJumpKeyHeld :
  forall v w, R w (withPlayer (set_e_isJumpKeyHeld v) w).
Hypothesis R_entitiesRef : forall v w, R w (set_entitiesRef v w).
Hypothesis R_textsRef : forall v w, R w (set_textsRef v w).
Hypothesis R_time : forall v w, R w (withStateRef (set_time v) w).
Hypothesis R_cameraX : forall v w, R w (withStateRef (set_cameraX v) w).
Hypothesis R_cameraY : forall v w, R w (withStateRef (set_cameraY v) w).
Hypothesis R_extractionActive :
  forall v w, R w (withStateRef (set_extractionActive v) w).
Hypothesis R_extractionZone :
  forall v w, R w (withStateRef (set_extractionZone v) w).
Hypothesis R_gameOver : forall v w, R w (withStateRef (set_gameOver v) w).
Hypothesis R_readingTimer :
  forall v w, R w (withStateRef (set_readingTimer v) w).
Hypothesis R_interactionTarget :
  forall v w, R w (withStateRef (set_interactionTarget v) w).
Hypothesis R_extractionFrameCount :
  forall v w, R w (withStateRef (set_extractionFrameCount v) w).
Hypothesis R_isReading : forall v w, R w (withStateRef (set_isReading v) w).
Hypothesis R_isLootMenuOpen :
  forall v w, R w (withStateRef (set_isLootMenuOpen v) w).
Hypothesis R_killsRef : forall v w, R w (set_killsRef v w).
Hypothesis R_gameOverCalls : forall v w, R w (set_gameOverCalls v w).
Hypothesis R_randomUsed : forall v w, R w (set_randomUsed v w).
Hypothesis R_visitedChunksRef : forall v w, R w (set_visitedChunksRef v w).
Hypothesis R_potionRef : forall v w, R w (set_potionRef v w).
Hypothesis R_keysRef : forall v w, R w (set_keysRef v w).
Hypothesis R_lootModal : forall v w, R w (set_lootModal v w).
Hypothesis R_inventoryRef : forall v w, R w (set_inventoryRef v w).
Hypothesis R_markVisited : forall w, R w (markVisited w).
Hypothesis R_inputPotion : forall w d, R w (inputPotion (w, d)).1.
Hypothesis R_openChest : forall i w, R w (openChest i w).

(** One assignment to a field of the player or of the state, on the
    world [W]. *)
Ltac player_field v W :=
  first [ exact (R_e_x v W) | exact (R_e_y v W) | exact (R_e_vx v W)
        | exact (R_e_vy v W) | exact (R_e_hp v W) | exact (R_e_facing v W)
        | exact (R_e_attackCooldown v W) | exact (R_e_hitFlashTimer v W)
        | exact (R_e_skillCooldown v W) | exact (R_e_jumpCount v W)
        | exact (R_e_isJumpKeyHeld v W) ].

Ltac state_field v W :=
  first [ exact (R_time v W) | exact (R_cameraX v W) | exact (R_cameraY v W)
        | exact (R_extractionActive v W) | exact (R_extractionZone v W)
        | exact (R_gameOver v W) | exact (R_readingTimer v W)
        | exact (R_interactionTarget v W)
        | exact (R_extractionFrameCount v W) | exact (R_isReading v W)
        | exact (R_isLootMenuOpen v W) ].

(** Peels the outermost assignment off the world on the right. *)
Ltac writes_peel :=
  lazymatch goal with
  | |- R _ (set_playerRef (?f ?v (playerRef ?W)) ?W) =>
      apply R_trans with W; [|player_field v W]
  | |- R _ (set_playerRef (?f ?v ?p) ?W) =>
      apply R_trans with (set_playerRef p W);
      [|player_field v (set_playerRef p W)]
  | |- R _ (set_stateRef (?f ?v (stateRef ?W)) ?W) =>
      apply R_trans with W; [|state_field v W]
  | |- R _ (set_stateRef (?f ?v ?s) ?W) =>
      apply R_trans with (set_stateRef s W);
      [|state_field v (set_stateRef s W)]
  | |- R _ _ =>
      eapply R_trans;
      [|first [ apply R_entitiesRef | apply R_textsRef | apply R_killsRef
              | apply R_gameOverCalls | apply R_randomUsed ]]
  end.

Ltac writes_solve :=
  cbv beta iota zeta delta
    [withPlayer withEntity withStateRef pushText pushEntity Math_random
     onGameOver fst snd];
  repeat first [ apply R_refl | writes_peel ].

Ltac writes_ifs :=
  repeat match goal with
         | |- context [if ?b then _ else _] => destruct b
         end.

Lemma writes_forEachEntity body :
  (forall i w, R w (body i w)) ->
  forall w, R w (forEachEntity body w).
Proof.
  intros Hb w.
  apply (forEachEntity_invariant (fun w' => R w w')); [|apply R_refl].
  intros i w' H. eapply R_trans; [exact H|apply Hb].
Qed.

Lemma writes_tick w : R w (tick w).
Proof. unfold tick. writes_solve. Qed.

Lemma assigns_markVisited w : R w (markVisited w).
Proof. unfold markVisited. cbv zeta. apply R_visitedChunksRef. Qed.

Lemma writes_spawnMob w : R w (spawnMob w).
Proof. unfold spawnMob. writes_ifs; writes_solve. Qed.

Lemma writes_spawnRogue w : R w (spawnRogue w).
Proof. unfold spawnRogue. writes_ifs; writes_solve. Qed.

Lemma writes_inputLeft w d : R w (inputLeft (w, d)).1.
Proof. unfold inputLeft. writes_ifs; writes_solve. Qed.

Lemma writes_inputRight w d : R w (inputRight (w, d)).1.
Proof. unfold inputRight. writes_ifs; writes_solve. Qed.

Lemma writes_inputJump w d : R w (inputJump (w, d)).1.
Proof. unfold inputJump. writes_ifs; writes_solve. Qed.

Lemma assigns_inputPotion w d : R w (inputPotion (w, d)).1.
Proof.
  unfold inputPotion. writes_ifs; [|writes_solve].
  cbv zeta. cbn [fst].
  eapply R_trans; [|apply R_keysRef].
  eapply R_trans; [apply R_potionRef|]. writes_solve.
Qed.

Lemma writes_inputSearch w d : R w (inputSearch (w, d)).
Proof. unfold inputSearch. cbv zeta. writes_ifs; writes_solve. Qed.

Lemma writes_integratePlayer w : R w (integratePlayer w).
Proof. unfold integratePlayer. writes_solve. Qed.

Lemma writes_playerCollision w : R w (playerCollision w).1.
Proof.
  unfold playerCollision, playerCollisionOn.
  refine (fold_left_preserves playerCollidePlatform (fun a b => R a.1 b.1)
            _ _ _ (platformsRef w) (w, false)).
  - intros a. apply R_refl.
  - intros a1 a2 a3. apply R_trans.
  - intros [w1 g1] plat. unfold playerCollidePlatform.
    writes_ifs; writes_solve.
Qed.

Lemma assigns_openChest i w : R w (openChest i w).
Proof.
  unfold openChest. cbv zeta.
  match goal with
  | |- context [generateLoot ?w1] =>
      pose proof (generateLoot_world w1) as Hw;
      destruct (generateLoot w1) as [item w2]
  end.
  cbn [snd] in Hw. subst w2. unfold Math_random.
  destruct (Qltb _ 0.4).
  - cbv beta iota zeta delta [pushText Math_random].
    eapply R_trans; [|apply R_textsRef].
    eapply R_trans; [|apply R_randomUsed].
    eapply R_trans; [|apply R_potionRef].
    eapply R_trans; [|apply R_randomUsed].
    eapply R_trans; [|apply R_lootModal]. writes_solve.
  - eapply R_trans; [|apply R_randomUsed].
    eapply R_trans; [|apply R_lootModal]. writes_solve.
Qed.

Lemma writes_countKill i w : R w (countKill i w).
Proof.
  unfold countKill. destruct (entitiesRef w !! i); writes_ifs; writes_solve.
Qed.

Lemma writes_attackHit hb k i w : R w (attackHit hb k i w).
Proof.
  unfold attackHit.
  destruct (entitiesRef w !! i) as [e|]; [|apply R_refl].
  destruct (isHostile e && negb (e_isDead e)
            && rectIntersect hb (rectOfEntity e)); [|apply R_refl].
  eapply R_trans; [|apply writes_countKill]. writes_solve.
Qed.

Lemma writes_whirlwindHit i w : R w (whirlwindHit i w).
Proof.
  unfold whirlwindHit.
  destruct (entitiesRef w !! i) as [e|]; [|apply R_refl].
  destruct (isHostile e && negb (e_isDead e)
            && distanceBelow (playerRef w) e 150); [|apply R_refl].
  eapply R_trans; [|apply writes_countKill]. writes_solve.
Qed.

Lemma writes_meteorHit x i w : R w (meteorHit x i w).
Proof.
  unfold meteorHit.
  destruct (entitiesRef w !! i) as [e|]; [|apply R_refl].
  match goal with
  | |- context [if ?b then _ else _] => destruct b
  end; [|apply R_refl].
  eapply R_trans; [|apply writes_countKill]. writes_solve.
Qed.

Lemma writes_basicAttack w : R w (basicAttack w).
Proof.
  unfold basicAttack.
  destruct (key w "KeyJ" && (e_attackCooldown (playerRef w) <=? 0));
    [|apply R_refl].
  eapply R_trans;
    [|apply writes_forEachEntity; intros; apply writes_attackHit].
  writes_solve.
Qed.

Lemma writes_skill w : R w (skill w).
Proof.
  unfold skill.
  match goal with
  | |- context [if ?b then _ else _] => destruct b
  end; [|apply R_refl].
  destruct (heroType _).
  - eapply R_trans;
      [|apply writes_forEachEntity; intros; apply writes_whirlwindHit].
    writes_solve.
  - eapply R_trans;
      [|apply writes_forEachEntity; intros; apply writes_meteorHit].
    writes_solve.
Qed.

Lemma writes_combat w : R w (combat w).
Proof.
  unfold combat. destruct (isLootMenuOpen _); [apply R_refl|].
  eapply R_trans; [apply writes_basicAttack|apply writes_skill].
Qed.

Lemma writes_playerCooldowns w : R w (playerCooldowns w).
Proof. unfold playerCooldowns. writes_solve. Qed.

Lemma writes_entityAI g e w : R w (entityAI g (e, w)).2.
Proof.
  unfold entityAI. cbv zeta.
  destruct (Qltb (getDistanceSq e (playerRef w)) (800 * 800));
    [|apply R_refl].
  destruct (e_type e); try apply R_refl.
  - unfold slimeAI. cbv zeta. writes_ifs; writes_solve.
  - unfold rogueAI, rogueStrike. cbv zeta. writes_ifs; writes_solve.
Qed.

Lemma writes_entityStep i w : R w (entityStep i w).
Proof.
  unfold entityStep.
  destruct (entitiesRef w !! i) as [e|]; [|apply R_refl].
  destruct (e_isDead e || bool_decide (e_type e = CHEST)); [apply R_refl|].
  unfold entityBody.
  destruct (entityCollisionOn (platformsRef w) (integrateEntity e, false))
    as [e1 g].
  pose proof (writes_entityAI g (entityTimers e1) w) as H.
  destruct (entityAI g (entityTimers e1, w)) as [e2 w2]. cbn [snd] in H.
  eapply R_trans; [exact H|]. writes_solve.
Qed.

Lemma writes_entityLoop w : R w (entityLoop w).
Proof. apply writes_forEachEntity. intros. apply writes_entityStep. Qed.

Lemma writes_gameEnd w : R w (gameEnd w).
Proof. unfold gameEnd. writes_ifs; writes_solve. Qed.

Lemma writes_afterReading w : R w (afterReading w).
Proof.
  unfold afterReading.
  eapply R_trans; [apply writes_combat|].
  eapply R_trans; [apply writes_playerCooldowns|].
  eapply R_trans; [apply writes_entityLoop|].
  apply writes_gameEnd.
Qed.

Lemma writes_openExtraction w w' :
  openExtraction w = Normal w' \/ openExtraction w = Thrown w' -> R w w'.
Proof.
  unfold openExtraction.
  destruct (time (stateRef w) =? 1800); cbv zeta; unfold Math_random.
  - destruct (jsIndex _ _); intros [H|H]; inversion H; writes_solve.
  - intros [H|H]; inversion H; apply R_refl.
Qed.

Lemma writes_extractionDwell w : R w (extractionDwell w).
Proof.
  unfold extractionDwell.
  destruct (extractionZone (stateRef w)); writes_ifs; writes_solve.
Qed.

Lemma writes_render w : R w (render w).
Proof.
  destruct (render_eq w) as (n & _ & ->).
  unfold renderAt. writes_solve.
Qed.

Lemma writes_frameEnd w : R w (frameEnd w).
Proof.
  unfold frameEnd.
  destruct (openExtraction w) as [w'|w'] eqn:Ho.
  - eapply R_trans; [apply (writes_openExtraction _ _ (or_introl Ho))|].
    eapply R_trans; [apply writes_extractionDwell|apply writes_render].
  - apply (writes_openExtraction _ _ (or_intror Ho)).
Qed.

Lemma writes_playerInput w : R w (playerInput w).
Proof.
  unfold playerInput.
  destruct (isLootMenuOpen (stateRef w)); [apply R_refl|].
  pose proof (writes_inputLeft w false) as H1.
  destruct (inputLeft (w, false)) as [w1 d1]. cbn [fst] in H1.
  pose proof (writes_inputRight w1 d1) as H2.
  destruct (inputRight (w1, d1)) as [w2 d2]. cbn [fst] in H2.
  pose proof (writes_inputJump w2 d2) as H3.
  destruct (inputJump (w2, d2)) as [w3 d3]. cbn [fst] in H3.
  pose proof (R_inputPotion w3 d3) as H4.
  destruct (inputPotion (w3, d3)) as [w4 d4]. cbn [fst] in H4.
  pose proof (writes_inputSearch w4 d4) as H5.
  repeat (eapply R_trans; [eassumption|]). apply R_refl.
Qed.

Lemma writes_readingLogic w : R w (readingLogic w).
Proof.
  unfold readingLogic.
  destruct (interactionTarget (stateRef w)) as [i|]; [|apply R_refl].
  destruct (isReading (stateRef w)); [|apply R_refl].
  destruct (90 <=? _); [|writes_solve].
  eapply R_trans; [|apply R_openChest]. writes_solve.
Qed.

Lemma writes_fromSpawn w : R w (fromSpawn w).
Proof.
  unfold fromSpawn, atReading.
  eapply R_trans; [apply writes_spawnMob|].
  eapply R_trans; [apply writes_spawnRogue|].
  eapply R_trans; [apply writes_playerInput|].
  eapply R_trans; [apply writes_integratePlayer|].
  eapply R_trans; [apply writes_playerCollision|].
  eapply R_trans; [apply writes_readingLogic|].
  apply writes_afterReading.
Qed.

Lemma writes_simulate w : R w (simulate w).
Proof.
  rewrite simulate_fromSpawn.
  eapply R_trans; [apply writes_tick|].
  eapply R_trans; [apply R_markVisited|].
  apply writes_fromSpawn.
Qed.

Lemma writes_loop w : R w (loop w).1.
Proof.
  destruct (gameOver (stateRef w)) eqn:Hg.
  - unfold loop. rewrite Hg. apply R_refl.
  - rewrite (loop_frameEnd w Hg).
    eapply R_trans; [apply writes_simulate|apply writes_frameEnd].
Qed.

Lemma writes_handleModalKeys c w : R w (handleModalKeys c w).
Proof.
  unfold handleModalKeys, handlePickup, handleDiscard. cbv zeta.
  destruct (lootModal w) as [item|]; [|apply R_refl].
  destruct (bool_decide (c = "KeyJ")), (bool_decide (c = "KeyK"));
    cbn [lootModal set_lootModal set_inventoryRef withStateRef
         set_stateRef inventoryRef];
    writes_ifs;
    repeat first
      [ apply R_refl
      | eapply R_trans;
        [|first [ apply R_isLootMenuOpen | apply R_lootModal
                | apply R_inventoryRef ]] ].
Qed.

End Writes.

(** A projection of the world that an event leaves as it was. *)
Definition unchanged {A : Type} (f : World -> A) (w w' : World) : Prop :=
  f w' = f w.

Ltac unchanged_setters :=
  first [ intros; reflexivity
        | unfold unchanged; intros; congruence ].

Ltac unchanged_by L :=
  apply L; try unchanged_setters;
  try (intros;
       first [ apply assigns_markVisited | apply assigns_inputPotion
             | apply assigns_openChest ];
       unchanged_setters).

(** ** The session start: the refs the chest spawner leaves alone *)

Lemma initWorld_refs h tape :
  inventoryRef (initWorld h tape) = []
  /\ potionRef (initWorld h tape) = 0
  /\ keysRef (initWorld h tape) = ∅
  /\ visitedChunksRef (initWorld h tape) = ∅
  /\ lootModal (initWorld h tape) = None
  /\ textsRef (initWorld h tape) = [].
Proof.
  unfold initWorld.
  apply (fold_left_invariant spawnChest
           (fun w => inventoryRef w = [] /\ potionRef w = 0
                     /\ keysRef w = ∅ /\ visitedChunksRef w = ∅
                     /\ lootModal w = None /\ textsRef w = []));
    [|repeat split].
  intros w p H. unfold spawnChest. cbv zeta. unfold Math_random.
  repeat match goal with
         | |- context [if ?b then _ else _] => destruct b
         end; exact H.
Qed.

Lemma run_app evs1 evs2 s : run (evs1 ++ evs2) s = run evs2 (run evs1 s).
Proof. unfold run. apply fold_left_app. Qed.

(** An invariant of the world that every event keeps holds throughout
    a session. *)
Lemma run_invariant (P : World -> Prop) :
  (forall ev s, P s.1 -> P (step ev s).1) ->
  forall evs s, P s.1 -> P (run evs s).1.
Proof.
  intros Hstep evs. induction evs as [|ev evs IH]; intros s Hs; [exact Hs|].
  apply (IH (step ev s)), Hstep, Hs.
Qed.

(** ** The inventory (lines 709-733 and the frame) *)

Lemma loop_inventoryRef w : unchanged inventoryRef w (loop w).1.
Proof.
  unchanged_by (writes_loop (unchanged inventoryRef)).
Qed.

Lemma handleModalKeys_inventoryRef c w :
  inventoryRef (handleModalKeys c w)
  = match lootModal w with
    | Some item =>
        if bool_decide (c = "KeyJ")
           && (length (inventoryRef w) <? INVENTORY_CAP)%nat
        then inventoryRef w ++ [item] else inventoryRef w
    | None => inventoryRef w
    end.
Proof.
  unfold handleModalKeys, handlePickup, handleDiscard. cbv zeta.
  destruct (lootModal w) as [item|]; [|reflexivity].
  destruct (bool_decide (c = "KeyJ")), (bool_decide (c = "KeyK"));
    cbn [andb lootModal set_lootModal withStateRef set_stateRef inventoryRef];
    try reflexivity;
    destruct (length (inventoryRef w) <? INVENTORY_CAP)%nat; reflexivity.
Qed.

Lemma step_inventory_capped ev s :
  (length (inventoryRef s.1) <= INVENTORY_CAP)%nat ->
  (length (inventoryRef (step ev s).1) <= INVENTORY_CAP)%nat.
Proof.
  intros H. destruct ev as [|c|c]; cbn [step fst].
  - destruct s.2; [|exact H]. rewrite loop_inventoryRef. exact H.
  - change (inventoryRef (handleKeyDown c (handleModalKeys c s.1)))
      with (inventoryRef (handleModalKeys c s.1)).
    rewrite handleModalKeys_inventoryRef.
    destruct (lootModal s.1) as [item|]; [|exact H].
    destruct (bool_decide (c = "KeyJ")); cbn [andb]; [|exact H].
    destruct (length (inventoryRef s.1) <? INVENTORY_CAP)%nat eqn:E;
      [|exact H].
    apply Nat.ltb_lt in E. rewrite length_app. simpl. lia.
  - exact H.
Qed.

(** The inventory is written by the pickup alone and never holds more
    than [INVENTORY_CAP] items.  A frame leaves the inventory as it
    is, whatever the world; so does a key going up, a key going down
    while no loot is offered, and any key other than [KeyJ]; [KeyJ]
    with loot offered appends that item when fewer than 20 are held
    and drops it otherwise.  From the session start on, after any
    events, the inventory holds at most 20 items. *)
Theorem inventory_written_by_pickup_only_and_capped (w : World) (c : string)
    (evs : list Event) (h : HeroType) (tape : nat -> Q) :
  inventoryRef (loop w).1 = inventoryRef w
  /\ inventoryRef (handleKeyUp c w) = inventoryRef w
  /\ (lootModal w = None \/ c <> "KeyJ" ->
      inventoryRef (handleKeyDown c (handleModalKeys c w)) = inventoryRef w)
  /\ (forall item,
        lootModal w = Some item ->
        inventoryRef (handleKeyDown "KeyJ" (handleModalKeys "KeyJ" w))
        = if (length (inventoryRef w) <? 20)%nat
          then inventoryRef w ++ [item] else inventoryRef w)
  /\ (length (inventoryRef (run evs (startSession h tape)).1) <= 20)%nat.
Proof.
  split; [apply loop_inventoryRef|]. split; [reflexivity|].
  split; [|split].
  - intros H.
    change (inventoryRef (handleKeyDown c (handleModalKeys c w)))
      with (inventoryRef (handleModalKeys c w)).
    rewrite handleModalKeys_inventoryRef.
    destruct (lootModal w) as [item|]; [|reflexivity].
    destruct H as [H|H]; [discriminate|].
    rewrite (bool_decide_eq_false_2 _ H). reflexivity.
  - intros item Hm.
    change (inventoryRef (handleKeyDown "KeyJ" (handleModalKeys "KeyJ" w)))
      with (inventoryRef (handleModalKeys "KeyJ" w)).
    rewrite handleModalKeys_inventoryRef, Hm. reflexivity.
  - apply (run_invariant
             (fun w => (length (inventoryRef w) <= INVENTORY_CAP)%nat)).
    + apply step_inventory_capped.
    + unfold startSession. cbn [fst].
      rewrite (proj1 (initWorld_refs h tape)). simpl. unfold INVENTORY_CAP. lia.
Qed.

(** ** Exploration (lines 789-797) *)

Lemma chunk_contains (x : Q) :
  (inject_Z (Qfloor (x / FOG_GRID_SIZE)) * FOG_GRID_SIZE <= x
   /\ x < inject_Z (Qfloor (x / FOG_GRID_SIZE) + 1) * FOG_GRID_SIZE)%Q.
Proof.
  pose proof (Qfloor_le (x / FOG_GRID_SIZE)) as H1.
  pose proof (Qlt_floor (x / FOG_GRID_SIZE)) as H2.
  rewrite inject_Z_plus in *. unfold FOG_GRID_SIZE in *.
  change (inject_Z 1) with 1%Q in *.
  generalize dependent (inject_Z (Qfloor (x / 300))). intros q H1 H2.
  assert (E : (x == (x / 300) * 300)%Q) by field.
  split; lra.
Qed.

Lemma foldl_union_exact (f : Z * Z -> Z * Z) (l : list (Z * Z))
    (acc : gset (Z * Z)) (c : Z * Z) :
  c ∈ foldl (fun a d => a ∪ {[ f d ]}) acc l
  <-> c ∈ acc \/ exists d, In d l /\ c = f d.
Proof.
  revert acc. induction l as [|d l IH]; intros acc; simpl.
  - split; [auto|]. intros [H|(d & [] & _)]. exact H.
  - rewrite IH, elem_of_union, elem_of_singleton. split.
    + intros [[H|H]|(d' & Hin & E)]; [auto| |].
      * right. exists d. auto.
      * right. exists d'. auto.
    + intros [H|(d' & [->|Hin] & E)]; [auto| |].
      * left. right. exact E.
      * right. exists d'. auto.
Qed.

Lemma chunkOffsets_spec (d : Z * Z) :
  In d chunkOffsets <-> (-1 <= d.1 <= 1 /\ -1 <= d.2 <= 1).
Proof.
  destruct d as [dx dy]. cbn [fst snd]. split.
  - intros H. vm_compute in H.
    repeat (destruct H as [H|H]; [inversion H; lia|]). destruct H.
  - intros [Hx Hy].
    assert (Ex : dx = -1 \/ dx = 0 \/ dx = 1) by lia.
    assert (Ey : dy = -1 \/ dy = 0 \/ dy = 1) by lia.
    destruct Ex as [-> | [-> | ->]], Ey as [-> | [-> | ->]];
      vm_compute; tauto.
Qed.

Lemma markVisited_exact w c :
  let gx := Qfloor (e_x (playerRef w) / FOG_GRID_SIZE) in
  let gy := Qfloor (e_y (playerRef w) / FOG_GRID_SIZE) in
  c ∈ visitedChunksRef (markVisited w)
  <-> c ∈ visitedChunksRef w
      \/ (gx - 1 <= c.1 <= gx + 1 /\ gy - 1 <= c.2 <= gy + 1).
Proof.
  cbv zeta. unfold markVisited. cbv zeta.
  cbn [visitedChunksRef set_visitedChunksRef].
  rewrite (foldl_union_exact
             (fun d => (Qfloor (e_x (playerRef w) / FOG_GRID_SIZE) + d.1,
                        Qfloor (e_y (playerRef w) / FOG_GRID_SIZE) + d.2))).
  split; (intros [H|H]; [left; exact H|right]).
  - destruct H as (d & Hin & ->). apply chunkOffsets_spec in Hin.
    cbn [fst snd]. lia.
  - exists (c.1 - Qfloor (e_x (playerRef w) / FOG_GRID_SIZE),
            c.2 - Qfloor (e_y (playerRef w) / FOG_GRID_SIZE)).
    split.
    + apply chunkOffsets_spec. cbn [fst snd]. lia.
    + destruct c as [c1 c2]. cbn [fst snd]. f_equal; lia.
Qed.

Lemma fromSpawn_visitedChunksRef w :
  unchanged visitedChunksRef w (frameEnd (fromSpawn w)).
Proof.
  assert (H1 : unchanged visitedChunksRef w (fromSpawn w)).
  { unchanged_by (writes_fromSpawn (unchanged visitedChunksRef)). }
  assert (H2 : unchanged visitedChunksRef (fromSpawn w)
                 (frameEnd (fromSpawn w))).
  { unchanged_by (writes_frameEnd (unchanged visitedChunksRef)). }
  unfold unchanged in *. congruence.
Qed.

(** A frame that finds the game not over adds to the visited chunks
    exactly the three by three block of chunks around the chunk of the
    player's position at the start of the frame, and removes none; the
    player's position lies in the middle chunk, a square of side
    [FOG_GRID_SIZE]. *)
Theorem frame_visits_the_nine_chunks_around_the_player (w : World)
    (c : Z * Z) :
  gameOver (stateRef w) = false ->
  let gx := Qfloor (e_x (playerRef w) / FOG_GRID_SIZE) in
  let gy := Qfloor (e_y (playerRef w) / FOG_GRID_SIZE) in
  (c ∈ visitedChunksRef (loop w).1
   <-> c ∈ visitedChunksRef w
       \/ (gx - 1 <= c.1 <= gx + 1 /\ gy - 1 <= c.2 <= gy + 1))
  /\ (inject_Z gx * FOG_GRID_SIZE <= e_x (playerRef w)
      /\ e_x (playerRef w) < inject_Z (gx + 1) * FOG_GRID_SIZE)%Q
  /\ (inject_Z gy * FOG_GRID_SIZE <= e_y (playerRef w)
      /\ e_y (playerRef w) < inject_Z (gy + 1) * FOG_GRID_SIZE)%Q.
Proof.
  intros Hg. cbv zeta.
  split; [|split; apply chunk_contains].
  rewrite (loop_frameEnd w Hg), simulate_fromSpawn.
  rewrite (fromSpawn_visitedChunksRef (markVisited (tick w))).
  apply (markVisited_exact (tick w)).
Qed.

Lemma start_frame_visits_chunk_above_left :
  gameOver (stateRef startWorld) = false
  /\ (-1, -2) ∈ visitedChunksRef (loop startWorld).1
  /\ (2, 0) ∉ visitedChunksRef (loop startWorld).1.
Proof.
  assert (Hg : gameOver (stateRef startWorld) = false) by reflexivity.
  assert (Hv : visitedChunksRef startWorld = ∅)
    by apply (initWorld_refs SWORDSMAN halfTape).
  split; [exact Hg|]. split.
  - apply (frame_visits_the_nine_chunks_around_the_player
             startWorld (-1, -2) Hg).
    right. vm_compute. repeat split; discriminate.
  - intros H.
    apply (frame_visits_the_nine_chunks_around_the_player
             startWorld (2, 0) Hg) in H.
    destruct H as [H|H].
    + rewrite Hv in H. exact (not_elem_of_empty _ H).
    + vm_compute in H. destruct H as [[_ H] _]. apply H. reflexivity.
Defined.

(** ** The potion (lines 853-866 and 929-934) *)

Lemma key_insert_eq w c b :
  key (set_keysRef (<[c := b]> (keysRef w)) w) c = b.
Proof.
  unfold key.
  change (keysRef (set_keysRef (<[c:=b]> (keysRef w)) w))
    with (<[c:=b]> (keysRef w)).
  rewrite lookup_insert_eq. reflexivity.
Qed.

(** The test of lines 854-855. *)
Definition potionFires (w : World) : bool :=
  key w "Digit1" && (0 <? potionRef w)
  && Qltb (e_hp (playerRef w)) (e_maxHp (playerRef w)).

Lemma inputPotion_idle w d : potionFires w = false -> inputPotion (w, d) = (w, d).
Proof. unfold potionFires, inputPotion. intros ->. reflexivity. Qed.

Lemma inputPotion_fires w d :
  potionFires w = true ->
  let p := playerRef w in
  let heal := Qfloor (e_maxHp p * 0.3) in
  let w' := (inputPotion (w, d)).1 in
  (inputPotion (w, d)).2 = d
  /\ potionRef w' = potionRef w - 1
  /\ key w' "Digit1" = false
  /\ (forall c, c <> "Digit1"%string -> key w' c = key w c)
  /\ playerRef w' = set_e_hp (Qmin (e_hp p + inject_Z heal) (e_maxHp p)) p
  /\ textsRef w'
     = textsRef w
       ++ [mkText (randomTape w (randomUsed w)) (e_x p) (e_y p - 20)
                  (TxtHeal heal) "#2ecc71" 40 (-1)].
Proof.
  unfold potionFires, inputPotion. intros ->. cbv zeta. cbn [fst snd].
  split; [reflexivity|]. split; [reflexivity|].
  split; [apply key_insert_eq|].
  split; [intros c Hc; rewrite key_insert_ne by congruence; reflexivity|].
  split; reflexivity.
Qed.

Lemma potion_heal_nonneg (m : Q) : (0 <= m)%Q -> 0 <= Qfloor (m * 0.3).
Proof.
  intros H. change 0 with (Qfloor 0). apply Qfloor_resp_le. lra.
Qed.

(** Using a potion.  The potion step fires exactly when [Digit1] is
    down, a potion is left and the player's health is below its
    maximum; otherwise it changes nothing.  When it fires, one potion
    is spent, [Digit1] is cleared and no other key is touched, and the
    player's health becomes the smaller of its maximum and its old
    value plus the whole part of three tenths of the maximum: never
    above the maximum, never raised by more than three tenths of it,
    never lowered when the maximum is not negative, raised by
    exactly the whole part when that still fits and set to the maximum
    when it does not; no other field of the player changes.  A message
    with that amount is appended.  Running the step again straight after does
    nothing, so one press spends one potion. *)
Theorem potion_heals_capped_and_spends_one (w : World) (d : bool) :
  let p := playerRef w in
  let heal := Qfloor (e_maxHp p * 0.3) in
  let w' := (inputPotion (w, d)).1 in
  (inputPotion (w, d)).2 = d
  /\ (key w "Digit1" = false \/ potionRef w <= 0
      \/ (e_maxHp p <= e_hp p)%Q -> w' = w)
  /\ (key w "Digit1" = true /\ 0 < potionRef w /\ (e_hp p < e_maxHp p)%Q ->
      potionRef w' = potionRef w - 1
      /\ key w' "Digit1" = false
      /\ (forall c, c <> "Digit1"%string -> key w' c = key w c)
      /\ (e_hp (playerRef w') <= e_maxHp p)%Q
      /\ (e_hp (playerRef w') <= e_hp p + e_maxHp p * 0.3)%Q
      /\ ((0 <= e_maxHp p)%Q -> (e_hp p <= e_hp (playerRef w'))%Q)
      /\ ((e_hp p + inject_Z heal <= e_maxHp p)%Q ->
          (e_hp (playerRef w') == e_hp p + inject_Z heal)%Q)
      /\ ((e_maxHp p <= e_hp p + inject_Z heal)%Q ->
          (e_hp (playerRef w') == e_maxHp p)%Q)
      /\ playerRef w'
         = set_e_hp (Qmin (e_hp p + inject_Z heal) (e_maxHp p)) p
      /\ e_maxHp (playerRef w') = e_maxHp p
      /\ exists id,
           textsRef w'
           = textsRef w
             ++ [mkText id (e_x p) (e_y p - 20) (TxtHeal heal)
                        "#2ecc71" 40 (-1)])
  /\ inputPotion (inputPotion (w, d)) = inputPotion (w, d).
Proof.
  cbv zeta.
  destruct (potionFires w) eqn:Hf.
  - pose proof (inputPotion_fires w d Hf) as H. cbv zeta in H.
    destruct H as (Hd & Hn & Hk & Hk' & Hp & Ht).
    unfold potionFires in Hf.
    apply andb_true_iff in Hf. destruct Hf as [Hf Hlt].
    apply andb_true_iff in Hf. destruct Hf as [Hkey Hpot].
    apply Z.ltb_lt in Hpot. apply Qltb_true in Hlt.
    split; [exact Hd|]. split.
    { intros [H|[H|H]]; [congruence|lia|lra]. }
    split.
    { intros _. rewrite Hp. cbn [e_hp e_maxHp set_e_hp].
      split; [exact Hn|]. split; [exact Hk|]. split; [exact Hk'|].
      split; [apply Q.le_min_r|].
      split.
      { eapply Qle_trans; [apply Q.le_min_l|].
        pose proof (Qfloor_le (e_maxHp (playerRef w) * 0.3)). lra. }
      split.
      { intros Hm. apply Q.min_glb; [|lra].
        pose proof (potion_heal_nonneg _ Hm) as Hh.
        rewrite Zle_Qle in Hh. change (inject_Z 0) with 0%Q in Hh. lra. }
      split.
      { intros Hfit. apply Q.min_l. exact Hfit. }
      split.
      { intros Hcap. apply Q.min_r. exact Hcap. }
      split; [reflexivity|].
      split; [reflexivity|].
      eexists. exact Ht. }
    destruct (inputPotion (w, d)) as [w1 d1] eqn:E.
    cbn [fst snd] in Hd, Hk. subst d1.
    apply inputPotion_idle. unfold potionFires. rewrite Hk. reflexivity.
  - rewrite (inputPotion_idle w d Hf). cbn [fst snd].
    split; [reflexivity|]. split; [reflexivity|]. split.
    + intros (Hkey & Hpot & Hlt). exfalso.
      unfold potionFires in Hf.
      apply Z.ltb_lt in Hpot. rewrite Hkey, Hpot in Hf. cbn [andb] in Hf.
      apply Qltb_false in Hf. lra.
    + apply inputPotion_idle, Hf.
Qed.

(** What a relation on the potion count needs from the two phases that
    write it. *)
Definition potionsLeft (w w' : World) : Prop :=
  potionRef w - 1 <= potionRef w' <= potionRef w
  /\ (0 <= potionRef w -> 0 <= potionRef w').

Lemma inputPotion_potionsLeft w d : potionsLeft w (inputPotion (w, d)).1.
Proof.
  unfold potionsLeft. destruct (potionFires w) eqn:Hf.
  - destruct (inputPotion_fires w d Hf) as (_ & Hn & _). cbv zeta in Hn.
    rewrite Hn. unfold potionFires in Hf.
    apply andb_true_iff in Hf. destruct Hf as [Hf _].
    apply andb_true_iff in Hf. destruct Hf as [_ Hpot].
    apply Z.ltb_lt in Hpot. lia.
  - rewrite (inputPotion_idle w d Hf). cbn [fst]. lia.
Qed.

Lemma playerInput_potionsLeft w : potionsLeft w (playerInput w).
Proof.
  unfold playerInput.
  destruct (isLootMenuOpen (stateRef w)); [unfold potionsLeft; lia|].
  assert (H1 : unchanged potionRef w (inputLeft (w, false)).1)
    by unchanged_by (writes_inputLeft (unchanged potionRef)).
  destruct (inputLeft (w, false)) as [w1 d1]. cbn [fst] in H1.
  assert (H2 : unchanged potionRef w1 (inputRight (w1, d1)).1)
    by unchanged_by (writes_inputRight (unchanged potionRef)).
  destruct (inputRight (w1, d1)) as [w2 d2]. cbn [fst] in H2.
  assert (H3 : unchanged potionRef w2 (inputJump (w2, d2)).1)
    by unchanged_by (writes_inputJump (unchanged potionRef)).
  destruct (inputJump (w2, d2)) as [w3 d3]. cbn [fst] in H3.
  pose proof (inputPotion_potionsLeft w3 d3) as H4.
  destruct (inputPotion (w3, d3)) as [w4 d4]. cbn [fst] in H4.
  assert (H5 : unchanged potionRef w4 (inputSearch (w4, d4)))
    by unchanged_by (writes_inputSearch (unchanged potionRef)).
  unfold unchanged, potionsLeft in *. lia.
Qed.

Lemma openChest_potionRef i w :
  potionRef w <= potionRef (openChest i w) <= potionRef w + 1.
Proof.
  unfold openChest. cbv zeta.
  match goal with
  | |- context [generateLoot ?w1] =>
      pose proof (generateLoot_world w1) as Hw;
      destruct (generateLoot w1) as [item w2]
  end.
  cbn [snd] in Hw. subst w2. unfold Math_random.
  destruct (Qltb _ 0.4); world_cbn; lia.
Qed.

Lemma readingLogic_potionRef w :
  potionRef w <= potionRef (readingLogic w) <= potionRef w + 1.
Proof.
  unfold readingLogic.
  destruct (interactionTarget (stateRef w)) as [i|]; [|lia].
  destruct (isReading (stateRef w)); [|lia].
  destruct (90 <=? _); [|world_cbn; lia].
  match goal with
  | |- context [openChest i ?w1] =>
      pose proof (openChest_potionRef i w1) as H
  end.
  exact H.
Qed.

Lemma loop_potionRef w :
  potionRef w - 1 <= potionRef (loop w).1 <= potionRef w + 1
  /\ (0 <= potionRef w -> 0 <= potionRef (loop w).1).
Proof.
  destruct (gameOver (stateRef w)) eqn:Hg.
  { unfold loop. rewrite Hg. cbn [fst]. lia. }
  rewrite (loop_frameEnd w Hg), simulate_atReading.
  assert (H1 : unchanged potionRef w (prelude w)).
  { unfold prelude.
    assert (A1 : unchanged potionRef w (tick w))
      by unchanged_by (writes_tick (unchanged potionRef)).
    assert (A2 : unchanged potionRef (tick w) (markVisited (tick w)))
      by reflexivity.
    assert (A3 : unchanged potionRef (markVisited (tick w))
                   (spawnMob (markVisited (tick w))))
      by unchanged_by (writes_spawnMob (unchanged potionRef)).
    assert (A4 : unchanged potionRef (spawnMob (markVisited (tick w)))
                   (spawnRogue (spawnMob (markVisited (tick w)))))
      by unchanged_by (writes_spawnRogue (unchanged potionRef)).
    unfold unchanged in *. congruence. }
  pose proof (playerInput_potionsLeft (prelude w)) as H2.
  assert (H3 : unchanged potionRef (playerInput (prelude w))
                 (atReading (prelude w))).
  { unfold atReading.
    assert (A1 : unchanged potionRef (playerInput (prelude w))
                   (integratePlayer (playerInput (prelude w))))
      by reflexivity.
    assert (A2 : unchanged potionRef
                   (integratePlayer (playerInput (prelude w)))
                   (playerCollision
                      (integratePlayer (playerInput (prelude w)))).1)
      by unchanged_by (writes_playerCollision (unchanged potionRef)).
    unfold unchanged in *. congruence. }
  pose proof (readingLogic_potionRef (atReading (prelude w))) as H4.
  assert (H5 : unchanged potionRef (readingLogic (atReading (prelude w)))
                 (afterReading (readingLogic (atReading (prelude w)))))
    by unchanged_by (writes_afterReading (unchanged potionRef)).
  assert (H6 : unchanged potionRef
                 (afterReading (readingLogic (atReading (prelude w))))
                 (frameEnd
                    (afterReading (readingLogic (atReading (prelude w))))))
    by unchanged_by (writes_frameEnd (unchanged potionRef)).
  unfold unchanged, potionsLeft in *. lia.
Qed.

Lemma step_potionRef ev s :
  0 <= potionRef s.1 -> 0 <= potionRef (step ev s).1.
Proof.
  intros H. destruct ev as [|c|c]; cbn [step fst].
  - destruct s.2; [|exact H]. apply loop_potionRef, H.
  - change (potionRef (handleKeyDown c (handleModalKeys c s.1)))
      with (potionRef (handleModalKeys c s.1)).
    assert (E : unchanged potionRef s.1 (handleModalKeys c s.1))
      by unchanged_by (writes_handleModalKeys (unchanged potionRef)).
    rewrite E. exact H.
  - exact H.
Qed.

(** The potion count.  A frame spends at most one potion and gains at
    most one (the chest drop); it never takes the count below zero.
    The key listeners and the loot handlers leave the count alone.
    From the session start, where it is 0, the count is never
    negative. *)
Theorem potion_count_moves_by_one_and_stays_nonnegative (w : World)
    (c : string) (evs : list Event) (h : HeroType) (tape : nat -> Q) :
  potionRef w - 1 <= potionRef (loop w).1 <= potionRef w + 1
  /\ (0 <= potionRef w -> 0 <= potionRef (loop w).1)
  /\ potionRef (handleKeyDown c (handleModalKeys c w)) = potionRef w
  /\ potionRef (handleKeyUp c w) = potionRef w
  /\ 0 <= potionRef (run evs (startSession h tape)).1.
Proof.
  split; [apply loop_potionRef|]. split; [apply loop_potionRef|].
  split.
  { change (potionRef (handleKeyDown c (handleModalKeys c w)))
      with (potionRef (handleModalKeys c w)).
    unchanged_by (writes_handleModalKeys (unchanged potionRef)). }
  split; [reflexivity|].
  apply (run_invariant (fun w => 0 <= potionRef w)).
  - apply step_potionRef.
  - unfold startSession. cbn [fst].
    destruct (initWorld_refs h tape) as (_ & -> & _). lia.
Qed.

(** ** The keys (lines 773-774 and the frame) *)

(** What a frame may do to the keys: clear [Digit1]. *)
Definition keysRead (w w' : World) : Prop :=
  (forall c, c <> "Digit1"%string -> key w' c = key w c)
  /\ (key w' "Digit1" = true -> key w "Digit1" = true).

Lemma keysRead_refl w : keysRead w w.
Proof. split; auto. Qed.

Lemma keysRead_trans w1 w2 w3 :
  keysRead w1 w2 -> keysRead w2 w3 -> keysRead w1 w3.
Proof.
  intros [H1 H2] [H3 H4]. split.
  - intros c Hc. rewrite (H3 c Hc). apply H1, Hc.
  - auto.
Qed.

Lemma keysRead_inputPotion w d : keysRead w (inputPotion (w, d)).1.
Proof.
  destruct (potionFires w) eqn:Hf.
  - destruct (inputPotion_fires w d Hf) as (_ & _ & Hk & Hk' & _).
    cbv zeta in Hk, Hk'. split; [exact Hk'|]. rewrite Hk. discriminate.
  - rewrite (inputPotion_idle w d Hf). apply keysRead_refl.
Qed.

Lemma keysRead_loop w : keysRead w (loop w).1.
Proof.
  assert (Hset : forall w0 w1 : World,
             keysRef w1 = keysRef w0 -> keysRead w0 w1).
  { intros w0 w1 E. unfold keysRead, key. rewrite E. auto. }
  apply (writes_loop keysRead);
    first [ exact keysRead_refl | exact keysRead_trans
          | exact keysRead_inputPotion
          | intros; apply Hset; reflexivity
          | idtac ].
  intros i w0.
  apply (assigns_openChest keysRead);
    first [ exact keysRead_refl | exact keysRead_trans
          | intros; apply Hset; reflexivity ].
Qed.

(** The keys.  A key that never had an event reads as up; after a key
    goes down it reads as down, after it goes up as up, and an event
    on one key changes no other.  The loot-modal listener writes no
    key.  A frame only reads the keys, but for the potion: it changes
    no key other than [Digit1], and never turns [Digit1] on. *)
Theorem keys_follow_events_and_frames_clear_only_the_potion_key
    (w : World) (c c' : string) :
  (keysRef w !! c = None -> key w c = false)
  /\ key (handleKeyDown c w) c = true
  /\ key (handleKeyUp c w) c = false
  /\ (c <> c' ->
      key (handleKeyDown c w) c' = key w c'
      /\ key (handleKeyUp c w) c' = key w c')
  /\ keysRef (handleModalKeys c w) = keysRef w
  /\ (c <> "Digit1"%string -> key (loop w).1 c = key w c)
  /\ (key (loop w).1 "Digit1" = true -> key w "Digit1" = true).
Proof.
  split; [unfold key; intros ->; reflexivity|].
  split; [apply key_insert_eq|]. split; [apply key_insert_eq|].
  split.
  { intros Hne. split; apply key_insert_ne, Hne. }
  split.
  { unchanged_by (writes_handleModalKeys (unchanged keysRef)). }
  destruct (keysRead_loop w) as [H1 H2].
  split; [apply H1|exact H2].
Qed.

(** ** The camera and the floating texts (lines 1145-1148, 1220-1227) *)

Lemma render_writes w :
  cameraX (stateRef (render w))
  = (cameraX (stateRef w)
     + (e_x (playerRef w) - CANVAS_WIDTH / 2 - cameraX (stateRef w)) * 0.1)%Q
  /\ cameraY (stateRef (render w))
     = (cameraY (stateRef w)
        + (e_y (playerRef w) - CANVAS_HEIGHT / 2 - cameraY (stateRef w))
          * 0.1)%Q
  /\ textsRef (render w)
     = List.filter (fun t => 0 <? t_life t) (map ageText (textsRef w)).
Proof. destruct (render_eq w) as (n & _ & ->). repeat split. Qed.

(** The rest of the world after [render]: only the cursor of the random
    tape has moved, by the numbers [drawPlatform] read. *)
Lemma render_rest w :
  (randomUsed w + lavaCount (platformsRef w) <= randomUsed (render w)
   <= randomUsed w + 3 * lavaCount (platformsRef w))%nat
  /\ playerRef (render w) = playerRef w
  /\ entitiesRef (render w) = entitiesRef w
  /\ platformsRef (render w) = platformsRef w
  /\ keysRef (render w) = keysRef w
  /\ killsRef (render w) = killsRef w
  /\ visitedChunksRef (render w) = visitedChunksRef w
  /\ potionRef (render w) = potionRef w
  /\ inventoryRef (render w) = inventoryRef w
  /\ lootModal (render w) = lootModal w
  /\ gameOverCalls (render w) = gameOverCalls w
  /\ randomTape (render w) = randomTape w
  /\ set_cameraX (cameraX (stateRef w))
       (set_cameraY (cameraY (stateRef w)) (stateRef (render w)))
     = stateRef w.
Proof.
  destruct (render_eq w) as (n & Hn & ->).
  split; [exact Hn|]. destruct w as [h p es ps ts ks k v po inv lm s c tp u].
  destruct s. repeat split.
Qed.

(** The drawing section.  The camera closes one tenth of
    its distance to the point that centres the player on the canvas,
    on each axis.  Every floating text moves by its velocity and loses
    one unit of life; those whose life was more than 1 are kept, in
    their order, and the others are dropped, so every text left has
    life above 0 and the list never gets longer.  Drawing the
    platforms reads at least one and at most three random numbers for
    each lava platform, and the section writes nothing else. *)
Theorem render_eases_camera_and_ages_texts (w : World) (t' : FloatingText) :
  let s := stateRef w in
  let s' := stateRef (render w) in
  let targetCamX := (e_x (playerRef w) - CANVAS_WIDTH / 2)%Q in
  let targetCamY := (e_y (playerRef w) - CANVAS_HEIGHT / 2)%Q in
  (targetCamX - cameraX s' == 0.9 * (targetCamX - cameraX s))%Q
  /\ (targetCamY - cameraY s' == 0.9 * (targetCamY - cameraY s))%Q
  /\ (In t' (textsRef (render w))
      <-> exists t, In t (textsRef w) /\ 1 < t_life t
                    /\ t' = mkText (t_id t) (t_x t) (t_y t + t_vy t)
                                   (t_text t) (t_color t) (t_life t - 1)
                                   (t_vy t))
  /\ Forall (fun t => 0 < t_life t) (textsRef (render w))
  /\ (length (textsRef (render w)) <= length (textsRef w))%nat
  /\ (Forall (fun t => 1 < t_life t) (textsRef w) ->
      textsRef (render w) = map ageText (textsRef w))
  /\ textsRef (render w)
     = List.filter (fun t => 0 <? t_life t) (map ageText (textsRef w))
  /\ (randomUsed w + lavaCount (platformsRef w) <= randomUsed (render w)
      <= randomUsed w + 3 * lavaCount (platformsRef w))%nat
  /\ playerRef (render w) = playerRef w
  /\ entitiesRef (render w) = entitiesRef w
  /\ platformsRef (render w) = platformsRef w
  /\ keysRef (render w) = keysRef w
  /\ killsRef (render w) = killsRef w
  /\ visitedChunksRef (render w) = visitedChunksRef w
  /\ potionRef (render w) = potionRef w
  /\ inventoryRef (render w) = inventoryRef w
  /\ lootModal (render w) = lootModal w
  /\ gameOverCalls (render w) = gameOverCalls w
  /\ randomTape (render w) = randomTape w
  /\ set_cameraX (cameraX (stateRef w))
       (set_cameraY (cameraY (stateRef w)) (stateRef (render w)))
     = stateRef w.
Proof.
  cbv zeta. pose proof (render_rest w) as Hrest.
  destruct (render_writes w) as (Hx & Hy & Ht).
  rewrite Hx, Hy, Ht. clear Hx Hy Ht.
  split; [ring|]. split; [ring|].
  split; [|split; [|split; [|split; [|split; [reflexivity|exact Hrest]]]]].
  - rewrite filter_In, in_map_iff. split.
    + intros [(t & <- & Hin) Hl]. apply Z.ltb_lt in Hl. cbn [ageText t_life] in Hl.
      exists t. split; [exact Hin|]. split; [lia|reflexivity].
    + intros (t & Hin & Hl & ->). split.
      * exists t. split; [reflexivity|exact Hin].
      * apply Z.ltb_lt. cbn [t_life]. lia.
  - apply List.Forall_forall. intros t Hin. apply filter_In in Hin.
    destruct Hin as [_ Hl]. apply Z.ltb_lt in Hl. exact Hl.
  - etransitivity; [apply List.filter_length_le|].
    rewrite List.length_map. reflexivity.
  - intros Hall. induction (textsRef w) as [|t l IH]; [reflexivity|].
    inversion Hall as [|? ? Ht Hl]; subst. cbn [map List.filter].
    replace (0 <? t_life (ageText t)) with true
      by (symmetry; apply Z.ltb_lt; cbn [ageText t_life]; lia).
    f_equal. apply IH, Hl.
Qed.

(** ** What a session reports (lines 1100-1104 and 1124-1134) *)

Lemma simulate_gameOver w :
  gameOver (stateRef (simulate w))
  = Qleb (e_hp (playerRef (simulate w))) 0 || gameOver (stateRef w).
Proof.
  rewrite simulate_gameEnd.
  destruct (frameKeeps_beforeGameEnd w) as (_ & _ & _ & _ & _ & Hg & _).
  destruct (gameEnd_fields (beforeGameEnd w))
    as (Hp & _ & _ & _ & _ & _ & _ & _ & _ & Hg' & _).
  cbv zeta in Hg'. rewrite Hg', Hp, Hg. reflexivity.
Qed.

Lemma openExtraction_report w w' :
  openExtraction w = Normal w' \/ openExtraction w = Thrown w' ->
  gameOverCalls w' = gameOverCalls w
  /\ gameOver (stateRef w') = gameOver (stateRef w)
  /\ killsRef w' = killsRef w.
Proof.
  unfold openExtraction.
  destruct (time (stateRef w) =? 1800); cbv zeta; unfold Math_random.
  - destruct (jsIndex _ _); intros [H|H]; inversion H; repeat split.
  - intros [H|H]; inversion H; repeat split.
Qed.

Lemma extractionDwell_report w :
  exists (success : bool) (total : Z),
    gameOverCalls (extractionDwell w)
    = gameOverCalls w ++ (if success then [(true, total, killsRef w)] else [])
    /\ gameOver (stateRef (extractionDwell w))
       = success || gameOver (stateRef w)
    /\ killsRef (extractionDwell w) = killsRef w.
Proof.
  unfold extractionDwell.
  destruct (extractionZone (stateRef w)) as [zone|];
    [|exists false, 0; rewrite app_nil_r; repeat split].
  destruct (extractionActive (stateRef w));
    [|exists false, 0; rewrite app_nil_r; repeat split].
  destruct (rectIntersect _ zone);
    [|exists false, 0; rewrite app_nil_r; repeat split].
  cbv zeta.
  match goal with
  | |- context [if ?b then _ else _] => destruct b
  end.
  - exists true, (inventoryTotal (inventoryRef w)). repeat split.
  - exists false, 0. rewrite app_nil_r. repeat split.
Qed.

Lemma keyDown_report c w :
  gameOverCalls (handleKeyDown c (handleModalKeys c w)) = gameOverCalls w
  /\ gameOver (stateRef (handleKeyDown c (handleModalKeys c w)))
     = gameOver (stateRef w)
  /\ killsRef (handleKeyDown c (handleModalKeys c w)) = killsRef w.
Proof.
  unfold handleKeyDown, handleModalKeys, handlePickup, handleDiscard.
  cbv zeta.
  destruct (lootModal w) as [item|]; [|repeat split].
  destruct (bool_decide (c = "KeyJ")), (bool_decide (c = "KeyK"));
    cbn [lootModal set_lootModal set_inventoryRef withStateRef
         set_stateRef inventoryRef];
    try (repeat split; fail);
    destruct (length (inventoryRef w) <? INVENTORY_CAP)%nat; repeat split.
Qed.

Lemma render_report w :
  gameOverCalls (render w) = gameOverCalls w
  /\ gameOver (stateRef (render w)) = gameOver (stateRef w)
  /\ killsRef (render w) = killsRef w.
Proof. destruct (render_eq w) as (n & _ & ->). repeat split. Qed.

(** The calls of [onGameOver] a world can have made: none while the
    game is on; once it is over, the failure call, the success call,
    or the failure call followed by the success call, each with the
    kill counter as it stands. *)
Definition reported (w : World) : Prop :=
  let k := killsRef w in
  (gameOver (stateRef w) = false /\ gameOverCalls w = [])
  \/ (gameOver (stateRef w) = true
      /\ (gameOverCalls w = [(false, 0, k)]
          \/ (exists total, gameOverCalls w = [(true, total, k)])
          \/ (exists total,
                gameOverCalls w = [(false, 0, k); (true, total, k)]))).

Lemma reported_eq w w' :
  gameOverCalls w' = gameOverCalls w ->
  gameOver (stateRef w') = gameOver (stateRef w) ->
  killsRef w' = killsRef w ->
  reported w -> reported w'.
Proof. unfold reported. intros -> -> ->. auto. Qed.

Lemma loop_reported w : reported w -> reported (loop w).1.
Proof.
  intros Hr.
  destruct (gameOver (stateRef w)) eqn:Hg.
  { unfold loop. rewrite Hg. exact Hr. }
  assert (Hc : gameOverCalls w = []).
  { destruct Hr as [[_ H]|[H _]]; [exact H|congruence]. }
  clear Hr.
  rewrite (loop_frameEnd w Hg). unfold frameEnd.
  destruct (simulate_fields w) as (_ & _ & _ & Hsc).
  pose proof (simulate_gameOver w) as Hsg.
  rewrite Hc, app_nil_l in Hsc. rewrite Hg, orb_false_r in Hsg.
  destruct (openExtraction (simulate w)) as [w1|w1] eqn:Ho.
  - destruct (openExtraction_report _ _ (or_introl Ho)) as (Oc & Og & Ok).
    destruct (extractionDwell_report w1) as (success & total & Dc & Dg & Dk).
    destruct (render_report (extractionDwell w1)) as (R1 & R2 & R3).
    unfold reported. rewrite R1, R2, R3, Dc, Dg, Dk, Oc, Og, Ok, Hsc, Hsg.
    destruct (Qleb (e_hp (playerRef (simulate w))) 0), success;
      cbn [app orb].
    + right. split; [reflexivity|]. right. right. exists total. reflexivity.
    + right. split; [reflexivity|]. left. reflexivity.
    + right. split; [reflexivity|]. right. left. exists total. reflexivity.
    + left. split; reflexivity.
  - destruct (openExtraction_report _ _ (or_intror Ho)) as (Oc & Og & Ok).
    unfold reported. rewrite Oc, Og, Ok, Hsc, Hsg.
    destruct (Qleb (e_hp (playerRef (simulate w))) 0).
    + right. split; [reflexivity|]. left. reflexivity.
    + left. split; reflexivity.
Qed.

Lemma step_reported ev s : reported s.1 -> reported (step ev s).1.
Proof.
  intros H. destruct ev as [|c|c]; cbn [step fst].
  - destruct s.2; [apply loop_reported, H|exact H].
  - destruct (keyDown_report c s.1) as (H1 & H2 & H3).
    exact (reported_eq _ _ H1 H2 H3 H).
  - exact H.
Qed.

(** What a session reports.  From the session start, after any events:
    while the game is on, [onGameOver] has not been called; once it is
    over, the calls made are the failure call [(false, 0, kills)], or
    the success call [(true, total, kills)], or both in this order
    from one frame, and never more than these two; the kill count
    passed is the final one.  Once the game is over a frame changes
    nothing, and no event adds a call or sets the game on again. *)
Theorem session_reports_each_outcome_once (evs : list Event) (h : HeroType)
    (tape : nat -> Q) (ev : Event) :
  let s := run evs (startSession h tape) in
  let k := killsRef s.1 in
  ((gameOver (stateRef s.1) = false /\ gameOverCalls s.1 = [])
   \/ (gameOver (stateRef s.1) = true
       /\ (gameOverCalls s.1 = [(false, 0, k)]
           \/ (exists total, gameOverCalls s.1 = [(true, total, k)])
           \/ (exists total,
                 gameOverCalls s.1 = [(false, 0, k); (true, total, k)]))))
  /\ (gameOver (stateRef s.1) = true ->
      (step Frame s).1 = s.1
      /\ gameOverCalls (step ev s).1 = gameOverCalls s.1
      /\ killsRef (step ev s).1 = killsRef s.1
      /\ gameOver (stateRef (step ev s).1) = true).
Proof.
  cbv zeta.
  assert (Hr : reported (run evs (startSession h tape)).1).
  { apply (run_invariant reported); [apply step_reported|].
    unfold startSession, reported. cbn [fst]. left.
    destruct (initWorld_fields h tape) as (_ & _ & -> & -> & _).
    split; reflexivity. }
  revert Hr. generalize (run evs (startSession h tape)). intros s Hr.
  split; [exact Hr|].
  intros Hg.
  assert (Hf : (step Frame s).1 = s.1).
  { cbn [step]. destruct s.2; [|reflexivity].
    unfold loop. rewrite Hg. reflexivity. }
  split; [exact Hf|].
  destruct ev as [|c|c].
  - rewrite Hf. repeat split. exact Hg.
  - cbn [step fst]. destruct (keyDown_report c s.1) as (H1 & H2 & H3).
    rewrite H1, H2, H3. repeat split. exact Hg.
  - cbn [step fst]. repeat split. exact Hg.
Qed.

(** ** The application shell (lines 423-449)

    The state of the [App] component and the handler it passes to the
    game canvas as [onGameOver].  The state setters are applied in the
    order of the calls, the two totals through their updater
    functions. *)

Inductive GamePhase := MAIN_MENU | HERO_SELECT | PLAYING | RESULT.

Record AppState := mkApp {
  phase : GamePhase;
  selectedHero : HeroType;
  finalLoot : Z;
  sessionKills : Z;
  win : bool;
  totalMoney : Z;
  totalKills : Z
}.

Definition initialApp : AppState := mkApp MAIN_MENU SWORDSMAN 0 0 false 0 0.

Definition startSelection (a : AppState) : AppState :=
  mkApp HERO_SELECT (selectedHero a) (finalLoot a) (sessionKills a) (win a)
        (totalMoney a) (totalKills a).

Definition startGame (a : AppState) : AppState :=
  mkApp PLAYING (selectedHero a) (finalLoot a) (sessionKills a) (win a)
        (totalMoney a) (totalKills a).

Definition handleGameOver (isWin : bool) (lootValue kills : Z)
    (a : AppState) : AppState :=
  mkApp RESULT (selectedHero a) lootValue kills isWin
        (if isWin then totalMoney a + lootValue else totalMoney a)
        (totalKills a + kills).

(** The calls a game canvas made, handed to the handler in order. *)
Definition deliver (calls : list (bool * Z * Z)) (a : AppState) : AppState :=
  fold_left (fun (a : AppState) (c : bool * Z * Z) =>
               handleGameOver c.1.1 c.1.2 c.2 a) calls a.

Definition killsOf (calls : list (bool * Z * Z)) : Z :=
  foldr Z.add 0 ((fun c : bool * Z * Z => c.2) <$> calls).

Definition winningsOf (calls : list (bool * Z * Z)) : Z :=
  foldr Z.add 0
    ((fun c : bool * Z * Z => if c.1.1 then c.1.2 else 0) <$> calls).

Lemma deliver_totals calls : forall a,
  totalKills (deliver calls a) = totalKills a + killsOf calls
  /\ totalMoney (deliver calls a) = totalMoney a + winningsOf calls
  /\ selectedHero (deliver calls a) = selectedHero a.
Proof.
  unfold deliver, killsOf, winningsOf.
  induction calls as [|[[isWin loot] kills] calls IH]; intros a.
  - rewrite !fmap_nil. simpl. repeat split; lia.
  - rewrite !fmap_cons. cbn [fold_left foldr fst snd].
    destruct (IH (handleGameOver isWin loot kills a)) as (H1 & H2 & H3).
    rewrite H1, H2, H3. cbn [handleGameOver totalKills totalMoney selectedHero].
    destruct isWin; repeat split; lia.
Qed.

Lemma deliver_last calls c a :
  let a' := deliver (calls ++ [c]) a in
  phase a' = RESULT /\ win a' = c.1.1 /\ finalLoot a' = c.1.2
  /\ sessionKills a' = c.2.
Proof.
  cbv zeta. unfold deliver. rewrite fold_left_app. repeat split.
Qed.

Lemma winningsOf_nonneg calls :
  Forall (fun c : bool * Z * Z => 0 <= c.1.2) calls -> 0 <= winningsOf calls.
Proof.
  unfold winningsOf. induction 1 as [|[[isWin loot] kills] calls H _ IH].
  - rewrite fmap_nil. simpl. lia.
  - rewrite fmap_cons. cbn [foldr fst snd] in *. destruct isWin; lia.
Qed.

Lemma winningsOf_lost calls :
  Forall (fun c : bool * Z * Z => c.1.1 = false) calls -> winningsOf calls = 0.
Proof.
  unfold winningsOf. induction 1 as [|[[isWin loot] kills] calls H _ IH].
  - rewrite fmap_nil. reflexivity.
  - rewrite fmap_cons. cbn [foldr fst snd] in *. subst isWin. lia.
Qed.

(** The results handler.  After any calls, the kill total has grown by
    the sum of the kills of all calls, won or lost, and the money
    total by the sum of the loot of the winning calls alone: a loss
    never changes the money, and the money never goes down when no
    loot value is negative.  The hero is kept.  The result screen is
    shown with the outcome, loot and kills of the last call.  Two
    batches of calls handled one after the other give the same state
    as all calls at once, so a canvas that calls twice is counted
    twice. *)
Theorem handleGameOver_accumulates_kills_always_money_on_win
    (calls more : list (bool * Z * Z)) (c : bool * Z * Z) (a : AppState) :
  totalKills (deliver calls a) = totalKills a + killsOf calls
  /\ totalMoney (deliver calls a) = totalMoney a + winningsOf calls
  /\ (Forall (fun c : bool * Z * Z => c.1.1 = false) calls ->
      totalMoney (deliver calls a) = totalMoney a)
  /\ (Forall (fun c : bool * Z * Z => 0 <= c.1.2) calls ->
      totalMoney a <= totalMoney (deliver calls a))
  /\ selectedHero (deliver calls a) = selectedHero a
  /\ (let a' := deliver (calls ++ [c]) a in
      phase a' = RESULT /\ win a' = c.1.1 /\ finalLoot a' = c.1.2
      /\ sessionKills a' = c.2)
  /\ deliver (calls ++ more) a = deliver more (deliver calls a)
  /\ totalKills (deliver [c; c] a) = totalKills a + 2 * c.2.
Proof.
  destruct (deliver_totals calls a) as (H1 & H2 & H3).
  split; [exact H1|]. split; [exact H2|]. split; [|split].
  - intros Hl. rewrite H2, (winningsOf_lost calls Hl). lia.
  - intros Hn. rewrite H2. pose proof (winningsOf_nonneg calls Hn). lia.
  - split; [exact H3|]. split; [apply deliver_last|]. split.
    + unfold deliver. apply fold_left_app.
    + destruct c as [[isWin loot] kills]. cbn. lia.
Qed.

(** ** The jump counter through a session *)

Lemma playerRef_frameEnd w : playerRef (frameEnd w) = playerRef w.
Proof.
  unfold frameEnd. destruct (openExtraction w) as [w'|w'] eqn:Ho.
  - rewrite playerRef_render, playerRef_extractionDwell.
    apply (playerRef_openExtraction _ _ (or_introl Ho)).
  - apply (playerRef_openExtraction _ _ (or_intror Ho)).
Qed.

Lemma jumpFires_below w : jumpFires w = true -> e_jumpCount (playerRef w) < 2.
Proof.
  unfold jumpFires. intros H. apply andb_true_iff in H.
  destruct H as [_ H]. apply Z.ltb_lt, H.
Qed.

Lemma playerInput_jumpCount w :
  let n := e_jumpCount (playerRef w) in
  let n' := e_jumpCount (playerRef (playerInput w)) in
  n' = n \/ (n < 2 /\ n' = n + 1).
Proof.
  cbv zeta. destruct (isLootMenuOpen (stateRef w)) eqn:Hm.
  - unfold playerInput. rewrite Hm. left. reflexivity.
  - destruct (playerInput_jump w Hm) as (_ & Hyes & Hno).
    destruct (jumpFires w) eqn:Hf.
    + right. split; [apply jumpFires_below, Hf|apply Hyes; reflexivity].
    + left. apply Hno. reflexivity.
Qed.

Lemma loop_jumpCount w :
  let n := e_jumpCount (playerRef w) in
  let n' := e_jumpCount (playerRef (loop w).1) in
  n' = 0 \/ n' = n \/ (n < 2 /\ n' = n + 1).
Proof.
  cbv zeta. destruct (gameOver (stateRef w)) eqn:Hg.
  { unfold loop. rewrite Hg. right. left. reflexivity. }
  rewrite (loop_frameEnd w Hg), playerRef_frameEnd, simulate_afterCollision.
  destruct (sameMotion_afterCollision
              (playerCollision (integratePlayer (playerInput (prelude w)))).1)
    as (_ & _ & _ & _ & _ & Hc & _).
  rewrite Hc.
  destruct (playerCollision_jumpCount
              (integratePlayer (playerInput (prelude w)))) as [Hj _].
  rewrite Hj.
  destruct (playerCollision (integratePlayer (playerInput (prelude w)))).2;
    [left; reflexivity|right].
  change (e_jumpCount (playerRef (integratePlayer (playerInput (prelude w)))))
    with (e_jumpCount (playerRef (playerInput (prelude w)))).
  pose proof (playerInput_jumpCount (prelude w)) as H. cbv zeta in H.
  rewrite (proj1 (prelude_frame w)) in H. exact H.
Qed.

Lemma step_playerRef_key c s :
  playerRef (step (KeyDown c) s).1 = playerRef s.1
  /\ playerRef (step (KeyUp c) s).1 = playerRef s.1.
Proof.
  split; [|reflexivity]. cbn [step fst].
  change (playerRef (handleKeyDown c (handleModalKeys c s.1)))
    with (playerRef (handleModalKeys c s.1)).
  unchanged_by (writes_handleModalKeys (unchanged playerRef)).
Qed.

(** The jump counter.  A frame leaves the counter as it is, puts it
    back to 0 (a landing), or adds one, and adds one only to a counter
    below 2; the key listeners do not touch it.  From the session
    start the counter is therefore always 0, 1 or 2: after leaving the
    ground the player has at most two jumps until the next landing. *)
Theorem jump_counter_stays_between_0_and_2 (w : World) (evs : list Event)
    (h : HeroType) (tape : nat -> Q) :
  (let n := e_jumpCount (playerRef w) in
   let n' := e_jumpCount (playerRef (loop w).1) in
   n' = 0 \/ n' = n \/ (n < 2 /\ n' = n + 1))
  /\ 0 <= e_jumpCount (playerRef (run evs (startSession h tape)).1) <= 2
  /\ (forall c s,
        e_jumpCount (playerRef (step (KeyDown c) s).1)
        = e_jumpCount (playerRef s.1)
        /\ e_jumpCount (playerRef (step (KeyUp c) s).1)
           = e_jumpCount (playerRef s.1)).
Proof.
  split; [apply loop_jumpCount|].
  split.
  2:{ intros c s. destruct (step_playerRef_key c s) as [-> ->].
      split; reflexivity. }
  apply (run_invariant (fun w => 0 <= e_jumpCount (playerRef w) <= 2)).
  - intros ev s H. destruct ev as [|c|c].
    + cbn [step]. destruct s.2; [|exact H].
      pose proof (loop_jumpCount s.1) as L. cbv zeta in L. lia.
    + rewrite (proj1 (step_playerRef_key c s)). exact H.
    + rewrite (proj2 (step_playerRef_key c s)). exact H.
  - unfold startSession. cbn [fst].
    destruct (initWorld_fields h tape) as (_ & _ & _ & _ & -> & _).
    cbn. lia.
Qed.

(** ** Speeds of the hostile entities (lines 1016-1017, 1044-1091) *)

Lemma rogueStrike_velocity d e w :
  e_vx (rogueStrike d (e, w)).1 = e_vx e
  /\ e_vy (rogueStrike d (e, w)).1 = e_vy e.
Proof. unfold rogueStrike. split_ifs; split; reflexivity. Qed.

Lemma rogueJump_vx g dx dy e : e_vx (rogueJump g dx dy e) = e_vx e.
Proof. unfold rogueJump. split_ifs; reflexivity. Qed.

Lemma towards_cases b : towards b = 1 \/ towards b = -1.
Proof. destruct b; [left|right]; reflexivity. Qed.

Lemma rogueAI_vx g d dx dy e w :
  let v := e_vx (rogueAI g d dx dy (e, w)).1 in
  (- (5 # 2) <= v /\ v <= 5 # 2)%Q
  /\ (e_vx e - 0.5 <= v /\ v <= e_vx e + 0.5
      \/ (v == 5 # 2 /\ 5 # 2 <= e_vx e + 0.5)
      \/ (v == - (5 # 2) /\ e_vx e - 0.5 <= - (5 # 2)))%Q.
Proof.
  cbv zeta. unfold rogueAI. cbv zeta.
  rewrite (proj1 (rogueStrike_velocity _ _ _)), rogueJump_vx.
  cbn [e_vx set_e_facing].
  set (v1 := (e_vx e + _)%Q).
  assert (Hv1 : (e_vx e - 0.5 <= v1 /\ v1 <= e_vx e + 0.5)%Q).
  { unfold v1.
    destruct (towards_cases (Qltb 0 dx)) as [-> | ->];
      destruct ((0 <? e_attackCooldown e) && Qltb d (120 * 120));
      cbv beta iota delta [Z.mul Z.opp Pos.mul inject_Z]; split; lra. }
  clearbody v1. cbn [e_vx set_e_vx].
  destruct (Qltb 2.5 v1) eqn:E1; cbn [e_vx set_e_vx].
  - apply Qltb_true in E1.
    destruct (Qltb 2.5 (-2.5)) eqn:E2; [vm_compute in E2; discriminate|].
    cbn [e_vx set_e_vx]. split; [split; lra|].
    right. left. split; [reflexivity|lra].
  - apply Qltb_false in E1.
    destruct (Qltb v1 (-2.5)) eqn:E2; cbn [e_vx set_e_vx].
    + apply Qltb_true in E2. split; [split; lra|].
      right. right. split; [reflexivity|lra].
    + apply Qltb_false in E2. split; [split; lra|]. left. exact Hv1.
Qed.

Lemma slimeAI_vx d dx e w :
  let v := e_vx (slimeAI d dx (e, w)).1 in
  (v == e_vx e + 0.2 \/ v == e_vx e - 0.2)%Q.
Proof.
  cbv zeta. unfold slimeAI. cbv zeta.
  destruct (towards_cases (Qltb 0 dx)) as [-> | ->];
    match goal with
    | |- context [if ?b then _ else _] => destruct b
    end; cbn [fst e_vx set_e_vx set_e_facing];
    cbv beta iota delta [inject_Z]; [left|left|right|right]; ring.
Qed.

Lemma batAI_velocity dx dy e :
  let e' := batAI dx dy e in
  (e_vx e' == e_vx e + 0.3 \/ e_vx e' == e_vx e - 0.3)%Q
  /\ (e_vy e' == (e_vy e + 0.1) * 0.9 \/ e_vy e' == (e_vy e - 0.1) * 0.9)%Q.
Proof.
  cbv zeta. unfold batAI. cbv zeta. cbn [e_vx e_vy set_e_vx set_e_vy].
  destruct (towards_cases (Qltb 0 dx)) as [-> | ->],
           (towards_cases (Qltb 0 dy)) as [-> | ->];
    cbv beta iota delta [inject_Z];
    (split; [first [left; ring | right; ring]
            |first [left; ring | right; ring]]).
Qed.

(** What the AI does to the velocity of the entity it drives, by kind;
    out of aggro range it does nothing. *)
Lemma entityAI_velocity g e w :
  let e' := (entityAI g (e, w)).1 in
  e' = e
  \/ match e_type e with
     | ROGUE_AGENT =>
         (- (5 # 2) <= e_vx e' /\ e_vx e' <= 5 # 2)%Q
         /\ (e_vx e - 0.5 <= e_vx e' /\ e_vx e' <= e_vx e + 0.5
             \/ (e_vx e' == 5 # 2 /\ 5 # 2 <= e_vx e + 0.5)
             \/ (e_vx e' == - (5 # 2) /\ e_vx e - 0.5 <= - (5 # 2)))%Q
     | MOB_SLIME =>
         (e_vx e' == e_vx e + 0.2 \/ e_vx e' == e_vx e - 0.2)%Q
     | MOB_BAT =>
         (e_vx e' == e_vx e + 0.3 \/ e_vx e' == e_vx e - 0.3)%Q
         /\ (e_vy e' == (e_vy e + 0.1) * 0.9
             \/ e_vy e' == (e_vy e - 0.1) * 0.9)%Q
     | _ => False
     end.
Proof.
  cbv zeta. unfold entityAI. cbv zeta.
  destruct (Qltb (getDistanceSq e (playerRef w)) (800 * 800));
    [|left; reflexivity].
  destruct (e_type e); try (left; reflexivity); right.
  - apply slimeAI_vx.
  - apply batAI_velocity.
  - apply rogueAI_vx.
Qed.

Lemma entityCollisionOn_vy plats e g :
  let e' := (entityCollisionOn plats (e, g)).1 in
  e_vy e' = e_vy e \/ e_vy e' = 0%Q.
Proof.
  cbv zeta.
  apply (entityCollisionOn_preserves
           (fun e e' => e_vy e' = e_vy e \/ e_vy e' = 0%Q)).
  - intros; left; reflexivity.
  - intros e1 e2 e3 [H1|H1] [H2|H2]; first [left; congruence|right; congruence].
  - intros e0 g0 plat. unfold entityCollidePlatform.
    split_ifs; first [left; reflexivity|right; reflexivity].
Qed.

Lemma entityFinish_velocity e :
  e_vx (entityFinish e) = e_vx e /\ e_vy (entityFinish e) = e_vy e.
Proof. unfold entityFinish. split_ifs; split; reflexivity. Qed.

(** The velocity an entity leaves the callback with, from the one it
    entered with: friction, then what the AI adds. *)
Lemma entityBody_velocity e w :
  exists e1 g,
    e_type e1 = e_type e
    /\ e_vx e1 = (e_vx e * FRICTION)%Q
    /\ (e_type e = MOB_BAT -> e_vy e1 = e_vy e \/ e_vy e1 = 0%Q)
    /\ e_vx (entityBody e w).1 = e_vx (entityAI g (e1, w)).1
    /\ e_vy (entityBody e w).1 = e_vy (entityAI g (e1, w)).1.
Proof.
  unfold entityBody.
  pose proof (entityCollisionOn_keeps_x (platformsRef w) (integrateEntity e)
                false) as [_ Hvx].
  pose proof (entityCollisionOn_keeps_type (platformsRef w)
                (integrateEntity e, false)) as Hty.
  pose proof (entityCollisionOn_vy (platformsRef w) (integrateEntity e)
                false) as Hvy.
  cbv zeta in Hvy.
  destruct (entityCollisionOn (platformsRef w) (integrateEntity e, false))
    as [e1 g]. cbn [fst] in Hvx, Hty, Hvy.
  exists (entityTimers e1), g.
  destruct (integrateEntity_fields e) as (Iy & _ & _ & Ix).
  split.
  { change (e_type (entityTimers e1)) with (e_type e1). rewrite Hty.
    unfold integrateEntity. split_ifs; reflexivity. }
  split.
  { change (e_vx (entityTimers e1)) with (e_vx e1). congruence. }
  split.
  { intros Hb. change (e_vy (entityTimers e1)) with (e_vy e1).
    rewrite Iy, (bool_decide_eq_true_2 _ Hb) in Hvy. exact Hvy. }
  destruct (entityAI g (entityTimers e1, w)) as [e2 w2]. cbn [fst].
  apply entityFinish_velocity.
Qed.

(** Terminal speeds.  One pass of the entity callback never takes a
    hostile entity past the speed its AI can sustain against friction:
    a rogue that enters with horizontal speed at most 2.5 leaves with
    at most 2.5, a slime with at most 4/3 leaves with at most 4/3, a
    bat with at most 2 leaves with at most 2, and a bat's vertical
    speed, once at most 0.9, stays at most 0.9.  Whatever the speed
    on entry, the pass adds at most 0.5 to the horizontal speed
    friction leaves. *)
Theorem hostile_speeds_stay_within_terminal_values (e : Entity) (w : World) :
  let e' := (entityBody e w).1 in
  (e_type e = ROGUE_AGENT ->
   (Qabs (e_vx e) <= 5 # 2 -> Qabs (e_vx e') <= 5 # 2)%Q)
  /\ (e_type e = MOB_SLIME ->
      (Qabs (e_vx e) <= 4 # 3 -> Qabs (e_vx e') <= 4 # 3)%Q)
  /\ (e_type e = MOB_BAT ->
      (Qabs (e_vx e) <= 2 -> Qabs (e_vx e') <= 2)%Q
      /\ (Qabs (e_vy e) <= 0.9 -> Qabs (e_vy e') <= 0.9)%Q)
  /\ (Qabs (e_vx e') <= Qabs (e_vx e) * FRICTION + 0.5)%Q.
Proof.
  cbv zeta.
  destruct (entityBody_velocity e w) as (e1 & g & Hty & Hvx & Hvy & Ex & Ey).
  rewrite Ex, Ey.
  pose proof (entityAI_velocity g e1 w) as Hai. cbv zeta in Hai.
  rewrite Hty in Hai.
  assert (Habs : forall x b : Q, (Qabs x <= b <-> - b <= x /\ x <= b)%Q)
    by (intros; apply Qabs_Qle_condition).
  assert (Hfr : (Qabs (e_vx e * FRICTION) == Qabs (e_vx e) * FRICTION)%Q).
  { rewrite Qabs_Qmult. unfold FRICTION. reflexivity. }
  unfold FRICTION in *.
  split; [|split; [|split]].
  - intros Ht Hb. rewrite Ht in Hai. apply Habs in Hb. apply Habs.
    destruct Hai as [-> | [Hc _]]; [rewrite Hvx; lra|exact Hc].
  - intros Ht Hb. rewrite Ht in Hai. apply Habs in Hb. apply Habs.
    destruct Hai as [-> | [Hc | Hc]]; rewrite ?Hc, Hvx; lra.
  - intros Ht. rewrite Ht in Hai. split; intros Hb; apply Habs in Hb;
      apply Habs.
    + destruct Hai as [-> | [[Hc | Hc] _]]; rewrite ?Hc, Hvx; lra.
    + destruct (Hvy Ht) as [Hy | Hy];
        destruct Hai as [-> | [_ [Hc | Hc]]]; rewrite ?Hc, Hy; lra.
  - apply Habs. rewrite <- Hfr, <- Hvx.
    pose proof (Qabs_nonneg (e_vx e1)) as Hn.
    pose proof (Qle_Qabs (e_vx e1)) as Hu.
    pose proof (Qle_Qabs (- e_vx e1)) as Hl. rewrite Qabs_opp in Hl.
    destruct Hai as [-> | Hc]; [lra|].
    destruct (e_type e); try contradiction.
    + destruct Hc as [Hc | Hc]; rewrite Hc; lra.
    + destruct Hc as [[Hc | Hc] _]; rewrite Hc; lra.
    + destruct Hc as [[Hlo Hhi] [Hc | [[Hc Hc'] | [Hc Hc']]]]; lra.
Qed.

(** ** What the entities do to the player (lines 1059-1085) *)

(** The player after the AI of one entity: untouched, struck by a
    rogue or touched by a slime. *)
Lemma entityAI_player g e w :
  let p := playerRef w in
  let p' := playerRef (entityAI g (e, w)).2 in
  p' = p
  \/ (e_type e = ROGUE_AGENT
      /\ p' = set_e_vx (inject_Z (towards (Qltb (e_x e) (e_x p))) * 10)
                (set_e_hitFlashTimer 5 (set_e_hp (e_hp p - 6) p)))
  \/ (e_type e = MOB_SLIME /\ p' = set_e_hp (e_hp p - 0.2) p).
Proof.
  cbv zeta. unfold entityAI. cbv zeta.
  destruct (Qltb (getDistanceSq e (playerRef w)) (800 * 800));
    [|left; reflexivity].
  destruct (e_type e) eqn:Ht; try (left; reflexivity).
  - unfold slimeAI. cbv zeta.
    match goal with
    | |- context [if ?b then _ else _] => destruct b
    end; [right; right; split; reflexivity|left; reflexivity].
  - unfold rogueAI. cbv zeta. unfold rogueStrike.
    match goal with
    | |- context [if ?b then _ else _] => destruct b
    end; [right; left; split; [reflexivity|]|left; reflexivity].
    cbn [snd playerRef_pushText]. rewrite playerRef_pushText.
    cbn [playerRef withPlayer set_playerRef]. f_equal.
    f_equal. f_equal. f_equal. unfold rogueJump. split_ifs; reflexivity.
Qed.

Lemma entityStep_player i w :
  let p := playerRef w in
  let p' := playerRef (entityStep i w) in
  p' = p
  \/ exists e,
       entitiesRef w !! i = Some e /\ e_isDead e = false
       /\ ((e_type e = ROGUE_AGENT
            /\ e_hp p' = (e_hp p - 6)%Q
            /\ e_hitFlashTimer p' = 5
            /\ (e_vx p' == 10 \/ e_vx p' == -10)%Q)
           \/ (e_type e = MOB_SLIME
               /\ e_hp p' = (e_hp p - 0.2)%Q
               /\ e_vx p' = e_vx p))
       /\ sameMotion p p' /\ e_maxHp p' = e_maxHp p.
Proof.
  cbv zeta. unfold entityStep.
  destruct (entitiesRef w !! i) as [e|] eqn:Hi; [|left; reflexivity].
  destruct (e_isDead e) eqn:Hd; [left; reflexivity|].
  destruct (bool_decide (e_type e = CHEST)); [left; reflexivity|].
  cbn [orb]. unfold entityBody.
  pose proof (entityCollisionOn_keeps_type (platformsRef w)
                (integrateEntity e, false)) as Hty.
  destruct (entityCollisionOn (platformsRef w) (integrateEntity e, false))
    as [e1 g]. cbn [fst] in Hty.
  assert (Hty' : e_type (entityTimers e1) = e_type e).
  { change (e_type (entityTimers e1)) with (e_type e1). rewrite Hty.
    unfold integrateEntity. split_ifs; reflexivity. }
  pose proof (entityAI_player g (entityTimers e1) w) as H. cbv zeta in H.
  destruct (entityAI g (entityTimers e1, w)) as [e2 w2]. cbn [snd] in H.
  change (playerRef (withEntity i (fun _ => entityFinish e2) w2))
    with (playerRef w2).
  rewrite Hty' in H.
  destruct H as [H | [[Ht H] | [Ht H]]]; [left; exact H|right|right];
    exists e; (split; [reflexivity|]); (split; [exact Hd|]);
    rewrite H; cbn [e_hp e_vx e_hitFlashTimer e_maxHp set_e_hp set_e_vx
                    set_e_hitFlashTimer].
  - split; [|split; [repeat split|reflexivity]].
    left. split; [exact Ht|]. split; [reflexivity|]. split; [reflexivity|].
    destruct (towards_cases
                (Qltb (e_x (entityTimers e1)) (e_x (playerRef w))))
      as [-> | ->]; [left|right]; reflexivity.
  - split; [|split; [repeat split|reflexivity]].
    right. split; [exact Ht|]. split; reflexivity.
Qed.

Lemma entitySteps_health (l : list nat) : forall w,
  let w' := fold_left (fun w i => entityStep i w) l w in
  (e_hp (playerRef w) - 6 * inject_Z (Z.of_nat (length l))
   <= e_hp (playerRef w'))%Q
  /\ (e_hp (playerRef w') <= e_hp (playerRef w))%Q
  /\ sameMotion (playerRef w) (playerRef w')
  /\ e_maxHp (playerRef w') = e_maxHp (playerRef w).
Proof.
  induction l as [|i l IH]; intros w; cbv zeta.
  - cbn [fold_left length]. change (inject_Z (Z.of_nat 0)) with 0%Q.
    split; [lra|]. split; [lra|]. split; [apply sameMotion_refl|reflexivity].
  - cbn [fold_left]. specialize (IH (entityStep i w)). cbv zeta in IH.
    destruct IH as (I1 & I2 & I3 & I4).
    assert (Hs : (e_hp (playerRef w) - 6 <= e_hp (playerRef (entityStep i w))
                  /\ e_hp (playerRef (entityStep i w)) <= e_hp (playerRef w))%Q
                 /\ sameMotion (playerRef w) (playerRef (entityStep i w))
                 /\ e_maxHp (playerRef (entityStep i w))
                    = e_maxHp (playerRef w)).
    { pose proof (entityStep_player i w) as H. cbv zeta in H.
      destruct H as [-> | (e & _ & _ & Hc & Hm & Hx)].
      - split; [split; lra|]. split; [apply sameMotion_refl|reflexivity].
      - split; [|split; assumption].
        destruct Hc as [(_ & -> & _) | (_ & -> & _)]; split; lra. }
    destruct Hs as ((S1 & S2) & S3 & S4).
    rewrite length_cons, Nat2Z.inj_succ, <- Z.add_1_r, inject_Z_plus.
    change (inject_Z 1) with 1%Q.
    split; [lra|]. split; [lra|].
    split; [eapply sameMotion_trans; eassumption|congruence].
Qed.

(** What the entities do to the player.  One pass of the callback
    either leaves the player as it is, or it is a live rogue's strike,
    which takes exactly 6 health, sets the flash timer to 5 and the
    horizontal velocity to 10 or -10, or a live slime's touch, which
    takes exactly 0.2 health; bats, chests and dead entities never
    touch the player.  Over the whole entity loop the player loses at
    most 6 health per entity and never gains any, and the player's
    position, vertical velocity, size, jump state and maximum health
    are left alone. *)
Theorem entities_take_at_most_6_health_each (w : World) (i : nat) :
  let p := playerRef w in
  (let p' := playerRef (entityStep i w) in
   p' = p
   \/ exists e,
        entitiesRef w !! i = Some e /\ e_isDead e = false
        /\ ((e_type e = ROGUE_AGENT
             /\ e_hp p' = (e_hp p - 6)%Q
             /\ e_hitFlashTimer p' = 5
             /\ (e_vx p' == 10 \/ e_vx p' == -10)%Q)
            \/ (e_type e = MOB_SLIME
                /\ e_hp p' = (e_hp p - 0.2)%Q
                /\ e_vx p' = e_vx p)))
  /\ (let p' := playerRef (entityLoop w) in
      (e_hp p - 6 * inject_Z (Z.of_nat (length (entitiesRef w))) <= e_hp p')%Q
      /\ (e_hp p' <= e_hp p)%Q
      /\ e_x p' = e_x p /\ e_y p' = e_y p /\ e_vy p' = e_vy p
      /\ e_jumpCount p' = e_jumpCount p
      /\ e_maxHp p' = e_maxHp p).
Proof.
  cbv zeta. split.
  - pose proof (entityStep_player i w) as H. cbv zeta in H.
    destruct H as [H | (e & H1 & H2 & H3 & _)]; [left; exact H|right].
    exists e. auto.
  - pose proof (entitySteps_health (seq 0 (length (entitiesRef w))) w) as H.
    cbv zeta in H. rewrite length_seq in H.
    destruct H as (H1 & H2 & (M1 & M2 & M3 & _ & _ & M6 & _) & H4).
    unfold entityLoop, forEachEntity. auto 10.
Qed.

(** ** The player's health through a session *)

Lemma moves_health w d :
  let keeps (w' : World) :=
    e_hp (playerRef w') = e_hp (playerRef w)
    /\ e_maxHp (playerRef w') = e_maxHp (playerRef w)
    /\ keysRef w' = keysRef w in
  keeps (inputLeft (w, d)).1 /\ keeps (inputRight (w, d)).1
  /\ keeps (inputJump (w, d)).1.
Proof.
  cbv zeta. unfold inputLeft, inputRight, inputJump.
  split; [|split]; split_ifs; repeat split.
Qed.

Lemma playerInput_health w :
  let p := playerRef w in
  let p' := playerRef (playerInput w) in
  e_maxHp p' = e_maxHp p
  /\ (e_hp p' = e_hp p
      \/ (key w "Digit1" = true /\ (e_hp p < e_maxHp p)%Q
          /\ e_hp p'
             = Qmin (e_hp p + inject_Z (Qfloor (e_maxHp p * 0.3)))
                    (e_maxHp p))).
Proof.
  cbv zeta. unfold playerInput.
  destruct (isLootMenuOpen (stateRef w)); [split; [|left]; reflexivity|].
  destruct (moves_health w false) as ((A1 & A2 & A3) & _).
  destruct (inputLeft (w, false)) as [w1 d1]. cbn [fst] in A1, A2, A3.
  destruct (moves_health w1 d1) as (_ & (B1 & B2 & B3) & _).
  destruct (inputRight (w1, d1)) as [w2 d2]. cbn [fst] in B1, B2, B3.
  destruct (moves_health w2 d2) as (_ & _ & (C1 & C2 & C3)).
  destruct (inputJump (w2, d2)) as [w3 d3]. cbn [fst] in C1, C2, C3.
  assert (Hk : key w3 "Digit1" = key w "Digit1").
  { unfold key. rewrite C3, B3, A3. reflexivity. }
  assert (Hh : e_hp (playerRef w3) = e_hp (playerRef w)) by congruence.
  assert (Hm : e_maxHp (playerRef w3) = e_maxHp (playerRef w)) by congruence.
  pose proof (inputPotion_fires w3 d3) as Hfire.
  pose proof (inputPotion_idle w3 d3) as Hidle.
  destruct (inputPotion (w3, d3)) as [w4 d4].
  rewrite playerRef_inputSearch.
  destruct (potionFires w3) eqn:Hf.
  - destruct (Hfire eq_refl) as (_ & _ & _ & _ & Hp & _).
    cbn [fst] in Hp. rewrite Hp. cbn [e_hp e_maxHp set_e_hp].
    split; [exact Hm|]. right.
    unfold potionFires in Hf.
    apply andb_true_iff in Hf. destruct Hf as [Hf Hlt].
    apply andb_true_iff in Hf. destruct Hf as [Hkey _].
    apply Qltb_true in Hlt. rewrite Hk in Hkey. rewrite Hh, Hm in *.
    split; [exact Hkey|]. split; [exact Hlt|reflexivity].
  - specialize (Hidle eq_refl). inversion Hidle; subst w4 d4.
    split; [exact Hm|left; exact Hh].
Qed.

Lemma playerCollision_health w :
  let p := playerRef w in
  let p' := playerRef (playerCollision w).1 in
  e_maxHp p' = e_maxHp p /\ (e_hp p' = e_hp p \/ e_hp p' = 0%Q).
Proof.
  cbv zeta. unfold playerCollision, playerCollisionOn.
  refine (fold_left_invariant playerCollidePlatform
            (fun wg => e_maxHp (playerRef wg.1) = e_maxHp (playerRef w)
                       /\ (e_hp (playerRef wg.1) = e_hp (playerRef w)
                           \/ e_hp (playerRef wg.1) = 0%Q))
            _ (platformsRef w) (w, false) _); [|split; [|left]; reflexivity].
  intros [w1 g1] plat [H1 H2]. cbn [fst] in H1, H2.
  unfold playerCollidePlatform.
  split_ifs; cbn [fst]; rewrite ?playerRef_pushText;
    (split; [exact H1|]); first [exact H2 | right; reflexivity].
Qed.

Lemma combat_health w :
  e_hp (playerRef (combat w)) = e_hp (playerRef w)
  /\ e_maxHp (playerRef (combat w)) = e_maxHp (playerRef w).
Proof.
  assert (Hb : e_hp (playerRef (basicAttack w)) = e_hp (playerRef w)
               /\ e_maxHp (playerRef (basicAttack w))
                  = e_maxHp (playerRef w)).
  { unfold basicAttack.
    destruct (key w "KeyJ" && (e_attackCooldown (playerRef w) <=? 0));
      [|split; reflexivity].
    rewrite playerRef_forEachEntity by apply playerRef_attackHit.
    split; reflexivity. }
  assert (Hs : forall w0,
             e_hp (playerRef (skill w0)) = e_hp (playerRef w0)
             /\ e_maxHp (playerRef (skill w0)) = e_maxHp (playerRef w0)).
  { intros w0. unfold skill.
    destruct (key w0 "KeyK"
              && (default 0 (e_skillCooldown (playerRef w0)) <=? 0));
      [|split; reflexivity].
    destruct (heroType _).
    - rewrite playerRef_forEachEntity by apply playerRef_whirlwindHit.
      split; reflexivity.
    - rewrite playerRef_forEachEntity by apply playerRef_meteorHit.
      split; reflexivity. }
  unfold combat. destruct (isLootMenuOpen _); [split; reflexivity|].
  destruct (Hs (basicAttack w)) as [S1 S2], Hb as [B1 B2].
  split; congruence.
Qed.

Lemma afterReading_health w :
  (e_hp (playerRef (afterReading w)) <= e_hp (playerRef w))%Q
  /\ e_maxHp (playerRef (afterReading w)) = e_maxHp (playerRef w).
Proof.
  unfold afterReading. rewrite playerRef_gameEnd.
  pose proof (entitySteps_health
                (seq 0 (length (entitiesRef (playerCooldowns (combat w)))))
                (playerCooldowns (combat w))) as H.
  cbv zeta in H. destruct H as (_ & H2 & _ & H4).
  destruct (combat_health w) as [C1 C2].
  unfold entityLoop, forEachEntity. rewrite H4.
  change (e_maxHp (playerRef (playerCooldowns (combat w))))
    with (e_maxHp (playerRef (combat w))).
  change (e_hp (playerRef (playerCooldowns (combat w))))
    with (e_hp (playerRef (combat w))) in H2.
  rewrite C1 in H2. rewrite C2. split; [exact H2|reflexivity].
Qed.

Lemma atReading_health w :
  let p := playerRef w in
  let p' := playerRef (atReading w) in
  e_maxHp p' = e_maxHp p
  /\ (e_hp p' = e_hp p \/ e_hp p' = 0%Q
      \/ (key w "Digit1" = true /\ (e_hp p < e_maxHp p)%Q
          /\ e_hp p'
             = Qmin (e_hp p + inject_Z (Qfloor (e_maxHp p * 0.3)))
                    (e_maxHp p))).
Proof.
  cbv zeta. unfold atReading.
  destruct (playerCollision_health (integratePlayer (playerInput w)))
    as [M H].
  destruct (playerInput_health w) as [M' H'].
  change (e_maxHp (playerRef (integratePlayer (playerInput w))))
    with (e_maxHp (playerRef (playerInput w))) in M.
  change (e_hp (playerRef (integratePlayer (playerInput w))))
    with (e_hp (playerRef (playerInput w))) in H.
  split; [congruence|].
  destruct H as [H | H]; [|right; left; exact H].
  rewrite H. destruct H' as [H' | H']; [left; exact H'|right; right; exact H'].
Qed.

Lemma simulate_health w :
  let p := playerRef w in
  let p' := playerRef (simulate w) in
  e_maxHp p' = e_maxHp p
  /\ ((0 <= e_maxHp p)%Q -> (e_hp p <= e_maxHp p)%Q ->
      (e_hp p' <= e_maxHp p)%Q)
  /\ (key w "Digit1" = false -> (0 <= e_hp p)%Q -> (e_hp p' <= e_hp p)%Q).
Proof.
  cbv zeta. rewrite simulate_atReading.
  destruct (afterReading_health (readingLogic (atReading (prelude w))))
    as [A1 A2].
  rewrite playerRef_readingLogic in A1, A2.
  destruct (atReading_health (prelude w)) as [B1 B2].
  destruct (prelude_frame w) as (P1 & P2 & _).
  assert (Hk : key (prelude w) "Digit1" = key w "Digit1")
    by (unfold key; rewrite P2; reflexivity).
  rewrite P1, Hk in *.
  split; [congruence|]. split.
  - intros Hm Hle.
    destruct B2 as [B | [B | (_ & _ & B)]]; rewrite B in A1; [lra|lra|].
    pose proof (Q.le_min_r
                  (e_hp (playerRef w)
                   + inject_Z (Qfloor (e_maxHp (playerRef w) * 0.3)))
                  (e_maxHp (playerRef w))).
    lra.
  - intros Hkey Hpos.
    destruct B2 as [B | [B | (B & _)]]; [rewrite B in A1; lra
                                         |rewrite B in A1; lra|congruence].
Qed.

Lemma frameEnd_gameOver w :
  gameOver (stateRef (frameEnd w)) = false -> gameOver (stateRef w) = false.
Proof.
  unfold frameEnd.
  destruct (openExtraction w) as [w1|w1] eqn:Ho; intros Hg'.
  - destruct (openExtraction_report _ _ (or_introl Ho)) as (_ & Og & _).
    destruct (extractionDwell_report w1) as (s & t & _ & Dg & _).
    destruct (render_report (extractionDwell w1)) as (_ & Rg & _).
    rewrite Rg, Dg, Og in Hg'.
    apply orb_false_iff in Hg'. apply Hg'.
  - destruct (openExtraction_report _ _ (or_intror Ho)) as (_ & Og & _).
    congruence.
Qed.

Lemma loop_health w :
  let p := playerRef w in
  let p' := playerRef (loop w).1 in
  e_maxHp p' = e_maxHp p
  /\ ((0 <= e_maxHp p)%Q -> (e_hp p <= e_maxHp p)%Q ->
      (e_hp p' <= e_maxHp p)%Q)
  /\ (key w "Digit1" = false -> (0 <= e_hp p)%Q -> (e_hp p' <= e_hp p)%Q)
  /\ (gameOver (stateRef w) = false ->
      gameOver (stateRef (loop w).1) = false -> (0 < e_hp p')%Q).
Proof.
  cbv zeta. destruct (gameOver (stateRef w)) eqn:Hg.
  { unfold loop. rewrite Hg. cbn [fst].
    split; [reflexivity|]. split; [auto|]. split; [intros; lra|discriminate]. }
  rewrite (loop_frameEnd w Hg), playerRef_frameEnd.
  destruct (simulate_health w) as (H1 & H2 & H3).
  split; [exact H1|]. split; [exact H2|]. split; [exact H3|].
  intros _ Hg'.
  pose proof (simulate_gameOver w) as Hs. rewrite Hg, orb_false_r in Hs.
  pose proof (frameEnd_gameOver (simulate w) Hg') as Hsim.
  rewrite Hsim in Hs. symmetry in Hs. apply Qleb_false in Hs. exact Hs.
Qed.

Lemma keyDown_stateRef c w :
  gameOver (stateRef (handleKeyDown c (handleModalKeys c w)))
  = gameOver (stateRef w).
Proof. apply keyDown_report. Qed.

(** The player's health.  A frame never changes the maximum health;
    it never takes health that was within a maximum of 0 or more
    above that maximum; and with [Digit1] up at the start of the frame
    it never raises health that was 0 or more: the potion is the only
    source of health.  A frame that leaves the game on leaves the
    player with health above 0.  From the session start the maximum is
    100 and the health is at most 100 throughout, and above 0 for as
    long as the game is on. *)
Theorem player_health_between_0_and_maximum (w : World) (evs : list Event)
    (h : HeroType) (tape : nat -> Q) :
  (let p := playerRef w in
   let p' := playerRef (loop w).1 in
   e_maxHp p' = e_maxHp p
   /\ ((0 <= e_maxHp p)%Q -> (e_hp p <= e_maxHp p)%Q ->
       (e_hp p' <= e_maxHp p)%Q)
   /\ (key w "Digit1" = false -> (0 <= e_hp p)%Q -> (e_hp p' <= e_hp p)%Q)
   /\ (gameOver (stateRef w) = false ->
       gameOver (stateRef (loop w).1) = false -> (0 < e_hp p')%Q))
  /\ (let w' := (run evs (startSession h tape)).1 in
      e_maxHp (playerRef w') = 100%Q
      /\ (e_hp (playerRef w') <= 100)%Q
      /\ (gameOver (stateRef w') = false -> (0 < e_hp (playerRef w'))%Q)).
Proof.
  split; [apply loop_health|]. cbv zeta.
  apply (run_invariant
           (fun w' => e_maxHp (playerRef w') = 100%Q
                      /\ (e_hp (playerRef w') <= 100)%Q
                      /\ (gameOver (stateRef w') = false ->
                          (0 < e_hp (playerRef w'))%Q))).
  - intros ev s (Hm & Hh & Hp). destruct ev as [|c|c].
    + cbn [step]. destruct s.2; [|auto].
      destruct (loop_health s.1) as (L1 & L2 & _ & L4).
      rewrite L1, Hm in *. split; [reflexivity|]. split.
      * apply L2; [lra|exact Hh].
      * intros Hg'. apply L4; [|exact Hg'].
        destruct (gameOver (stateRef s.1)) eqn:Hg; [|reflexivity].
        unfold loop in Hg'. rewrite Hg in Hg'. cbn [fst] in Hg'. congruence.
    + rewrite (proj1 (step_playerRef_key c s)). cbn [step fst].
      rewrite keyDown_stateRef. auto.
    + rewrite (proj2 (step_playerRef_key c s)). cbn [step fst]. auto.
  - unfold startSession. cbn [fst].
    destruct (initWorld_fields h tape) as (_ & _ & -> & _ & -> & _).
    cbn. split; [reflexivity|]. split; [lra|]. intros _. lra.
Qed.

(** ** The attack and skill cooldowns (lines 941-1012) *)

(** The two cooldowns of the player. *)
Definition cooldowns (w : World) : Z * option Z :=
  (e_attackCooldown (playerRef w), e_skillCooldown (playerRef w)).

Lemma cooldowns_atReading w : unchanged cooldowns w (atReading w).
Proof.
  unfold atReading.
  assert (H1 : unchanged cooldowns w (playerInput w)).
  { unchanged_by (writes_playerInput (unchanged cooldowns)). }
  assert (H2 : unchanged cooldowns (playerInput w)
                 (integratePlayer (playerInput w)))
    by reflexivity.
  assert (H3 : unchanged cooldowns (integratePlayer (playerInput w))
                 (playerCollision (integratePlayer (playerInput w))).1).
  { unchanged_by (writes_playerCollision (unchanged cooldowns)). }
  unfold unchanged in *. congruence.
Qed.

Lemma cooldowns_entityLoop w : unchanged cooldowns w (entityLoop w).
Proof. unchanged_by (writes_entityLoop (unchanged cooldowns)). Qed.

Lemma cooldowns_frameEnd w : unchanged cooldowns w (frameEnd w).
Proof.
  unfold unchanged, cooldowns. rewrite playerRef_frameEnd. reflexivity.
Qed.

Lemma keys_atReading w c :
  c <> "Digit1"%string -> key (readingLogic (atReading (prelude w))) c = key w c.
Proof.
  intros Hc.
  assert (Hset : forall w0 w1 : World,
             keysRef w1 = keysRef w0 -> keysRead w0 w1).
  { intros w0 w1 E. unfold keysRead, key. rewrite E. auto. }
  assert (H0 : keysRef (prelude w) = keysRef w) by apply prelude_frame.
  assert (H1 : keysRead (prelude w) (playerInput (prelude w))).
  { apply (writes_playerInput keysRead);
      first [ exact keysRead_refl | exact keysRead_trans
            | exact keysRead_inputPotion
            | intros; apply Hset; reflexivity ]. }
  assert (H2 : keysRef (atReading (prelude w))
               = keysRef (playerInput (prelude w))).
  { unfold atReading.
    assert (A : unchanged keysRef (integratePlayer (playerInput (prelude w)))
                  (playerCollision
                     (integratePlayer (playerInput (prelude w)))).1)
      by unchanged_by (writes_playerCollision (unchanged keysRef)).
    rewrite A. reflexivity. }
  assert (H3 : unchanged keysRef (atReading (prelude w))
                 (readingLogic (atReading (prelude w)))).
  { unchanged_by (writes_readingLogic (unchanged keysRef)). }
  unfold key. rewrite H3, H2.
  destruct H1 as [H1 _]. specialize (H1 c Hc). unfold key in H1.
  rewrite H1, H0. reflexivity.
Qed.

Lemma basicAttack_cooldowns w :
  let fired := key w "KeyJ" && (e_attackCooldown (playerRef w) <=? 0) in
  cooldowns (basicAttack w)
  = (if fired then 20 else e_attackCooldown (playerRef w),
     e_skillCooldown (playerRef w)).
Proof.
  cbv zeta. unfold basicAttack, cooldowns.
  destruct (key w "KeyJ" && (e_attackCooldown (playerRef w) <=? 0));
    [|reflexivity].
  rewrite playerRef_forEachEntity by apply playerRef_attackHit. reflexivity.
Qed.

Lemma skill_cooldowns w :
  let fired :=
    key w "KeyK" && (default 0 (e_skillCooldown (playerRef w)) <=? 0) in
  cooldowns (skill w)
  = (e_attackCooldown (playerRef w),
     if fired then Some 180 else e_skillCooldown (playerRef w)).
Proof.
  cbv zeta. unfold skill, cooldowns.
  destruct (key w "KeyK"
            && (default 0 (e_skillCooldown (playerRef w)) <=? 0));
    [|reflexivity].
  destruct (heroType _).
  - rewrite playerRef_forEachEntity by apply playerRef_whirlwindHit.
    reflexivity.
  - rewrite playerRef_forEachEntity by apply playerRef_meteorHit.
    reflexivity.
Qed.

Lemma key_basicAttack w c : key (basicAttack w) c = key w c.
Proof.
  assert (H : unchanged keysRef w (basicAttack w))
    by unchanged_by (writes_basicAttack (unchanged keysRef)).
  unfold key. rewrite H. reflexivity.
Qed.

(** The cooldowns after combat and the cooldown tick, from the world
    the combat section finds. *)
Lemma combat_cooldowns w :
  let a := e_attackCooldown (playerRef w) in
  let k := e_skillCooldown (playerRef w) in
  let w' := playerCooldowns (combat w) in
  (e_attackCooldown (playerRef w') = decrementPositive a
   \/ (key w "KeyJ" = true /\ a <= 0
       /\ e_attackCooldown (playerRef w') = 19))
  /\ (e_skillCooldown (playerRef w') = decrementOptional k
      \/ (key w "KeyK" = true /\ default 0 k <= 0
          /\ e_skillCooldown (playerRef w') = Some 179)).
Proof.
  cbv zeta.
  assert (Hc : cooldowns (playerCooldowns (combat w))
               = (decrementPositive (cooldowns (combat w)).1,
                  decrementOptional (cooldowns (combat w)).2))
    by reflexivity.
  assert (Ha : e_attackCooldown (playerRef (playerCooldowns (combat w)))
               = (cooldowns (playerCooldowns (combat w))).1) by reflexivity.
  assert (Hk : e_skillCooldown (playerRef (playerCooldowns (combat w)))
               = (cooldowns (playerCooldowns (combat w))).2) by reflexivity.
  rewrite Ha, Hk, Hc. clear Ha Hk Hc. cbn [fst snd].
  unfold combat. destruct (isLootMenuOpen (stateRef w)).
  { split; left; reflexivity. }
  pose proof (skill_cooldowns (basicAttack w)) as Hs. cbv zeta in Hs.
  pose proof (basicAttack_cooldowns w) as Hb. cbv zeta in Hb.
  rewrite key_basicAttack in Hs.
  assert (Hb1 : e_attackCooldown (playerRef (basicAttack w))
                = (cooldowns (basicAttack w)).1) by reflexivity.
  assert (Hb2 : e_skillCooldown (playerRef (basicAttack w))
                = (cooldowns (basicAttack w)).2) by reflexivity.
  rewrite Hb1, Hb2, Hb in Hs. cbn [fst snd] in Hs. rewrite Hs.
  cbn [fst snd]. split.
  - destruct (key w "KeyJ"); cbn [andb]; [|left; reflexivity].
    destruct (e_attackCooldown (playerRef w) <=? 0) eqn:E;
      [|left; reflexivity].
    apply Z.leb_le in E. right.
    split; [reflexivity|]. split; [exact E|reflexivity].
  - destruct (key w "KeyK"); cbn [andb]; [|left; reflexivity].
    destruct (default 0 (e_skillCooldown (playerRef w)) <=? 0) eqn:E;
      [|left; reflexivity].
    apply Z.leb_le in E. right.
    split; [reflexivity|]. split; [exact E|reflexivity].
Qed.

Lemma loop_cooldowns w :
  let a := e_attackCooldown (playerRef w) in
  let k := e_skillCooldown (playerRef w) in
  let p' := playerRef (loop w).1 in
  gameOver (stateRef w) = false ->
  (e_attackCooldown p' = decrementPositive a
   \/ (key w "KeyJ" = true /\ a <= 0 /\ e_attackCooldown p' = 19))
  /\ (e_skillCooldown p' = decrementOptional k
      \/ (key w "KeyK" = true /\ default 0 k <= 0
          /\ e_skillCooldown p' = Some 179)).
Proof.
  cbv zeta. intros Hg.
  rewrite (loop_frameEnd w Hg), playerRef_frameEnd, simulate_atReading.
  unfold afterReading. rewrite playerRef_gameEnd.
  pose proof (cooldowns_entityLoop
                (playerCooldowns
                   (combat (readingLogic (atReading (prelude w)))))) as He.
  unfold unchanged, cooldowns in He.
  apply pair_equal_spec in He. destruct He as [He1 He2].
  rewrite He1, He2. clear He1 He2.
  pose proof (combat_cooldowns (readingLogic (atReading (prelude w)))) as Hc.
  cbv zeta in Hc.
  rewrite !keys_atReading in Hc by discriminate.
  rewrite playerRef_readingLogic in Hc.
  pose proof (cooldowns_atReading (prelude w)) as Hr.
  unfold unchanged, cooldowns in Hr.
  rewrite (proj1 (prelude_frame w)) in Hr.
  apply pair_equal_spec in Hr. destruct Hr as [Hr1 Hr2].
  rewrite Hr1, Hr2 in Hc. exact Hc.
Qed.

(** The attack and skill cooldowns.  In a frame the attack cooldown
    either goes down by one if it was above 0, or the basic attack
    fired, which needs [KeyJ] down and a cooldown of 0 or less, and
    the frame ends with it at 19; the skill cooldown likewise goes
    down by one, or the skill fired on [KeyK] with a cooldown of 0 or
    less and the frame ends with it at 179.  The key listeners do not
    touch them.  From the session start the attack cooldown stays
    between 0 and 19 and the skill cooldown between 0 and 179: the
    basic attack fires at most once in 20 frames and the skill at
    most once in 180. *)
Theorem attack_and_skill_are_rate_limited (w : World) (evs : list Event)
    (h : HeroType) (tape : nat -> Q) :
  (let a := e_attackCooldown (playerRef w) in
   let k := e_skillCooldown (playerRef w) in
   let p' := playerRef (loop w).1 in
   gameOver (stateRef w) = false ->
   (e_attackCooldown p' = (if 0 <? a then a - 1 else a)
    \/ (key w "KeyJ" = true /\ a <= 0 /\ e_attackCooldown p' = 19))
   /\ (e_skillCooldown p'
       = match k with
         | Some n => Some (if 0 <? n then n - 1 else n)
         | None => None
         end
       \/ (key w "KeyK" = true /\ default 0 k <= 0
           /\ e_skillCooldown p' = Some 179)))
  /\ (let p := playerRef (run evs (startSession h tape)).1 in
      0 <= e_attackCooldown p <= 19
      /\ exists n, e_skillCooldown p = Some n /\ 0 <= n <= 179).
Proof.
  split; [exact (loop_cooldowns w)|]. cbv zeta.
  apply (run_invariant
           (fun w' => 0 <= e_attackCooldown (playerRef w') <= 19
                      /\ exists n, e_skillCooldown (playerRef w') = Some n
                                   /\ 0 <= n <= 179)).
  - intros ev s (Ha & n & Hk & Hn). destruct ev as [|c|c].
    + cbn [step]. destruct s.2; [|eauto].
      destruct (gameOver (stateRef s.1)) eqn:Hg.
      { unfold loop. rewrite Hg. cbn [fst]. eauto. }
      destruct (loop_cooldowns s.1 Hg) as [La Lk].
      rewrite Hk in Lk. cbn [decrementOptional default] in Lk.
      unfold decrementPositive in La, Lk. split.
      * destruct La as [-> | (_ & _ & ->)]; [|lia].
        destruct (0 <? e_attackCooldown (playerRef s.1)) eqn:E; [|lia].
        apply Z.ltb_lt in E. lia.
      * destruct Lk as [-> | (_ & _ & ->)]; [|exists 179; split; [reflexivity|lia]].
        eexists. split; [reflexivity|].
        destruct (0 <? n) eqn:E; [|lia]. apply Z.ltb_lt in E. lia.
    + rewrite (proj1 (step_playerRef_key c s)). eauto.
    + rewrite (proj2 (step_playerRef_key c s)). eauto.
  - unfold startSession. cbn [fst].
    destruct (initWorld_fields h tape) as (_ & _ & _ & _ & -> & _).
    cbn. split; [lia|]. exists 0. split; [reflexivity|lia].
Qed.

(** ** The frame counter and the opening of the extraction
    (lines 786 and 1107-1122) *)

Definition timeOf (w : World) : Z := time (stateRef w).

(** Whether extraction is active, and its zone. *)
Definition portalOf (w : World) : bool * option Rect :=
  (extractionActive (stateRef w), extractionZone (stateRef w)).

Lemma simulate_clock w :
  timeOf (simulate w) = timeOf w + 1
  /\ portalOf (simulate w) = portalOf w.
Proof.
  split.
  - rewrite simulate_fromSpawn.
    assert (H : unchanged timeOf (markVisited (tick w))
                  (fromSpawn (markVisited (tick w))))
      by unchanged_by (writes_fromSpawn (unchanged timeOf)).
    rewrite H. reflexivity.
  - unchanged_by (writes_simulate (unchanged portalOf)).
Qed.

Lemma frameEnd_clock w :
  tapeInRange w ->
  (exists p, In p (platformsRef w) /\ isExtractionPlatform p = true) ->
  timeOf (frameEnd w) = timeOf w
  /\ (timeOf w = 1800 ->
      exists p,
        In p (platformsRef w)
        /\ plat_type p <> LAVA /\ plat_type p <> WOOD
        /\ portalOf (frameEnd w) = (true, Some (extractionZoneOver p)))
  /\ (timeOf w <> 1800 -> portalOf (frameEnd w) = portalOf w).
Proof.
  intros Ht He.
  assert (Hrest : forall w', unchanged timeOf w' (render (extractionDwell w'))
                             /\ unchanged portalOf w'
                                  (render (extractionDwell w'))).
  { intros w'. split.
    - assert (A : unchanged timeOf w' (extractionDwell w'))
        by unchanged_by (writes_extractionDwell (unchanged timeOf)).
      assert (B : unchanged timeOf (extractionDwell w')
                    (render (extractionDwell w')))
        by unchanged_by (writes_render (unchanged timeOf)).
      unfold unchanged in *. rewrite B. exact A.
    - assert (A : unchanged portalOf w' (extractionDwell w'))
        by unchanged_by (writes_extractionDwell (unchanged portalOf)).
      assert (B : unchanged portalOf (extractionDwell w')
                    (render (extractionDwell w')))
        by unchanged_by (writes_render (unchanged portalOf)).
      unfold unchanged in *. rewrite B. exact A. }
  destruct (openExtraction_opens w Ht He) as [Hopen Hskip].
  unfold frameEnd.
  destruct (Z.eq_dec (time (stateRef w)) 1800) as [E|E].
  - destruct (Hopen E) as (p & w' & Hin & Hl & Hw & Hn & Ha & Hz & _).
    rewrite Hn. destruct (Hrest w') as [R1 R2]. rewrite R1, R2.
    assert (Htime : unchanged timeOf w w').
    { unchanged_by (writes_openExtraction (unchanged timeOf)).
      left. exact Hn. }
    split; [exact Htime|]. split; [|intros H; contradiction].
    intros _. exists p. split; [exact Hin|]. split; [exact Hl|].
    split; [exact Hw|]. unfold portalOf. rewrite Ha, Hz. reflexivity.
  - rewrite (Hskip E). destruct (Hrest w) as [R1 R2]. rewrite R1, R2.
    split; [reflexivity|]. split; [intros H; contradiction|reflexivity].
Qed.

(** Extraction is closed before frame 1800 and open, over one
    platform of the map that is neither lava nor wood, from then on. *)
Definition clockInv (w : World) : Prop :=
  0 <= timeOf w
  /\ (timeOf w < 1800 -> portalOf w = (false, None))
  /\ (1800 <= timeOf w ->
      exists p,
        In p generateMap /\ plat_type p <> LAVA /\ plat_type p <> WOOD
        /\ portalOf w = (true, Some (extractionZoneOver p))).

Lemma loop_clock w :
  tapeInRange w ->
  platformsRef w = generateMap ->
  gameOver (stateRef w) = false ->
  timeOf (loop w).1 = timeOf w + 1
  /\ (clockInv w -> clockInv (loop w).1)
  /\ (1800 <= timeOf w -> portalOf (loop w).1 = portalOf w).
Proof.
  intros Ht Hp Hg. rewrite (loop_frameEnd w Hg).
  destruct (simulate_clock w) as [St Sp].
  destruct (frameGrows_simulate w) as (Ht' & Hp' & _).
  assert (Hrange : tapeInRange (simulate w)).
  { intros n. rewrite Ht'. apply Ht. }
  assert (Hel : exists p, In p (platformsRef (simulate w))
                          /\ isExtractionPlatform p = true).
  { rewrite Hp', Hp. apply generateMap_has_eligible. }
  destruct (frameEnd_clock (simulate w) Hrange Hel) as (Ft & Fopen & Fskip).
  rewrite Hp', Hp in Fopen. rewrite St in Ft, Fopen, Fskip.
  rewrite Sp in Fskip.
  split; [exact Ft|]. split.
  - intros (I0 & Ibefore & Iafter). unfold clockInv. rewrite Ft.
    split; [lia|]. split.
    + intros Hlt. rewrite Fskip by lia. apply Ibefore. lia.
    + intros Hge. destruct (Z.eq_dec (timeOf w + 1) 1800) as [E|E].
      * apply Fopen, E.
      * rewrite Fskip by exact E. apply Iafter. lia.
  - intros Hge. apply Fskip. lia.
Qed.

Definition isFrame (ev : Event) : bool :=
  match ev with Frame => true | _ => false end.

Definition framesOf (evs : list Event) : Z :=
  Z.of_nat (length (List.filter isFrame evs)).

Lemma framesOf_snoc evs ev :
  framesOf (evs ++ [ev]) = framesOf evs + (if isFrame ev then 1 else 0).
Proof.
  unfold framesOf. rewrite List.filter_app, length_app. cbn [List.filter].
  destruct (isFrame ev); cbn [length]; lia.
Qed.

Lemma step_key_clock c s :
  let s1 := step (KeyDown c) s in
  let s2 := step (KeyUp c) s in
  timeOf s1.1 = timeOf s.1 /\ portalOf s1.1 = portalOf s.1
  /\ gameOver (stateRef s1.1) = gameOver (stateRef s.1) /\ s1.2 = s.2
  /\ timeOf s2.1 = timeOf s.1 /\ portalOf s2.1 = portalOf s.1
  /\ gameOver (stateRef s2.1) = gameOver (stateRef s.1) /\ s2.2 = s.2.
Proof.
  cbv zeta. cbn [step fst snd].
  assert (H1 : unchanged timeOf s.1 (handleModalKeys c s.1))
    by unchanged_by (writes_handleModalKeys (unchanged timeOf)).
  assert (H2 : unchanged portalOf s.1 (handleModalKeys c s.1))
    by unchanged_by (writes_handleModalKeys (unchanged portalOf)).
  split; [exact H1|]. split; [exact H2|].
  split; [apply keyDown_report|]. repeat split.
Qed.

(** The state of a session after [evs]: what the start fixes, the
    frame counter against the frames run, and the extraction. *)
Definition sessionClock (h : HeroType) (tape : nat -> Q) (evs : list Event)
    (s : Session) : Prop :=
  fromStart h tape s
  /\ timeOf s.1 <= framesOf evs
  /\ (gameOver (stateRef s.1) = false ->
      timeOf s.1 = framesOf evs /\ s.2 = true)
  /\ clockInv s.1.

Lemma run_sessionClock h tape evs :
  (forall n, (0 <= tape n)%Q /\ (tape n < 1)%Q) ->
  sessionClock h tape evs (run evs (startSession h tape)).
Proof.
  intros Htape. induction evs as [|ev evs IH] using rev_ind.
  - cbn [run fold_left]. split; [apply fromStart_startSession|].
    unfold startSession, clockInv, timeOf, portalOf, framesOf. cbn [fst snd].
    destruct (initWorld_fields h tape) as (_ & _ & -> & _).
    cbn. repeat split; try lia; try discriminate.
  - rewrite run_app. cbn [run fold_left].
    revert IH. generalize (run evs (startSession h tape)).
    intros s (Hs & Hle & Hon & Hinv).
    split; [apply fromStart_step, Hs|].
    rewrite framesOf_snoc.
    destruct ev as [|c|c]; cbn [isFrame].
    + cbn [step]. destruct s.2 eqn:Hrun.
      * destruct (gameOver (stateRef s.1)) eqn:Hg.
        { unfold loop. rewrite Hg. cbn [fst snd].
          split; [lia|]. split; [congruence|exact Hinv]. }
        destruct Hs as (Hp & Ht & _).
        assert (Hrange : tapeInRange s.1).
        { intros n. rewrite Ht. apply Htape. }
        destruct (loop_clock s.1 Hrange Hp Hg) as (Lt & Linv & _).
        destruct (Hon eq_refl) as [Heq _].
        rewrite Lt. split; [lia|]. split; [|apply Linv, Hinv].
        intros _. split; [lia|].
        rewrite (loop_never_throws s.1 Hrange Hp), Hg. reflexivity.
      * split; [lia|]. split; [|exact Hinv].
        intros Hg. destruct (Hon Hg) as [_ Hc]. congruence.
    + destruct (step_key_clock c s) as (K1 & K2 & K3 & K4 & _).
      cbv zeta in K1, K2, K3, K4.
      unfold clockInv. rewrite K1, K2, K3, K4, Z.add_0_r.
      split; [exact Hle|]. split; [exact Hon|exact Hinv].
    + destruct (step_key_clock c s) as (_ & _ & _ & _ & K1 & K2 & K3 & K4).
      cbv zeta in K1, K2, K3, K4.
      unfold clockInv. rewrite K1, K2, K3, K4, Z.add_0_r.
      split; [exact Hle|]. split; [exact Hon|exact Hinv].
Qed.

(** The frame counter and the extraction.  In a session from the
    start, with [Math.random()] in [0, 1): the frame counter is never
    above the number of frames run, and equals it for as long as the
    game is on, in which case a next frame is scheduled.  Extraction
    is active exactly when the counter has reached 1800; before that
    there is no zone; from then on the zone is the one over a platform
    of the map that is neither lava nor wood, and no later event moves
    it. *)
Theorem extraction_opens_at_frame_1800_and_stays (evs : list Event)
    (h : HeroType) (tape : nat -> Q) (ev : Event) :
  (forall n, (0 <= tape n)%Q /\ (tape n < 1)%Q) ->
  let s := run evs (startSession h tape) in
  let t := time (stateRef s.1) in
  0 <= t <= framesOf evs
  /\ (gameOver (stateRef s.1) = false -> t = framesOf evs /\ s.2 = true)
  /\ (extractionActive (stateRef s.1) = true <-> 1800 <= t)
  /\ (t < 1800 -> extractionZone (stateRef s.1) = None)
  /\ (1800 <= t ->
      (exists p,
         In p generateMap /\ plat_type p <> LAVA /\ plat_type p <> WOOD
         /\ extractionZone (stateRef s.1) = Some (extractionZoneOver p))
      /\ extractionZone (stateRef (step ev s).1)
         = extractionZone (stateRef s.1)).
Proof.
  intros Htape. cbv zeta.
  pose proof (run_sessionClock h tape evs Htape) as H.
  revert H. generalize (run evs (startSession h tape)).
  intros s (Hs & Hle & Hon & (I0 & Ibefore & Iafter)).
  unfold timeOf, portalOf in *.
  split; [lia|]. split; [exact Hon|]. split; [|split].
  - split.
    + intros Ha.
      destruct (Z.lt_ge_cases (time (stateRef s.1)) 1800) as [Hlt|Hge];
        [|exact Hge].
      specialize (Ibefore Hlt). apply pair_equal_spec in Ibefore.
      destruct Ibefore as [Hb _]. congruence.
    + intros Hge. destruct (Iafter Hge) as (p & _ & _ & _ & Hp).
      apply pair_equal_spec in Hp. apply Hp.
  - intros Hlt. specialize (Ibefore Hlt). apply pair_equal_spec in Ibefore.
    apply Ibefore.
  - intros Hge. split.
    + destruct (Iafter Hge) as (p & Hin & Hl & Hw & Hp).
      apply pair_equal_spec in Hp. exists p. repeat split; try assumption.
      apply Hp.
    + destruct ev as [|c|c].
      * cbn [step]. destruct s.2; [|reflexivity].
        destruct (gameOver (stateRef s.1)) eqn:Hg.
        { unfold loop. rewrite Hg. reflexivity. }
        destruct Hs as (Hp & Ht & _).
        assert (Hrange : tapeInRange s.1).
        { intros n. rewrite Ht. apply Htape. }
        destruct (loop_clock s.1 Hrange Hp Hg) as (_ & _ & Lz).
        specialize (Lz Hge). unfold portalOf in Lz.
        apply pair_equal_spec in Lz. apply Lz.
      * destruct (step_key_clock c s) as (_ & K & _). cbv zeta in K.
        unfold portalOf in K. apply pair_equal_spec in K. apply K.
      * reflexivity.
Qed.

Lemma extraction_closed_after_one_frame_on_half_tape :
  (forall n, (0 <= halfTape n)%Q /\ (halfTape n < 1)%Q)
  /\ extractionActive
       (stateRef (run [Frame; KeyDown "KeyD"]
                      (startSession SWORDSMAN halfTape)).1) = false
  /\ extractionZone
       (stateRef (run [Frame; KeyDown "KeyD"]
                      (startSession SWORDSMAN halfTape)).1) = None.
Proof.
  assert (Ht : forall n, (0 <= halfTape n)%Q /\ (halfTape n < 1)%Q)
    by (intros n; unfold halfTape; split; lra).
  destruct (extraction_opens_at_frame_1800_and_stays
              [Frame; KeyDown "KeyD"] SWORDSMAN halfTape Frame Ht)
    as (Hle & _ & Ha & Hz & _).
  assert (Hf : framesOf [Frame; KeyDown "KeyD"] = 1) by reflexivity.
  rewrite Hf in Hle.
  split; [exact Ht|]. split.
  - apply not_true_is_false. intros E. apply Ha in E. lia.
  - apply Hz. lia.
Defined.

(** ** The loot menu (lines 709-733, 826 and 913-927) *)

(** The menu flag, the search latch and timer, and the item offered. *)
Definition menuOf (w : World) : bool * bool * Z * option Item :=
  (isLootMenuOpen (stateRef w), isReading (stateRef w),
   readingTimer (stateRef w), lootModal w).

(** The menu flag is up exactly while an item is offered, and no
    search runs meanwhile. *)
Definition menuInv (m : bool * bool * Z * option Item) : Prop :=
  let '(open, reading, timer, modal) := m in
  open = bool_decide (modal <> None)
  /\ (open = true -> reading = false /\ timer = 0).

Lemma menuOf_prelude w : unchanged menuOf w (prelude w).
Proof.
  unfold prelude.
  assert (A1 : unchanged menuOf w (tick w))
    by unchanged_by (writes_tick (unchanged menuOf)).
  assert (A2 : unchanged menuOf (tick w) (markVisited (tick w)))
    by reflexivity.
  assert (A3 : unchanged menuOf (markVisited (tick w))
                 (spawnMob (markVisited (tick w))))
    by unchanged_by (writes_spawnMob (unchanged menuOf)).
  assert (A4 : unchanged menuOf (spawnMob (markVisited (tick w)))
                 (spawnRogue (spawnMob (markVisited (tick w)))))
    by unchanged_by (writes_spawnRogue (unchanged menuOf)).
  unfold unchanged in *. congruence.
Qed.

Lemma menuOf_atReading w : menuOf (atReading w) = menuOf (playerInput w).
Proof.
  unfold atReading.
  assert (A : unchanged menuOf (integratePlayer (playerInput w))
                (playerCollision (integratePlayer (playerInput w))).1)
    by unchanged_by (writes_playerCollision (unchanged menuOf)).
  unfold unchanged in *. rewrite A. reflexivity.
Qed.

Lemma menuOf_afterReading w : unchanged menuOf w (frameEnd (afterReading w)).
Proof.
  assert (A : unchanged menuOf w (afterReading w))
    by unchanged_by (writes_afterReading (unchanged menuOf)).
  assert (B : unchanged menuOf (afterReading w) (frameEnd (afterReading w)))
    by unchanged_by (writes_frameEnd (unchanged menuOf)).
  unfold unchanged in *. congruence.
Qed.

Lemma playerInput_menu w :
  isLootMenuOpen (stateRef (playerInput w)) = isLootMenuOpen (stateRef w)
  /\ lootModal (playerInput w) = lootModal w
  /\ (isLootMenuOpen (stateRef w) = true -> playerInput w = w).
Proof.
  assert (A : unchanged (fun w => (isLootMenuOpen (stateRef w), lootModal w))
                w (playerInput w))
    by unchanged_by
         (writes_playerInput
            (unchanged (fun w => (isLootMenuOpen (stateRef w), lootModal w)))).
  unfold unchanged in A. apply pair_equal_spec in A.
  split; [apply A|]. split; [apply A|].
  intros Ho. unfold playerInput. rewrite Ho. reflexivity.
Qed.

Lemma readingLogic_menu w :
  menuInv (menuOf w) -> menuInv (menuOf (readingLogic w)).
Proof.
  unfold menuInv, menuOf. intros [H1 H2]. unfold readingLogic.
  destruct (interactionTarget (stateRef w)) as [i|]; [|split; assumption].
  destruct (isReading (stateRef w)) eqn:Hr; [|split; [exact H1|]].
  2:{ rewrite Hr. exact H2. }
  destruct (isLootMenuOpen (stateRef w)) eqn:Ho.
  { destruct (H2 eq_refl) as [Hc _]. discriminate Hc. }
  destruct (90 <=? _).
  - destruct (openChest_fields i
                (withStateRef
                   (fun s => set_readingTimer (readingTimer s + 1) s) w))
      as (_ & _ & Hs & Hm & _).
    rewrite Hs, Hm. cbn. split; [reflexivity|]. intros _. split; reflexivity.
  - cbn [stateRef withStateRef set_stateRef isLootMenuOpen isReading
         readingTimer lootModal set_readingTimer].
    rewrite Ho. split; [exact H1|discriminate].
Qed.

Lemma loop_menu w :
  menuInv (menuOf w) ->
  menuInv (menuOf (loop w).1)
  /\ (isLootMenuOpen (stateRef w) = true -> menuOf (loop w).1 = menuOf w).
Proof.
  intros Hinv. destruct (gameOver (stateRef w)) eqn:Hg.
  { unfold loop. rewrite Hg. split; [exact Hinv|reflexivity]. }
  rewrite (loop_frameEnd w Hg), simulate_atReading.
  rewrite (menuOf_afterReading (readingLogic (atReading (prelude w)))).
  pose proof (menuOf_prelude w) as P. unfold unchanged in P.
  pose proof (menuOf_atReading (prelude w)) as C.
  destruct (playerInput_menu (prelude w)) as (I1 & I2 & I3).
  split.
  - apply readingLogic_menu. rewrite C.
    destruct (isLootMenuOpen (stateRef (prelude w))) eqn:Ho.
    + rewrite (I3 eq_refl), P. exact Hinv.
    + unfold menuInv, menuOf. rewrite I1, I2.
      rewrite <- P in Hinv. unfold menuInv, menuOf in Hinv. rewrite Ho in Hinv.
      split; [apply Hinv|discriminate].
  - intros Ho.
    assert (Ho' : isLootMenuOpen (stateRef (prelude w)) = true).
    { unfold menuOf in P. congruence. }
    assert (E : menuOf (atReading (prelude w)) = menuOf w).
    { rewrite C, (I3 Ho'). exact P. }
    rewrite readingLogic_idle; [exact E|].
    unfold menuInv, menuOf in Hinv. destruct Hinv as [_ H2].
    destruct (H2 Ho) as [Hr _].
    unfold menuOf in E. assert (Hr' : isReading (stateRef (atReading (prelude w))) = false)
      by congruence.
    rewrite Hr'. reflexivity.
Qed.

Lemma keyDown_menu c w :
  let w' := handleKeyDown c (handleModalKeys c w) in
  (lootModal w <> None /\ (c = "KeyJ" \/ c = "KeyK")%string ->
   isLootMenuOpen (stateRef w') = false /\ lootModal w' = None
   /\ isReading (stateRef w') = isReading (stateRef w)
   /\ readingTimer (stateRef w') = readingTimer (stateRef w))
  /\ (lootModal w = None \/ (c <> "KeyJ" /\ c <> "KeyK")%string ->
      menuOf w' = menuOf w).
Proof.
  cbv zeta. unfold handleKeyDown, handleModalKeys, handlePickup, handleDiscard.
  cbv zeta. destruct (lootModal w) as [item|] eqn:Hm.
  - destruct (bool_decide (c = "KeyJ")) eqn:EJ,
             (bool_decide (c = "KeyK")) eqn:EK;
      cbn [lootModal set_lootModal set_inventoryRef withStateRef
           set_stateRef inventoryRef];
      try apply bool_decide_eq_false in EJ;
      try apply bool_decide_eq_false in EK;
      try apply bool_decide_eq_true in EJ;
      try apply bool_decide_eq_true in EK.
    + split; [|intros [H|[H _]]; [discriminate|contradiction]].
      intros _. destruct (length (inventoryRef w) <? INVENTORY_CAP)%nat;
        repeat split.
    + split; [|intros [H|[H _]]; [discriminate|contradiction]].
      intros _. destruct (length (inventoryRef w) <? INVENTORY_CAP)%nat;
        repeat split.
    + split; [|intros [H|[_ H]]; [discriminate|contradiction]].
      intros _. repeat split.
    + split; [intros [_ [H|H]]; contradiction|].
      intros _. unfold menuOf. cbn. rewrite Hm. reflexivity.
  - split; [intros [H _]; contradiction|].
    intros _. unfold menuOf. cbn. rewrite Hm. reflexivity.
Qed.

Lemma step_menu ev s : menuInv (menuOf s.1) -> menuInv (menuOf (step ev s).1).
Proof.
  intros H. destruct ev as [|c|c]; cbn [step fst].
  - destruct s.2; [apply loop_menu, H|exact H].
  - destruct (keyDown_menu c s.1) as [Hclose Hkeep]. cbv zeta in Hclose, Hkeep.
    destruct (lootModal s.1) as [item|] eqn:Hm.
    + destruct (decide (c = "KeyJ" \/ c = "KeyK")%string) as [Hc|Hc].
      * destruct Hclose as (C1 & C2 & C3 & C4); [split; [discriminate|exact Hc]|].
        unfold menuInv, menuOf. rewrite C1, C2.
        split; [reflexivity|discriminate].
      * rewrite Hkeep; [exact H|]. right. tauto.
    + rewrite Hkeep; [exact H|]. left. reflexivity.
  - exact H.
Qed.

(** The loot menu.  From the session start, after any events, the menu
    flag is up exactly while an item is offered, and while it is up no
    search is latched and the search timer is 0.  A frame that finds
    the menu up skips the player's input and leaves the flag, the
    offer, the latch and the timer as they are; with an item offered,
    [KeyJ] or [KeyK] going down closes the menu and withdraws the
    offer, and no other key event changes either. *)
Theorem loot_menu_is_open_exactly_while_loot_is_offered (evs : list Event)
    (h : HeroType) (tape : nat -> Q) (c : string) :
  let s := run evs (startSession h tape) in
  let w := s.1 in
  (isLootMenuOpen (stateRef w) = true <-> lootModal w <> None)
  /\ (isLootMenuOpen (stateRef w) = true ->
      isReading (stateRef w) = false /\ readingTimer (stateRef w) = 0
      /\ playerInput w = w
      /\ isLootMenuOpen (stateRef (loop w).1) = true
      /\ lootModal (loop w).1 = lootModal w
      /\ ((c = "KeyJ" \/ c = "KeyK")%string ->
          isLootMenuOpen (stateRef (step (KeyDown c) s).1) = false
          /\ lootModal (step (KeyDown c) s).1 = None)
      /\ (c <> "KeyJ" /\ c <> "KeyK"%string ->
          isLootMenuOpen (stateRef (step (KeyDown c) s).1) = true
          /\ lootModal (step (KeyDown c) s).1 = lootModal w))
  /\ lootModal (step (KeyUp c) s).1 = lootModal w.
Proof.
  cbv zeta.
  assert (Hinv : menuInv (menuOf (run evs (startSession h tape)).1)).
  { apply (run_invariant (fun w => menuInv (menuOf w))); [apply step_menu|].
    unfold startSession, menuInv, menuOf. cbn [fst].
    destruct (initWorld_fields h tape) as (_ & _ & -> & _).
    destruct (initWorld_refs h tape) as (_ & _ & _ & _ & -> & _).
    cbn. split; [reflexivity|discriminate]. }
  revert Hinv. generalize (run evs (startSession h tape)). intros s Hinv.
  pose proof Hinv as [H1 H2]. unfold menuOf in H1, H2.
  split; [|split; [|reflexivity]].
  - rewrite H1. split.
    + intros E. apply bool_decide_eq_true in E. exact E.
    + intros E. apply bool_decide_eq_true. exact E.
  - intros Ho. destruct (H2 Ho) as [Hr Ht].
    split; [exact Hr|]. split; [exact Ht|].
    split; [apply playerInput_menu, Ho|].
    destruct (loop_menu s.1 Hinv) as [_ Hl]. specialize (Hl Ho).
    unfold menuOf in Hl.
    apply pair_equal_spec in Hl. destruct Hl as [Hl L4].
    apply pair_equal_spec in Hl. destruct Hl as [Hl _].
    apply pair_equal_spec in Hl. destruct Hl as [L1 _].
    split; [congruence|]. split; [exact L4|].
    assert (Hm : lootModal s.1 <> None).
    { rewrite H1 in Ho. apply bool_decide_eq_true in Ho. exact Ho. }
    destruct (keyDown_menu c s.1) as [Hclose Hkeep].
    cbv zeta in Hclose, Hkeep. cbn [step fst]. split.
    + intros Hc. destruct Hclose as (C1 & C2 & _); [split; assumption|].
      split; assumption.
    + intros Hc. specialize (Hkeep (or_intror Hc)). unfold menuOf in Hkeep.
      apply pair_equal_spec in Hkeep. destruct Hkeep as [Hk K4].
      apply pair_equal_spec in Hk. destruct Hk as [Hk _].
      apply pair_equal_spec in Hk. destruct Hk as [K1 _].
      split; [congruence|exact K4].
Qed.

(** ** The search dwell and the loot menu (lines 826, 869-881, 913-935) *)

(** The reading logic of a frame, whatever the menu flag: it reads the
    latch, the target and the timer as the frame's input leaves
    them. *)
Lemma readingLogic_atReading w :
  let target := interactionTarget (stateRef (playerInput w)) in
  let reading := isReading (stateRef (playerInput w)) in
  let t := readingTimer (stateRef (playerInput w)) in
  let counting := reading && bool_decide (is_Some target) in
  let wd := readingLogic (atReading w) in
  (counting = false ->
   readingTimer (stateRef wd) = t /\ isReading (stateRef wd) = reading
   /\ entitiesRef wd = entitiesRef w /\ lootModal wd = lootModal w)
  /\ (counting = true -> t + 1 < 90 ->
      readingTimer (stateRef wd) = t + 1 /\ isReading (stateRef wd) = true
      /\ entitiesRef wd = entitiesRef w /\ lootModal wd = lootModal w)
  /\ (counting = true -> 90 <= t + 1 ->
      exists i,
        target = Some i
        /\ entitiesRef wd = alter (set_e_isOpened (Some true)) i (entitiesRef w)
        /\ lootModal wd = Some (generateLoot (atReading w)).1
        /\ readingTimer (stateRef wd) = 0
        /\ isReading (stateRef wd) = false
        /\ isLootMenuOpen (stateRef wd) = true).
Proof.
  cbv zeta.
  destruct (atReading_fields w) as (A1 & A2 & A3).
  destruct (playerInput_menu w) as (_ & I2 & _). rewrite I2 in A3.
  split; [|split].
  - intros H. rewrite readingLogic_idle by (rewrite A2; exact H).
    rewrite A1, A2, A3. repeat split.
  - intros H Hlt. apply andb_true_iff in H as [Hr Hc].
    apply bool_decide_eq_true_1 in Hc. destruct Hc as [i Hc].
    rewrite (readingLogic_counts _ i) by (rewrite A2; congruence).
    cbn [stateRef withStateRef set_stateRef readingTimer set_readingTimer
           isReading].
    rewrite A2. split; [reflexivity|]. split; [exact Hr|].
    split; [exact A1|exact A3].
  - intros H Hge. apply andb_true_iff in H as [Hr Hc].
    apply bool_decide_eq_true_1 in Hc. destruct Hc as [i Hc].
    exists i.
    rewrite (readingLogic_opens (atReading w) i)
      by (rewrite A2; congruence).
    match goal with
    | |- context [openChest i ?w1] =>
        destruct (openChest_fields i w1) as (_ & O2 & O3 & O4 & _)
    end.
    rewrite O2, O3, O4, entitiesRef_withStateRef, A1,
      generateLoot_item_withStateRef.
    split; [exact Hc|]. repeat split.
Qed.

(** A frame that finds the loot menu open, with no search latched:
    the input is skipped, the reading logic does nothing, and the
    frame leaves the menu flag, the latch, the timer and the offer as
    they are. *)
Lemma menu_open_idle w :
  menuInv (menuOf w) ->
  isLootMenuOpen (stateRef w) = true ->
  playerInput (prelude w) = prelude w
  /\ readingLogic (atReading (prelude w)) = atReading (prelude w)
  /\ menuOf (loop w).1 = menuOf w.
Proof.
  intros Hinv Ho.
  pose proof (menuOf_prelude w) as P. unfold unchanged in P.
  assert (Ho' : isLootMenuOpen (stateRef (prelude w)) = true).
  { unfold menuOf in P. congruence. }
  destruct (playerInput_menu (prelude w)) as (_ & _ & I3).
  split; [exact (I3 Ho')|]. split; [|apply loop_menu; assumption].
  pose proof (menuOf_atReading (prelude w)) as C. rewrite (I3 Ho'), P in C.
  apply readingLogic_idle.
  destruct Hinv as [_ H2]. destruct (H2 Ho) as [Hr _].
  unfold menuOf in C.
  assert (Hr' : isReading (stateRef (atReading (prelude w))) = false)
    by congruence.
  rewrite Hr'. reflexivity.
Qed.

(** In a session that holds with the menu open, also when a key other
    than the two of the menu went down just before the frame. *)
Lemma menu_open_frame (evs : list Event) (h : HeroType) (tape : nat -> Q)
    (c : string) :
  let s := run evs (startSession h tape) in
  let idle := fun s' : Session =>
    playerInput (prelude s'.1) = prelude s'.1
    /\ readingLogic (atReading (prelude s'.1)) = atReading (prelude s'.1)
    /\ menuOf (step Frame s').1 = menuOf s.1 in
  isLootMenuOpen (stateRef s.1) = true ->
  isReading (stateRef s.1) = false /\ readingTimer (stateRef s.1) = 0
  /\ idle s
  /\ (c <> "KeyJ"%string -> c <> "KeyK"%string -> idle (step (KeyDown c) s)).
Proof.
  cbv zeta.
  assert (Hinv : menuInv (menuOf (run evs (startSession h tape)).1)).
  { apply (run_invariant (fun w => menuInv (menuOf w))); [apply step_menu|].
    unfold startSession, menuInv, menuOf. cbn [fst].
    destruct (initWorld_fields h tape) as (_ & _ & -> & _).
    destruct (initWorld_refs h tape) as (_ & _ & _ & _ & -> & _).
    cbn. split; [reflexivity|discriminate]. }
  revert Hinv. generalize (run evs (startSession h tape)). intros s Hinv Ho.
  assert (Hframe : forall s' : Session,
            menuInv (menuOf s'.1) -> isLootMenuOpen (stateRef s'.1) = true ->
            playerInput (prelude s'.1) = prelude s'.1
            /\ readingLogic (atReading (prelude s'.1)) = atReading (prelude s'.1)
            /\ menuOf (step Frame s').1 = menuOf s'.1).
  { intros s' Hi' Ho'. destruct (menu_open_idle s'.1 Hi' Ho') as (A & B & C).
    split; [exact A|]. split; [exact B|].
    cbn [step]. destruct s'.2; [exact C|reflexivity]. }
  pose proof Hinv as [_ H2]. unfold menuOf in H2.
  destruct (H2 Ho) as [Hr Ht].
  split; [exact Hr|]. split; [exact Ht|].
  split; [apply Hframe; assumption|].
  intros HJ HK.
  assert (Hk : menuOf (step (KeyDown c) s).1 = menuOf s.1).
  { cbn [step fst]. apply keyDown_menu. right. split; assumption. }
  rewrite <- Hk. apply Hframe.
  - apply step_menu, Hinv.
  - unfold menuOf in Hk. apply pair_equal_spec in Hk. destruct Hk as [Hk _].
    apply pair_equal_spec in Hk. destruct Hk as [Hk _].
    apply pair_equal_spec in Hk. destruct Hk as [Hk _]. congruence.
Qed.

(** C6 (as amended).  A frame that finds the loot menu closed reads the
    input: it sets the interaction target to the first unopened live
    chest within 100 of the player; a search in progress is cancelled,
    with the timer back at 0, when there is a movement input; and a
    search starts when the search key is down with a target and no
    search is in progress.  Once started the search stays in progress
    without the key.  A frame that finds the menu open reads no input:
    target, latch and timer stay as they were, whatever key is down,
    so no search starts and none is cancelled.  The reading logic then
    adds 1 to the timer when a search is in progress and a target is
    set, and only then.  While the new value is below 90, no entity
    and no modal changes; a cancelled search therefore ends the frame
    with the timer at 0 or 1 and every chest as it was.  When the new
    value reaches 90, the target, an unopened chest when the frame
    read the input, and no other entity, is marked opened, one item is
    generated into the modal, the timer returns to 0, the search ends
    and the loot menu opens.  The rest of the frame keeps the timer,
    the modal and every opened flag, and an opened chest stays opened
    through every later event.  In a session no search is in progress
    while the menu is open and the timer is 0; a frame then skips the
    input, its reading logic does nothing, and it leaves the menu
    open, the latch clear and the timer at 0, also when a key other
    than the two of the menu, the search key for one, went down
    before it. *)
Theorem search_dwell_latched_by_search_key (w : World) (evs : list Event)
    (h : HeroType) (tape : nat -> Q) (c : string) :
  let chest := findChest w in
  let cancel := isReading (stateRef w) && movementInput w in
  let latch := key w "KeyH" && bool_decide (is_Some chest) in
  let target := interactionTarget (stateRef (playerInput w)) in
  let reading := isReading (stateRef (playerInput w)) in
  let t := readingTimer (stateRef (playerInput w)) in
  let counting := reading && bool_decide (is_Some target) in
  let wd := readingLogic (atReading w) in
  let session := run evs (startSession h tape) in
  (isLootMenuOpen (stateRef w) = false ->
   target = chest
   /\ t = (if cancel then 0 else readingTimer (stateRef w))
   /\ reading = (if cancel then latch else isReading (stateRef w) || latch)
   /\ (cancel = true ->
       0 <= readingTimer (stateRef wd) <= 1
       /\ entitiesRef wd = entitiesRef w /\ lootModal wd = lootModal w)
   /\ (forall i, target = Some i ->
       exists e, entitiesRef w !! i = Some e
                 /\ e_type e = CHEST /\ e_isOpened e <> Some true))
  /\ (isLootMenuOpen (stateRef w) = true ->
      playerInput w = w
      /\ target = interactionTarget (stateRef w)
      /\ t = readingTimer (stateRef w)
      /\ reading = isReading (stateRef w))
  /\ (counting = false ->
      readingTimer (stateRef wd) = t /\ isReading (stateRef wd) = reading
      /\ entitiesRef wd = entitiesRef w /\ lootModal wd = lootModal w)
  /\ (counting = true -> t + 1 < 90 ->
      readingTimer (stateRef wd) = t + 1
      /\ isReading (stateRef wd) = true
      /\ entitiesRef wd = entitiesRef w /\ lootModal wd = lootModal w)
  /\ (counting = true -> 90 <= t + 1 ->
      exists i,
        target = Some i
        /\ entitiesRef wd
           = alter (set_e_isOpened (Some true)) i (entitiesRef w)
        /\ lootModal wd = Some (generateLoot (atReading w)).1
        /\ readingTimer (stateRef wd) = 0
        /\ isReading (stateRef wd) = false
        /\ isLootMenuOpen (stateRef wd) = true)
  /\ readingKept wd (afterReading wd)
  /\ entitiesEvolve wd (afterReading wd)
  /\ (forall ev s i e,
        entitiesRef s.1 !! i = Some e ->
        e_isOpened e = Some true ->
        exists e',
          entitiesRef (step ev s).1 !! i = Some e'
          /\ e_type e' = e_type e /\ e_isOpened e' = Some true)
  /\ (let idle := fun s0 : Session =>
        let w0 := prelude s0.1 in
        let s' := step Frame s0 in
        playerInput w0 = w0
        /\ readingLogic (atReading w0) = atReading w0
        /\ isLootMenuOpen (stateRef s'.1) = true
        /\ isReading (stateRef s'.1) = false
        /\ readingTimer (stateRef s'.1) = 0
        /\ lootModal s'.1 = lootModal session.1 in
      isLootMenuOpen (stateRef session.1) = true ->
      isReading (stateRef session.1) = false
      /\ readingTimer (stateRef session.1) = 0
      /\ idle session
      /\ (c <> "KeyJ"%string -> c <> "KeyK"%string ->
          key (step (KeyDown c) session).1 c = true
          /\ idle (step (KeyDown c) session))).
Proof.
  cbv zeta.
  destruct (readingLogic_atReading w) as (G1 & G2 & G3). cbv zeta in G1, G2, G3.
  split.
  { intros Hm.
    destruct (search_dwell_menu_closed w Hm)
      as (I1 & I2 & I3 & _ & _ & I6 & _).
    split; [exact I1|]. split; [exact I2|]. split; [exact I3|].
    split; [exact I6|].
    intros i Hi. rewrite I1 in Hi.
    destruct (findChest_Some w i Hi) as (e & He & Ht & _ & Ho & _).
    exists e. auto. }
  split.
  { intros Hm. destruct (playerInput_menu w) as (_ & _ & I3).
    rewrite (I3 Hm). repeat split. }
  split; [exact G1|]. split; [exact G2|]. split; [exact G3|].
  split; [apply readingKept_afterReading|].
  split; [apply entitiesEvolve_afterReading|].
  split; [apply opened_chest_stays_opened|].
  intros Ho.
  destruct (menu_open_frame evs h tape c Ho)
    as (Hr & Ht & (F1 & F2 & Hf) & Hk).
  assert (Hfields : forall w1 w0 : World,
            menuOf w1 = menuOf w0 ->
            isLootMenuOpen (stateRef w0) = true ->
            isReading (stateRef w0) = false ->
            readingTimer (stateRef w0) = 0 ->
            isLootMenuOpen (stateRef w1) = true
            /\ isReading (stateRef w1) = false
            /\ readingTimer (stateRef w1) = 0
            /\ lootModal w1 = lootModal w0).
  { intros w1 w0 E E1 E2 E3. unfold menuOf in E.
    apply pair_equal_spec in E. destruct E as [E K4].
    apply pair_equal_spec in E. destruct E as [E K3].
    apply pair_equal_spec in E. destruct E as [K1 K2].
    repeat split; congruence. }
  split; [exact Hr|]. split; [exact Ht|].
  split.
  { split; [exact F1|]. split; [exact F2|]. apply Hfields; assumption. }
  intros HJ HK. destruct (Hk HJ HK) as (K1 & K2 & Hk3).
  split; [cbn [step fst]; unfold handleKeyDown; apply key_insert_eq|].
  split; [exact K1|]. split; [exact K2|]. apply Hfields; assumption.
Qed.

(** The world of [searchWorld] one frame later, the chest opened and
    the loot menu up, with the search key down. *)
Definition menuWorld : World :=
  handleKeyDown "KeyH" (loop searchWorld).1.

Lemma search_dwell_opens_start_chest :
  isLootMenuOpen (stateRef searchWorld) = false
  /\ key searchWorld "KeyH" = false
  /\ findChest searchWorld = Some 18%nat
  /\ readingTimer (stateRef (readingLogic (atReading searchWorld))) = 0
  /\ isLootMenuOpen (stateRef (readingLogic (atReading searchWorld))) = true
  /\ (e_isOpened <$> entitiesRef (readingLogic (atReading searchWorld))
        !! 18%nat) = Some (Some true)
  /\ (e_isOpened <$> entitiesRef searchWorld !! 18%nat) = Some (Some false)
  /\ isLootMenuOpen (stateRef menuWorld) = true
  /\ key menuWorld "KeyH" = true
  /\ interactionTarget (stateRef menuWorld) = Some 18%nat
  /\ isReading (stateRef menuWorld) = false
  /\ playerInput menuWorld = menuWorld
  /\ isReading (stateRef (loop menuWorld).1) = false
  /\ readingTimer (stateRef (loop menuWorld).1) = 0.
Proof.
  assert (H0 : isLootMenuOpen (stateRef searchWorld) = false)
    by reflexivity.
  assert (Hf : findChest searchWorld = Some 18%nat)
    by (vm_compute; reflexivity).
  assert (H1 : isLootMenuOpen (stateRef menuWorld) = true)
    by (vm_compute; reflexivity).
  destruct (search_dwell_latched_by_search_key searchWorld []
              SWORDSMAN halfTape "KeyH")
    as (Hclosed & _ & _ & _ & Hopen & _).
  destruct (Hclosed H0) as (Htarget & _).
  destruct Hopen as (i & Hc & He & _ & Ht & _ & Hm).
  { vm_compute. reflexivity. }
  { vm_compute. discriminate. }
  assert (i = 18%nat) by congruence. subst i.
  destruct (search_dwell_latched_by_search_key menuWorld []
              SWORDSMAN halfTape "KeyH")
    as (_ & Hmenu & _).
  destruct (Hmenu H1) as (Hskip & _).
  split; [exact H0|]. split; [vm_compute; reflexivity|].
  split; [exact Hf|]. split; [exact Ht|]. split; [exact Hm|].
  split; [rewrite He; vm_compute; reflexivity|].
  split; [vm_compute; reflexivity|].
  split; [exact H1|]. split; [vm_compute; reflexivity|].
  split; [vm_compute; reflexivity|]. split; [vm_compute; reflexivity|].
  split; [exact Hskip|].
  split; vm_compute; reflexivity.
Defined.

(** ** The basic attack and the skill (lines 941-1009)

    The three damage callbacks change the entity they are called on
    and nothing the later calls read, so a [forEach] over the array
    acts as a map. *)

Lemma sum_snoc (l : list Z) (x : Z) :
  foldr Z.add 0 (l ++ [x]) = foldr Z.add 0 l + x.
Proof. induction l as [|y l IH]; simpl; lia. Qed.

Lemma forEachEntity_pointwise (I : World -> Prop) (f : Entity -> Entity)
    (g : Entity -> Z) (body : nat -> World -> World) :
  (forall i w e,
     I w -> entitiesRef w !! i = Some e ->
     I (body i w)
     /\ entitiesRef (body i w) = <[i := f e]> (entitiesRef w)
     /\ killsRef (body i w) = killsRef w + g e) ->
  forall w,
    I w ->
    I (forEachEntity body w)
    /\ entitiesRef (forEachEntity body w) = f <$> entitiesRef w
    /\ killsRef (forEachEntity body w)
       = killsRef w + foldr Z.add 0 (g <$> entitiesRef w).
Proof.
  intros Hbody w Hw. unfold forEachEntity.
  set (l := entitiesRef w).
  assert (H : forall k, (k <= length l)%nat ->
            let wk := fold_left (fun w i => body i w) (seq 0 k) w in
            I wk
            /\ entitiesRef wk = (f <$> take k l) ++ drop k l
            /\ killsRef wk = killsRef w + foldr Z.add 0 (g <$> take k l)).
  { induction k as [|k IH]; intros Hk; cbv zeta.
    - cbn [seq fold_left]. rewrite take_0, drop_0, !fmap_nil. cbn [app foldr].
      split; [exact Hw|]. split; [reflexivity|lia].
    - rewrite seq_S, fold_left_app. cbn [fold_left Nat.add].
      destruct IH as (I1 & I2 & I3); [lia|].
      destruct (lookup_lt_is_Some_2 l k) as [x Hx]; [lia|].
      assert (Hlen : length (f <$> take k l) = k).
      { rewrite length_fmap, length_take. lia. }
      assert (Hlook : entitiesRef
                        (fold_left (fun w i => body i w) (seq 0 k) w) !! k
                      = Some x).
      { rewrite I2, lookup_app_r by lia.
        rewrite Hlen, Nat.sub_diag, (drop_S l x k Hx). reflexivity. }
      destruct (Hbody k _ x I1 Hlook) as (B1 & B2 & B3).
      split; [exact B1|]. split.
      + rewrite B2, I2, insert_app_r_alt by lia.
        rewrite Hlen, Nat.sub_diag, (drop_S l x k Hx), (take_S_r l k x Hx).
        rewrite fmap_app, <- app_assoc. reflexivity.
      + rewrite B3, I3, (take_S_r l k x Hx), fmap_app.
        change (g <$> [x]) with [g x]. rewrite sum_snoc. lia. }
  destruct (H (length l)) as (H1 & H2 & H3); [lia|].
  rewrite take_ge, drop_ge, app_nil_r in H2 by lia.
  rewrite take_ge in H3 by lia. auto.
Qed.

Lemma sum_indicator (P : Entity -> bool) (l : list Entity) :
  foldr Z.add 0 ((fun e => if P e then 1 else 0) <$> l)
  = Z.of_nat (length (List.filter P l)).
Proof.
  induction l as [|e l IH]; [reflexivity|].
  rewrite fmap_cons. cbn [foldr List.filter]. rewrite IH.
  destruct (P e); cbn [length]; lia.
Qed.

Lemma countKill_kills i w e :
  entitiesRef w !! i = Some e ->
  killsRef (countKill i w)
  = killsRef w
    + (if Qleb (e_hp e) 0 && bool_decide (e_type e = ROGUE_AGENT)
       then 1 else 0)
  /\ entitiesRef (countKill i w) = entitiesRef w
  /\ playerRef (countKill i w) = playerRef w.
Proof.
  intros Hi. unfold countKill. rewrite Hi.
  destruct (Qleb (e_hp e) 0 && bool_decide (e_type e = ROGUE_AGENT));
    repeat split; cbn [killsRef set_killsRef]; lia.
Qed.

Lemma attackHit_pointwise hitBox kDir i w e :
  let struck :=
    isHostile e && negb (e_isDead e)
    && rectIntersect hitBox (rectOfEntity e) in
  let e' :=
    set_e_vy (-6)
      (set_e_vx (inject_Z kDir * 15)
         (set_e_hitFlashTimer 5 (set_e_hp (e_hp e - 20) e))) in
  entitiesRef w !! i = Some e ->
  entitiesRef (attackHit hitBox kDir i w)
  = <[i := if struck then e' else e]> (entitiesRef w)
  /\ killsRef (attackHit hitBox kDir i w)
     = killsRef w
       + (if struck && Qleb (e_hp e - 20) 0
             && bool_decide (e_type e = ROGUE_AGENT)
          then 1 else 0).
Proof.
  cbv zeta. intros Hi. unfold attackHit. rewrite Hi.
  destruct (isHostile e && negb (e_isDead e)
            && rectIntersect hitBox (rectOfEntity e)); cbn [andb].
  2:{ split; [|lia]. symmetry. apply list_insert_id, Hi. }
  match goal with
  | |- context [countKill i ?w1] =>
      assert (Hl : entitiesRef w1
                   = <[i := set_e_vy (-6)
                              (set_e_vx (inject_Z kDir * 15)
                                 (set_e_hitFlashTimer 5
                                    (set_e_hp (e_hp e - 20) e)))]>
                       (entitiesRef w));
      [|destruct (countKill_kills i w1
                    (set_e_vy (-6)
                       (set_e_vx (inject_Z kDir * 15)
                          (set_e_hitFlashTimer 5
                             (set_e_hp (e_hp e - 20) e)))))
          as (K1 & K2 & _)]
  end.
  - rewrite entitiesRef_pushText. cbn [entitiesRef withEntity set_entitiesRef].
    apply list_eq. intros j. destruct (decide (i = j)) as [->|Hne].
    + rewrite list_lookup_alter_eq, Hi.
      rewrite list_lookup_insert_eq by (eapply lookup_lt_Some; exact Hi).
      reflexivity.
    + rewrite list_lookup_alter_ne, list_lookup_insert_ne by assumption.
      reflexivity.
  - rewrite Hl. apply list_lookup_insert_eq.
    eapply lookup_lt_Some; exact Hi.
  - rewrite K1, K2, Hl. split; [reflexivity|]. reflexivity.
Qed.

(** The basic attack.  It fires when [KeyJ] is down and the attack
    cooldown is 0 or less (the caller checks that the menu is closed),
    and otherwise changes nothing.  When it fires the cooldown becomes
    20 and the hit box is the rectangle 120 wide in front of the
    player, from 10 above the player's top to 10 below the bottom.
    Every entity that is a slime, a bat or a rogue, not dead, and
    whose rectangle meets the hit box loses exactly 20 health, gets
    flash timer 5, horizontal velocity 15 times the player's facing
    and vertical velocity -6; every other entity, chests and dead
    entities among them, is left as it is, in its place in the list.
    The kill counter grows by the number of rogues struck whose
    health after the hit is 0 or less. *)
Theorem basic_attack_hits_the_live_hostiles_in_reach (w : World) :
  let p := playerRef w in
  let hitBox :=
    mkRect (if e_facing p =? 1 then e_x p + e_width p else e_x p - 120)
           (e_y p - 10) 120 (e_height p + 20) in
  let struck e :=
    isHostile e && negb (e_isDead e)
    && rectIntersect hitBox (rectOfEntity e) in
  let hit e :=
    set_e_vy (-6)
      (set_e_vx (inject_Z (e_facing p) * 15)
         (set_e_hitFlashTimer 5 (set_e_hp (e_hp e - 20) e))) in
  (key w "KeyJ" = false \/ 0 < e_attackCooldown p -> basicAttack w = w)
  /\ (key w "KeyJ" = true /\ e_attackCooldown p <= 0 ->
      entitiesRef (basicAttack w)
      = (fun e => if struck e then hit e else e) <$> entitiesRef w
      /\ playerRef (basicAttack w) = set_e_attackCooldown 20 p
      /\ killsRef (basicAttack w)
         = killsRef w
           + Z.of_nat
               (length
                  (List.filter
                     (fun e => struck e && Qleb (e_hp e - 20) 0
                               && bool_decide (e_type e = ROGUE_AGENT))
                     (entitiesRef w)))
      /\ (forall e, In e (entitiesRef w) ->
          e_type e = CHEST \/ e_isDead e = true -> struck e = false)).
Proof.
  cbv zeta. split.
  - intros H. unfold basicAttack.
    destruct (key w "KeyJ"); cbn [andb]; [|reflexivity].
    destruct H as [H|H]; [discriminate|].
    destruct (e_attackCooldown (playerRef w) <=? 0) eqn:E; [|reflexivity].
    apply Z.leb_le in E. lia.
  - intros [Hk Hc]. unfold basicAttack. rewrite Hk.
    apply Z.leb_le in Hc. rewrite Hc. cbn [andb]. cbv zeta.
    match goal with
    | |- context [forEachEntity (attackHit ?hb ?k) ?w1] =>
        destruct (forEachEntity_pointwise (fun _ => True)
                    (fun e =>
                       if isHostile e && negb (e_isDead e)
                          && rectIntersect hb (rectOfEntity e)
                       then set_e_vy (-6)
                              (set_e_vx (inject_Z k * 15)
                                 (set_e_hitFlashTimer 5
                                    (set_e_hp (e_hp e - 20) e)))
                       else e)
                    (fun e =>
                       if isHostile e && negb (e_isDead e)
                          && rectIntersect hb (rectOfEntity e)
                          && Qleb (e_hp e - 20) 0
                          && bool_decide (e_type e = ROGUE_AGENT)
                       then 1 else 0)
                    (attackHit hb k)) with (w := w1) as (_ & F2 & F3)
    end.
    + intros i w0 e _ Hi. split; [exact I|].
      exact (attackHit_pointwise _ _ i w0 e Hi).
    + exact I.
    + rewrite F2, F3, sum_indicator.
      rewrite playerRef_forEachEntity by apply playerRef_attackHit.
      split; [reflexivity|]. split; [reflexivity|]. split; [reflexivity|].
      intros e _ [Ht|Hd].
      * unfold isHostile. rewrite Ht. reflexivity.
      * rewrite Hd. cbn [negb]. rewrite andb_false_r. reflexivity.
Qed.

Lemma withEntity_insert i f w e :
  entitiesRef w !! i = Some e ->
  entitiesRef (withEntity i f w) = <[i := f e]> (entitiesRef w).
Proof.
  intros Hi. cbn [entitiesRef withEntity set_entitiesRef].
  apply list_eq. intros j. destruct (decide (i = j)) as [->|Hne].
  - rewrite list_lookup_alter_eq, Hi.
    rewrite list_lookup_insert_eq by (eapply lookup_lt_Some; exact Hi).
    reflexivity.
  - rewrite list_lookup_alter_ne, list_lookup_insert_ne by assumption.
    reflexivity.
Qed.

Lemma whirlwindHit_pointwise i w e :
  let p := playerRef w in
  let struck := isHostile e && negb (e_isDead e) && distanceBelow p e 150 in
  let e' :=
    set_e_vy (-10)
      (set_e_vx ((if Qltb 0 (e_x e - e_x p) then 1 else -1) * 20)
         (set_e_hitFlashTimer 10 (set_e_hp (e_hp e - 40) e))) in
  entitiesRef w !! i = Some e ->
  playerRef (whirlwindHit i w) = p
  /\ entitiesRef (whirlwindHit i w)
     = <[i := if struck then e' else e]> (entitiesRef w)
  /\ killsRef (whirlwindHit i w)
     = killsRef w
       + (if struck && Qleb (e_hp e - 40) 0
             && bool_decide (e_type e = ROGUE_AGENT)
          then 1 else 0).
Proof.
  cbv zeta. intros Hi. split; [apply playerRef_whirlwindHit|].
  unfold whirlwindHit. rewrite Hi.
  destruct (isHostile e && negb (e_isDead e)
            && distanceBelow (playerRef w) e 150); cbn [andb].
  2:{ split; [|lia]. symmetry. apply list_insert_id, Hi. }
  match goal with
  | |- context [countKill i (pushText ?a ?b ?c ?d ?n ?v (withEntity i ?f w))] =>
      pose proof (withEntity_insert i f w e Hi) as Hl;
      destruct (countKill_kills i
                  (pushText a b c d n v (withEntity i f w)) (f e))
        as (K1 & K2 & _)
  end.
  - rewrite entitiesRef_pushText, Hl. apply list_lookup_insert_eq.
    eapply lookup_lt_Some; exact Hi.
  - rewrite K1, K2, entitiesRef_pushText, Hl. split; reflexivity.
Qed.

Lemma meteorHit_pointwise targetX i w e :
  let p := playerRef w in
  let distSq :=
    ((e_x e - targetX) * (e_x e - targetX)
     + (e_y e - e_y p) * (e_y e - e_y p))%Q in
  let struck :=
    isHostile e && negb (e_isDead e) && Qltb distSq (120 * 120) in
  let e' :=
    set_e_vy (-12) (set_e_hitFlashTimer 10 (set_e_hp (e_hp e - 60) e)) in
  entitiesRef w !! i = Some e ->
  playerRef (meteorHit targetX i w) = p
  /\ entitiesRef (meteorHit targetX i w)
     = <[i := if struck then e' else e]> (entitiesRef w)
  /\ killsRef (meteorHit targetX i w)
     = killsRef w
       + (if struck && Qleb (e_hp e - 60) 0
             && bool_decide (e_type e = ROGUE_AGENT)
          then 1 else 0).
Proof.
  cbv zeta. intros Hi. split; [apply playerRef_meteorHit|].
  unfold meteorHit. rewrite Hi. cbv zeta.
  match goal with
  | |- context [if ?b then _ else _] => destruct b
  end; cbn [andb].
  2:{ split; [|lia]. symmetry. apply list_insert_id, Hi. }
  match goal with
  | |- context [countKill i (pushText ?a ?b ?c ?d ?n ?v (withEntity i ?f w))] =>
      pose proof (withEntity_insert i f w e Hi) as Hl;
      destruct (countKill_kills i
                  (pushText a b c d n v (withEntity i f w)) (f e))
        as (K1 & K2 & _)
  end.
  - rewrite entitiesRef_pushText, Hl. apply list_lookup_insert_eq.
    eapply lookup_lt_Some; exact Hi.
  - rewrite K1, K2, entitiesRef_pushText, Hl. split; reflexivity.
Qed.

(** The skill.  It fires when [KeyK] is down and the skill cooldown is
    0 or less (the caller checks that the menu is closed), and
    otherwise changes nothing.  When it fires the cooldown becomes
    180.  The swordsman's whirlwind strikes every slime, bat or rogue
    that is not dead and whose centre is less than 150 from the
    player's: it loses exactly 40 health, gets flash timer 10,
    horizontal velocity 20 away from the player and vertical velocity
    -10.  The mage's meteor strikes those whose top left corner is
    less than 120 from the point 250 in front of the player's: it
    loses exactly 60 health, gets flash timer 10 and vertical
    velocity -12, and keeps its horizontal velocity.  Every other
    entity is left as it is, in its place; the kill counter grows by
    the number of rogues struck whose health after the hit is 0 or
    less. *)
Theorem skill_hits_the_live_hostiles_in_its_radius (w : World) :
  let p := playerRef w in
  let targetX := (e_x p + inject_Z (e_facing p) * 250)%Q in
  let struck e :=
    isHostile e && negb (e_isDead e)
    && match heroType w with
       | SWORDSMAN => distanceBelow p e 150
       | MAGE =>
           Qltb ((e_x e - targetX) * (e_x e - targetX)
                 + (e_y e - e_y p) * (e_y e - e_y p)) (120 * 120)
       end in
  let dmg := match heroType w with SWORDSMAN => 40%Q | MAGE => 60%Q end in
  let hit e :=
    match heroType w with
    | SWORDSMAN =>
        set_e_vy (-10)
          (set_e_vx ((if Qltb 0 (e_x e - e_x p) then 1 else -1) * 20)
             (set_e_hitFlashTimer 10 (set_e_hp (e_hp e - 40) e)))
    | MAGE =>
        set_e_vy (-12) (set_e_hitFlashTimer 10 (set_e_hp (e_hp e - 60) e))
    end in
  (key w "KeyK" = false \/ 0 < default 0 (e_skillCooldown p) -> skill w = w)
  /\ (key w "KeyK" = true /\ default 0 (e_skillCooldown p) <= 0 ->
      entitiesRef (skill w)
      = (fun e => if struck e then hit e else e) <$> entitiesRef w
      /\ playerRef (skill w) = set_e_skillCooldown (Some 180) p
      /\ killsRef (skill w)
         = killsRef w
           + Z.of_nat
               (length
                  (List.filter
                     (fun e => struck e && Qleb (e_hp e - dmg) 0
                               && bool_decide (e_type e = ROGUE_AGENT))
                     (entitiesRef w)))).
Proof.
  cbv zeta. split.
  - intros H. unfold skill.
    destruct (key w "KeyK"); cbn [andb]; [|reflexivity].
    destruct H as [H|H]; [discriminate|].
    destruct (default 0 (e_skillCooldown (playerRef w)) <=? 0) eqn:E;
      [|reflexivity].
    apply Z.leb_le in E. lia.
  - intros [Hk Hc]. unfold skill. rewrite Hk.
    apply Z.leb_le in Hc. rewrite Hc. cbn [andb]. cbv zeta.
    set (p1 := set_e_skillCooldown (Some 180) (playerRef w)).
    change (heroType (pushText _ _ _ _ _ _ _)) with (heroType w).
    destruct (heroType w).
    + match goal with
      | |- context [forEachEntity whirlwindHit ?w1] =>
          destruct (forEachEntity_pointwise (fun w' => playerRef w' = p1)
                      (fun e =>
                         if isHostile e && negb (e_isDead e)
                            && distanceBelow p1 e 150
                         then set_e_vy (-10)
                                (set_e_vx
                                   ((if Qltb 0 (e_x e - e_x p1)
                                     then 1 else -1) * 20)
                                   (set_e_hitFlashTimer 10
                                      (set_e_hp (e_hp e - 40) e)))
                         else e)
                      (fun e =>
                         if isHostile e && negb (e_isDead e)
                            && distanceBelow p1 e 150
                            && Qleb (e_hp e - 40) 0
                            && bool_decide (e_type e = ROGUE_AGENT)
                         then 1 else 0)
                      whirlwindHit) with (w := w1) as (F1 & F2 & F3)
      end.
      * intros i w0 e Hp Hi.
        destruct (whirlwindHit_pointwise i w0 e Hi) as (W1 & W2 & W3).
        cbv zeta in W2, W3. rewrite Hp in W1, W2, W3. auto.
      * reflexivity.
      * rewrite F1, F2, F3, sum_indicator. repeat split.
    + match goal with
      | |- context [forEachEntity (meteorHit ?t) _] => set (tx := t)
      end.
      match goal with
      | |- context [forEachEntity (meteorHit tx) ?w1] =>
          destruct (forEachEntity_pointwise (fun w' => playerRef w' = p1)
                      (fun e =>
                         if isHostile e && negb (e_isDead e)
                            && Qltb ((e_x e - tx) * (e_x e - tx)
                                     + (e_y e - e_y p1) * (e_y e - e_y p1))
                                    (120 * 120)
                         then set_e_vy (-12)
                                (set_e_hitFlashTimer 10
                                   (set_e_hp (e_hp e - 60) e))
                         else e)
                      (fun e =>
                         if isHostile e && negb (e_isDead e)
                            && Qltb ((e_x e - tx) * (e_x e - tx)
                                     + (e_y e - e_y p1) * (e_y e - e_y p1))
                                    (120 * 120)
                            && Qleb (e_hp e - 60) 0
                            && bool_decide (e_type e = ROGUE_AGENT)
                         then 1 else 0)
                      (meteorHit tx)) with (w := w1) as (F1 & F2 & F3)
      end.
      * intros i w0 e Hp Hi.
        destruct (meteorHit_pointwise tx i w0 e Hi) as (W1 & W2 & W3).
        cbv zeta in W2, W3. rewrite Hp in W1, W2, W3. auto.
      * reflexivity.
      * rewrite F1, F2, F3, sum_indicator. repeat split.
Qed.

(** ** The chests of the session start (lines 741-770) *)

(** A chest as the spawner puts it on the platform [p]. *)
Definition chestOn (p : Platform) (e : Entity) : Prop :=
  e_type e = CHEST /\ e_isOpened e = Some false /\ e_isDead e = false
  /\ (e_width e == 32)%Q /\ (e_height e == 32)%Q
  /\ (e_y e + e_height e == plat_y p)%Q
  /\ (e_x e + e_width e / 2 == plat_x p + plat_width p / 2)%Q.

Lemma newChest_chestOn id p : chestOn p (newChest id p).
Proof.
  unfold chestOn, newChest.
  cbn [e_type e_isOpened e_isDead e_width e_height e_x e_y].
  split; [reflexivity|]. split; [reflexivity|]. split; [reflexivity|].
  split; [reflexivity|]. split; [reflexivity|]. split; [ring|field].
Qed.

Lemma spawnChests_placed (plats : list Platform) : forall w,
  let w' := fold_left spawnChest plats w in
  exists chests,
    entitiesRef w' = entitiesRef w ++ chests
    /\ Forall (fun e => exists p,
                 In p plats /\ plat_type p <> LAVA /\ plat_type p <> WOOD
                 /\ chestOn p e) chests
    /\ (length chests
        <= length (List.filter isExtractionPlatform plats))%nat
    /\ (randomUsed w' <= randomUsed w + 2 * length plats)%nat.
Proof.
  induction plats as [|p plats IH]; intros w; cbv zeta.
  - exists []. cbn. rewrite app_nil_r.
    split; [reflexivity|]. split; [constructor|]. split; lia.
  - cbn [fold_left]. destruct (IH (spawnChest w p)) as (cs & E & F & L & U).
    assert (Hstep : exists c0,
               entitiesRef (spawnChest w p) = entitiesRef w ++ c0
               /\ Forall (fun e => plat_type p <> LAVA /\ plat_type p <> WOOD
                                   /\ chestOn p e) c0
               /\ (length c0
                   <= (if isExtractionPlatform p then 1 else 0))%nat
               /\ (randomUsed (spawnChest w p) <= randomUsed w + 2)%nat).
    { unfold spawnChest. destruct (isExtractionPlatform p) eqn:Hp.
      2:{ exists []. rewrite app_nil_r.
          split; [reflexivity|]. split; [constructor|]. cbn [length].
          split; lia. }
      cbv zeta. unfold Math_random.
      destruct (Qltb 0.2 _).
      - eexists [_]. cbn [entitiesRef pushEntity set_entitiesRef
                          set_randomUsed randomUsed length].
        split; [reflexivity|]. split; [|split; lia].
        constructor; [|constructor].
        unfold isExtractionPlatform in Hp.
        apply andb_true_iff in Hp. destruct Hp as [H1 H2].
        apply negb_true_iff, bool_decide_eq_false in H1.
        apply negb_true_iff, bool_decide_eq_false in H2.
        split; [exact H1|]. split; [exact H2|apply newChest_chestOn].
      - exists []. cbn [entitiesRef set_randomUsed randomUsed length].
        rewrite app_nil_r.
        split; [reflexivity|]. split; [constructor|]. split; lia. }
    destruct Hstep as (c0 & E0 & F0 & L0 & U0).
    exists (c0 ++ cs). rewrite E, E0, app_assoc.
    split; [reflexivity|]. split; [|split].
    + apply Forall_app. split.
      * eapply Forall_impl; [exact F0|]. intros e (H1 & H2 & H3).
        exists p. split; [left; reflexivity|auto].
      * eapply Forall_impl; [exact F|]. intros e (q & Hq & H).
        exists q. split; [right; exact Hq|exact H].
    + rewrite length_app. cbn [List.filter].
      destruct (isExtractionPlatform p); cbn [length]; lia.
    + cbn [length]. lia.
Qed.

Lemma spawnChest_randomTape w p : randomTape (spawnChest w p) = randomTape w.
Proof.
  unfold spawnChest, Math_random. destruct (isExtractionPlatform p); [|reflexivity].
  cbv zeta. destruct (Qltb 0.2 _); reflexivity.
Qed.

Lemma spawnChests_once (plats : list Platform) : forall w,
  let w' := fold_left spawnChest plats w in
  exists ps ids,
    sublist ps (List.filter isExtractionPlatform plats)
    /\ length ids = length ps
    /\ entitiesRef w' = entitiesRef w ++ zip_with newChest ids ps
    /\ ((forall n, (0.2 < randomTape w n)%Q) ->
        ps = List.filter isExtractionPlatform plats)
    /\ ((forall n, (randomTape w n <= 0.2)%Q) -> ps = []).
Proof.
  induction plats as [|p plats IH]; intros w; cbv zeta.
  - exists [], []. cbn. rewrite app_nil_r. repeat split. constructor.
  - cbn [fold_left List.filter].
    destruct (IH (spawnChest w p)) as (ps & ids & Hs & Hl & E & Hall & Hnone).
    rewrite spawnChest_randomTape in Hall, Hnone.
    rewrite E. clear E IH. unfold spawnChest in *.
    destruct (isExtractionPlatform p) eqn:Hp.
    2:{ exists ps, ids. repeat split; assumption. }
    cbv zeta. unfold Math_random.
    cbn [fst snd randomTape randomUsed set_randomUsed].
    destruct (Qltb 0.2 (randomTape w (randomUsed w))) eqn:Hr.
    + exists (p :: ps), (randomTape w (S (randomUsed w)) :: ids).
      cbn [entitiesRef pushEntity set_entitiesRef set_randomUsed
           randomTape randomUsed zip_with length].
      split; [apply sublist_skip, Hs|]. split; [f_equal; exact Hl|].
      split; [rewrite <- app_assoc; reflexivity|].
      split.
      * intros H. f_equal. apply Hall, H.
      * intros H. exfalso. apply Qltb_true in Hr.
        specialize (H (randomUsed w)). lra.
    + exists ps, ids. cbn [entitiesRef set_randomUsed].
      split; [apply sublist_cons, Hs|]. split; [exact Hl|].
      split; [reflexivity|]. split.
      * intros H. exfalso. apply Qltb_false in Hr.
        specialize (H (randomUsed w)). lra.
      * exact Hnone.
Qed.

Lemma zip_newChest_chestOn ps : forall ids,
  length ids = length ps -> Forall2 chestOn ps (zip_with newChest ids ps).
Proof.
  induction ps as [|p ps IH]; intros [|id ids] Hl; try discriminate.
  - constructor.
  - cbn [zip_with]. constructor; [apply newChest_chestOn|].
    apply IH. cbn [length] in Hl. congruence.
Qed.

(** The session start.  The entities are chests and nothing else, at
    most one for each platform of the map that is neither lava nor
    wood, so at most 19; each is unopened, not dead, 32 by 32, stands
    on top of such a platform and is centred on it.  At most one per
    platform: the platforms that got a chest are a sub-list [ps] of
    those that are neither lava nor wood, and the entities are, in the
    same order, one chest for each platform of [ps], as the spawner
    builds it; every such platform gets one when every random number
    is above 0.2, and none does when no random number is.  The spawner
    draws at most two random numbers per platform.  The player starts
    at (0, -100) with health 100 of 100, no velocity, no cooldown and
    no jump used; nothing is held, visited, killed or pressed, and
    the game is on with the frame counter at 0. *)
Theorem session_starts_with_chests_on_solid_platforms (h : HeroType)
    (tape : nat -> Q) :
  let w := initWorld h tape in
  Forall (fun e => exists p,
            In p generateMap /\ plat_type p <> LAVA /\ plat_type p <> WOOD
            /\ e_type e = CHEST /\ e_isOpened e = Some false
            /\ e_isDead e = false
            /\ (e_width e == 32)%Q /\ (e_height e == 32)%Q
            /\ (e_y e + e_height e == plat_y p)%Q
            /\ (e_x e + e_width e / 2 == plat_x p + plat_width p / 2)%Q)
         (entitiesRef w)
  /\ (length (entitiesRef w) <= 19)%nat
  /\ (randomUsed w <= 64)%nat
  /\ playerRef w = newPlayer h
  /\ (e_x (playerRef w) == 0 /\ e_y (playerRef w) == -100
      /\ e_hp (playerRef w) == 100 /\ e_maxHp (playerRef w) == 100)%Q
  /\ stateRef w = initialStateRef
  /\ inventoryRef w = [] /\ potionRef w = 0 /\ killsRef w = 0
  /\ keysRef w = ∅ /\ visitedChunksRef w = ∅ /\ lootModal w = None
  /\ gameOverCalls w = [] /\ platformsRef w = generateMap
  /\ exists (ps : list Platform) (ids : list Q),
       sublist ps (List.filter isExtractionPlatform generateMap)
       /\ length ids = length ps
       /\ entitiesRef w = zip_with newChest ids ps
       /\ Forall2 chestOn ps (entitiesRef w)
       /\ ((forall n, (0.2 < tape n)%Q) ->
           ps = List.filter isExtractionPlatform generateMap)
       /\ ((forall n, (tape n <= 0.2)%Q) -> ps = []).
Proof.
  cbv zeta.
  destruct (initWorld_fields h tape) as (Hp & _ & Hs & Hc & Hpl & Hk).
  destruct (initWorld_refs h tape) as (Hi & Hpo & Hke & Hv & Hm & _).
  pose proof (spawnChests_placed generateMap
                (mkWorld h (newPlayer h) [] generateMap [] ∅ 0 ∅ 0 [] None
                         initialStateRef [] tape 0)) as H.
  cbv zeta in H. destruct H as (cs & E & F & L & U).
  pose proof (spawnChests_once generateMap
                (mkWorld h (newPlayer h) [] generateMap [] ∅ 0 ∅ 0 [] None
                         initialStateRef [] tape 0)) as H1.
  cbv zeta in H1. destruct H1 as (ps & ids & Hsub & Hlen & E1 & Hall & Hnone).
  assert (Hinit : initWorld h tape
                  = fold_left spawnChest generateMap
                      (mkWorld h (newPlayer h) [] generateMap [] ∅ 0 ∅ 0 []
                               None initialStateRef [] tape 0))
    by reflexivity.
  rewrite <- Hinit in E, U, E1.
  cbn [entitiesRef app randomUsed] in E, U, E1.
  cbn [randomTape] in Hall, Hnone.
  split; [rewrite E; exact F|].
  split; [rewrite E; exact L|]. split; [exact U|]. rewrite Hpl.
  split; [reflexivity|]. split; [cbn; repeat split; reflexivity|].
  repeat (split; [assumption|]).
  exists ps, ids. rewrite E1.
  split; [exact Hsub|]. split; [exact Hlen|]. split; [reflexivity|].
  split; [apply zip_newChest_chestOn, Hlen|]. split; assumption.
Qed.

(** ** The chests through a session *)

(** A chest later on: the same entity, but for the opened flag, which
    is never taken back. *)
Definition chestKept (e e' : Entity) : Prop :=
  e' = set_e_isOpened (e_isOpened e') e
  /\ (e_isOpened e = Some true -> e_isOpened e' = Some true).

(** Every chest of [l] is in [l'], at its index. *)
Definition chestsKept (l l' : list Entity) : Prop :=
  forall i e,
    l !! i = Some e -> e_type e = CHEST ->
    exists e', l' !! i = Some e' /\ chestKept e e'.

Lemma chestKept_refl e : chestKept e e.
Proof. split; [destruct e; reflexivity|auto]. Qed.

Lemma chestsKept_refl l : chestsKept l l.
Proof. intros i e Hi _. exists e. split; [exact Hi|apply chestKept_refl]. Qed.

Lemma chestsKept_eq l l' : l' = l -> chestsKept l l'.
Proof. intros ->. apply chestsKept_refl. Qed.

Lemma chestsKept_trans l1 l2 l3 :
  chestsKept l1 l2 -> chestsKept l2 l3 -> chestsKept l1 l3.
Proof.
  intros H1 H2 i e Hi Ht.
  destruct (H1 i e Hi Ht) as (e2 & Hi2 & E2 & O2).
  assert (Ht2 : e_type e2 = CHEST) by (rewrite E2; exact Ht).
  destruct (H2 i e2 Hi2 Ht2) as (e3 & Hi3 & E3 & O3).
  exists e3. split; [exact Hi3|]. split; [|auto].
  rewrite E3 at 1. rewrite E2. reflexivity.
Qed.

Lemma chestsKept_app l x : chestsKept l (l ++ x).
Proof.
  intros i e Hi _. exists e.
  split; [apply lookup_app_l_Some, Hi|apply chestKept_refl].
Qed.

Lemma chestsKept_insert l i e x :
  l !! i = Some e -> e_type e <> CHEST -> chestsKept l (<[i := x]> l).
Proof.
  intros Hi Ht j e0 Hj Ht0. exists e0. split; [|apply chestKept_refl].
  destruct (decide (i = j)) as [->|Hne]; [congruence|].
  rewrite list_lookup_insert_ne by exact Hne. exact Hj.
Qed.

Lemma chestsKept_opened l i :
  chestsKept l (alter (set_e_isOpened (Some true)) i l).
Proof.
  intros j e Hj Ht. destruct (decide (i = j)) as [->|Hne].
  - exists (set_e_isOpened (Some true) e).
    rewrite list_lookup_alter_eq, Hj. split; [reflexivity|].
    split; reflexivity.
  - exists e. rewrite list_lookup_alter_ne by exact Hne.
    split; [exact Hj|apply chestKept_refl].
Qed.

Lemma isHostile_not_chest e : isHostile e = true -> e_type e <> CHEST.
Proof. unfold isHostile. intros H Ht. rewrite Ht in H. discriminate H. Qed.

(** A damage callback keeps the chests: it writes a hostile entity or
    nothing. *)
Lemma chestsKept_struck l i e (struck : bool) e' :
  l !! i = Some e ->
  (struck = true -> isHostile e = true) ->
  chestsKept l (<[i := if struck then e' else e]> l).
Proof.
  intros Hi Hs. destruct struck.
  - apply (chestsKept_insert l i e); [exact Hi|].
    apply isHostile_not_chest, Hs. reflexivity.
  - rewrite list_insert_id by exact Hi. apply chestsKept_refl.
Qed.

Lemma chestsKept_forEachEntity body :
  (forall i w, chestsKept (entitiesRef w) (entitiesRef (body i w))) ->
  forall w, chestsKept (entitiesRef w) (entitiesRef (forEachEntity body w)).
Proof.
  intros Hb w.
  apply (forEachEntity_invariant
           (fun w' => chestsKept (entitiesRef w) (entitiesRef w')));
    [|apply chestsKept_refl].
  intros i w' H. eapply chestsKept_trans; [exact H|apply Hb].
Qed.

Lemma chestsKept_attackHit hb k i w :
  chestsKept (entitiesRef w) (entitiesRef (attackHit hb k i w)).
Proof.
  destruct (entitiesRef w !! i) as [e|] eqn:Hi.
  - destruct (attackHit_pointwise hb k i w e Hi) as [-> _].
    apply chestsKept_struck; [exact Hi|].
    intros H. apply andb_true_iff in H. destruct H as [H _].
    apply andb_true_iff in H. apply H.
  - unfold attackHit. rewrite Hi. apply chestsKept_refl.
Qed.

Lemma chestsKept_whirlwindHit i w :
  chestsKept (entitiesRef w) (entitiesRef (whirlwindHit i w)).
Proof.
  destruct (entitiesRef w !! i) as [e|] eqn:Hi.
  - destruct (whirlwindHit_pointwise i w e Hi) as (_ & -> & _).
    apply chestsKept_struck; [exact Hi|].
    intros H. apply andb_true_iff in H. destruct H as [H _].
    apply andb_true_iff in H. apply H.
  - unfold whirlwindHit. rewrite Hi. apply chestsKept_refl.
Qed.

Lemma chestsKept_meteorHit x i w :
  chestsKept (entitiesRef w) (entitiesRef (meteorHit x i w)).
Proof.
  destruct (entitiesRef w !! i) as [e|] eqn:Hi.
  - destruct (meteorHit_pointwise x i w e Hi) as (_ & -> & _).
    apply chestsKept_struck; [exact Hi|].
    intros H. apply andb_true_iff in H. destruct H as [H _].
    apply andb_true_iff in H. apply H.
  - unfold meteorHit. rewrite Hi. apply chestsKept_refl.
Qed.

Lemma chestsKept_combat w :
  chestsKept (entitiesRef w) (entitiesRef (combat w)).
Proof.
  assert (Hb : forall w0,
             chestsKept (entitiesRef w0) (entitiesRef (basicAttack w0))).
  { intros w0. unfold basicAttack.
    destruct (key w0 "KeyJ" && (e_attackCooldown (playerRef w0) <=? 0));
      [|apply chestsKept_refl].
    cbv zeta.
    match goal with
    | |- chestsKept _ (entitiesRef (forEachEntity ?b ?w1)) =>
        apply (chestsKept_forEachEntity b
                 (fun i w' => chestsKept_attackHit _ _ i w') w1)
    end. }
  assert (Hs : forall w0,
             chestsKept (entitiesRef w0) (entitiesRef (skill w0))).
  { intros w0. unfold skill.
    destruct (key w0 "KeyK"
              && (default 0 (e_skillCooldown (playerRef w0)) <=? 0));
      [|apply chestsKept_refl].
    cbv zeta. destruct (heroType _).
    - match goal with
      | |- chestsKept _ (entitiesRef (forEachEntity ?b ?w1)) =>
          apply (chestsKept_forEachEntity b chestsKept_whirlwindHit w1)
      end.
    - match goal with
      | |- chestsKept _ (entitiesRef (forEachEntity ?b ?w1)) =>
          apply (chestsKept_forEachEntity b
                   (fun i w' => chestsKept_meteorHit _ i w') w1)
      end. }
  unfold combat. destruct (isLootMenuOpen _); [apply chestsKept_refl|].
  eapply chestsKept_trans; [apply Hb|apply Hs].
Qed.

Lemma chestsKept_entityStep i w :
  chestsKept (entitiesRef w) (entitiesRef (entityStep i w)).
Proof.
  destruct (entitiesRef w !! i) as [e|] eqn:Hi.
  - destruct (e_isDead e) eqn:Hd.
    { rewrite (entityStep_skipped i w e Hi (or_introl Hd)).
      apply chestsKept_refl. }
    destruct (decide (e_type e = CHEST)) as [Ht|Ht].
    { rewrite (entityStep_skipped i w e Hi (or_intror Ht)).
      apply chestsKept_refl. }
    rewrite (entityStep_live i w e Hi Hd Ht).
    apply (chestsKept_insert _ i e); assumption.
  - unfold entityStep. rewrite Hi. apply chestsKept_refl.
Qed.

Lemma chestsKept_readingLogic w :
  chestsKept (entitiesRef w) (entitiesRef (readingLogic w)).
Proof.
  unfold readingLogic.
  destruct (interactionTarget (stateRef w)) as [i|]; [|apply chestsKept_refl].
  destruct (isReading (stateRef w)); [|apply chestsKept_refl].
  destruct (90 <=? _); [|apply chestsKept_refl].
  rewrite (proj1 (proj2 (openChest_fields _ _))).
  rewrite entitiesRef_withStateRef. apply chestsKept_opened.
Qed.

Lemma chestsKept_afterReading w :
  chestsKept (entitiesRef w) (entitiesRef (frameEnd (afterReading w))).
Proof.
  assert (E : unchanged entitiesRef (afterReading w)
                (frameEnd (afterReading w)))
    by unchanged_by (writes_frameEnd (unchanged entitiesRef)).
  rewrite E. unfold afterReading.
  destruct (gameEnd_fields (entityLoop (playerCooldowns (combat w))))
    as (_ & _ & _ & _ & -> & _).
  eapply chestsKept_trans; [apply chestsKept_combat|].
  eapply chestsKept_trans;
    [|apply (chestsKept_forEachEntity entityStep chestsKept_entityStep)].
  apply chestsKept_refl.
Qed.

Lemma chestsKept_loop w :
  chestsKept (entitiesRef w) (entitiesRef (loop w).1).
Proof.
  destruct (gameOver (stateRef w)) eqn:Hg.
  { unfold loop. rewrite Hg. apply chestsKept_refl. }
  rewrite (loop_frameEnd w Hg), simulate_atReading.
  eapply chestsKept_trans; [|apply chestsKept_afterReading].
  eapply chestsKept_trans; [|apply chestsKept_readingLogic].
  rewrite (proj1 (atReading_fields (prelude w))).
  destruct (prelude_entities w) as (m & r & _ & _ & ->).
  apply chestsKept_app.
Qed.

Lemma chestsKept_step ev s :
  chestsKept (entitiesRef s.1) (entitiesRef (step ev s).1).
Proof.
  destruct ev as [|c|c]; cbn [step fst].
  - destruct s.2; [apply chestsKept_loop|apply chestsKept_refl].
  - apply chestsKept_eq.
    change (entitiesRef (handleKeyDown c (handleModalKeys c s.1)))
      with (entitiesRef (handleModalKeys c s.1)).
    unchanged_by (writes_handleModalKeys (unchanged entitiesRef)).
  - apply chestsKept_refl.
Qed.

Lemma chestsKept_run evs : forall s,
  chestsKept (entitiesRef s.1) (entitiesRef (run evs s).1).
Proof.
  induction evs as [|ev evs IH]; intros s; [apply chestsKept_refl|].
  cbn [run fold_left].
  eapply chestsKept_trans; [apply chestsKept_step|apply (IH (step ev s))].
Qed.

(** The chests.  A frame leaves every chest at its index in the entity
    list and changes nothing of it but the opened flag, which it only
    ever sets: no attack, skill, lava or AI moves, damages or kills a
    chest; the key listeners leave the whole list alone.  So every
    entity of the session start, each of them a chest, is still there
    after any events, the same but for having been opened. *)
Theorem chests_are_only_ever_opened (w : World) (c : string)
    (evs : list Event) (h : HeroType) (tape : nat -> Q) :
  (forall i e,
     entitiesRef w !! i = Some e -> e_type e = CHEST ->
     exists e',
       entitiesRef (loop w).1 !! i = Some e'
       /\ e' = set_e_isOpened (e_isOpened e') e
       /\ (e_isOpened e = Some true -> e_isOpened e' = Some true))
  /\ entitiesRef (handleKeyDown c (handleModalKeys c w)) = entitiesRef w
  /\ entitiesRef (handleKeyUp c w) = entitiesRef w
  /\ (forall i e,
        entitiesRef (initWorld h tape) !! i = Some e ->
        exists e',
          entitiesRef (run evs (startSession h tape)).1 !! i = Some e'
          /\ e' = set_e_isOpened (e_isOpened e') e
          /\ e_x e' = e_x e /\ e_y e' = e_y e /\ e_hp e' = e_hp e
          /\ e_isDead e' = false /\ e_type e' = CHEST).
Proof.
  split; [exact (chestsKept_loop w)|]. split.
  { change (entitiesRef (handleKeyDown c (handleModalKeys c w)))
      with (entitiesRef (handleModalKeys c w)).
    unchanged_by (writes_handleModalKeys (unchanged entitiesRef)). }
  split; [reflexivity|].
  intros i e Hi.
  pose proof (spawnChests_placed generateMap
                (mkWorld h (newPlayer h) [] generateMap [] ∅ 0 ∅ 0 [] None
                         initialStateRef [] tape 0)) as H.
  cbv zeta in H. destruct H as (cs & E & F & _).
  assert (Hinit : initWorld h tape
                  = fold_left spawnChest generateMap
                      (mkWorld h (newPlayer h) [] generateMap [] ∅ 0 ∅ 0 []
                               None initialStateRef [] tape 0))
    by reflexivity.
  rewrite <- Hinit in E. cbn [entitiesRef app] in E.
  assert (Hc : exists p, chestOn p e).
  { rewrite E in Hi.
    destruct (Forall_lookup_1 _ _ _ _ F Hi) as (p & _ & _ & _ & Hp).
    exists p. exact Hp. }
  destruct Hc as (p & Ht & _ & Hd & _).
  destruct (chestsKept_run evs (startSession h tape) i e Hi Ht)
    as (e' & Hi' & He' & _).
  exists e'. split; [exact Hi'|]. split; [exact He'|].
  rewrite He'. cbn [e_x e_y e_hp e_isDead e_type set_e_isOpened].
  repeat split; assumption.
Qed.
